(** * JumboMem: page replacement, page table and interception layer

    A shallow embedding of the parts of JumboMem (a user-level
    distributed-memory pager, by Scott Pakin, LANL) that decide the
    behaviour of

      - the four page-replacement policies
        (pagereplace_fifo.c, pagereplace_random.c, pagereplace_nre.c,
        pagereplace_nru.c),
      - the shared page table (pagetable.c),
      - the SIGSEGV handler's dispatch (faulthandler.c),
      - the intercepted signal(), sigaction(), mmap() and read()/write()
        (funcoverrides.c, allocate.c),
      - the minimum-page-size computation (sysinfo.c).

    Conventions.  C integers are modelled as [Z]; a [w]-bit wrap-around is
    written out with [wrap64]/[wrap32] wherever the C expression can
    overflow.  Pointers are addresses in [Z], [NULL] is [0].  C arrays are
    lists read and written through [array_get]/[array_set], which make an
    access outside the allocation explicit ([Undefined]).  Calls that end
    in [jm_abort] yield [Aborts]; loops driven by [random()] or by the
    result of a system call run on fuel and yield [Unfinished] when the
    fuel is used up while the loop is still going. *)

From Stdlib Require Import ZArith Lia List Bool.
From stdpp Require Import base list gmap strings.

Open Scope Z_scope.

(** ** Outcomes of C calls *)

Inductive outcome (A : Type) : Type :=
| Returns (a : A)           (* the call returns normally *)
| Aborts (msg : string)     (* the call ends in jm_abort(): _exit(1) *)
| Undefined (what : string) (* C undefined behaviour *)
| Unfinished.               (* the fuel ran out inside a loop *)

Arguments Returns {A} a.
Arguments Aborts {A} msg.
Arguments Undefined {A} what.
Arguments Unfinished {A}.

#[global] Instance outcome_ret : MRet outcome := fun A a => Returns a.

#[global] Instance outcome_bind : MBind outcome := fun A B k m =>
  match m with
  | Returns a => k a
  | Aborts msg => Aborts msg
  | Undefined what => Undefined what
  | Unfinished => Unfinished
  end.

Definition returns {A : Type} (m : outcome A) : Prop := exists a, m = Returns a.

Definition aborts {A : Type} (m : outcome A) : Prop := exists msg, m = Aborts msg.

(** ** Machine arithmetic *)

Definition wrap64 (x : Z) : Z := x mod 2 ^ 64.
Definition wrap32 (x : Z) : Z := x mod 2 ^ 32.

Definition NULL : Z := 0.
Definition PROT_READ : Z := 1.
Definition PROT_WRITE : Z := 2.
Definition SIGSEGV : Z := 11.
(* MAP_FAILED is (void * ) -1 *)
Definition MAP_FAILED : Z := 2 ^ 64 - 1.
Definition MAP_FIXED : Z := 16.

(** ** C arrays *)

Definition array_get {A : Type} (a : list A) (i : Z) : outcome A :=
  if i <? 0 then Undefined "array index out of bounds"
  else match a !! Z.to_nat i with
       | Some x => Returns x
       | None => Undefined "array index out of bounds"
       end.

Definition array_set {A : Type} (a : list A) (i : Z) (x : A) : outcome (list A) :=
  if (0 <=? i) && (i <? Z.of_nat (length a)) then Returns (<[Z.to_nat i := x]> a)
  else Undefined "array index out of bounds".

(** ** jumbomem.h *)

Inductive JUMBOMEM_PREFETCH := PREFETCH_NONE | PREFETCH_NEXT | PREFETCH_DELTA.

(* The fields of JUMBOMEM_GLOBALS that the modelled functions read. *)
Record JUMBOMEM_GLOBALS := {
  pagesize : Z;        (* JumboMem logical page size *)
  ospagesize : Z;      (* operating-system page size *)
  memregion : Z;       (* base address of the managed region *)
  extent : Z;          (* number of bytes in the managed region *)
  local_pages : Z;     (* number of pages that can be cached at the master *)
  prefetch_type : JUMBOMEM_PREFETCH;
  async_evict : Z;     (* 0=evict pages synchronously; 1=asynchronously *)
  extra_memcpy : Z;    (* 0=send/receive directly; 1=copy through buffers *)
  is_internal : Z      (* >0: definitely within JumboMem *)
}.

Definition set_prefetch_type (g : JUMBOMEM_GLOBALS) (p : JUMBOMEM_PREFETCH) :=
  {| pagesize := pagesize g; ospagesize := ospagesize g; memregion := memregion g;
     extent := extent g; local_pages := local_pages g; prefetch_type := p;
     async_evict := async_evict g; extra_memcpy := extra_memcpy g;
     is_internal := is_internal g |}.

Definition set_local_pages (g : JUMBOMEM_GLOBALS) (n : Z) :=
  {| pagesize := pagesize g; ospagesize := ospagesize g; memregion := memregion g;
     extent := extent g; local_pages := n; prefetch_type := prefetch_type g;
     async_evict := async_evict g; extra_memcpy := extra_memcpy g;
     is_internal := is_internal g |}.

(* #define GET_PAGE_NUMBER(ADDR)
     ((uintptr_t)((ADDR)-jm_globals.memregion)/jm_globals.pagesize)
   jm_initialize_all leaves pagesize non-zero; every statement below that
   divides by it carries [0 < pagesize g]. *)
Definition GET_PAGE_NUMBER (g : JUMBOMEM_GLOBALS) (addr : Z) : Z :=
  wrap64 (addr - memregion g) / pagesize g.

(* Address of the page whose (32-bit) number is stored in a policy's
   table: jm_globals.memregion + pagenum*jm_globals.pagesize. *)
Definition page_address (g : JUMBOMEM_GLOBALS) (pagenum : Z) : Z :=
  memregion g + pagenum * pagesize g.

(* What jm_find_replacement_page hands back through its three out
   parameters.  [clean = None] means that *clean was not assigned. *)
Record replacement := {
  newprot : Z;
  evictable_page : Z;
  clean : option Z
}.

(* ((random() + BIGPRIME1) * BIGPRIME2) % n, with n an unsigned long: the
   product is converted to a 64-bit unsigned value before the remainder. *)
Definition BIGPRIME1 : Z := 34359738641.
Definition BIGPRIME2 : Z := 1152921504606847229.
Definition HASH_TABLE_SIZE : Z := 1000003.

Definition scale_random (r n : Z) : Z := wrap64 ((r + BIGPRIME1) * BIGPRIME2) mod n.

(* miscfuncs.c: jm_getenv_nonnegative_int, on the long that strtol()
   makes of the variable's text, a numeral throughout ([None]: the
   variable is not set). *)
Definition jm_getenv_nonnegative_int (value : option Z) : outcome Z :=
  match value with
  | Some v => if v <? 0 then Aborts "must be a nonnegative integer" else Returns v
  | None => Returns (-1)
  end.

(** ** pagereplace_fifo.c *)

Module Fifo.

Record state := {
  used_pages : list Z;   (* uint32_t *used_pages, total_pages cells *)
  num_used : Z;
  total_pages : Z;
  next_evict : Z
}.

(* The cells of the freshly allocated array are indeterminate; no cell is
   read before it has been written. *)
Definition jm_initialize_pagereplace (g : JUMBOMEM_GLOBALS)
  : outcome (state * JUMBOMEM_GLOBALS) :=
  let total_pages := local_pages g in
  if total_pages <? 1 then
    Aborts "A minimum of one local page is needed for FIFO page-replacement to function properly"
  else
    Returns ({| used_pages := replicate (Z.to_nat total_pages) 0;
                num_used := 0; total_pages := total_pages; next_evict := 0 |},
             set_prefetch_type g PREFETCH_NONE).

Definition jm_page_is_resident (rounded_addr : Z) (protflags : bool) : Z :=
  if protflags then 0 else -1.

Definition jm_find_replacement_page (g : JUMBOMEM_GLOBALS) (st : state) (faulted_page : Z)
  : outcome (replacement * state) :=
  let newprot := Z.lor PROT_READ PROT_WRITE in
  let clean := Some 0 in
  if num_used st <? total_pages st then
    used ← array_set (used_pages st) (num_used st) (wrap32 (GET_PAGE_NUMBER g faulted_page));
    Returns ({| newprot := newprot; evictable_page := NULL; clean := clean |},
             {| used_pages := used; num_used := num_used st + 1;
                total_pages := total_pages st; next_evict := next_evict st |})
  else
    victim ← array_get (used_pages st) (next_evict st);
    used ← array_set (used_pages st) (next_evict st) (wrap32 (GET_PAGE_NUMBER g faulted_page));
    if total_pages st =? 0 then Undefined "division by zero"
    else
      Returns ({| newprot := newprot; evictable_page := page_address g victim; clean := clean |},
               {| used_pages := used; num_used := num_used st;
                  total_pages := total_pages st;
                  next_evict := (next_evict st + 1) mod total_pages st |}).

(* A run of faults: the policy is asked once per fault, in order. *)
Fixpoint run (g : JUMBOMEM_GLOBALS) (st : state) (faults : list Z)
  : outcome (list replacement * state) :=
  match faults with
  | [] => Returns ([], st)
  | p :: rest =>
      '(r, st1) ← jm_find_replacement_page g st p;
      '(rs, st2) ← run g st1 rest;
      Returns (r :: rs, st2)
  end.

(* jm_initialize_pagereplace followed by a run of faults; also yields the
   globals as the initialization leaves them. *)
Definition boot (g : JUMBOMEM_GLOBALS) (faults : list Z)
  : outcome (JUMBOMEM_GLOBALS * list replacement * state) :=
  '(st, g1) ← jm_initialize_pagereplace g;
  '(rs, st1) ← run g1 st faults;
  Returns (g1, rs, st1).

(* What the table holds after the faults [h]: the page of the i-th fault
   sits in cell i mod N, for the last N faults. *)
Definition inv (g : JUMBOMEM_GLOBALS) (N : Z) (h : list Z) (st : state) : Prop :=
  total_pages st = N /\ Z.of_nat (length (used_pages st)) = N /\
  num_used st = Z.min (Z.of_nat (length h)) N /\
  next_evict st = (if Z.of_nat (length h) <? N then 0 else Z.of_nat (length h) mod N) /\
  forall (i : nat) p, Z.of_nat (length h) - N <= Z.of_nat i -> h !! i = Some p ->
    used_pages st !! Z.to_nat (Z.of_nat i mod N) = Some (wrap32 (GET_PAGE_NUMBER g p)).

(* The reply to the i-th fault of the run [h]. *)
Definition expected (g : JUMBOMEM_GLOBALS) (N : Z) (h : list Z) (i : nat) (r : replacement)
  : Prop :=
  newprot r = 3 /\ clean r = Some 0 /\
  (Z.of_nat i < N -> evictable_page r = NULL) /\
  (N <= Z.of_nat i -> exists q, h !! (i - Z.to_nat N)%nat = Some q /\
      evictable_page r = page_address g (wrap32 (GET_PAGE_NUMBER g q))).

End Fifo.

(** ** pagereplace_random.c *)

Module Random.

(* random() is a deterministic generator: [rng k] is the value of its
   k-th call after srandom(); the state remembers how many calls have
   been made. *)
Record state := {
  prevpage : Z;          (* address (rounded) of the previous fault *)
  used_pages : list Z;
  num_used : Z;
  total_pages : Z;
  draws : nat
}.

Definition jm_initialize_pagereplace (g : JUMBOMEM_GLOBALS)
  : outcome (state * JUMBOMEM_GLOBALS) :=
  let total_pages := local_pages g in
  if total_pages <? 2 then
    Aborts "A minimum of two local pages is needed for random page-replacement to function properly"
  else
    Returns ({| prevpage := NULL; used_pages := replicate (Z.to_nat total_pages) 0;
                num_used := 0; total_pages := total_pages; draws := 0 |},
             set_prefetch_type g PREFETCH_NONE).

Definition jm_page_is_resident (rounded_addr : Z) (protflags : bool) : Z :=
  if protflags then 0 else -1.

(* The do-while loop that draws a slot until the page in it differs from
   prevpage; yields randnum, the victim's address and the number of
   random() calls made so far. *)
Fixpoint choose_victim (fuel : nat) (g : JUMBOMEM_GLOBALS) (rng : nat -> Z)
    (st : state) (pos : nat) : outcome (Z * Z * nat) :=
  match fuel with
  | O => Unfinished
  | S fuel' =>
      if num_used st =? 0 then Undefined "division by zero"
      else
        let randnum := scale_random (rng pos) (num_used st) in
        pn ← array_get (used_pages st) randnum;
        let evictable := page_address g pn in
        if evictable =? prevpage st then choose_victim fuel' g rng st (S pos)
        else Returns (randnum, evictable, S pos)
  end.

Definition jm_find_replacement_page (fuel : nat) (g : JUMBOMEM_GLOBALS) (rng : nat -> Z)
    (st : state) (faulted_page : Z) : outcome (replacement * state) :=
  let newprot := Z.lor PROT_READ PROT_WRITE in
  let clean := Some 0 in
  if num_used st <? total_pages st then
    used ← array_set (used_pages st) (num_used st) (wrap32 (GET_PAGE_NUMBER g faulted_page));
    Returns ({| newprot := newprot; evictable_page := NULL; clean := clean |},
             {| prevpage := prevpage st; used_pages := used; num_used := num_used st + 1;
                total_pages := total_pages st; draws := draws st |})
  else
    '(randnum, evictable, pos) ← choose_victim fuel g rng st (draws st);
    used ← array_set (used_pages st) randnum (wrap32 (GET_PAGE_NUMBER g faulted_page));
    Returns ({| newprot := newprot; evictable_page := evictable; clean := clean |},
             {| prevpage := faulted_page; used_pages := used; num_used := num_used st;
                total_pages := total_pages st; draws := pos |}).

Fixpoint run (fuel : nat) (g : JUMBOMEM_GLOBALS) (rng : nat -> Z) (st : state)
    (faults : list Z) : outcome (list replacement * state) :=
  match faults with
  | [] => Returns ([], st)
  | p :: rest =>
      '(r, st1) ← jm_find_replacement_page fuel g rng st p;
      '(rs, st2) ← run fuel g rng st1 rest;
      Returns (r :: rs, st2)
  end.

Definition boot (fuel : nat) (g : JUMBOMEM_GLOBALS) (rng : nat -> Z) (faults : list Z)
  : outcome (JUMBOMEM_GLOBALS * list replacement * state) :=
  '(st, g1) ← jm_initialize_pagereplace g;
  '(rs, st1) ← run fuel g1 rng st faults;
  Returns (g1, rs, st1).

(* What holds of every state of the policy that a run of calls reaches. *)
Definition inv (st : state) : Prop :=
  2 <= total_pages st /\
  Z.of_nat (length (used_pages st)) = total_pages st /\
  0 <= num_used st <= total_pages st /\
  Forall (fun v => 0 <= v) (used_pages st).

End Random.

(** ** pagetable.c *)

Module PageTable.

(* A page-table entry is the 32-bit page number followed by payload_bytes
   bytes of payload. *)
Record PAGE_TABLE_ENTRY := { pagenum : Z; payload : list Z }.

(* A bucket is identified with the entry its [pte] field points to (an
   index into used_pages); a hash chain is the list of its buckets, head
   first; an absent key is an empty chain. *)
Record PAGE_TABLE := {
  used_pages : list PAGE_TABLE_ENTRY;
  page_hash : gmap Z (list Z);
  dead_bucket : option Z;
  payload_bytes : Z;
  num_used : Z;
  table_size : Z
}.

Definition hash_page_number (pagenum : Z) : Z :=
  wrap64 ((pagenum + BIGPRIME2) * BIGPRIME1) mod HASH_TABLE_SIZE.

Definition chain (pt : PAGE_TABLE) (chain_num : Z) : list Z :=
  default [] (page_hash pt !! chain_num).

Definition set_chain (pt : PAGE_TABLE) (chain_num : Z) (c : list Z) (dead : option Z)
  : PAGE_TABLE :=
  {| used_pages := used_pages pt; page_hash := <[chain_num := c]> (page_hash pt);
     dead_bucket := dead; payload_bytes := payload_bytes pt;
     num_used := num_used pt; table_size := table_size pt |}.

Definition set_num_used (pt : PAGE_TABLE) (n : Z) : PAGE_TABLE :=
  {| used_pages := used_pages pt; page_hash := page_hash pt;
     dead_bucket := dead_bucket pt; payload_bytes := payload_bytes pt;
     num_used := n; table_size := table_size pt |}.

Definition set_used_pages (pt : PAGE_TABLE) (u : list PAGE_TABLE_ENTRY) : PAGE_TABLE :=
  {| used_pages := u; page_hash := page_hash pt;
     dead_bucket := dead_bucket pt; payload_bytes := payload_bytes pt;
     num_used := num_used pt; table_size := table_size pt |}.

(* bucket->pte->pagenum *)
Definition bucket_pagenum (pt : PAGE_TABLE) (bucket : Z) : outcome Z :=
  pte ← array_get (used_pages pt) bucket; Returns (pagenum pte).

(* for (bucket=...; bucket; bucket=bucket->next)
     if (bucket->pte->pagenum == pagenum) ... *)
Fixpoint search_chain (pt : PAGE_TABLE) (pagenum : Z) (c : list Z) : outcome (option Z) :=
  match c with
  | [] => Returns None
  | bucket :: rest =>
      pn ← bucket_pagenum pt bucket;
      if pn =? pagenum then Returns (Some bucket) else search_chain pt pagenum rest
  end.

Definition find_page_by_number (pt : PAGE_TABLE) (pagenum : Z) : outcome (option Z) :=
  search_chain pt pagenum (chain pt (hash_page_number pagenum)).

(* The search of delete_page_by_number behind the first bucket: unlink the
   first bucket of [c] that holds [pagenum]; [None] when there is none. *)
Fixpoint unlink (pt : PAGE_TABLE) (pagenum : Z) (c : list Z) : outcome (option (Z * list Z)) :=
  match c with
  | [] => Returns None
  | bucket :: rest =>
      pn ← bucket_pagenum pt bucket;
      if pn =? pagenum then Returns (Some (bucket, rest))
      else
        r ← unlink pt pagenum rest;
        match r with
        | Some (b, rest') => Returns (Some (b, bucket :: rest'))
        | None => Returns None
        end
  end.

Definition delete_page_by_number (pt : PAGE_TABLE) (pagenum : Z) : outcome PAGE_TABLE :=
  let chain_num := hash_page_number pagenum in
  match chain pt chain_num with
  | [] => Aborts "Internal error: Attempted to delete nonexistent page (empty chain)"
  | first :: rest =>
      match dead_bucket pt with
      | Some _ => Aborts "Internal error: Two page-table deletions with no intervening insertion"
      | None =>
          pn ← bucket_pagenum pt first;
          if pn =? pagenum then Returns (set_chain pt chain_num rest (Some first))
          else
            r ← unlink pt pagenum rest;
            match r with
            | Some (b, rest') => Returns (set_chain pt chain_num (first :: rest') (Some b))
            | None => Aborts "Internal error: Attempted to delete nonexistent page"
            end
      end
  end.

Definition insert_pte (pt : PAGE_TABLE) (pte : Z) : outcome PAGE_TABLE :=
  pn ← bucket_pagenum pt pte;
  let chain_num := hash_page_number pn in
  Returns (set_chain pt chain_num (pte :: chain pt chain_num) None).

(* jm_create_page_table: sizeof(struct page_bucket * ) = 8,
   sizeof(struct page_bucket) = 16, sizeof(PAGE_TABLE_ENTRY * ) = 8 and
   sizeof(uint32_t) = 4 on the LP64 targets of the library; the page count
   is computed in a (signed) long.  [explicit_pages] is
   getenv("JM_LOCAL_PAGES") != NULL. *)
Definition to_long (x : Z) : Z :=
  let u := wrap64 x in if u <? 2 ^ 63 then u else u - 2 ^ 64.

Definition jm_create_page_table (g : JUMBOMEM_GLOBALS) (explicit_pages : bool)
    (valuebytes : Z) : outcome (PAGE_TABLE * JUMBOMEM_GLOBALS) :=
  let pte_bytes := 4 + valuebytes in
  let new_total_pages :=
    if explicit_pages then to_long (local_pages g)
    else Z.quot (to_long (to_long (local_pages g * pagesize g) - HASH_TABLE_SIZE * 8))
                (to_long (pagesize g + 16 + 8 + pte_bytes)) in
  if new_total_pages <? 1 then
    Aborts "Too little memory is available to cache locally even one remote page"
  else
    Returns ({| used_pages := replicate (Z.to_nat new_total_pages)
                                {| pagenum := 0; payload := [] |};
                page_hash := ∅; dead_bucket := None; payload_bytes := valuebytes;
                num_used := 0; table_size := new_total_pages |},
             set_local_pages g new_total_pages).

Definition jm_page_table_insert (g : JUMBOMEM_GLOBALS) (pt : PAGE_TABLE) (address : Z)
    (extradata : option (list Z)) : outcome PAGE_TABLE :=
  if num_used pt =? table_size pt then Aborts "A page table overflowed"
  else
    let pte := match dead_bucket pt with
               | Some bucket => bucket
               | None => num_used pt
               end in
    old ← array_get (used_pages pt) pte;
    let data := match extradata with
                | Some d => take (Z.to_nat (payload_bytes pt)) d
                | None => payload old
                end in
    used ← array_set (used_pages pt) pte
             {| pagenum := wrap32 (GET_PAGE_NUMBER g address); payload := data |};
    pt1 ← insert_pte (set_used_pages pt used) pte;
    Returns (set_num_used pt1 (wrap64 (num_used pt1 + 1))).

Definition jm_page_table_delete (g : JUMBOMEM_GLOBALS) (pt : PAGE_TABLE) (address : Z)
  : outcome PAGE_TABLE :=
  pt1 ← delete_page_by_number pt (wrap32 (GET_PAGE_NUMBER g address));
  Returns (set_num_used pt1 (wrap64 (num_used pt1 - 1))).

(* Returns the payload of the page, or None (NULL) if it is not resident. *)
Definition jm_page_table_find (g : JUMBOMEM_GLOBALS) (pt : PAGE_TABLE) (address : Z)
  : outcome (option (list Z)) :=
  r ← find_page_by_number pt (wrap32 (GET_PAGE_NUMBER g address));
  match r with
  | Some pte => e ← array_get (used_pages pt) pte; Returns (Some (payload e))
  | None => Returns None
  end.

Definition jm_page_table_offset (pt : PAGE_TABLE) (index : Z) : outcome PAGE_TABLE_ENTRY :=
  let index := wrap32 index in
  if num_used pt <=? index then Aborts "Page-table offset is out-of-bounds"
  else array_get (used_pages pt) index.

(* The operations a client may issue, for statements about sequences. *)
Inductive operation := Insert (address : Z) | Delete (address : Z).

Definition apply_operation (g : JUMBOMEM_GLOBALS) (pt : PAGE_TABLE) (op : operation)
  : outcome PAGE_TABLE :=
  match op with
  | Insert a => jm_page_table_insert g pt a None
  | Delete a => jm_page_table_delete g pt a
  end.

Fixpoint apply_operations (g : JUMBOMEM_GLOBALS) (pt : PAGE_TABLE) (ops : list operation)
  : outcome PAGE_TABLE :=
  match ops with
  | [] => Returns pt
  | op :: rest => pt1 ← apply_operation g pt op; apply_operations g pt1 rest
  end.

Definition is_insert (op : operation) : bool :=
  match op with Insert _ => true | Delete _ => false end.

(* delete, insert, delete, insert, ... *)
Fixpoint alternates (expect_delete : bool) (ops : list operation) : bool :=
  match ops with
  | [] => true
  | op :: rest => eqb (is_insert op) (negb expect_delete) && alternates (negb expect_delete) rest
  end.

(* The chains index exactly the entries that are live. *)
Definition chains_ok (pt : PAGE_TABLE) (live : Z -> Prop) : Prop :=
  (forall c b, b ∈ chain pt c ->
     live b /\ 0 <= b /\
     exists e, used_pages pt !! Z.to_nat b = Some e /\ hash_page_number (pagenum e) = c) /\
  (forall b e, live b -> 0 <= b -> used_pages pt !! Z.to_nat b = Some e ->
     b ∈ chain pt (hash_page_number (pagenum e))) /\
  (forall c, NoDup (chain pt c)).

(* The stored page numbers fit 32 bits and address bytes below 2^64. *)
Definition entries_ok (g : JUMBOMEM_GLOBALS) (pt : PAGE_TABLE) : Prop :=
  forall i e, used_pages pt !! i = Some e ->
    0 <= pagenum e < 2 ^ 32 /\ pagenum e * pagesize g < 2 ^ 64.

End PageTable.

(** ** pagereplace_nre.c *)

Module Nre.

Definition DEFAULT_EVICT_COUNT : Z := 32.
Definition DEFAULT_RETRY_COUNT : Z := 5.

Record state := {
  page_table : PageTable.PAGE_TABLE;
  num_used : Z;
  total_pages : Z;
  evicted_pages : list Z;   (* uint32_t queue of recently evicted slots *)
  evict_head : Z;
  evict_tail : Z;
  evict_len : Z;
  max_retries : Z;
  draws : nat               (* number of random() calls made so far *)
}.

(* [nre_entries] and [nre_retries] are the integers that JM_NRE_ENTRIES
   and JM_NRE_RETRIES spell ([None]: not set); [junk k] is the
   indeterminate content of the k-th cell of the freshly allocated
   queue. *)
Definition jm_initialize_pagereplace (g : JUMBOMEM_GLOBALS) (explicit_pages : bool)
    (nre_entries nre_retries : option Z) (junk : nat -> Z)
  : outcome (state * JUMBOMEM_GLOBALS) :=
  '(pt, g1) ← PageTable.jm_create_page_table g explicit_pages 0;
  let total_pages := local_pages g1 in
  if total_pages <? 2 then
    Aborts "A minimum of two local pages is needed for NRE page replacement to function properly"
  else
    let g2 := set_prefetch_type g1 PREFETCH_NONE in
    entries ← jm_getenv_nonnegative_int nre_entries;
    let evict_len := if entries =? -1 then DEFAULT_EVICT_COUNT else entries in
    retries ← jm_getenv_nonnegative_int nre_retries;
    let max_retries := if retries =? -1 then DEFAULT_RETRY_COUNT else retries in
    let fresh := map (fun k => wrap32 (junk k)) (seq 0 (Z.to_nat evict_len)) in
    evicted ← array_set fresh 0 (wrap32 (-1));
    Returns ({| page_table := pt; num_used := 0; total_pages := total_pages;
                evicted_pages := evicted; evict_head := 0; evict_tail := 0;
                evict_len := evict_len; max_retries := max_retries; draws := 0 |},
             g2).

Definition jm_page_is_resident (g : JUMBOMEM_GLOBALS) (st : state) (rounded_addr : Z)
  : outcome Z :=
  r ← PageTable.jm_page_table_find g (page_table st) rounded_addr;
  match r with
  | None => Returns 0
  | Some _ => Returns 1
  end.

(* The linear search of the queue of recent evictions, from [i] up to
   evict_tail; yields the value of i when the for loop is left and whether
   it was left through the break. *)
Fixpoint scan_queue (fuel : nat) (st : state) (randnum i : Z) : outcome (Z * bool) :=
  match fuel with
  | O => Unfinished
  | S fuel' =>
      if i =? evict_tail st then Returns (i, false)
      else
        e ← array_get (evicted_pages st) i;
        if e =? randnum then Returns (i, true)
        else if evict_len st =? 0 then Undefined "division by zero"
        else scan_queue fuel' st randnum ((i + 1) mod evict_len st)
  end.

(* while (retries <= max_retries) { ... }; [cur] is the value of randnum
   and of the victim's address left by the previous iteration. *)
Fixpoint choose_victim (fuel : nat) (g : JUMBOMEM_GLOBALS) (rng : nat -> Z) (st : state)
    (pos : nat) (retries : Z) (cur : option (Z * Z)) : outcome (Z * Z * nat) :=
  match fuel with
  | O => Unfinished
  | S fuel' =>
      if retries <=? max_retries st then
        if num_used st =? 0 then Undefined "division by zero"
        else
          let randnum := scale_random (rng pos) (num_used st) in
          pte ← PageTable.jm_page_table_offset (page_table st) randnum;
          let evictable := page_address g (PageTable.pagenum pte) in
          '(i, found) ← scan_queue fuel st randnum (evict_head st);
          let retries := if (found : bool) then retries + 1 else retries in
          e ← array_get (evicted_pages st) i;
          if negb (e =? randnum) then Returns (randnum, evictable, S pos)
          else choose_victim fuel' g rng st (S pos) retries (Some (randnum, evictable))
      else
        match cur with
        | Some (randnum, evictable) => Returns (randnum, evictable, pos)
        | None => Undefined "randnum is read before it is assigned"
        end
  end.

Definition jm_find_replacement_page (fuel : nat) (g : JUMBOMEM_GLOBALS) (rng : nat -> Z)
    (st : state) (faulted_page : Z) : outcome (replacement * state) :=
  let newprot := Z.lor PROT_READ PROT_WRITE in
  let clean := Some 0 in
  if num_used st <? total_pages st then
    pt ← PageTable.jm_page_table_insert g (page_table st) faulted_page None;
    Returns ({| newprot := newprot; evictable_page := NULL; clean := clean |},
             {| page_table := pt; num_used := num_used st + 1;
                total_pages := total_pages st; evicted_pages := evicted_pages st;
                evict_head := evict_head st; evict_tail := evict_tail st;
                evict_len := evict_len st; max_retries := max_retries st;
                draws := draws st |})
  else
    '(randnum, evictable, pos) ← choose_victim fuel g rng st (draws st) 0 None;
    evicted ← array_set (evicted_pages st) (evict_tail st) (wrap32 randnum);
    if evict_len st =? 0 then Undefined "division by zero"
    else
      let tail := (evict_tail st + 1) mod evict_len st in
      let head := if tail =? evict_head st then (evict_head st + 1) mod evict_len st
                  else evict_head st in
      pt1 ← PageTable.jm_page_table_delete g (page_table st) evictable;
      pt2 ← PageTable.jm_page_table_insert g pt1 faulted_page None;
      Returns ({| newprot := newprot; evictable_page := evictable; clean := clean |},
               {| page_table := pt2; num_used := num_used st;
                  total_pages := total_pages st; evicted_pages := evicted;
                  evict_head := head; evict_tail := tail;
                  evict_len := evict_len st; max_retries := max_retries st;
                  draws := pos |}).

Fixpoint run (fuel : nat) (g : JUMBOMEM_GLOBALS) (rng : nat -> Z) (st : state)
    (faults : list Z) : outcome (list replacement * state) :=
  match faults with
  | [] => Returns ([], st)
  | p :: rest =>
      '(r, st1) ← jm_find_replacement_page fuel g rng st p;
      '(rs, st2) ← run fuel g rng st1 rest;
      Returns (r :: rs, st2)
  end.

Definition boot (fuel : nat) (g : JUMBOMEM_GLOBALS) (explicit_pages : bool)
    (nre_entries nre_retries : option Z) (junk : nat -> Z) (rng : nat -> Z)
    (faults : list Z) : outcome (JUMBOMEM_GLOBALS * list replacement * state) :=
  '(st, g1) ← jm_initialize_pagereplace g explicit_pages nre_entries nre_retries junk;
  '(rs, st1) ← run fuel g1 rng st faults;
  Returns (g1, rs, st1).

(* What holds of every state of the policy that a run of calls reaches. *)
Definition inv (g : JUMBOMEM_GLOBALS) (st : state) : Prop :=
  let pt := page_table st in
  0 < pagesize g /\
  2 <= total_pages st < 2 ^ 64 /\
  num_used st = PageTable.num_used pt /\
  PageTable.table_size pt = total_pages st /\
  0 <= num_used st <= total_pages st /\
  Z.of_nat (length (PageTable.used_pages pt)) = total_pages st /\
  PageTable.dead_bucket pt = None /\
  PageTable.chains_ok pt (fun b => 0 <= b < num_used st) /\
  PageTable.entries_ok g pt /\
  1 <= evict_len st /\
  Z.of_nat (length (evicted_pages st)) = evict_len st /\
  0 <= evict_head st < evict_len st /\
  0 <= evict_tail st < evict_len st /\
  0 <= max_retries st.

(* The entries of the queue of recent evictions: the cells of
   evicted_pages from [i] (evict_head for the whole queue) up to
   evict_tail, which is not one of them, going round the array. *)
Fixpoint queue_from (n : nat) (st : state) (i : Z) : list Z :=
  match n with
  | O => []
  | S n' =>
      if i =? evict_tail st then []
      else match evicted_pages st !! Z.to_nat i with
           | Some e => e :: queue_from n' st ((i + 1) mod evict_len st)
           | None => []
           end
  end.

Definition queue (st : state) : list Z :=
  queue_from (Z.to_nat (evict_len st)) st (evict_head st).

(* What the loop hands to the rest of the function. *)
Definition candidate (g : JUMBOMEM_GLOBALS) (st : state) (randnum evictable : Z) : Prop :=
  0 <= randnum < num_used st /\
  exists e, PageTable.used_pages (page_table st) !! Z.to_nat (wrap32 randnum) = Some e /\
            evictable = page_address g (PageTable.pagenum e).

End Nre.

(** ** pagereplace_nru.c *)

Module Nru.

Definition DEFAULT_NRU_INTERVAL : Z := 5000.

Record PAGE_TABLE_ENTRY := {
  pagenum : Z;       (* page number *)
  referenced : Z;    (* page has been referenced *)
  modified : Z       (* page has been modified *)
}.

(* #define NRU_CLASS(PTE) (PTE->referenced*2 + PTE->modified) *)
Definition NRU_CLASS (pte : PAGE_TABLE_ENTRY) : Z := referenced pte * 2 + modified pte.

(* Pointers to page-table entries are indices into used_pages; a cell of
   pages_by_class that was never assigned is [None]; a bucket is
   identified with the entry its [pte] field points to. *)
Record state := {
  used_pages : list PAGE_TABLE_ENTRY;
  page_table : gmap Z (list Z);
  pages_by_class : list (option Z);
  sorted_by_class : Z;
  class_size : list Z;               (* unsigned long class_size[4] *)
  num_used : Z;
  total_pages : Z;
  nru_readwrite : Z;
  nru_interval_ms : Z;
  prev_rbit_clear_time : Z;
  dead_bucket : option Z
}.

Definition hash_page_number (pagenum : Z) : Z :=
  wrap64 ((pagenum + BIGPRIME2) * BIGPRIME1) mod HASH_TABLE_SIZE.

Definition chain (st : state) (chain_num : Z) : list Z :=
  default [] (page_table st !! chain_num).

Definition set_chain (st : state) (chain_num : Z) (c : list Z) (dead : option Z) : state :=
  {| used_pages := used_pages st; page_table := <[chain_num := c]> (page_table st);
     pages_by_class := pages_by_class st; sorted_by_class := sorted_by_class st;
     class_size := class_size st; num_used := num_used st; total_pages := total_pages st;
     nru_readwrite := nru_readwrite st; nru_interval_ms := nru_interval_ms st;
     prev_rbit_clear_time := prev_rbit_clear_time st; dead_bucket := dead |}.

Definition set_used_pages (st : state) (u : list PAGE_TABLE_ENTRY) : state :=
  {| used_pages := u; page_table := page_table st;
     pages_by_class := pages_by_class st; sorted_by_class := sorted_by_class st;
     class_size := class_size st; num_used := num_used st; total_pages := total_pages st;
     nru_readwrite := nru_readwrite st; nru_interval_ms := nru_interval_ms st;
     prev_rbit_clear_time := prev_rbit_clear_time st; dead_bucket := dead_bucket st |}.

Definition set_sorted (st : state) (by_class : list (option Z)) (sizes : list Z)
    (sorted : Z) : state :=
  {| used_pages := used_pages st; page_table := page_table st;
     pages_by_class := by_class; sorted_by_class := sorted;
     class_size := sizes; num_used := num_used st; total_pages := total_pages st;
     nru_readwrite := nru_readwrite st; nru_interval_ms := nru_interval_ms st;
     prev_rbit_clear_time := prev_rbit_clear_time st; dead_bucket := dead_bucket st |}.

Definition bucket_pagenum (st : state) (bucket : Z) : outcome Z :=
  pte ← array_get (used_pages st) bucket; Returns (pagenum pte).

Fixpoint search_chain (st : state) (pn : Z) (c : list Z) : outcome (option Z) :=
  match c with
  | [] => Returns None
  | bucket :: rest =>
      n ← bucket_pagenum st bucket;
      if n =? pn then Returns (Some bucket) else search_chain st pn rest
  end.

Definition find_page_by_number (st : state) (pn : Z) : outcome (option Z) :=
  search_chain st pn (chain st (hash_page_number pn)).

Fixpoint unlink (st : state) (pn : Z) (c : list Z) : outcome (option (Z * list Z)) :=
  match c with
  | [] => Returns None
  | bucket :: rest =>
      n ← bucket_pagenum st bucket;
      if n =? pn then Returns (Some (bucket, rest))
      else
        r ← unlink st pn rest;
        match r with
        | Some (b, rest') => Returns (Some (b, bucket :: rest'))
        | None => Returns None
        end
  end.

Definition delete_page_by_number (st : state) (pn : Z) : outcome state :=
  let chain_num := hash_page_number pn in
  match chain st chain_num with
  | [] => Aborts "Internal error: Attempted to delete nonexistent page (empty chain)"
  | first :: rest =>
      match dead_bucket st with
      | Some _ => Aborts "Internal error: Two page-table deletions with no intervening insertion"
      | None =>
          n ← bucket_pagenum st first;
          if n =? pn then Returns (set_chain st chain_num rest (Some first))
          else
            r ← unlink st pn rest;
            match r with
            | Some (b, rest') => Returns (set_chain st chain_num (first :: rest') (Some b))
            | None => Aborts "Internal error: Attempted to delete nonexistent page"
            end
      end
  end.

Definition insert_pte (st : state) (pte : Z) : outcome state :=
  pn ← bucket_pagenum st pte;
  let chain_num := hash_page_number pn in
  Returns (set_chain st chain_num (pte :: chain st chain_num) None).

(* A for loop over i = 0 .. n-1 that threads a value through its body. *)
Fixpoint for_each {S : Type} (body : Z -> S -> outcome S) (indices : list Z) (s : S)
  : outcome S :=
  match indices with
  | [] => Returns s
  | i :: rest => s1 ← body i s; for_each body rest s1
  end.

(* class_size[NRU_CLASS(pages_by_class[i])]++ *)
Definition count_class (st : state) (i : Z) (sizes : list Z) : outcome (list Z) :=
  cell ← array_get (pages_by_class st) i;
  match cell with
  | None => Undefined "pages_by_class[i] is indeterminate"
  | Some frame =>
      pte ← array_get (used_pages st) frame;
      n ← array_get sizes (NRU_CLASS pte);
      array_set sizes (NRU_CLASS pte) (n + 1)
  end.

(* pages_by_class[class_offset[NRU_CLASS(onepage)]++] = onepage *)
Definition place_page (st : state) (i : Z) (acc : list Z * list (option Z))
  : outcome (list Z * list (option Z)) :=
  let '(class_offset, by_class) := acc in
  onepage ← array_get (used_pages st) i;
  off ← array_get class_offset (NRU_CLASS onepage);
  by_class1 ← array_set by_class off (Some i);
  class_offset1 ← array_set class_offset (NRU_CLASS onepage) (off + 1);
  Returns (class_offset1, by_class1).

Definition sort_pages_by_class (st : state) : outcome state :=
  if negb (sorted_by_class st =? 0) then Returns st
  else
    sizes ← for_each (count_class st) (seqZ 0 (num_used st)) [0; 0; 0; 0];
    s0 ← array_get sizes 0;
    s1 ← array_get sizes 1;
    s2 ← array_get sizes 2;
    let class_offset := [0; s0; s1 + s0; s2 + (s1 + s0)] in
    '(_, by_class) ← for_each (place_page st) (seqZ 0 (num_used st))
                       (class_offset, pages_by_class st);
    Returns (set_sorted st by_class sizes 1).

Definition clear_referenced (pte : PAGE_TABLE_ENTRY) : PAGE_TABLE_ENTRY :=
  {| pagenum := pagenum pte; referenced := 0; modified := modified pte |}.

(* [now] is jm_current_time()/1000; the difference is taken in uint64_t. *)
Definition maybe_clear_reference_bits (st : state) (now : Z) : state :=
  if wrap64 (now - prev_rbit_clear_time st) <? nru_interval_ms st then st
  else
    let n := Z.to_nat (num_used st) in
    {| used_pages := map clear_referenced (take n (used_pages st)) ++ drop n (used_pages st);
       page_table := page_table st;
       pages_by_class := pages_by_class st; sorted_by_class := 0;
       class_size := class_size st; num_used := num_used st; total_pages := total_pages st;
       nru_readwrite := nru_readwrite st; nru_interval_ms := nru_interval_ms st;
       prev_rbit_clear_time := now; dead_bucket := dead_bucket st |}.

(* [explicit_pages] is getenv("JM_LOCAL_PAGES") != NULL; [nru_rw] is
   jm_getenv_boolean("JM_NRU_RW") (-1: not set); [nru_interval] is
   jm_getenv_positive_int("JM_NRU_INTERVAL") (0: not set);
   sizeof(PAGE_TABLE_ENTRY) = 12. *)
Definition jm_initialize_pagereplace (g : JUMBOMEM_GLOBALS) (explicit_pages : bool)
    (nru_rw nru_interval now : Z) : outcome (state * JUMBOMEM_GLOBALS) :=
  let new_total_pages :=
    if explicit_pages then PageTable.to_long (local_pages g)
    else Z.quot (PageTable.to_long
                   (PageTable.to_long (local_pages g * pagesize g) - HASH_TABLE_SIZE * 8))
                (PageTable.to_long (pagesize g + 16 + 8 + 12)) in
  if new_total_pages <? 1 then
    Aborts "A minimum of one local page is needed for NRU page-replacement to function properly"
  else
    let total_pages := new_total_pages in
    Returns ({| used_pages := replicate (Z.to_nat total_pages)
                                {| pagenum := 0; referenced := 0; modified := 0 |};
                page_table := ∅;
                pages_by_class := replicate (Z.to_nat total_pages) None;
                sorted_by_class := 0;
                class_size := [0; 0; 0; 0];
                num_used := 0; total_pages := total_pages;
                nru_readwrite := if nru_rw =? -1 then 1 else nru_rw;
                nru_interval_ms := if nru_interval =? 0 then DEFAULT_NRU_INTERVAL
                                   else nru_interval;
                prev_rbit_clear_time := now; dead_bucket := None |},
             set_local_pages g total_pages).

(* [protflags] tells whether the caller passed a non-NULL protflags; the
   second component of the result is the value stored through it. *)
Definition jm_page_is_resident (g : JUMBOMEM_GLOBALS) (st : state) (now : Z)
    (rounded_addr : Z) (protflags : bool) : outcome (Z * option Z * state) :=
  let st := maybe_clear_reference_bits st now in
  r ← find_page_by_number st (wrap32 (GET_PAGE_NUMBER g rounded_addr));
  match r with
  | None => Returns (0, None, st)
  | Some frame =>
      if protflags then
        pte ← array_get (used_pages st) frame;
        used ← array_set (used_pages st) frame
                 {| pagenum := pagenum pte; referenced := 1; modified := 1 |};
        Returns (1, Some (Z.lor PROT_READ PROT_WRITE),
                 set_sorted (set_used_pages st used) (pages_by_class st) (class_size st) 0)
      else Returns (1, None, st)
  end.

(* for (class=0; class<4 && class_size[class]==0; class++) ; *)
Fixpoint smallest_nonempty_class (sizes : list Z) (class : Z) : Z :=
  match sizes with
  | [] => class
  | n :: rest => if n =? 0 then smallest_nonempty_class rest (class + 1) else class
  end.

(* The tail of jm_find_replacement_page, common to both branches: record
   the faulted page in the frame [pframe]. *)
Definition install_page (g : JUMBOMEM_GLOBALS) (st : state) (pframe : Z)
    (faulted_page : Z) (evictable : Z) (clean : option Z) : outcome (replacement * state) :=
  old ← array_get (used_pages st) pframe;
  used1 ← array_set (used_pages st) pframe
            {| pagenum := wrap32 (GET_PAGE_NUMBER g faulted_page);
               referenced := 1; modified := modified old |};
  st1 ← insert_pte (set_used_pages st used1) pframe;
  let st2 := set_sorted st1 (pages_by_class st1) (class_size st1) 0 in
  let m := if negb (nru_readwrite st2 =? 0) then 1 else 0 in
  let prot := if negb (nru_readwrite st2 =? 0) then Z.lor PROT_READ PROT_WRITE
              else PROT_READ in
  used2 ← array_set (used_pages st2) pframe
            {| pagenum := wrap32 (GET_PAGE_NUMBER g faulted_page);
               referenced := 1; modified := m |};
  Returns ({| newprot := prot; evictable_page := evictable; clean := clean |},
           set_used_pages st2 used2).

Definition frame_at (st : state) (offset : Z) : outcome (Z * PAGE_TABLE_ENTRY) :=
  cell ← array_get (pages_by_class st) offset;
  match cell with
  | None => Undefined "pages_by_class[random_offset] is indeterminate"
  | Some frame => pte ← array_get (used_pages st) frame; Returns (frame, pte)
  end.

(* [now] is jm_current_time()/1000 and [r] the value random() returns if
   it is called. *)
Definition jm_find_replacement_page (g : JUMBOMEM_GLOBALS) (st : state) (now r : Z)
    (faulted_page : Z) : outcome (replacement * state) :=
  let st := maybe_clear_reference_bits st now in
  if num_used st <? total_pages st then
    let pframe := num_used st in
    by_class ← array_set (pages_by_class st) (num_used st) (Some pframe);
    let st1 :=
      {| used_pages := used_pages st; page_table := page_table st;
         pages_by_class := by_class; sorted_by_class := sorted_by_class st;
         class_size := class_size st; num_used := num_used st + 1;
         total_pages := total_pages st;
         nru_readwrite := nru_readwrite st; nru_interval_ms := nru_interval_ms st;
         prev_rbit_clear_time := prev_rbit_clear_time st;
         dead_bucket := dead_bucket st |} in
    install_page g st1 pframe faulted_page NULL None
  else
    let class := smallest_nonempty_class (class_size st) 0 in
    size ← array_get (class_size st) class;
    if size =? 0 then Undefined "division by zero"
    else
      let random_offset := scale_random r size in
      '(frame, pte) ← frame_at st random_offset;
      '(st1, frame, pte) ←
        (if negb (NRU_CLASS pte =? class) then
           st1 ← sort_pages_by_class st;
           '(frame1, pte1) ← frame_at st1 random_offset;
           Returns (st1, frame1, pte1)
         else Returns (st, frame, pte));
      let evictable := memregion g + pagesize g * pagenum pte in
      let clean := if modified pte =? 0 then 1 else 0 in
      st2 ← delete_page_by_number st1 (pagenum pte);
      install_page g st2 frame faulted_page evictable (Some clean).

(* A run of calls, each with the time at which it is made, the value
   random() would return and the faulted page. *)
Fixpoint run (g : JUMBOMEM_GLOBALS) (st : state) (calls : list (Z * Z * Z))
  : outcome (list replacement * state) :=
  match calls with
  | [] => Returns ([], st)
  | (now, r, p) :: rest =>
      '(reply, st1) ← jm_find_replacement_page g st now r p;
      '(rs, st2) ← run g st1 rest;
      Returns (reply :: rs, st2)
  end.

Definition boot (g : JUMBOMEM_GLOBALS) (explicit_pages : bool)
    (nru_rw nru_interval now : Z) (calls : list (Z * Z * Z))
  : outcome (JUMBOMEM_GLOBALS * list replacement * state) :=
  '(st, g1) ← jm_initialize_pagereplace g explicit_pages nru_rw nru_interval now;
  '(rs, st1) ← run g1 st calls;
  Returns (g1, rs, st1).

(* What holds of every state the policy reaches by calls that return:
   the arrays have total_pages cells and class_size has never been
   recomputed. *)
Definition inv (st : state) : Prop :=
  1 <= total_pages st /\
  Z.of_nat (length (used_pages st)) = total_pages st /\
  Z.of_nat (length (pages_by_class st)) = total_pages st /\
  0 <= num_used st <= total_pages st /\
  class_size st = [0; 0; 0; 0].

End Nru.

(** ** threadsupport.c: the mega-lock, seen from the calling thread *)

Module Thread.

(* The calling thread's THREAD_INFO and whether it holds the mega-lock (an
   error-checking mutex: relocking or unlocking it wrongly fails, which
   the callers turn into jm_abort). *)
Record THREAD_INFO := {
  blocked : Z;
  internal_depth : Z;     (* unsigned int *)
  cancel_handler : Z;
  megalock : bool
}.

Definition jm_enter_critical_section (t : THREAD_INFO) : outcome THREAD_INFO :=
  if (internal_depth t =? 0) && megalock t then
    Aborts "Failed to acquire the thread mega-lock."
  else
    Returns {| blocked := 0; internal_depth := wrap32 (internal_depth t + 1);
               cancel_handler := cancel_handler t;
               megalock := if internal_depth t =? 0 then true else megalock t |}.

Definition jm_exit_critical_section (t : THREAD_INFO) : outcome THREAD_INFO :=
  let depth := wrap32 (internal_depth t - 1) in
  if (depth =? 0) && negb (megalock t) then
    Aborts "Failed to release the thread mega-lock."
  else
    Returns {| blocked := blocked t; internal_depth := depth;
               cancel_handler := cancel_handler t;
               megalock := if depth =? 0 then false else megalock t |}.

Definition jm_get_internal_depth (t : THREAD_INFO) : Z := internal_depth t.

Definition jm_must_exit_signal_handler_now (t : THREAD_INFO) : Z * THREAD_INFO :=
  if 0 <? cancel_handler t then
    (1, {| blocked := blocked t; internal_depth := internal_depth t;
           cancel_handler := cancel_handler t - 1; megalock := megalock t |})
  else (0, t).

(* #define JM_INTERNAL_INVOCATION()
     (jm_globals.is_internal || jm_get_internal_depth() > 1) *)
Definition JM_INTERNAL_INVOCATION (g : JUMBOMEM_GLOBALS) (t : THREAD_INFO) : bool :=
  negb (is_internal g =? 0) || (1 <? jm_get_internal_depth t).

(* The depth counter and the lock agree: the thread holds the mega-lock
   exactly while it is inside the library. *)
Definition well_formed (t : THREAD_INFO) : Prop :=
  0 <= internal_depth t < 2 ^ 32 - 1 /\
  (megalock t = true <-> 0 < internal_depth t).

(* The thread is running user code. *)
Definition in_user_code (t : THREAD_INFO) : Prop :=
  internal_depth t = 0 /\ megalock t = false.

End Thread.

(** ** The system below the library *)

(* struct sigaction *)
Record sigaction_t := {
  sa_handler : Z;
  sa_mask : list Z;
  sa_flags : Z
}.

(* What the library asks of libc, the kernel and the transport. *)
Inductive event :=
| Original_sigaction (signum : Z) (act : option sigaction_t)
| Original_signal (signum handler : Z)
| Freeze_other_threads
| Policy_is_resident (addr : Z)
| Policy_find_replacement (addr : Z)
| Mprotect (addr len prot : Z)
| Assign_backing_store (addr len prot : Z)
| Remove_backing_store (addr len : Z)
| Fetch_begin (addr buffer : Z)
| Fetch_end
| Evict_begin (addr buffer : Z)
| Evict_end
| Memcpy (dst src len : Z).

(** ** funcoverrides.c: signal() and sigaction() *)

Module Overrides.

(* [dispositions] is the kernel's table of signal actions; [calls] lists
   the calls made to the next definitions in the dynamic-link chain;
   [accepts e] tells whether the system call behind [e] succeeds. *)
Record process := {
  thread : Thread.THREAD_INFO;
  jm_prev_segfaulter : sigaction_t;
  jm_prev_prev_segfaulter : sigaction_t;
  dispositions : Z -> sigaction_t;
  calls : list event
}.

Definition set_thread (p : process) (t : Thread.THREAD_INFO) : process :=
  {| thread := t; jm_prev_segfaulter := jm_prev_segfaulter p;
     jm_prev_prev_segfaulter := jm_prev_prev_segfaulter p;
     dispositions := dispositions p; calls := calls p |}.

Definition set_shadow (p : process) (prev prev_prev : sigaction_t) : process :=
  {| thread := thread p; jm_prev_segfaulter := prev;
     jm_prev_prev_segfaulter := prev_prev;
     dispositions := dispositions p; calls := calls p |}.

Definition set_handler (a : sigaction_t) (h : Z) : sigaction_t :=
  {| sa_handler := h; sa_mask := sa_mask a; sa_flags := sa_flags a |}.

(* libc's sigaction(): on success the old action is stored through oldact
   when that is given, and the new one installed when act is given. *)
Definition original_sigaction (accepts : event -> bool) (p : process) (signum : Z)
    (act : option sigaction_t) (oldact : bool) : Z * option sigaction_t * process :=
  let e := Original_sigaction signum act in
  let old := dispositions p signum in
  let table := match act with
               | Some a => fun s => if s =? signum then a else dispositions p s
               | None => dispositions p
               end in
  if accepts e then
    (0, if oldact then Some old else None,
     {| thread := thread p; jm_prev_segfaulter := jm_prev_segfaulter p;
        jm_prev_prev_segfaulter := jm_prev_prev_segfaulter p;
        dispositions := table; calls := calls p ++ [e] |})
  else
    (-1, None,
     {| thread := thread p; jm_prev_segfaulter := jm_prev_segfaulter p;
        jm_prev_prev_segfaulter := jm_prev_prev_segfaulter p;
        dispositions := dispositions p; calls := calls p ++ [e] |}).

(* libc's signal(): returns the old handler, or SIG_ERR = -1. *)
Definition original_signal (accepts : event -> bool) (p : process) (signum handler : Z)
  : Z * process :=
  let e := Original_signal signum handler in
  let old := dispositions p signum in
  if accepts e then
    (sa_handler old,
     {| thread := thread p; jm_prev_segfaulter := jm_prev_segfaulter p;
        jm_prev_prev_segfaulter := jm_prev_prev_segfaulter p;
        dispositions := fun s => if s =? signum
                                 then {| sa_handler := handler; sa_mask := []; sa_flags := 0 |}
                                 else dispositions p s;
        calls := calls p ++ [e] |})
  else
    (-1,
     {| thread := thread p; jm_prev_segfaulter := jm_prev_segfaulter p;
        jm_prev_prev_segfaulter := jm_prev_prev_segfaulter p;
        dispositions := dispositions p; calls := calls p ++ [e] |}).

(* JM_ENTER() and JM_RETURN(v) *)
Definition JM_ENTER (p : process) : outcome process :=
  t ← Thread.jm_enter_critical_section (thread p); Returns (set_thread p t).

Definition JM_RETURN {A : Type} (p : process) (v : A) : outcome (A * process) :=
  t ← Thread.jm_exit_critical_section (thread p); Returns (v, set_thread p t).

Definition signal (g : JUMBOMEM_GLOBALS) (accepts : event -> bool) (p : process)
    (signum handler : Z) : outcome (Z * process) :=
  p ← JM_ENTER p;
  if negb (signum =? SIGSEGV) || Thread.JM_INTERNAL_INVOCATION g (thread p) then
    let '(old, p1) := original_signal accepts p signum handler in
    JM_RETURN p1 old
  else
    let prev_prev := set_handler (jm_prev_prev_segfaulter p)
                       (sa_handler (jm_prev_segfaulter p)) in
    let prev := set_handler (jm_prev_segfaulter p) handler in
    let p1 := set_shadow p prev prev_prev in
    JM_RETURN p1 (sa_handler (jm_prev_prev_segfaulter p1)).

(* (void) sigdelset(&newact.sa_mask, SIGSEGV) *)
Definition sigdelset (mask : list Z) (signum : Z) : list Z :=
  filter (fun s => s ≠ signum) mask.

(* [oldact] tells whether the caller passed a non-NULL oldact; the second
   component of the result is what was stored through it. *)
Definition sigaction (g : JUMBOMEM_GLOBALS) (accepts : event -> bool) (p : process)
    (signum : Z) (act : option sigaction_t) (oldact : bool)
  : outcome (Z * option sigaction_t * process) :=
  p ← JM_ENTER p;
  if Thread.JM_INTERNAL_INVOCATION g (thread p) then
    let '(ret, old, p1) := original_sigaction accepts p signum act oldact in
    JM_RETURN p1 (ret, old)
  else if negb (signum =? SIGSEGV) then
    match act with
    | Some a =>
        let newact := {| sa_handler := sa_handler a;
                         sa_mask := sigdelset (sa_mask a) SIGSEGV;
                         sa_flags := sa_flags a |} in
        let '(ret, old, p1) := original_sigaction accepts p signum (Some newact) oldact in
        JM_RETURN p1 (ret, old)
    | None =>
        let '(ret, old, p1) := original_sigaction accepts p signum act oldact in
        JM_RETURN p1 (ret, old)
    end
  else
    let old := if oldact then Some (jm_prev_segfaulter p) else None in
    let p1 := match act with
              | Some a => set_shadow p a (jm_prev_segfaulter p)
              | None => p
              end in
    '(ret, p2) ← JM_RETURN p1 0;
    Returns (ret, old, p2).

End Overrides.

(** ** faulthandler.c *)

Module Handler.

(* The replacement policy linked into the library: the two entry points
   of jumbomem.h over the policy's private state.  jm_page_is_resident
   takes whether protflags is non-NULL and yields its result, the value
   stored through protflags (if any) and the new state. *)
Record policy (S : Type) := {
  page_is_resident : JUMBOMEM_GLOBALS -> S -> Z -> bool -> outcome (Z * option Z * S);
  find_replacement_page : JUMBOMEM_GLOBALS -> S -> Z -> outcome (replacement * S)
}.

Arguments page_is_resident {S} _ _ _ _ _.
Arguments find_replacement_page {S} _ _ _ _.

Definition fifo_policy : policy Fifo.state :=
  {| page_is_resident := fun g st addr protflags =>
       Returns (Fifo.jm_page_is_resident addr protflags, None, st);
     find_replacement_page := Fifo.jm_find_replacement_page |}.

(* ASYNC_INFO, without the opaque transport handle. *)
Record ASYNC_INFO := {
  address : Z;      (* NULL: no operation is pending *)
  buffer : Z;
  extra : Z         (* clean (evictions) or protflags (fetches) *)
}.

Definition with_address (a : ASYNC_INFO) (addr : Z) : ASYNC_INFO :=
  {| address := addr; buffer := buffer a; extra := extra a |}.

Record pager (S : Type) := {
  thread : Thread.THREAD_INFO;
  jm_prev_segfaulter : sigaction_t;
  dispositions : Z -> sigaction_t;
  fault_address : Z;               (* static in jm_signal_handler *)
  prev_fault_addr : Z;             (* static in start_prefetch *)
  fetch_info : ASYNC_INFO;
  evict_info : ASYNC_INFO;
  prefetch_info : ASYNC_INFO;
  policy_state : S;
  trace : list event
}.

Arguments thread {S} _.
Arguments jm_prev_segfaulter {S} _.
Arguments dispositions {S} _.
Arguments fault_address {S} _.
Arguments prev_fault_addr {S} _.
Arguments fetch_info {S} _.
Arguments evict_info {S} _.
Arguments prefetch_info {S} _.
Arguments policy_state {S} _.
Arguments trace {S} _.

Section Pager.

Context {S : Type}.
Variable pol : policy S.
Variable g : JUMBOMEM_GLOBALS.
(* whether the system call behind an event succeeds *)
Variable accepts : event -> bool.

Definition set_thread (p : pager S) (t : Thread.THREAD_INFO) : pager S :=
  {| thread := t; jm_prev_segfaulter := jm_prev_segfaulter p;
     dispositions := dispositions p; fault_address := fault_address p;
     prev_fault_addr := prev_fault_addr p; fetch_info := fetch_info p;
     evict_info := evict_info p; prefetch_info := prefetch_info p;
     policy_state := policy_state p; trace := trace p |}.

Definition set_fault_address (p : pager S) (a : Z) : pager S :=
  {| thread := thread p; jm_prev_segfaulter := jm_prev_segfaulter p;
     dispositions := dispositions p; fault_address := a;
     prev_fault_addr := prev_fault_addr p; fetch_info := fetch_info p;
     evict_info := evict_info p; prefetch_info := prefetch_info p;
     policy_state := policy_state p; trace := trace p |}.

Definition set_slots (p : pager S) (fetch evict prefetch : ASYNC_INFO) (prev_fault : Z)
  : pager S :=
  {| thread := thread p; jm_prev_segfaulter := jm_prev_segfaulter p;
     dispositions := dispositions p; fault_address := fault_address p;
     prev_fault_addr := prev_fault; fetch_info := fetch;
     evict_info := evict; prefetch_info := prefetch;
     policy_state := policy_state p; trace := trace p |}.

Definition set_policy_state (p : pager S) (s : S) : pager S :=
  {| thread := thread p; jm_prev_segfaulter := jm_prev_segfaulter p;
     dispositions := dispositions p; fault_address := fault_address p;
     prev_fault_addr := prev_fault_addr p; fetch_info := fetch_info p;
     evict_info := evict_info p; prefetch_info := prefetch_info p;
     policy_state := s; trace := trace p |}.

Definition log (p : pager S) (e : event) : pager S :=
  {| thread := thread p; jm_prev_segfaulter := jm_prev_segfaulter p;
     dispositions := dispositions p; fault_address := fault_address p;
     prev_fault_addr := prev_fault_addr p; fetch_info := fetch_info p;
     evict_info := evict_info p; prefetch_info := prefetch_info p;
     policy_state := policy_state p; trace := trace p ++ [e] |}.

(* A system call whose failure the caller turns into jm_abort. *)
Definition must (p : pager S) (e : event) (msg : string) : outcome (pager S) :=
  if accepts e then Returns (log p e) else Aborts msg.

(* jm_original_sigaction(signum, &jm_prev_segfaulter, NULL) *)
Definition restore_previous_handler (p : pager S) (signum : Z) : outcome (pager S) :=
  let e := Original_sigaction signum (Some (jm_prev_segfaulter p)) in
  if accepts e then
    Returns
      {| thread := thread p; jm_prev_segfaulter := jm_prev_segfaulter p;
         dispositions := fun s => if s =? signum then jm_prev_segfaulter p
                                  else dispositions p s;
         fault_address := fault_address p;
         prev_fault_addr := prev_fault_addr p; fetch_info := fetch_info p;
         evict_info := evict_info p; prefetch_info := prefetch_info p;
         policy_state := policy_state p; trace := trace p ++ [e] |}
  else Aborts "Failed to restore the SIGSEGV handler".

Definition JM_ENTER (p : pager S) : outcome (pager S) :=
  t ← Thread.jm_enter_critical_section (thread p); Returns (set_thread p t).

Definition JM_RETURN (p : pager S) : outcome (pager S) :=
  t ← Thread.jm_exit_critical_section (thread p); Returns (set_thread p t).

Definition RW : Z := Z.lor PROT_READ PROT_WRITE.

Definition fetch_begin (p : pager S) (addr protflags : Z) : pager S :=
  let f := {| address := addr; buffer := buffer (fetch_info p); extra := protflags |} in
  let p1 := set_slots p f (evict_info p) (prefetch_info p) (prev_fault_addr p) in
  log p1 (Fetch_begin addr (if negb (extra_memcpy g =? 0) then buffer f else addr)).

Definition fetch_end (p : pager S) : outcome (pager S) :=
  let f := fetch_info p in
  let p1 := log p Fetch_end in
  let p2 := if negb (extra_memcpy g =? 0)
            then log p1 (Memcpy (address f) (buffer f) (pagesize g)) else p1 in
  p3 ← (if negb (extra f =? RW)
        then must p2 (Mprotect (address f) (pagesize g) (extra f))
               "Failed to set access permissions on page"
        else Returns p2);
  Returns (set_slots p3 (with_address f NULL) (evict_info p3) (prefetch_info p3)
             (prev_fault_addr p3)).

Definition evict_end (p : pager S) : outcome (pager S) :=
  let e := evict_info p in
  let p1 := if extra e =? 0 then log p Evict_end else p in
  p2 ← must p1 (Remove_backing_store (address e) (pagesize g))
         "Failed to remove backing store";
  Returns (set_slots p2 (fetch_info p2) (with_address e NULL) (prefetch_info p2)
             (prev_fault_addr p2)).

Definition evict_begin (p : pager S) (addr clean : Z) : outcome (pager S) :=
  let e := {| address := addr; buffer := buffer (evict_info p); extra := clean |} in
  let p1 := set_slots p (fetch_info p) e (prefetch_info p) (prev_fault_addr p) in
  let p2 := if clean =? 0 then
              if negb (extra_memcpy g =? 0)
              then log (log p1 (Memcpy (buffer e) addr (pagesize g)))
                     (Evict_begin addr (buffer e))
              else log p1 (Evict_begin addr addr)
            else p1 in
  if negb (async_evict g =? 0) then
    must p2 (Mprotect addr (pagesize g) PROT_READ) "Failed to revoke write access to page"
  else evict_end p2.

(* if (evictable_page) evict_begin(evictable_page, clean); *)
Definition maybe_evict (p : pager S) (r : replacement) : outcome (pager S) :=
  if evictable_page r =? NULL then Returns p
  else match clean r with
       | Some c => evict_begin p (evictable_page r) c
       | None => Undefined "clean is read before it is assigned"
       end.

Definition start_prefetch (p : pager S) (rounded_addr : Z) : outcome (pager S) :=
  '(candidate, prev_fault) ←
    match prefetch_type g with
    | PREFETCH_NEXT => Returns (rounded_addr + pagesize g, prev_fault_addr p)
    | PREFETCH_DELTA => Returns (rounded_addr + (rounded_addr - prev_fault_addr p),
                                 rounded_addr)
    | PREFETCH_NONE => Aborts "Internal error: Unknown prefetch type"
    end;
  let p1 := set_slots p (fetch_info p) (evict_info p)
              (with_address (prefetch_info p) candidate) prev_fault in
  if (candidate <? memregion g) || (memregion g + extent g <=? candidate)
  then Returns (set_slots p1 (fetch_info p1) (evict_info p1)
                  (with_address (prefetch_info p1) NULL) (prev_fault_addr p1))
  else
    let p2 := log p1 (Policy_is_resident candidate) in
    '(res, _, s) ← page_is_resident pol g (policy_state p2) candidate false;
    let p3 := set_policy_state p2 s in
    if negb (res =? 0)
    then Returns (set_slots p3 (fetch_info p3) (evict_info p3)
                    (with_address (prefetch_info p3) NULL) (prev_fault_addr p3))
    else Returns (log p3 (Fetch_begin candidate (buffer (prefetch_info p3)))).

Definition complete_prefetch (p : pager S) (rounded_addr protflags : Z) (r : replacement)
  : outcome (pager S) :=
  if negb (address (prefetch_info p) =? NULL) then
    let p1 := log p Fetch_end in
    if address (prefetch_info p1) =? rounded_addr then
      p2 ← maybe_evict p1 r;
      let p3 := log p2 (Memcpy rounded_addr (buffer (prefetch_info p2)) (pagesize g)) in
      if negb (protflags =? RW)
      then must p3 (Mprotect rounded_addr (pagesize g) protflags)
             "Failed to set access permissions on page"
      else Returns p3
    else
      p2 ← maybe_evict (fetch_begin p1 rounded_addr protflags) r;
      fetch_end p2
  else
    p2 ← maybe_evict (fetch_begin p rounded_addr protflags) r;
    fetch_end p2.

(* The part of jm_signal_handler behind the range check. *)
Definition service_fault (p : pager S) (si_addr rounded_addr : Z) : outcome (pager S) :=
  if negb (fault_address p =? NULL) then
    Aborts "Faulted on an address while processing the fault on another address"
  else
    let p := set_fault_address p si_addr in
    let p := log p Freeze_other_threads in
    let p := log p (Policy_is_resident rounded_addr) in
    '(res, prot, s) ← page_is_resident pol g (policy_state p) rounded_addr true;
    let p := set_policy_state p s in
    if negb (res =? 0) then
      match prot with
      | None => Undefined "protflags is read before it is assigned"
      | Some protflags =>
          p ← must p (Mprotect rounded_addr (pagesize g) protflags)
                "Failed to set the protection flags for the page";
          JM_RETURN (set_fault_address p NULL)
      end
    else
      p ← (if negb (address (evict_info p) =? NULL) then evict_end p else Returns p);
      let p := log p (Policy_find_replacement rounded_addr) in
      '(r, s) ← find_replacement_page pol g (policy_state p) rounded_addr;
      let p := set_policy_state p s in
      p ← must p (Assign_backing_store rounded_addr (pagesize g) RW)
            "Failed to assign backing store";
      p ← match prefetch_type g with
          | PREFETCH_NONE =>
              p1 ← maybe_evict (fetch_begin p rounded_addr (newprot r)) r;
              fetch_end p1
          | _ =>
              p1 ← complete_prefetch p rounded_addr (newprot r) r;
              start_prefetch p1 rounded_addr
          end;
      JM_RETURN (set_fault_address p NULL).

(* pagesize*((uintptr_t)siginfo->si_addr/pagesize) *)
Definition round_to_page (si_addr : Z) : Z :=
  wrap64 (pagesize g * (si_addr / pagesize g)).

Definition jm_signal_handler (p : pager S) (signum si_addr : Z) : outcome (pager S) :=
  p ← JM_ENTER p;
  let '(must_exit, t) := Thread.jm_must_exit_signal_handler_now (thread p) in
  let p := set_thread p t in
  if negb (must_exit =? 0) then JM_RETURN p
  else if pagesize g =? 0 then Undefined "division by zero"
  else
    let rounded_addr := round_to_page si_addr in
    if (rounded_addr <? memregion g) || (memregion g + extent g <=? rounded_addr) then
      p ← restore_previous_handler p signum;
      JM_RETURN p
    else service_fault p si_addr rounded_addr.

(* The loop of jm_initialize_signal_handler: the first pages of the
   region are handed to the policy one by one, which must not name a
   victim, and the first round maps them all at once. *)
Fixpoint initialize_pages (fuel : nat) (p : pager S) (i localbytes : Z)
  : outcome (pager S) :=
  match fuel with
  | O => Unfinished
  | Datatypes.S fuel' =>
      if i <? localbytes then
        let p := log p (Policy_find_replacement (memregion g + i)) in
        '(r, s) ← find_replacement_page pol g (policy_state p) (memregion g + i);
        let p := set_policy_state p s in
        if negb (evictable_page r =? NULL) then
          Aborts "The page at address was evicted prematurely"
        else
          p ← (if i =? 0
               then must p (Assign_backing_store (memregion g) localbytes (newprot r))
                      "Failed to assign backing store"
               else Returns p);
          initialize_pages fuel' p (wrap64 (i + pagesize g)) localbytes
      else Returns p
  end.

(* jm_initialize_signal_handler.  [prefetch_buffer], [evict_buffer] and
   [fetch_buffer] are the blocks that jm_valloc(pagesize) returns where
   it is called, and [segfaulter] is the action built for
   jm_signal_handler.  The call of sigaction() is one of
   funcoverrides.c's sigaction, which installs the action only for an
   internal invocation.  The second component of the result is the value
   left in jm_prev_prev_segfaulter. *)
Definition jm_initialize_signal_handler (fuel : nat) (p : pager S)
    (prefetch_buffer evict_buffer fetch_buffer : Z) (segfaulter : sigaction_t)
  : outcome (pager S * sigaction_t) :=
  let prefetch :=
    {| address := NULL;
       buffer := match prefetch_type g with
                 | PREFETCH_NONE => buffer (prefetch_info p)
                 | _ => prefetch_buffer
                 end;
       extra := extra (prefetch_info p) |} in
  let evict :=
    {| address := NULL;
       buffer := if negb (extra_memcpy g =? 0) then evict_buffer
                 else buffer (evict_info p);
       extra := extra (evict_info p) |} in
  let fetch :=
    {| address := NULL;
       buffer := if negb (extra_memcpy g =? 0) then fetch_buffer
                 else buffer (fetch_info p);
       extra := extra (fetch_info p) |} in
  let p := set_slots p fetch evict prefetch (prev_fault_addr p) in
  p ← initialize_pages fuel p 0 (wrap64 (local_pages g * pagesize g));
  p ← JM_ENTER p;
  '(ret, p) ←
    (if Thread.JM_INTERNAL_INVOCATION g (thread p) then
       let e := Original_sigaction SIGSEGV (Some segfaulter) in
       if accepts e then
         Returns (0,
           {| thread := thread p; jm_prev_segfaulter := dispositions p SIGSEGV;
              dispositions := fun s => if s =? SIGSEGV then segfaulter
                                       else dispositions p s;
              fault_address := fault_address p;
              prev_fault_addr := prev_fault_addr p; fetch_info := fetch_info p;
              evict_info := evict_info p; prefetch_info := prefetch_info p;
              policy_state := policy_state p; trace := trace p ++ [e] |})
       else Returns (-1, log p e)
     else
       Returns (0,
         {| thread := thread p; jm_prev_segfaulter := segfaulter;
            dispositions := dispositions p; fault_address := fault_address p;
            prev_fault_addr := prev_fault_addr p; fetch_info := fetch_info p;
            evict_info := evict_info p; prefetch_info := prefetch_info p;
            policy_state := policy_state p; trace := trace p |}));
  p ← JM_RETURN p;
  if ret =? -1 then Aborts "Failed to install a SIGSEGV handler"
  else Returns (p, jm_prev_segfaulter p).

End Pager.

End Handler.

(** ** allocate.c: jm_mmap(), which funcoverrides.c exports as mmap() *)

Module Mmap.

(* The system below jm_mmap: the current end of the data segment
   (sbrk(0)), the result of brk(addr) and libc's mmap(), which maps its
   six arguments to an address or to MAP_FAILED; [have_mmap] tells whether
   dlsym(RTLD_NEXT, "mmap") finds it. *)
Record system := {
  sbrk0 : Z;
  brk : Z -> Z;
  original_mmap : Z -> Z -> Z -> Z -> Z -> Z -> Z;
  have_mmap : bool
}.

Definition in_region (g : JUMBOMEM_GLOBALS) (addr : Z) : bool :=
  (memregion g <=? addr) && (addr <? memregion g + extent g).

Definition jm_mmap (g : JUMBOMEM_GLOBALS) (sys : system) (t : Thread.THREAD_INFO)
    (start length prot flags fd offset : Z) : outcome (Z * Thread.THREAD_INFO) :=
  t ← Thread.jm_enter_critical_section t;
  if negb (have_mmap sys) then Aborts "Failed to find mmap()"
  else if negb (start =? NULL) || Thread.JM_INTERNAL_INVOCATION g t then
    t1 ← Thread.jm_exit_critical_section t;
    Returns (original_mmap sys start length prot flags fd offset, t1)
  else if ospagesize g =? 0 then Undefined "division by zero"
  else
    let dataend := wrap64 ((wrap64 (sbrk0 sys - 1) / ospagesize g + 1) * ospagesize g) in
    let below :=
      if wrap64 (dataend + length) <? memregion g then
        if brk sys (wrap64 (dataend + length)) =? 0 then
          let address := original_mmap sys dataend length prot (Z.lor flags MAP_FIXED)
                           fd offset in
          if negb ((address =? MAP_FAILED) || in_region g address) then Some address
          else None
        else None
      else None in
    match below with
    | Some address =>
        t1 ← Thread.jm_exit_critical_section t; Returns (address, t1)
    | None =>
        let address := original_mmap sys (memregion g + extent g) length prot flags
                         fd offset in
        if address =? MAP_FAILED then Aborts "mmap() failed to allocate bytes at or above address"
        else if in_region g address then
          Aborts "Failed to prevent mmap() from allocating bytes within the region"
        else
          t1 ← Thread.jm_exit_critical_section t; Returns (address, t1)
    end.

(* funcoverrides.c *)
Definition mmap := jm_mmap.

(* The mapping [addr, addr+length) and the managed region
   [base, base+extent) have a byte in common. *)
Definition overlaps_region (g : JUMBOMEM_GLOBALS) (addr length : Z) : Prop :=
  exists a, addr <= a < addr + length /\ memregion g <= a < memregion g + extent g.

End Mmap.

(** ** funcoverrides.c: read_or_write() *)

Module Chunker.

Definition JM_MAX_CONSECUTIVE : Z := 3.

(* The local variables of read_or_write, with info->count and
   info->buffer. *)
Record locals := {
  bytesdone : Z;
  unsuccessful_bytes : Z;
  successful_bytes : Z;
  max_successful_bytes : Z;
  consec_successes : Z;
  consec_failures : Z;
  count : Z;               (* info->count *)
  buffer : Z               (* info->buffer *)
}.

(* One call of the original read or write function, as the loop sees it:
   the buffer and count it was given and what it returned. *)
Record attempt := {
  before : locals;         (* the locals when the call was made *)
  newbytes : Z
}.

(* [function k buffer count] is the value the k-th call of the original
   read/write function returns.  The test that decides whether the
   request is chunked at all, for a buffer that ends below 2^64 (the
   sum of buffer and count is taken as it stands): *)
Definition passes_through (g : JUMBOMEM_GLOBALS) (baseaddr totalcount : Z) : bool :=
  (pagesize g =? 0) || (baseaddr <? memregion g)
  || (memregion g + extent g <=? baseaddr + totalcount).

Definition initial (g : JUMBOMEM_GLOBALS) (baseaddr totalcount : Z) : locals :=
  {| bytesdone := 0;
     unsuccessful_bytes := wrap64 (2 * local_pages g * pagesize g - ospagesize g);
     successful_bytes := ospagesize g;
     max_successful_bytes := ospagesize g;
     consec_successes := 0; consec_failures := 0;
     count := totalcount; buffer := baseaddr |}.

(* The head of the loop body: adjust the bounds after JM_MAX_CONSECUTIVE
   successes or failures; [None] is the break. *)
Definition adjust (g : JUMBOMEM_GLOBALS) (l : locals) : option locals :=
  if consec_successes l =? JM_MAX_CONSECUTIVE then
    Some {| bytesdone := bytesdone l; unsuccessful_bytes := unsuccessful_bytes l;
            successful_bytes := count l;
            max_successful_bytes := max_successful_bytes l;
            consec_successes := 0; consec_failures := consec_failures l;
            count := count l; buffer := buffer l |}
  else if consec_failures l =? JM_MAX_CONSECUTIVE then
    let unsuccessful := count l in
    if unsuccessful <=? ospagesize g then None
    else if unsuccessful =? successful_bytes l then
      Some {| bytesdone := bytesdone l;
              unsuccessful_bytes := wrap64 (2 * max_successful_bytes l - ospagesize g);
              successful_bytes := ospagesize g;
              max_successful_bytes := max_successful_bytes l;
              consec_successes := consec_successes l; consec_failures := 0;
              count := count l; buffer := buffer l |}
    else
      Some {| bytesdone := bytesdone l; unsuccessful_bytes := unsuccessful;
              successful_bytes := successful_bytes l;
              max_successful_bytes := max_successful_bytes l;
              consec_successes := consec_successes l; consec_failures := 0;
              count := count l; buffer := buffer l |}
  else Some l.

(* info->count = (successful_bytes+unsuccessful_bytes) / 2, clamped to
   the bytes remaining, and info->buffer = baseaddr + bytesdone. *)
Definition aim (l : locals) (baseaddr totalcount : Z) : locals :=
  let bytesremaining := wrap64 (totalcount - bytesdone l) in
  let c := wrap64 (successful_bytes l + unsuccessful_bytes l) / 2 in
  {| bytesdone := bytesdone l; unsuccessful_bytes := unsuccessful_bytes l;
     successful_bytes := successful_bytes l;
     max_successful_bytes := max_successful_bytes l;
     consec_successes := consec_successes l; consec_failures := consec_failures l;
     count := if bytesremaining <? c then bytesremaining else c;
     buffer := baseaddr + bytesdone l |}.

(* The rest of the loop body, once the original function has returned. *)
Definition account (l : locals) (newbytes : Z) : locals :=
  if newbytes <? 1 then
    {| bytesdone := bytesdone l; unsuccessful_bytes := unsuccessful_bytes l;
       successful_bytes := successful_bytes l;
       max_successful_bytes := max_successful_bytes l;
       consec_successes := 0; consec_failures := wrap32 (consec_failures l + 1);
       count := count l; buffer := buffer l |}
  else
    {| bytesdone := wrap64 (bytesdone l + newbytes);
       unsuccessful_bytes := unsuccessful_bytes l;
       successful_bytes := successful_bytes l;
       max_successful_bytes := if max_successful_bytes l <? count l then count l
                               else max_successful_bytes l;
       consec_successes := wrap32 (consec_successes l + 1); consec_failures := 0;
       count := count l; buffer := buffer l |}.

(* while (bytesdone < totalcount) { ... }; [k] counts the calls of the
   original function made so far, [log] lists them, oldest first. *)
Fixpoint chunk_loop (fuel : nat) (g : JUMBOMEM_GLOBALS) (function : nat -> Z -> Z -> Z)
    (baseaddr totalcount : Z) (l : locals) (k : nat) (log : list attempt)
  : outcome (Z * list attempt) :=
  match fuel with
  | O => Unfinished
  | S fuel' =>
      if bytesdone l <? totalcount then
        match adjust g l with
        | None => Returns (PageTable.to_long (bytesdone l), log)
        | Some l1 =>
            let l2 := aim l1 baseaddr totalcount in
            let n := function k (buffer l2) (count l2) in
            chunk_loop fuel' g function baseaddr totalcount (account l2 n) (S k)
              (log ++ [{| before := l2; newbytes := n |}])
        end
      else Returns (PageTable.to_long (bytesdone l), log)
  end.

Definition read_or_write (fuel : nat) (g : JUMBOMEM_GLOBALS) (function : nat -> Z -> Z -> Z)
    (baseaddr totalcount : Z) : outcome (Z * list attempt) :=
  if passes_through g baseaddr totalcount then
    Returns (function O baseaddr totalcount,
             [{| before := {| bytesdone := 0; unsuccessful_bytes := 0;
                              successful_bytes := 0; max_successful_bytes := 0;
                              consec_successes := 0; consec_failures := 0;
                              count := totalcount; buffer := baseaddr |};
                 newbytes := function O baseaddr totalcount |}])
  else chunk_loop fuel g function baseaddr totalcount (initial g baseaddr totalcount) O [].






(* [run_from l ext lf]: from the locals [l] at the head of the loop the
   attempts [ext] are made, in this order, and the loop is left with the
   locals [lf]. *)
Inductive run_from (g : JUMBOMEM_GLOBALS) (baseaddr totalcount : Z)
  : locals -> list attempt -> locals -> Prop :=
| run_done l :
    totalcount <= bytesdone l \/ adjust g l = None ->
    run_from g baseaddr totalcount l [] l
| run_step l l1 a ext lf :
    bytesdone l < totalcount ->
    adjust g l = Some l1 ->
    before a = aim l1 baseaddr totalcount ->
    run_from g baseaddr totalcount (account (before a) (newbytes a)) ext lf ->
    run_from g baseaddr totalcount l (a :: ext) lf.



End Chunker.

(** ** sysinfo.c *)

Module Sysinfo.

(* [map_count_file] is what reading MAPCOUNT_FILE gives: [None] when it
   cannot be opened, [Some None] when no integer can be read from it. *)
Definition jm_get_maximum_map_count (map_count_file : option (option Z)) : Z :=
  match map_count_file with
  | None => 0
  | Some None => 0
  | Some (Some n) => n
  end.

(* [min_page_size] is the function's static variable, [physmem] what
   jm_get_available_memory_size() yields if it is called; the result is
   the value returned and the new value of the static variable. *)
Definition jm_get_minimum_jm_page_size (g : JUMBOMEM_GLOBALS) (min_page_size : Z)
    (map_count_file : option (option Z)) (physmem : outcome Z) : outcome (Z * Z) :=
  if negb (min_page_size =? 0) then Returns (min_page_size, min_page_size)
  else
    let max_map_count := jm_get_maximum_map_count map_count_file in
    if max_map_count <? 1 then Returns (0, min_page_size)
    else
      physmem ← physmem;
      if ospagesize g =? 0 then Undefined "division by zero"
      else
        let size := wrap64 (wrap64 (physmem / max_map_count + ospagesize g - 1)
                              / ospagesize g * ospagesize g) in
        let size := if size <? ospagesize g then ospagesize g else size in
        Returns (size, size).

(* The formula of the specification, ceil(P / max_map_count / ospagesize)
   * ospagesize, read with C's integer quotient P / max_map_count ... *)
Definition spec_min_page_size (P max_map_count ospagesize : Z) : Z :=
  ((P / max_map_count + ospagesize - 1) / ospagesize) * ospagesize.

(* ... and read with the exact quotient P / (max_map_count * ospagesize). *)
Definition spec_min_page_size_exact (P max_map_count ospagesize : Z) : Z :=
  ((P + max_map_count * ospagesize - 1) / (max_map_count * ospagesize)) * ospagesize.

End Sysinfo.

(* An eviction is a reply with a victim. *)
Definition is_eviction (r : replacement) : bool := negb (evictable_page r =? NULL).

Definition evictions (rs : list replacement) : Z :=
  Z.of_nat (length (filter (fun r => is_eviction r = true) rs)).

(* An address is that of a page of the managed region whose number fits
   the 32 bits the policies keep. *)
Definition managed_page (g : JUMBOMEM_GLOBALS) (p : Z) : Prop :=
  exists k, 0 <= k < 2 ^ 32 /\ k * pagesize g < 2 ^ 64 /\ p = memregion g + k * pagesize g.

(** ** pagetable.c: the table as a collection of page numbers *)

Module Resident.
Import PageTable.

(* The entries of used_pages that are in use: the first num_used ones
   or, between a deletion and the next insertion, the first num_used + 1
   without the one the dead bucket points to. *)
Definition live_slots (pt : PAGE_TABLE) : list Z :=
  match dead_bucket pt with
  | None => seqZ 0 (num_used pt)
  | Some d => filter (fun b => b <> d) (seqZ 0 (num_used pt + 1))
  end.

(* The page numbers the table holds, with their multiplicities. *)
Definition pages (pt : PAGE_TABLE) : list Z :=
  omap (fun b => pagenum <$> used_pages pt !! Z.to_nat b) (live_slots pt).

(* A table as jm_create_page_table, jm_page_table_insert and
   jm_page_table_delete build it. *)
Definition wf (pt : PAGE_TABLE) : Prop :=
  chains_ok pt (fun b => b ∈ live_slots pt) /\
  0 <= num_used pt /\
  Z.of_nat (length (used_pages pt)) = table_size pt /\
  table_size pt < 2 ^ 64 /\
  match dead_bucket pt with
  | None => num_used pt <= table_size pt
  | Some d => 0 <= d <= num_used pt /\ num_used pt < table_size pt
  end.

End Resident.

(** ** allocate.c: jm_morecore() *)

Module Morecore.

(* MFAIL is ((void * )(MAX_SIZE_T)). *)
Definition MFAIL : Z := 2 ^ 64 - 1.

(* [endaddress] is jm_globals.endaddress; the result is the value
   returned, the new endaddress and the calling thread. *)
Definition jm_morecore (g : JUMBOMEM_GLOBALS) (t : Thread.THREAD_INFO)
    (endaddress increment : Z) : outcome (Z * Z * Thread.THREAD_INFO) :=
  t ← Thread.jm_enter_critical_section t;
  if (endaddress + increment <? memregion g)
     || (memregion g + extent g <? endaddress + increment)
     || (increment <? 0)
  then
    t1 ← Thread.jm_exit_critical_section t; Returns (MFAIL, endaddress, t1)
  else
    let prev_endaddress := endaddress in
    let endaddress := endaddress + increment in
    t1 ← Thread.jm_exit_critical_section t; Returns (prev_endaddress, endaddress, t1).

(* A run of calls, as dlmalloc makes them. *)
Fixpoint calls (g : JUMBOMEM_GLOBALS) (t : Thread.THREAD_INFO) (endaddress : Z)
    (increments : list Z) : outcome (list Z * Z * Thread.THREAD_INFO) :=
  match increments with
  | [] => Returns ([], endaddress, t)
  | i :: rest =>
      '(r, e1, t1) ← jm_morecore g t endaddress i;
      '(rs, e2, t2) ← calls g t1 e1 rest;
      Returns (r :: rs, e2, t2)
  end.

(* The bytes handed out by a run: the increments of the calls that did
   not fail. *)
Fixpoint granted (increments results : list Z) : Z :=
  match increments, results with
  | i :: rest, r :: rs => (if r =? MFAIL then 0 else i) + granted rest rs
  | _, _ => 0
  end.

End Morecore.

(** ** threadsupport.c: nested critical sections *)

Module Nesting.

Fixpoint enter_n (n : nat) (t : Thread.THREAD_INFO) : outcome Thread.THREAD_INFO :=
  match n with
  | O => Returns t
  | S k => t1 ← Thread.jm_enter_critical_section t; enter_n k t1
  end.

Fixpoint exit_n (n : nat) (t : Thread.THREAD_INFO) : outcome Thread.THREAD_INFO :=
  match n with
  | O => Returns t
  | S k => t1 ← Thread.jm_exit_critical_section t; exit_n k t1
  end.

End Nesting.

(** ** allocate.c: the end of the data segment in jm_mmap() *)

Module DataSegment.

(* dataend = ((((uintptr_t)sbrk(0) - 1) / ospagesize + 1) * ospagesize) *)
Definition dataend (g : JUMBOMEM_GLOBALS) (sys : Mmap.system) : Z :=
  wrap64 ((wrap64 (Mmap.sbrk0 sys - 1) / ospagesize g + 1) * ospagesize g).

End DataSegment.

(** ** faulthandler.c: a run of faults and the backing store it leaves *)

Module Service.

(* What a synchronous eviction without the extra copy asks of the system
   for the reply [r] of the policy: a dirty victim is sent and waited
   for, then its backing store is removed. *)
Definition eviction_events (g : JUMBOMEM_GLOBALS) (r : replacement) : list event :=
  if evictable_page r =? NULL then []
  else (if default 0 (clean r) =? 0
        then [Evict_begin (evictable_page r) (evictable_page r); Evict_end] else [])
       ++ [Remove_backing_store (evictable_page r) (pagesize g)].

(* The handler is entered once per fault, in order. *)
Fixpoint serve {S : Type} (pol : Handler.policy S) (g : JUMBOMEM_GLOBALS)
    (accepts : event -> bool) (p : Handler.pager S) (addrs : list Z)
  : outcome (Handler.pager S) :=
  match addrs with
  | [] => Returns p
  | a :: rest =>
      p1 ← Handler.jm_signal_handler pol g accepts p SIGSEGV a;
      serve pol g accepts p1 rest
  end.

(* The pages given backing store and the pages whose backing store was
   removed, counted over a trace. *)
Definition is_assign (e : event) : bool :=
  match e with Assign_backing_store _ _ _ => true | _ => false end.

Definition is_remove (e : event) : bool :=
  match e with Remove_backing_store _ _ => true | _ => false end.

Fixpoint count (f : event -> bool) (es : list event) : Z :=
  match es with
  | [] => 0
  | e :: rest => (if f e then 1 else 0) + count f rest
  end.

Definition assigned (es : list event) : Z := count is_assign es.
Definition removed (es : list event) : Z := count is_remove es.

(* The bytes given backing store and the bytes whose backing store was
   removed, added up over a trace. *)
Fixpoint assigned_bytes (es : list event) : Z :=
  match es with
  | [] => 0
  | Assign_backing_store _ len _ :: rest => len + assigned_bytes rest
  | _ :: rest => assigned_bytes rest
  end.

Fixpoint removed_bytes (es : list event) : Z :=
  match es with
  | [] => 0
  | Remove_backing_store _ len :: rest => len + removed_bytes rest
  | _ :: rest => removed_bytes rest
  end.

(* Every mapping and unmapping of the trace is of [len] bytes. *)
Definition sized (len : Z) (e : event) : Prop :=
  match e with
  | Assign_backing_store _ l _ => l = len
  | Remove_backing_store _ l => l = len
  | _ => True
  end.

(* The parts of the pager that the transfer routines leave alone. *)
Definition untouched {S : Type} (p p' : Handler.pager S) : Prop :=
  Handler.thread p' = Handler.thread p /\
  Handler.fault_address p' = Handler.fault_address p /\
  Handler.jm_prev_segfaulter p' = Handler.jm_prev_segfaulter p /\
  Handler.dispositions p' = Handler.dispositions p /\
  Handler.prev_fault_addr p' = Handler.prev_fault_addr p /\
  Handler.policy_state p' = Handler.policy_state p.

(* The NRU policy as the handler sees it, at the time [now] and with
   random() returning [r]. *)
Definition nru_policy (now r : Z) : Handler.policy Nru.state :=
  {| Handler.page_is_resident := fun g st addr protflags =>
       Nru.jm_page_is_resident g st now addr protflags;
     Handler.find_replacement_page := fun g st addr =>
       Nru.jm_find_replacement_page g st now r addr |}.

End Service.

(** ** funcoverrides.c: read(), write() and the stdio wrappers *)

Module Stdio.

(* The bytes a run of attempts transferred: an attempt that returns less
   than 1 counts as a failure and adds nothing. *)
Fixpoint transferred (log : list Chunker.attempt) : Z :=
  match log with
  | [] => 0
  | a :: rest =>
      (if Chunker.newbytes a <? 1 then 0 else Chunker.newbytes a) + transferred rest
  end.

(* [function] stands for do_read / do_write, which call the original
   read() or write(). *)
Definition read (fuel : nat) (g : JUMBOMEM_GLOBALS) (function : nat -> Z -> Z -> Z)
    (buffer count : Z) : outcome (Z * list Chunker.attempt) :=
  Chunker.read_or_write fuel g function buffer count.

Definition write (fuel : nat) (g : JUMBOMEM_GLOBALS) (function : nat -> Z -> Z -> Z)
    (buffer count : Z) : outcome (Z * list Chunker.attempt) :=
  Chunker.read_or_write fuel g function buffer count.

(* [function] stands for do_fread (do_fread_unlocked), which calls the
   original fread() with items of one byte.  The count is size * nmemb
   in size_t; the quotient is taken in size_t as well, the ssize_t that
   read_or_write returns being converted. *)
Definition fread (fuel : nat) (g : JUMBOMEM_GLOBALS) (function : nat -> Z -> Z -> Z)
    (buffer size nmemb : Z) : outcome (Z * list Chunker.attempt) :=
  '(ret, log) ← Chunker.read_or_write fuel g function buffer (wrap64 (size * nmemb));
  if size =? 0 then Undefined "division by zero"
  else Returns (wrap64 ret / size, log).

Definition fread_unlocked := fread.

Definition fwrite (fuel : nat) (g : JUMBOMEM_GLOBALS) (function : nat -> Z -> Z -> Z)
    (buffer size nmemb : Z) : outcome (Z * list Chunker.attempt) :=
  '(ret, log) ← Chunker.read_or_write fuel g function buffer (wrap64 (size * nmemb));
  if size =? 0 then Undefined "division by zero"
  else Returns (wrap64 ret / size, log).

Definition fwrite_unlocked := fwrite.

(* The upper bound with which the search for a chunk size starts. *)
Definition ceiling (g : JUMBOMEM_GLOBALS) : Z :=
  2 * local_pages g * pagesize g - ospagesize g.

(* The locals at the head of the loop while no attempt has failed. *)
Definition live (g : JUMBOMEM_GLOBALS) (totalcount : Z) (l : Chunker.locals) : Prop :=
  0 <= Chunker.bytesdone l <= totalcount /\
  Chunker.unsuccessful_bytes l = ceiling g /\
  1 <= Chunker.successful_bytes l <= ceiling g /\
  Chunker.consec_failures l = 0 /\
  0 <= Chunker.consec_successes l <= 3 /\
  (Chunker.consec_successes l <> 0 -> 1 <= Chunker.count l <= ceiling g).

End Stdio.

(** ** funcoverrides.c: the wrappers that take a signal set *)

Module SignalMask.

(* A sigset_t is the list of its members ([None]: a NULL pointer).  The
   calls that reach the next definitions in the dynamic-link chain: *)
Inductive call :=
| Original_sigprocmask (how : Z) (set : option (list Z))
| Original_pthread_sigmask (how : Z) (set : option (list Z))
| Original_sigtimedwait (set : option (list Z))
| Original_sigwaitinfo (set : option (list Z)).

Definition set_of (c : call) : option (list Z) :=
  match c with
  | Original_sigprocmask _ set => set
  | Original_pthread_sigmask _ set => set
  | Original_sigtimedwait set => set
  | Original_sigwaitinfo set => set
  end.

(* [original c] is what the original function returns for the call [c];
   the wrappers yield it with the call they made and the thread. *)
Definition sigprocmask (g : JUMBOMEM_GLOBALS) (original : call -> Z)
    (t : Thread.THREAD_INFO) (how : Z) (set : option (list Z))
  : outcome (Z * call * Thread.THREAD_INFO) :=
  t ← Thread.jm_enter_critical_section t;
  match set with
  | Some s =>
      if negb (Thread.JM_INTERNAL_INVOCATION g t) then
        let newset := Overrides.sigdelset s SIGSEGV in
        let c := Original_sigprocmask how (Some newset) in
        t1 ← Thread.jm_exit_critical_section t; Returns (original c, c, t1)
      else
        let c := Original_sigprocmask how set in
        t1 ← Thread.jm_exit_critical_section t; Returns (original c, c, t1)
  | None =>
      let c := Original_sigprocmask how set in
      t1 ← Thread.jm_exit_critical_section t; Returns (original c, c, t1)
  end.

Definition pthread_sigmask (g : JUMBOMEM_GLOBALS) (original : call -> Z)
    (t : Thread.THREAD_INFO) (how : Z) (set : option (list Z))
  : outcome (Z * call * Thread.THREAD_INFO) :=
  t ← Thread.jm_enter_critical_section t;
  match set with
  | Some s =>
      if negb (Thread.JM_INTERNAL_INVOCATION g t) then
        let newset := Overrides.sigdelset s SIGSEGV in
        let c := Original_pthread_sigmask how (Some newset) in
        t1 ← Thread.jm_exit_critical_section t; Returns (original c, c, t1)
      else
        let c := Original_pthread_sigmask how set in
        t1 ← Thread.jm_exit_critical_section t; Returns (original c, c, t1)
  | None =>
      let c := Original_pthread_sigmask how set in
      t1 ← Thread.jm_exit_critical_section t; Returns (original c, c, t1)
  end.

Definition sigtimedwait (g : JUMBOMEM_GLOBALS) (original : call -> Z)
    (t : Thread.THREAD_INFO) (set : option (list Z))
  : outcome (Z * call * Thread.THREAD_INFO) :=
  t ← Thread.jm_enter_critical_section t;
  match set with
  | Some s =>
      if negb (Thread.JM_INTERNAL_INVOCATION g t) then
        let newset := Overrides.sigdelset s SIGSEGV in
        let c := Original_sigtimedwait (Some newset) in
        t1 ← Thread.jm_exit_critical_section t; Returns (original c, c, t1)
      else
        let c := Original_sigtimedwait set in
        t1 ← Thread.jm_exit_critical_section t; Returns (original c, c, t1)
  | None =>
      let c := Original_sigtimedwait set in
      t1 ← Thread.jm_exit_critical_section t; Returns (original c, c, t1)
  end.

Definition sigwaitinfo (g : JUMBOMEM_GLOBALS) (original : call -> Z)
    (t : Thread.THREAD_INFO) (set : option (list Z))
  : outcome (Z * call * Thread.THREAD_INFO) :=
  t ← Thread.jm_enter_critical_section t;
  match set with
  | Some s =>
      if negb (Thread.JM_INTERNAL_INVOCATION g t) then
        let newset := Overrides.sigdelset s SIGSEGV in
        let c := Original_sigwaitinfo (Some newset) in
        t1 ← Thread.jm_exit_critical_section t; Returns (original c, c, t1)
      else
        let c := Original_sigwaitinfo set in
        t1 ← Thread.jm_exit_critical_section t; Returns (original c, c, t1)
  | None =>
      let c := Original_sigwaitinfo set in
      t1 ← Thread.jm_exit_critical_section t; Returns (original c, c, t1)
  end.

End SignalMask.

(** ** miscfuncs.c and initialize.c: the settings read at start-up *)

Module Startup.

Definition true_values : string := "1yYtT".
Definition false_values : string := "0nNfF".

(* for (c=values; *c; c++) if (envvar_string[0] == *c) ... *)
Fixpoint first_char_in (values : string) (c : Ascii.ascii) : bool :=
  match values with
  | EmptyString => false
  | String v rest => if Ascii.eqb c v then true else first_char_in rest c
  end.

(* [value] is what getenv() yields ([None]: NULL). *)
Definition jm_getenv_boolean (value : option string) : outcome Z :=
  match value with
  | None => Returns (-1)
  | Some EmptyString => Returns 1
  | Some (String c _) =>
      if first_char_in true_values c then Returns 1
      else if first_char_in false_values c then Returns 0
      else Aborts "is not a valid boolean value"
  end.

(* The part of jm_initialize_all that reads JM_PREFETCH, JM_ASYNCEVICT
   and JM_MEMCPY; the table of names is searched from its last entry. *)
Definition read_prefetch (prefetch_string : option string) : outcome JUMBOMEM_PREFETCH :=
  match prefetch_string with
  | None => Returns PREFETCH_NONE
  | Some s =>
      if String.eqb s "delta" then Returns PREFETCH_DELTA
      else if String.eqb s "next" then Returns PREFETCH_NEXT
      else if String.eqb s "none" then Returns PREFETCH_NONE
      else Aborts "Unrecognized value for JM_PREFETCH"
  end.

Definition read_settings (g : JUMBOMEM_GLOBALS)
    (jm_prefetch jm_asyncevict jm_memcpy : option string) : outcome JUMBOMEM_GLOBALS :=
  prefetch ← read_prefetch jm_prefetch;
  async ← jm_getenv_boolean jm_asyncevict;
  let async := if async =? -1 then 0 else async in
  copy ← jm_getenv_boolean jm_memcpy;
  let copy := if copy =? -1 then 0 else copy in
  Returns {| pagesize := pagesize g; ospagesize := ospagesize g; memregion := memregion g;
             extent := extent g; local_pages := local_pages g; prefetch_type := prefetch;
             async_evict := async; extra_memcpy := copy; is_internal := is_internal g |}.

(* The part of jm_initialize_all that settles jm_globals.pagesize.
   [jm_pagesize] is jm_getenv_positive_int("JM_PAGESIZE") (0: not set);
   jm_get_minimum_jm_page_size is called here for the first time. *)
Definition choose_page_size (g : JUMBOMEM_GLOBALS) (jm_pagesize : Z)
    (map_count_file : option (option Z)) (physmem : outcome Z) : outcome Z :=
  if negb (jm_pagesize =? 0) then
    if ospagesize g =? 0 then Undefined "division by zero"
    else if negb (jm_pagesize mod ospagesize g =? 0) then
      Aborts "JM_PAGESIZE must be a multiple of the OS page size"
    else Returns jm_pagesize
  else
    '(min, _) ← Sysinfo.jm_get_minimum_jm_page_size g 0 map_count_file physmem;
    if min =? 0 then Returns (ospagesize g) else Returns min.

(* [requested base] is what
   jm_getenv_nonnegative_int_or_percent("JM_LOCAL_PAGES", base) returns
   (-1: not set). *)
Definition compute_local_page_count (g : JUMBOMEM_GLOBALS) (masterbytes : Z)
    (map_count_file : option (option Z)) (requested : Z -> Z) : outcome Z :=
  if pagesize g =? 0 then Undefined "division by zero"
  else
    let max_local_pages := masterbytes / pagesize g in
    let max_mappings := Sysinfo.jm_get_maximum_map_count map_count_file in
    let max_local_pages :=
      if (0 <? max_mappings) && (wrap64 (max_mappings * 2) <=? max_local_pages)
      then wrap64 (wrap64 (max_mappings * 2) - 1) else max_local_pages in
    let local_pages := wrap64 (requested max_local_pages) in
    let local_pages := if local_pages =? wrap64 (-1) then max_local_pages else local_pages in
    if extent g <? wrap64 (local_pages * pagesize g)
    then Returns (extent g / pagesize g)
    else Returns local_pages.

End Startup.

(** ** Concrete configurations *)

Module Examples.

(* A managed region of 100 pages of 4096 bytes at address 2^20, of which
   two may be cached. *)
Definition globals : JUMBOMEM_GLOBALS :=
  {| pagesize := 4096; ospagesize := 4096; memregion := 1048576; extent := 409600;
     local_pages := 2; prefetch_type := PREFETCH_NEXT; async_evict := 0;
     extra_memcpy := 0; is_internal := 0 |}.

Definition page (k : Z) : Z := memregion globals + k * pagesize globals.

Definition user_thread : Thread.THREAD_INFO :=
  {| Thread.blocked := 0; Thread.internal_depth := 0; Thread.cancel_handler := 0;
     Thread.megalock := false |}.

(* A thread that has been told to leave the handler at once. *)
Definition cancelled_thread : Thread.THREAD_INFO :=
  {| Thread.blocked := 0; Thread.internal_depth := 0; Thread.cancel_handler := 1;
     Thread.megalock := false |}.

Definition action (handler : Z) : sigaction_t :=
  {| sa_handler := handler; sa_mask := []; sa_flags := 0 |}.

(* The kernel routes every signal to the handler at address 4198400 (the
   library's); the program's own SIGSEGV handler was at 4202496. *)
Definition process : Overrides.process :=
  {| Overrides.thread := user_thread;
     Overrides.jm_prev_segfaulter := action 4202496;
     Overrides.jm_prev_prev_segfaulter := action 0;
     Overrides.dispositions := fun _ => action 4198400;
     Overrides.calls := [] |}.

Definition idle : Handler.ASYNC_INFO :=
  {| Handler.address := NULL; Handler.buffer := 0; Handler.extra := 0 |}.

Definition pager (t : Thread.THREAD_INFO) : Handler.pager Fifo.state :=
  {| Handler.thread := t;
     Handler.jm_prev_segfaulter := action 4202496;
     Handler.dispositions := fun _ => action 4198400;
     Handler.fault_address := NULL; Handler.prev_fault_addr := NULL;
     Handler.fetch_info := idle; Handler.evict_info := idle; Handler.prefetch_info := idle;
     Handler.policy_state :=
       {| Fifo.used_pages := [0; 0]; Fifo.num_used := 0; Fifo.total_pages := 2;
          Fifo.next_evict := 0 |};
     Handler.trace := [] |}.

Definition every_call_succeeds (e : event) : bool := true.

(* The data segment ends two pages below the region, and the kernel
   places every mapping in the free page just below the region. *)
Definition kernel : Mmap.system :=
  {| Mmap.sbrk0 := 1040384; Mmap.brk := fun _ => 0;
     Mmap.original_mmap := fun start length prot flags fd offset => 1044480;
     Mmap.have_mmap := true |}.

(* An original read or write that transfers all it is asked for, and one
   that always fails. *)
Definition transfers_all (k : nat) (buffer count : Z) : Z := count.

(* An NRU cache of one frame holding page 0, unreferenced and unmodified,
   with the class sizes as a sort would have left them. *)
Definition nru_sorted : Nru.state :=
  {| Nru.used_pages := [{| Nru.pagenum := 0; Nru.referenced := 0; Nru.modified := 0 |}];
     Nru.page_table := {[ Nru.hash_page_number 0 := [0] ]};
     Nru.pages_by_class := [Some 0]; Nru.sorted_by_class := 1;
     Nru.class_size := [1; 0; 0; 0]; Nru.num_used := 1; Nru.total_pages := 1;
     Nru.nru_readwrite := 1; Nru.nru_interval_ms := 5000;
     Nru.prev_rbit_clear_time := 0; Nru.dead_bucket := None |}.

(* An NRU cache of three frames as a sort, followed by a write to page 1,
   leaves it: pages 0 and 1 were counted in class 0 and page 2 in class
   3; page 1 has since been referenced and modified. *)
Definition nru_stale : Nru.state :=
  {| Nru.used_pages := [{| Nru.pagenum := 0; Nru.referenced := 0; Nru.modified := 0 |};
                        {| Nru.pagenum := 1; Nru.referenced := 1; Nru.modified := 1 |};
                        {| Nru.pagenum := 2; Nru.referenced := 1; Nru.modified := 1 |}];
     Nru.page_table := {[ Nru.hash_page_number 0 := [0]; Nru.hash_page_number 1 := [1];
                          Nru.hash_page_number 2 := [2] ]};
     Nru.pages_by_class := [Some 0; Some 1; Some 2]; Nru.sorted_by_class := 0;
     Nru.class_size := [2; 0; 0; 1]; Nru.num_used := 3; Nru.total_pages := 3;
     Nru.nru_readwrite := 0; Nru.nru_interval_ms := 5000;
     Nru.prev_rbit_clear_time := 0; Nru.dead_bucket := None |}.

(* A page table of one entry, as jm_create_page_table and the insertion
   of page 0 leave it. *)
Definition full_table : PageTable.PAGE_TABLE :=
  {| PageTable.used_pages := [{| PageTable.pagenum := 0; PageTable.payload := [] |}];
     PageTable.page_hash := {[ PageTable.hash_page_number 0 := [0] ]};
     PageTable.dead_bucket := None; PageTable.payload_bytes := 0;
     PageTable.num_used := 1; PageTable.table_size := 1 |}.

End Examples.

Module Scenarios.

(* An NRU cache of three frames that holds page 0, written to. *)
Definition nru_one_page : Nru.state :=
  {| Nru.used_pages :=
       [{| Nru.pagenum := 0; Nru.referenced := 1; Nru.modified := 1 |};
        {| Nru.pagenum := 0; Nru.referenced := 0; Nru.modified := 0 |};
        {| Nru.pagenum := 0; Nru.referenced := 0; Nru.modified := 0 |}];
     Nru.page_table := {[ Nru.hash_page_number 0 := [0] ]};
     Nru.pages_by_class := [Some 0; None; None]; Nru.sorted_by_class := 0;
     Nru.class_size := [0; 0; 0; 0]; Nru.num_used := 1; Nru.total_pages := 3;
     Nru.nru_readwrite := 1; Nru.nru_interval_ms := 5000;
     Nru.prev_rbit_clear_time := 0; Nru.dead_bucket := None |}.

(* The handler between two faults, over the policy state [st] and with
   the prefetch slot [prefetch]. *)
Definition pager {S : Type} (st : S) (prefetch : Handler.ASYNC_INFO) : Handler.pager S :=
  {| Handler.thread := Examples.user_thread;
     Handler.jm_prev_segfaulter := Examples.action 4202496;
     Handler.dispositions := fun _ => Examples.action 4198400;
     Handler.fault_address := NULL; Handler.prev_fault_addr := NULL;
     Handler.fetch_info := Examples.idle; Handler.evict_info := Examples.idle;
     Handler.prefetch_info := prefetch;
     Handler.policy_state := st;
     Handler.trace := [] |}.

(* A FIFO table of two frames, both in use, holding pages 7 and 9. *)
Definition fifo_full : Fifo.state :=
  {| Fifo.used_pages := [7; 9]; Fifo.num_used := 2; Fifo.total_pages := 2;
     Fifo.next_evict := 0 |}.

(* The prefetch of page 1 into the buffer at 8192 is pending. *)
Definition prefetching_page_1 : Handler.ASYNC_INFO :=
  {| Handler.address := Examples.page 1; Handler.buffer := 8192; Handler.extra := 0 |}.

Definition no_prefetch : JUMBOMEM_GLOBALS :=
  set_prefetch_type Examples.globals PREFETCH_NONE.

End Scenarios.

Module AsyncScenario.

(* Evictions are asynchronous and prefetching is off. *)
Definition globals : JUMBOMEM_GLOBALS :=
  {| pagesize := 4096; ospagesize := 4096; memregion := 1048576; extent := 409600;
     local_pages := 2; prefetch_type := PREFETCH_NONE; async_evict := 1;
     extra_memcpy := 0; is_internal := 0 |}.

(* The handler between two faults, the eviction of the dirty page 5 still
   in flight; the FIFO table holds pages 7 and 9. *)
Definition pager : Handler.pager Fifo.state :=
  {| Handler.thread := Examples.user_thread;
     Handler.jm_prev_segfaulter := Examples.action 4202496;
     Handler.dispositions := fun _ => Examples.action 4198400;
     Handler.fault_address := NULL; Handler.prev_fault_addr := NULL;
     Handler.fetch_info := Examples.idle;
     Handler.evict_info :=
       {| Handler.address := Examples.page 5; Handler.buffer := 0; Handler.extra := 0 |};
     Handler.prefetch_info := Examples.idle;
     Handler.policy_state := Scenarios.fifo_full;
     Handler.trace := [] |}.

End AsyncScenario.

Module StartScenario.

(* The pager while jm_initialize_all runs: the thread is inside the
   library at depth 1 and holds the mega-lock; the kernel still routes
   SIGSEGV to the program's handler at 4202496. *)
Definition initializing : Handler.pager Fifo.state :=
  {| Handler.thread :=
       {| Thread.blocked := 0; Thread.internal_depth := 1; Thread.cancel_handler := 0;
          Thread.megalock := true |};
     Handler.jm_prev_segfaulter := Examples.action 0;
     Handler.dispositions := fun _ => Examples.action 4202496;
     Handler.fault_address := NULL; Handler.prev_fault_addr := NULL;
     Handler.fetch_info := Examples.idle; Handler.evict_info := Examples.idle;
     Handler.prefetch_info := Examples.idle;
     Handler.policy_state :=
       {| Fifo.used_pages := []; Fifo.num_used := 0; Fifo.total_pages := 0;
          Fifo.next_evict := 0 |};
     Handler.trace := [] |}.

End StartScenario.

(** * Proofs *)

(** ** Generic facts *)

Lemma wrap32_range x : 0 <= wrap32 x < 2 ^ 32.
Proof. unfold wrap32. apply Z.mod_pos_bound. lia. Qed.

Lemma wrap64_range x : 0 <= wrap64 x < 2 ^ 64.
Proof. unfold wrap64. apply Z.mod_pos_bound. lia. Qed.

Lemma wrap64_small x : 0 <= x < 2 ^ 64 -> wrap64 x = x.
Proof. intros. unfold wrap64. apply Z.mod_small. lia. Qed.

Lemma wrap32_small x : 0 <= x < 2 ^ 32 -> wrap32 x = x.
Proof. intros. unfold wrap32. apply Z.mod_small. lia. Qed.

Lemma array_get_Returns {A} (a : list A) i x :
  array_get a i = Returns x <-> 0 <= i /\ a !! Z.to_nat i = Some x.
Proof.
  unfold array_get. destruct (Z.ltb_spec i 0).
  - split; [discriminate | lia].
  - destruct (a !! Z.to_nat i) eqn:E; split; intros H1; try discriminate.
    + inversion H1. subst. auto.
    + destruct H1 as [_ H1]. congruence.
    + destruct H1 as [_ H1]. discriminate.
Qed.

Lemma array_get_in_range {A} (a : list A) i :
  0 <= i < Z.of_nat (length a) -> exists x, array_get a i = Returns x /\ a !! Z.to_nat i = Some x.
Proof.
  intros H. destruct (lookup_lt_is_Some_2 a (Z.to_nat i)) as [x Hx]; [lia|].
  exists x. split; [|done]. apply array_get_Returns. split; [lia|done].
Qed.

Lemma array_set_in_range {A} (a : list A) i x :
  0 <= i < Z.of_nat (length a) -> array_set a i x = Returns (<[Z.to_nat i := x]> a).
Proof.
  intros H. unfold array_set.
  destruct (Z.leb_spec 0 i); [|lia]. destruct (Z.ltb_spec i (Z.of_nat (length a))); [|lia]. done.
Qed.

Lemma array_set_Returns {A} (a : list A) i x b :
  array_set a i x = Returns b -> 0 <= i < Z.of_nat (length a) /\ b = <[Z.to_nat i := x]> a.
Proof.
  unfold array_set.
  destruct (Z.leb_spec 0 i); destruct (Z.ltb_spec i (Z.of_nat (length a))); simpl;
    intros H1; inversion H1; subst; split; auto; lia.
Qed.

Lemma mod_distinct_close i j n : 0 < n -> i < j < i + n -> i mod n <> j mod n.
Proof.
  intros Hn Hij Heq.
  assert (H : (j - i) mod n = 0).
  { rewrite Zminus_mod, Heq, Z.sub_diag. apply Z.mod_0_l. lia. }
  rewrite Z.mod_small in H; lia.
Qed.

Lemma page_address_not_null g v :
  0 < memregion g -> 0 <= pagesize g -> 0 <= v -> page_address g v <> NULL.
Proof. unfold page_address, NULL. nia. Qed.

Lemma scale_random_range r n : 0 < n -> 0 <= scale_random r n < n.
Proof. intros. unfold scale_random. apply Z.mod_pos_bound. done. Qed.

Lemma wrap32_le x : 0 <= x -> 0 <= wrap32 x <= x.
Proof. intros. split; [apply wrap32_range|]. unfold wrap32. apply Z.mod_le; lia. Qed.

Lemma to_long_range x : - 2 ^ 63 <= PageTable.to_long x < 2 ^ 63.
Proof.
  unfold PageTable.to_long. pose proof (wrap64_range x).
  destruct (Z.ltb_spec (wrap64 x) (2 ^ 63)); lia.
Qed.

Lemma quot_abs_le a b : Z.abs (Z.quot a b) <= Z.abs a.
Proof.
  destruct (Z.eq_dec b 0) as [->|Hb].
  - replace (Z.quot a 0) with 0 by (destruct a; reflexivity). simpl. lia.
  - rewrite <- Z.quot_abs by done.
    rewrite Z.quot_div_nonneg by lia.
    apply Z.div_le_upper_bound; [lia|]. nia.
Qed.

Ltac conjuncts := repeat match goal with |- _ /\ _ => split end.

(** ** FIFO *)

Module FifoFacts.
Import Fifo.

Lemma run_app g st l1 l2 :
  run g st (l1 ++ l2) =
  ('(rs1, st1) ← run g st l1; '(rs2, st2) ← run g st1 l2; Returns (rs1 ++ rs2, st2)).
Proof.
  revert st. induction l1 as [|p l1 IH]; intros st; simpl.
  - destruct (run g st l2) as [[rs2 st2]| | |]; reflexivity.
  - destruct (jm_find_replacement_page g st p) as [[r st1]| | |]; simpl; try reflexivity.
    rewrite IH. destruct (run g st1 l1) as [[rs1 st1']| | |]; simpl; try reflexivity.
    destruct (run g st1' l2) as [[rs2 st2]| | |]; reflexivity.
Qed.

Lemma expected_app g N h p i r : (i < length h)%nat -> 0 <= N -> expected g N h i r -> expected g N (h ++ [p]) i r.
Proof.
  intros Hi HN (H1 & H2 & H3 & H4). repeat split; auto.
  intros Hge. destruct (H4 Hge) as (q & Hq & Hv). exists q. split; [|done].
  rewrite lookup_app_l; [done|]. apply lookup_lt_Some in Hq. done.
Qed.

Lemma step_inv g N h st p :
  1 <= N -> inv g N h st ->
  exists r st', jm_find_replacement_page g st p = Returns (r, st') /\
    inv g N (h ++ [p]) st' /\ expected g N (h ++ [p]) (length h) r /\
    (num_used st < N -> num_used st' = num_used st + 1) /\
    (num_used st = N -> num_used st' = N /\
       exists v, used_pages st !! Z.to_nat (next_evict st) = Some v /\
         evictable_page r = page_address g v /\
         next_evict st' = (next_evict st + 1) mod N).
Proof.
  intros HN (Ht & Hl & Hn & Hc & Hu).
  set (n := Z.of_nat (length h)) in *.
  assert (Hslot : 0 <= n mod N < N) by (apply Z.mod_pos_bound; lia).
  assert (Hinv' : forall used' ne', 
     used' = <[Z.to_nat (n mod N) := wrap32 (GET_PAGE_NUMBER g p)]> (used_pages st) ->
     ne' = (if n + 1 <? N then 0 else (n + 1) mod N) ->
     inv g N (h ++ [p]) {| used_pages := used'; num_used := Z.min (n + 1) N; total_pages := N; next_evict := ne' |}).
  { intros used' ne' -> ->. unfold inv; simpl. rewrite length_app, length_insert. simpl.
    replace (Z.of_nat (length h + 1)) with (n + 1) by lia.
    repeat split; auto.
    intros i q Hi Hq.
    destruct (decide (i = length h)) as [->|Hne].
    - rewrite lookup_app_r in Hq by lia. rewrite Nat.sub_diag in Hq. simpl in Hq. inversion Hq; subst.
      fold n. apply list_lookup_insert_eq. lia.
    - assert (i < length h)%nat.
      { apply lookup_lt_Some in Hq. rewrite length_app in Hq. simpl in Hq. lia. }
      rewrite lookup_app_l in Hq by lia.
      rewrite list_lookup_insert_ne.
      + apply Hu; [lia|done].
      + intros Heq. apply Z2Nat.inj in Heq; try lia.
        * symmetry in Heq. revert Heq. apply mod_distinct_close; lia.
        * apply Z.mod_pos_bound; lia. }
  unfold jm_find_replacement_page. rewrite Ht.
  destruct (Z.ltb_spec (num_used st) N) as [Hlt|Hge].
  - (* the table is not full *)
    assert (Hn' : num_used st = n) by lia.
    rewrite array_set_in_range by lia. simpl.
    eexists _, _. split; [reflexivity|].
    assert (Hmod : n mod N = n) by (apply Z.mod_small; lia).
    split; [|split; [|split]].
    + replace (num_used st + 1) with (Z.min (n + 1) N) by lia.
      apply Hinv'.
      * rewrite Hmod, Hn'. done.
      * rewrite Hc. destruct (Z.ltb_spec n N); [|lia].
        destruct (Z.ltb_spec (n + 1) N); [done|].
        replace (n + 1) with N by lia. rewrite Z.mod_same; lia.
    + repeat split; simpl; auto. intros. lia.
    + simpl. lia.
    + intros. lia.
  - (* the table is full *)
    assert (Hfull : num_used st = N) by lia.
    assert (Hnge : N <= n) by lia.
    rewrite Hc in *. destruct (Z.ltb_spec n N); [lia|].
    destruct (array_get_in_range (used_pages st) (n mod N)) as (v & Hget & Hv); [lia|].
    rewrite Hget. simpl. rewrite array_set_in_range by lia. simpl.
    destruct (Z.eqb_spec N 0); [lia|].
    eexists _, _. split; [reflexivity|].
    split; [|split; [|split]].
    + replace (num_used st) with (Z.min (n + 1) N) by lia.
      apply Hinv'; [done|].
      destruct (Z.ltb_spec (n + 1) N); [lia|].
      rewrite Zplus_mod_idemp_l. done.
    + repeat split; simpl; auto.
      * intros. lia.
      * intros _.
        assert (Hq : is_Some (h !! (length h - Z.to_nat N)%nat)).
        { apply lookup_lt_is_Some_2. lia. }
        destruct Hq as [q Hq]. exists q. split.
        { rewrite lookup_app_l; [done|]. lia. }
        specialize (Hu (length h - Z.to_nat N)%nat q).
        replace (Z.of_nat (length h - Z.to_nat N)) with (n - N) in Hu by lia.
        replace ((n - N) mod N) with (n mod N) in Hu.
        2:{ rewrite <- (Z_mod_plus_full n (-1) N). f_equal; lia. }
        rewrite Hu in Hv by (lia || done). inversion Hv. done.
    + intros. lia.
    + intros _. split; [simpl; lia|]. exists v. simpl. auto.
Qed.

Lemma init_inv g :
  1 <= local_pages g ->
  exists st, jm_initialize_pagereplace g = Returns (st, set_prefetch_type g PREFETCH_NONE) /\
             inv (set_prefetch_type g PREFETCH_NONE) (local_pages g) [] st.
Proof.
  intros HN. unfold jm_initialize_pagereplace.
  destruct (Z.ltb_spec (local_pages g) 1); [lia|].
  eexists. split; [reflexivity|].
  unfold inv; simpl. rewrite length_replicate.
  repeat split; try lia.
  - change (Z.of_nat 0) with 0. destruct (Z.ltb_spec 0 (local_pages g)); [done|lia].
  - intros i p _ Hp. rewrite lookup_nil in Hp. discriminate.
Qed.

Lemma run_inv g N h st faults :
  1 <= N -> inv g N h st ->
  exists rs st', run g st faults = Returns (rs, st') /\ inv g N (h ++ faults) st' /\
    length rs = length faults /\
    forall i r, rs !! i = Some r -> expected g N (h ++ faults) (length h + i) r.
Proof.
  intros HN. revert h st. induction faults as [|p faults IH]; intros h st Hinv.
  - exists [], st. simpl. rewrite app_nil_r. split; [done|]. split; [done|]. split; [done|].
    intros i r Hr. rewrite lookup_nil in Hr. discriminate.
  - destruct (step_inv g N h st p HN Hinv) as (r & st1 & Hstep & Hinv1 & Hexp & _).
    destruct (IH (h ++ [p]) st1 Hinv1) as (rs & st2 & Hrun & Hinv2 & Hlen & Hrs).
    exists (r :: rs), st2. simpl. rewrite Hstep. simpl. rewrite Hrun. simpl.
    rewrite <- app_assoc in Hinv2, Hrs. simpl in Hinv2, Hrs.
    split; [done|]. split; [done|]. split; [simpl; lia|].
    intros [|i] r' Hr'; simpl in Hr'.
    + inversion Hr'; subst. rewrite Nat.add_0_r.
      destruct Hexp as (H1 & H2 & H3 & H4). repeat split; auto.
      intros Hge. destruct (H4 Hge) as (q & Hq & Hv). exists q. split; [|done].
      apply lookup_app_Some in Hq. destruct Hq as [Hq|[Hq1 Hq2]].
      * replace (h ++ p :: faults) with ((h ++ [p]) ++ faults) by (rewrite <- app_assoc; done).
        apply lookup_lt_Some in Hq as Hlt.
        rewrite lookup_app_l by (rewrite length_app; simpl; lia).
        rewrite lookup_app_l by lia. done.
      * lia.
    + specialize (Hrs i r' Hr'). rewrite length_app in Hrs. simpl in Hrs.
      replace (length h + S i)%nat with (length h + 1 + i)%nat by lia. done.
Qed.

End FifoFacts.

Lemma page_address_managed g p :
  0 < pagesize g -> managed_page g p -> page_address g (wrap32 (GET_PAGE_NUMBER g p)) = p.
Proof.
  intros Hps (k & Hk & Hlt & ->). unfold page_address, GET_PAGE_NUMBER.
  replace (memregion g + k * pagesize g - memregion g) with (k * pagesize g) by lia.
  rewrite wrap64_small by nia. rewrite Z.div_mul by lia. rewrite wrap32_small by lia. done.
Qed.

Lemma evictions_app rs1 rs2 : evictions (rs1 ++ rs2) = evictions rs1 + evictions rs2.
Proof. unfold evictions. rewrite filter_app, length_app. lia. Qed.

Lemma evictions_one r : evictions [r] = if evictable_page r =? NULL then 0 else 1.
Proof.
  unfold evictions. rewrite filter_cons, filter_nil. unfold is_eviction.
  case_decide as H; destruct (Z.eqb_spec (evictable_page r) NULL); simpl in *; done.
Qed.

(* Replies without a victim up to index N, with one from there on. *)
Lemma evictions_after_warmup (N : Z) (rs : list replacement) :
  0 <= N ->
  (forall (i : nat) r, rs !! i = Some r ->
     (Z.of_nat i < N -> evictable_page r = NULL) /\
     (N <= Z.of_nat i -> evictable_page r <> NULL)) ->
  evictions rs = Z.max 0 (Z.of_nat (length rs) - N).
Proof.
  intros HN. induction rs as [|r rs IH] using rev_ind; intros H.
  - unfold evictions. simpl. lia.
  - rewrite evictions_app, length_app. simpl.
    rewrite IH.
    2:{ intros i r' Hr'. apply (H i r'). rewrite lookup_app_l; [done|].
        apply lookup_lt_Some in Hr'. done. }
    destruct (H (length rs) r) as [Hlo Hhi].
    { rewrite lookup_app_r by lia. rewrite Nat.sub_diag. done. }
    rewrite evictions_one.
    destruct (Z.lt_ge_cases (Z.of_nat (length rs)) N) as [Hlt|Hge].
    + rewrite (Hlo Hlt). simpl. lia.
    + specialize (Hhi Hge). destruct (Z.eqb_spec (evictable_page r) NULL); [done|]. lia.
Qed.

Module FifoBoot.
Import Fifo.

Lemma boot_inv g faults g1 rs st :
  boot g faults = Returns (g1, rs, st) ->
  1 <= local_pages g /\ g1 = set_prefetch_type g PREFETCH_NONE /\
  inv g1 (local_pages g) faults st /\ length rs = length faults /\
  forall i r, rs !! i = Some r -> expected g1 (local_pages g) faults i r.
Proof.
  unfold boot. intros H.
  destruct (Z.lt_ge_cases (local_pages g) 1) as [Hlt|HN].
  { unfold jm_initialize_pagereplace in H.
    destruct (Z.ltb_spec (local_pages g) 1); [discriminate|lia]. }
  destruct (FifoFacts.init_inv g HN) as (st0 & Hinit & Hinv0).
  rewrite Hinit in H. simpl in H.
  destruct (FifoFacts.run_inv _ _ [] st0 faults HN Hinv0) as (rs' & st' & Hrun & Hinv & Hlen & Hrs).
  rewrite Hrun in H. simpl in H. inversion H; subst.
  split; [done|]. split; [done|]. split; [exact Hinv|]. split; [done|].
  intros i r Hr. exact (Hrs i r Hr).
Qed.

Lemma boot_returns g faults :
  1 <= local_pages g -> exists g1 rs st, boot g faults = Returns (g1, rs, st).
Proof.
  intros HN. unfold boot.
  destruct (FifoFacts.init_inv g HN) as (st0 & Hinit & Hinv0).
  rewrite Hinit. simpl.
  destruct (FifoFacts.run_inv _ _ [] st0 faults HN Hinv0) as (rs' & st' & Hrun & _).
  rewrite Hrun. simpl. eauto.
Qed.

End FifoBoot.

(** C2 (amended).  Under the FIFO policy a run of faults from the initial
    state returns, the first N calls report no victim, and from then on
    call i reports as victim the page recorded by call i - N (that very
    address when the page is a page of the managed region): victims
    leave in the order in which the pages arrived.  The cursor next_evict
    equals the number of evictions so far modulo N, every call on a full
    table takes its victim from the cell under the cursor and advances
    the cursor by one modulo N, and a run of M > N calls of
    jm_find_replacement_page causes exactly M - N evictions, whether or
    not the pages differ from one another: once the table is full every
    call, hence every fault, evicts one page. *)
Theorem C2_fifo_evicts_in_arrival_order (g : JUMBOMEM_GLOBALS) (faults : list Z) :
  1 <= local_pages g -> 0 < pagesize g -> 0 < memregion g ->
  exists g1 rs st,
    Fifo.boot g faults = Returns (g1, rs, st) /\
    length rs = length faults /\
    (forall (i : nat) r, rs !! i = Some r -> Z.of_nat i < local_pages g ->
       evictable_page r = NULL) /\
    (forall (i : nat) r, rs !! i = Some r -> local_pages g <= Z.of_nat i ->
       exists q, faults !! (i - Z.to_nat (local_pages g))%nat = Some q /\
         evictable_page r = page_address g (wrap32 (GET_PAGE_NUMBER g q)) /\
         evictable_page r <> NULL /\
         (managed_page g q -> evictable_page r = q)) /\
    Fifo.next_evict st = evictions rs mod local_pages g /\
    (local_pages g < Z.of_nat (length faults) ->
       evictions rs = Z.of_nat (length faults) - local_pages g) /\
    (local_pages g <= Z.of_nat (length faults) ->
       forall p, exists r st' v,
         Fifo.jm_find_replacement_page g1 st p = Returns (r, st') /\
         Fifo.used_pages st !! Z.to_nat (Fifo.next_evict st) = Some v /\
         evictable_page r = page_address g v /\
         Fifo.next_evict st' = (Fifo.next_evict st + 1) mod local_pages g).
Proof.
  intros HN Hps Hmem.
  destruct (FifoBoot.boot_returns g faults HN) as (g1 & rs & st & Hboot).
  destruct (FifoBoot.boot_inv _ _ _ _ _ Hboot) as (_ & Hg1 & Hinv & Hlen & Hrs).
  set (N := local_pages g) in *.
  assert (Hvictim : forall (i : nat) r, rs !! i = Some r ->
            (Z.of_nat i < N -> evictable_page r = NULL) /\
            (N <= Z.of_nat i -> evictable_page r <> NULL)).
  { intros i r Hr. destruct (Hrs i r Hr) as (_ & _ & Hlo & Hhi). split; [done|].
    intros Hge. destruct (Hhi Hge) as (q & _ & ->).
    apply page_address_not_null; subst g1; simpl; try lia. apply wrap32_range. }
  assert (Hcount : evictions rs = Z.max 0 (Z.of_nat (length rs) - N)).
  { apply evictions_after_warmup; [lia|done]. }
  exists g1, rs, st. split; [done|]. split; [done|].
  split; [|split; [|split; [|split]]].
  - intros i r Hr Hlt. apply (Hvictim i r Hr). done.
  - intros i r Hr Hge. destruct (Hrs i r Hr) as (_ & _ & _ & Hhi).
    destruct (Hhi Hge) as (q & Hq & Hv). exists q.
    assert (Hv' : evictable_page r = page_address g (wrap32 (GET_PAGE_NUMBER g q))).
    { rewrite Hv. subst g1. done. }
    split; [done|]. split; [done|]. split.
    + apply (Hvictim i r Hr). done.
    + intros Hq'. rewrite Hv'. apply page_address_managed; done.
  - destruct Hinv as (_ & _ & _ & Hc & _). rewrite Hc, Hcount, Hlen.
    destruct (Z.ltb_spec (Z.of_nat (length faults)) N).
    + rewrite Z.max_l by lia. rewrite Z.mod_0_l; lia.
    + rewrite Z.max_r by lia.
      rewrite <- (Z_mod_plus_full (Z.of_nat (length faults) - N) 1 N). f_equal; lia.
  - intros Hlt. rewrite Hcount, Hlen. lia.
  - intros Hge p.
    destruct (FifoFacts.step_inv g1 N faults st p HN Hinv) as (r & st' & Hstep & _ & _ & _ & Hfull).
    destruct Hinv as (_ & _ & Hn & _).
    destruct Hfull as (_ & v & Hv & Hev & Hnext); [lia|].
    exists r, st', v. repeat split; auto. rewrite Hev. subst g1. done.
Qed.

Lemma C2_three_faults_one_eviction :
  exists g1 rs st,
    Fifo.boot Examples.globals [Examples.page 0; Examples.page 1; Examples.page 2]
      = Returns (g1, rs, st) /\
    evictions rs = 1 /\ Fifo.next_evict st = 1.
Proof.
  destruct (C2_fifo_evicts_in_arrival_order Examples.globals
              [Examples.page 0; Examples.page 1; Examples.page 2])
    as (g1 & rs & st & Hboot & _ & _ & _ & Hnext & Hcount & _);
    [simpl; lia | simpl; lia | simpl; lia |].
  exists g1, rs, st. split; [exact Hboot|].
  assert (He : evictions rs = 1) by (rewrite Hcount; simpl; lia).
  split; [exact He|]. rewrite Hnext, He. reflexivity.
Defined.

(* C2 as stated fails in its count.  With two frames
   jm_find_replacement_page is called for the pages 0, 1, 2, 0, 1, 2 in
   turn (the first two calls are those of jm_initialize_signal_handler,
   the other four are faults): three distinct pages.  At each call the
   page is not in the table, and the run evicts four times, not
   3 - 2 = 1 times. *)
Lemma C2_revisited_pages_are_evicted_again :
  exists g1 rs st,
    Fifo.boot Examples.globals (map Examples.page [0; 1; 2; 0; 1; 2]) = Returns (g1, rs, st) /\
    length (remove_dups (map Examples.page [0; 1; 2; 0; 1; 2])) = 3%nat /\
    local_pages Examples.globals = 2 /\
    evictions rs = 4 /\
    evictions rs <> Z.of_nat (length (remove_dups (map Examples.page [0; 1; 2; 0; 1; 2])))
                    - local_pages Examples.globals /\
    forall (i : nat) p g' rs' st',
      map Examples.page [0; 1; 2; 0; 1; 2] !! i = Some p ->
      Fifo.boot Examples.globals (take i (map Examples.page [0; 1; 2; 0; 1; 2]))
        = Returns (g', rs', st') ->
      wrap32 (GET_PAGE_NUMBER g' p)
        ∉ take (Z.to_nat (Fifo.num_used st')) (Fifo.used_pages st').
Proof.
  eexists _, _, _. split; [vm_compute; reflexivity|].
  split; [vm_compute; reflexivity|]. split; [reflexivity|].
  split; [vm_compute; reflexivity|]. split; [vm_compute; discriminate|].
  intros i p g' rs' st' Hi Hboot.
  do 6 (destruct i as [|i];
        [vm_compute in Hi; injection Hi as <-;
         vm_compute in Hboot; injection Hboot as <- <- <-;
         intros H; vm_compute in H;
         repeat (apply elem_of_cons in H as [H|H]; [discriminate H|]);
         by apply elem_of_nil in H|]).
  vm_compute in Hi. discriminate.
Qed.

(** ** The replies of the policies *)

(* Take apart a hypothesis saying that a sequence of calls returned. *)
Ltac returned H :=
  repeat match type of H with
  | mbind _ ?m = Returns _ =>
      let E := fresh "E" in
      destruct m as [?| | |] eqn:E; simpl in H; try discriminate H
  | (let '(_, _) := ?x in _) = Returns _ => destruct x
  | (if ?b then _ else _) = Returns _ =>
      let E := fresh "E" in destruct b eqn:E; try discriminate H
  | (match ?o with Some _ => _ | None => _ end) = Returns _ =>
      let E := fresh "E" in destruct o eqn:E; try discriminate H
  | Returns _ = Returns _ => inversion H; subst; clear H
  end.

Lemma fifo_reply g st p r st' :
  Fifo.jm_find_replacement_page g st p = Returns (r, st') ->
  newprot r = Z.lor PROT_READ PROT_WRITE /\ clean r = Some 0.
Proof. unfold Fifo.jm_find_replacement_page. intros H. returned H; done. Qed.

Lemma random_reply fuel g rng st p r st' :
  Random.jm_find_replacement_page fuel g rng st p = Returns (r, st') ->
  newprot r = Z.lor PROT_READ PROT_WRITE /\ clean r = Some 0.
Proof.
  unfold Random.jm_find_replacement_page. intros H.
  destruct (Random.num_used st <? Random.total_pages st).
  - returned H; done.
  - destruct (Random.choose_victim fuel g rng st (Random.draws st)) as [[[rn ev] pos]| | |];
      simpl in H; try discriminate.
    returned H; done.
Qed.

Lemma nre_reply fuel g rng st p r st' :
  Nre.jm_find_replacement_page fuel g rng st p = Returns (r, st') ->
  newprot r = Z.lor PROT_READ PROT_WRITE /\ clean r = Some 0.
Proof.
  unfold Nre.jm_find_replacement_page. intros H.
  destruct (Nre.num_used st <? Nre.total_pages st).
  - returned H; done.
  - destruct (Nre.choose_victim fuel g rng st (Nre.draws st) 0 None) as [[[rn ev] pos]| | |];
      simpl in H; try discriminate.
    returned H; done.
Qed.

Module NruFacts.
Import Nru.

Lemma install_page_reply g st pframe p ev cl r st' :
  install_page g st pframe p ev cl = Returns (r, st') ->
  evictable_page r = ev /\ clean r = cl /\
  newprot r = (if negb (nru_readwrite st =? 0) then Z.lor PROT_READ PROT_WRITE else PROT_READ).
Proof.
  unfold install_page. intros H. returned H; simpl.
  all: unfold insert_pte in *; returned E1; simpl in *.
  all: repeat split; try done.
  all: destruct (nru_readwrite st =? 0); done.
Qed.

Lemma maybe_clear_lookup st now k e :
  used_pages (maybe_clear_reference_bits st now) !! k = Some e ->
  exists e0, used_pages st !! k = Some e0 /\ pagenum e0 = pagenum e /\ modified e0 = modified e.
Proof.
  unfold maybe_clear_reference_bits.
  destruct (wrap64 (now - prev_rbit_clear_time st) <? nru_interval_ms st); [eauto|].
  simpl. intros H.
  apply lookup_app_Some in H. destruct H as [H|[Hge H]].
  - rewrite list_lookup_fmap in H.
    destruct (take (Z.to_nat (num_used st)) (used_pages st) !! k) as [e0|] eqn:E; [|discriminate].
    simpl in H. inversion H; subst. exists e0. split; [|done].
    apply lookup_take_Some in E. tauto.
  - rewrite length_fmap in *. exists e. split; [|done].
    rewrite lookup_drop in H. rewrite length_take in *.
    replace (Z.to_nat (num_used st) + (k - Z.to_nat (num_used st) `min` length (used_pages st)))%nat
      with k in H; [done|].
    destruct (Nat.min_spec (Z.to_nat (num_used st)) (length (used_pages st))) as [[? Hm]|[? Hm]];
      rewrite Hm in *; [lia|].
    apply lookup_lt_Some in H. lia.
Qed.

Lemma sort_used_pages st st1 :
  sort_pages_by_class st = Returns st1 -> used_pages st1 = used_pages st.
Proof.
  unfold sort_pages_by_class. intros H.
  destruct (negb (sorted_by_class st =? 0)); [inversion H; done|].
  returned H. done.
Qed.

Lemma frame_at_lookup st off frame pte :
  frame_at st off = Returns (frame, pte) -> used_pages st !! Z.to_nat frame = Some pte.
Proof.
  unfold frame_at. intros H. returned H.
  apply array_get_Returns in E1. tauto.
Qed.

(* A reply either names no victim and leaves clean alone, or names the
   page of an entry of the table and reports clean = !modified of it. *)
Lemma reply g st now rnd p r st' :
  jm_find_replacement_page g st now rnd p = Returns (r, st') ->
  (evictable_page r = NULL /\ clean r = None) \/
  (exists frame pte, used_pages st !! frame = Some pte /\
     evictable_page r = memregion g + pagesize g * pagenum pte /\
     clean r = Some (if modified pte =? 0 then 1 else 0)).
Proof.
  unfold jm_find_replacement_page. intros H.
  set (st0 := maybe_clear_reference_bits st now) in *.
  destruct (num_used st0 <? total_pages st0).
  - left. returned H. apply install_page_reply in H. tauto.
  - right.
    destruct (array_get (class_size st0) (smallest_nonempty_class (class_size st0) 0))
      as [size| | |]; simpl in H; try discriminate.
    destruct (size =? 0); [discriminate|].
    destruct (frame_at st0 (scale_random rnd size)) as [[frame pte]| | |] eqn:Ef;
      simpl in H; try discriminate.
    destruct (negb (NRU_CLASS pte =? smallest_nonempty_class (class_size st0) 0)).
    + destruct (sort_pages_by_class st0) as [st1| | |] eqn:Es; simpl in H; try discriminate.
      destruct (frame_at st1 (scale_random rnd size)) as [[frame1 pte1]| | |] eqn:Ef1;
        simpl in H; try discriminate.
      destruct (delete_page_by_number st1 (pagenum pte1)) as [st2| | |]; simpl in H;
        try discriminate.
      apply install_page_reply in H. destruct H as (Hev & Hcl & _).
      apply frame_at_lookup in Ef1. rewrite (sort_used_pages _ _ Es) in Ef1.
      apply maybe_clear_lookup in Ef1. destruct Ef1 as (e0 & He0 & Hpn & Hm).
      exists (Z.to_nat frame1), e0. rewrite Hpn, Hm. done.
    + simpl in H.
      destruct (delete_page_by_number st0 (pagenum pte)) as [st2| | |]; simpl in H;
        try discriminate.
      apply install_page_reply in H. destruct H as (Hev & Hcl & _).
      apply frame_at_lookup in Ef.
      apply maybe_clear_lookup in Ef. destruct Ef as (e0 & He0 & Hpn & Hm).
      exists (Z.to_nat frame), e0. rewrite Hpn, Hm. done.
Qed.

End NruFacts.

(** ** The page table *)

Module PageTableFacts.
Import PageTable.

Lemma search_none_unlink_none pt pn c :
  search_chain pt pn c = Returns None -> unlink pt pn c = Returns None.
Proof.
  induction c as [|b c IH]; simpl; [done|].
  intros H. destruct (bucket_pagenum pt b) as [n| | |]; simpl in *; try discriminate.
  destruct (n =? pn); [discriminate|]. rewrite (IH H). done.
Qed.

Lemma find_none g pt address :
  jm_page_table_find g pt address = Returns None ->
  find_page_by_number pt (wrap32 (GET_PAGE_NUMBER g address)) = Returns None.
Proof.
  unfold jm_page_table_find. intros H.
  destruct (find_page_by_number pt _) as [[pte|]| | |]; simpl in H; try discriminate; [|done].
  destruct (array_get (used_pages pt) pte); simpl in H; discriminate.
Qed.

Lemma delete_absent pt pn :
  find_page_by_number pt pn = Returns None -> aborts (delete_page_by_number pt pn).
Proof.
  unfold find_page_by_number, delete_page_by_number. intros H.
  destruct (chain pt (hash_page_number pn)) as [|first rest]; [eexists; done|].
  destruct (dead_bucket pt); [eexists; done|].
  simpl in H. destruct (bucket_pagenum pt first) as [n| | |]; simpl in *; try discriminate.
  destruct (n =? pn); [discriminate|].
  rewrite (search_none_unlink_none _ _ _ H). simpl. eexists; done.
Qed.

Lemma delete_with_dead_bucket pt pn b :
  dead_bucket pt = Some b -> aborts (delete_page_by_number pt pn).
Proof.
  unfold delete_page_by_number. intros H.
  destruct (chain pt (hash_page_number pn)); [eexists; done|].
  rewrite H. eexists; done.
Qed.

Lemma delete_leaves_dead_bucket pt pn pt1 :
  delete_page_by_number pt pn = Returns pt1 ->
  dead_bucket pt = None /\ (exists b, dead_bucket pt1 = Some b) /\
  num_used pt1 = num_used pt /\ table_size pt1 = table_size pt.
Proof.
  unfold delete_page_by_number. intros H.
  destruct (chain pt (hash_page_number pn)) as [|first rest]; [discriminate|].
  destruct (dead_bucket pt); [discriminate|].
  destruct (bucket_pagenum pt first) as [n| | |]; simpl in H; try discriminate.
  destruct (n =? pn).
  - inversion H; subst. simpl. eauto.
  - destruct (unlink pt pn rest) as [[[b rest']|]| | |]; simpl in H; try discriminate.
    inversion H; subst. simpl. eauto.
Qed.

Lemma aborts_bind {A B} (m : outcome A) (k : A -> outcome B) :
  aborts m -> aborts (mbind k m).
Proof. intros [msg ->]. exists msg. done. Qed.

Lemma insert_full g pt address extradata :
  num_used pt = table_size pt -> aborts (jm_page_table_insert g pt address extradata).
Proof.
  intros H. unfold jm_page_table_insert. rewrite H, Z.eqb_refl. eexists; done.
Qed.

Lemma insert_returns g pt address extradata pt1 :
  jm_page_table_insert g pt address extradata = Returns pt1 ->
  num_used pt <> table_size pt /\ dead_bucket pt1 = None /\
  num_used pt1 = wrap64 (num_used pt + 1) /\ table_size pt1 = table_size pt.
Proof.
  unfold jm_page_table_insert. intros H.
  destruct (Z.eqb_spec (num_used pt) (table_size pt)); [discriminate|].
  returned H. unfold insert_pte in *.
  match goal with E : mbind _ _ = Returns _ |- _ => returned E end.
  simpl. done.
Qed.

Lemma delete_returns g pt address pt1 :
  jm_page_table_delete g pt address = Returns pt1 ->
  dead_bucket pt = None /\ (exists b, dead_bucket pt1 = Some b) /\
  num_used pt1 = wrap64 (num_used pt - 1) /\ table_size pt1 = table_size pt.
Proof.
  unfold jm_page_table_delete. intros H.
  destruct (delete_page_by_number pt _) as [pt0| | |] eqn:E; simpl in H; try discriminate.
  inversion H; subst. simpl.
  destruct (delete_leaves_dead_bucket _ _ _ E) as (H1 & H2 & H3 & H4).
  rewrite H3. done.
Qed.

(* From a full table, or from a table one short of full with a detached
   bucket, the operations that do not abort alternate. *)
Lemma alternation g ops :
  forall pt pt',
  0 <= table_size pt < 2 ^ 64 ->
  apply_operations g pt ops = Returns pt' ->
  (num_used pt = table_size pt -> alternates true ops = true) /\
  (num_used pt = wrap64 (table_size pt - 1) -> (exists b, dead_bucket pt = Some b) ->
     alternates false ops = true).
Proof.
  induction ops as [|op ops IH]; intros pt pt' HT H; simpl; [done|].
  simpl in H.
  destruct (apply_operation g pt op) as [pt1| | |] eqn:E; simpl in H; try discriminate.
  assert (Hne : wrap64 (table_size pt - 1) <> table_size pt).
  { unfold wrap64. destruct (Z.eq_dec (table_size pt) 0) as [->|].
    - simpl. done.
    - rewrite Z.mod_small; lia. }
  destruct op as [a|a]; simpl in E.
  - (* insert *)
    destruct (insert_returns _ _ _ _ _ E) as (Hnf & Hd & Hn & Ht).
    split; [intros; done|]. intros Hnum _. simpl.
    apply (IH pt1 pt'); [rewrite Ht; done|done|].
    rewrite Hn, Ht, Hnum. unfold wrap64. rewrite Zplus_mod_idemp_l.
    replace (table_size pt - 1 + 1) with (table_size pt) by lia.
    apply Z.mod_small. done.
  - (* delete *)
    destruct (delete_returns _ _ _ _ E) as (Hd & Hd1 & Hn & Ht).
    split.
    + intros Hnum. simpl. apply (IH pt1 pt'); [rewrite Ht; done|done| |done].
      rewrite Hn, Ht, Hnum. done.
    + intros _ [b Hb]. congruence.
Qed.

End PageTableFacts.

(** C3.  jm_page_table_insert aborts on a table that holds table_size
    entries; jm_page_table_delete aborts when the page is not present
    (jm_page_table_find yields NULL), when the dead-bucket slot is
    occupied, and therefore when it follows a delete that returned; and
    from a full table on, every sequence of inserts and deletes that runs
    to its end without aborting is delete, insert, delete, insert, ... *)
Theorem C3_page_table_discipline :
  (forall g pt address extradata,
     PageTable.num_used pt = PageTable.table_size pt ->
     aborts (PageTable.jm_page_table_insert g pt address extradata)) /\
  (forall g pt address,
     PageTable.jm_page_table_find g pt address = Returns None ->
     aborts (PageTable.jm_page_table_delete g pt address)) /\
  (forall g pt address b,
     PageTable.dead_bucket pt = Some b ->
     aborts (PageTable.jm_page_table_delete g pt address)) /\
  (forall g pt address pt1 address',
     PageTable.jm_page_table_delete g pt address = Returns pt1 ->
     aborts (PageTable.jm_page_table_delete g pt1 address')) /\
  (forall g pt ops pt',
     0 <= PageTable.table_size pt < 2 ^ 64 ->
     PageTable.num_used pt = PageTable.table_size pt ->
     PageTable.apply_operations g pt ops = Returns pt' ->
     PageTable.alternates true ops = true).
Proof.
  split; [|split; [|split; [|split]]].
  - intros. apply PageTableFacts.insert_full. done.
  - intros g pt address H. unfold PageTable.jm_page_table_delete.
    apply PageTableFacts.aborts_bind, PageTableFacts.delete_absent, PageTableFacts.find_none. done.
  - intros g pt address b H. unfold PageTable.jm_page_table_delete.
    eapply PageTableFacts.aborts_bind, PageTableFacts.delete_with_dead_bucket. done.
  - intros g pt address pt1 address' H.
    destruct (PageTableFacts.delete_returns _ _ _ _ H) as (_ & [b Hb] & _).
    unfold PageTable.jm_page_table_delete.
    eapply PageTableFacts.aborts_bind, PageTableFacts.delete_with_dead_bucket. done.
  - intros g pt ops pt' HT Hfull H.
    destruct (PageTableFacts.alternation g ops pt pt' HT H) as [Ha _]. auto.
Qed.

Lemma C3_full_table_of_one_entry :
  aborts (PageTable.jm_page_table_insert Examples.globals Examples.full_table
            (Examples.page 1) None) /\
  aborts (PageTable.jm_page_table_delete Examples.globals Examples.full_table
            (Examples.page 1)) /\
  PageTable.alternates true [PageTable.Delete (Examples.page 0);
                             PageTable.Insert (Examples.page 1)] = true.
Proof.
  destruct C3_page_table_discipline as (Hfull & Habsent & _ & _ & Halt).
  split; [|split].
  - apply (Hfull Examples.globals Examples.full_table (Examples.page 1) None). reflexivity.
  - apply (Habsent Examples.globals Examples.full_table (Examples.page 1)).
    vm_compute. reflexivity.
  - eapply (Halt Examples.globals Examples.full_table
              [PageTable.Delete (Examples.page 0); PageTable.Insert (Examples.page 1)]).
    + vm_compute. split; [discriminate|reflexivity].
    + reflexivity.
    + vm_compute. reflexivity.
Defined.

(** ** The mega-lock *)

Module ThreadFacts.
Import Thread.

Lemma enter_exit t :
  well_formed t ->
  exists t1, jm_enter_critical_section t = Returns t1 /\
    internal_depth t1 = internal_depth t + 1 /\ cancel_handler t1 = cancel_handler t /\
    forall c, jm_exit_critical_section
                {| blocked := blocked t1; internal_depth := internal_depth t1;
                   cancel_handler := c; megalock := megalock t1 |}
              = Returns {| blocked := 0; internal_depth := internal_depth t;
                           cancel_handler := c; megalock := megalock t |}.
Proof.
  intros [Hd Hl]. unfold jm_enter_critical_section.
  assert (Hw : wrap32 (internal_depth t + 1) = internal_depth t + 1)
    by (apply wrap32_small; lia).
  destruct (Z.eqb_spec (internal_depth t) 0) as [H0|Hn0].
  - destruct (megalock t) eqn:El; [destruct Hl as [Hl _]; specialize (Hl eq_refl); lia|]. simpl.
    eexists. split; [reflexivity|]. simpl. rewrite Hw. repeat split; auto.
    intros c. unfold jm_exit_critical_section. simpl.
    replace (internal_depth t + 1 - 1) with (internal_depth t) by lia.
    rewrite H0. simpl. done.
  - simpl. eexists. split; [reflexivity|]. simpl. rewrite Hw. repeat split; auto.
    intros c. unfold jm_exit_critical_section. simpl.
    replace (internal_depth t + 1 - 1) with (internal_depth t) by lia.
    rewrite wrap32_small by lia.
    destruct (Z.eqb_spec (internal_depth t) 0); [lia|]. simpl. done.
Qed.

Lemma user_code_well_formed t : in_user_code t -> well_formed t.
Proof. intros [H0 Hl]. split; [lia|]. rewrite H0, Hl. split; [done|lia]. Qed.

Lemma external_invocation g t t1 :
  is_internal g = 0 -> internal_depth t = 0 -> internal_depth t1 = internal_depth t + 1 ->
  JM_INTERNAL_INVOCATION g t1 = false.
Proof.
  intros Hi H0 H1. unfold JM_INTERNAL_INVOCATION, jm_get_internal_depth.
  rewrite Hi, H1, H0. done.
Qed.

End ThreadFacts.

(** C4.  A call of sigaction(SIGSEGV, act, oldact) or signal(SIGSEGV,
    handler) made from user code (the thread is outside the library and
    is_internal is clear) returns: sigaction returns 0 and stores the
    recorded action jm_prev_segfaulter through oldact when oldact is
    given, signal returns the recorded handler; the action (the handler)
    given by the caller becomes jm_prev_segfaulter and the previous value
    moves to jm_prev_prev_segfaulter (sigaction with act = NULL only
    reads); the kernel's dispositions are unchanged and no call reaches
    libc's sigaction() or signal(). *)
Theorem C4_sigsegv_installers_only_update_the_shadow :
  (forall g accepts p act oldact,
     is_internal g = 0 -> Thread.in_user_code (Overrides.thread p) ->
     exists p',
       Overrides.sigaction g accepts p SIGSEGV act oldact =
         Returns (0, (if oldact then Some (Overrides.jm_prev_segfaulter p) else None), p') /\
       Overrides.jm_prev_segfaulter p' =
         match act with Some a => a | None => Overrides.jm_prev_segfaulter p end /\
       Overrides.jm_prev_prev_segfaulter p' =
         match act with
         | Some _ => Overrides.jm_prev_segfaulter p
         | None => Overrides.jm_prev_prev_segfaulter p
         end /\
       Overrides.dispositions p' = Overrides.dispositions p /\
       Overrides.calls p' = Overrides.calls p /\
       Thread.in_user_code (Overrides.thread p')) /\
  (forall g accepts p handler,
     is_internal g = 0 -> Thread.in_user_code (Overrides.thread p) ->
     exists p',
       Overrides.signal g accepts p SIGSEGV handler =
         Returns (sa_handler (Overrides.jm_prev_segfaulter p), p') /\
       sa_handler (Overrides.jm_prev_segfaulter p') = handler /\
       sa_handler (Overrides.jm_prev_prev_segfaulter p') =
         sa_handler (Overrides.jm_prev_segfaulter p) /\
       Overrides.dispositions p' = Overrides.dispositions p /\
       Overrides.calls p' = Overrides.calls p /\
       Thread.in_user_code (Overrides.thread p')).
Proof.
  split.
  - intros g accepts p act oldact Hi Hu.
    destruct (ThreadFacts.enter_exit _ (ThreadFacts.user_code_well_formed _ Hu))
      as (t1 & Hen & Hd & Hc & Hex).
    destruct Hu as [H0 Hl].
    unfold Overrides.sigaction, Overrides.JM_ENTER. rewrite Hen. simpl.
    rewrite (ThreadFacts.external_invocation g _ t1 Hi H0 Hd). simpl.
    unfold Overrides.JM_RETURN.
    specialize (Hex (Thread.cancel_handler t1)).
    destruct t1 as [b1 d1 c1 m1]. simpl in *.
    destruct act as [a|]; simpl; rewrite Hex; simpl;
      (eexists; split; [reflexivity|]; simpl; repeat split; auto).
  - intros g accepts p handler Hi Hu.
    destruct (ThreadFacts.enter_exit _ (ThreadFacts.user_code_well_formed _ Hu))
      as (t1 & Hen & Hd & Hc & Hex).
    destruct Hu as [H0 Hl].
    unfold Overrides.signal, Overrides.JM_ENTER. rewrite Hen. simpl.
    rewrite (ThreadFacts.external_invocation g _ t1 Hi H0 Hd). simpl.
    unfold Overrides.JM_RETURN.
    specialize (Hex (Thread.cancel_handler t1)).
    destruct t1 as [b1 d1 c1 m1]. simpl in *.
    rewrite Hex. simpl.
    eexists; split; [reflexivity|]; simpl; repeat split; auto.
Qed.

Lemma C4_program_installs_a_handler :
  exists p',
    Overrides.sigaction Examples.globals Examples.every_call_succeeds Examples.process
      SIGSEGV (Some (Examples.action 4206592)) true
      = Returns (0, Some (Examples.action 4202496), p') /\
    Overrides.jm_prev_segfaulter p' = Examples.action 4206592 /\
    Overrides.jm_prev_prev_segfaulter p' = Examples.action 4202496 /\
    Overrides.dispositions p' = Overrides.dispositions Examples.process /\
    Overrides.calls p' = [].
Proof.
  destruct C4_sigsegv_installers_only_update_the_shadow as (Hsigaction & _).
  destruct (Hsigaction Examples.globals Examples.every_call_succeeds Examples.process
              (Some (Examples.action 4206592)) true)
    as (p' & Hcall & Hprev & Hprev2 & Hdisp & Hcalls & _);
    [reflexivity | split; reflexivity |].
  exists p'. split; [exact Hcall|]. split; [exact Hprev|]. split; [exact Hprev2|].
  split; [exact Hdisp|exact Hcalls].
Defined.

(** ** The fault handler *)

(** C5 (as amended).  When the thread has not been told to leave the
    handler (cancel_handler is not positive) and libc's sigaction()
    succeeds, a fault whose page-rounded address lies outside
    [memregion, memregion+extent) makes jm_signal_handler install the
    recorded jm_prev_segfaulter for the signal through the original
    sigaction and return; nothing else is asked of the system, and the
    policy's state (with its page table), the pending fetch, evict and
    prefetch slots and fault_address are as before.  When the thread has
    been told to leave (cancel_handler > 0) the handler consumes one
    cancellation and returns at once, whatever the address: the
    disposition is not restored. *)
Theorem C5_fault_outside_region_restores_previous_handler
    {S : Type} (pol : Handler.policy S) (g : JUMBOMEM_GLOBALS) (accepts : event -> bool)
    (p : Handler.pager S) (signum si_addr : Z) :
  Thread.well_formed (Handler.thread p) ->
  0 < pagesize g ->
  (Thread.cancel_handler (Handler.thread p) <= 0 ->
   Handler.round_to_page g si_addr < memregion g \/
     memregion g + extent g <= Handler.round_to_page g si_addr ->
   accepts (Original_sigaction signum (Some (Handler.jm_prev_segfaulter p))) = true ->
   exists p',
     Handler.jm_signal_handler pol g accepts p signum si_addr = Returns p' /\
     Handler.dispositions p' signum = Handler.jm_prev_segfaulter p /\
     Handler.trace p' =
       Handler.trace p ++ [Original_sigaction signum (Some (Handler.jm_prev_segfaulter p))] /\
     Handler.policy_state p' = Handler.policy_state p /\
     Handler.fetch_info p' = Handler.fetch_info p /\
     Handler.evict_info p' = Handler.evict_info p /\
     Handler.prefetch_info p' = Handler.prefetch_info p /\
     Handler.fault_address p' = Handler.fault_address p) /\
  (0 < Thread.cancel_handler (Handler.thread p) ->
   exists p',
     Handler.jm_signal_handler pol g accepts p signum si_addr = Returns p' /\
     Thread.cancel_handler (Handler.thread p') =
       Thread.cancel_handler (Handler.thread p) - 1 /\
     Handler.dispositions p' = Handler.dispositions p /\
     Handler.trace p' = Handler.trace p /\
     Handler.policy_state p' = Handler.policy_state p /\
     Handler.fetch_info p' = Handler.fetch_info p /\
     Handler.evict_info p' = Handler.evict_info p /\
     Handler.prefetch_info p' = Handler.prefetch_info p).
Proof.
  intros Hwf Hps.
  destruct (ThreadFacts.enter_exit _ Hwf) as (t1 & Hen & Hd & Hc & Hex).
  unfold Handler.jm_signal_handler, Handler.JM_ENTER. rewrite Hen. simpl.
  unfold Thread.jm_must_exit_signal_handler_now. rewrite Hc.
  split.
  - intros Hcancel Hout Hacc.
    destruct (Z.ltb_spec 0 (Thread.cancel_handler (Handler.thread p))); [lia|]. simpl.
    destruct (Z.eqb_spec (pagesize g) 0); [lia|].
    assert (Hrange : (Handler.round_to_page g si_addr <? memregion g)
                     || (memregion g + extent g <=? Handler.round_to_page g si_addr) = true).
    { apply orb_true_iff. destruct Hout; [left; apply Z.ltb_lt|right; apply Z.leb_le]; done. }
    rewrite Hrange. unfold Handler.restore_previous_handler. simpl. rewrite Hacc. simpl.
    unfold Handler.JM_RETURN. simpl.
    specialize (Hex (Thread.cancel_handler t1)). destruct t1; simpl in *. rewrite Hex. simpl.
    eexists. split; [reflexivity|]. simpl. rewrite Z.eqb_refl. repeat split; done.
  - intros Hcancel.
    destruct (Z.ltb_spec 0 (Thread.cancel_handler (Handler.thread p))); [|lia]. simpl.
    unfold Handler.JM_RETURN. simpl.
    specialize (Hex (Thread.cancel_handler (Handler.thread p) - 1)).
    destruct t1; simpl in *. rewrite Hex. simpl.
    eexists. split; [reflexivity|]. simpl. repeat split; done.
Qed.

Lemma C5_fault_at_address_zero :
  exists p',
    Handler.jm_signal_handler Handler.fifo_policy Examples.globals
      Examples.every_call_succeeds (Examples.pager Examples.user_thread) SIGSEGV 0
      = Returns p' /\
    Handler.dispositions p' SIGSEGV = Examples.action 4202496 /\
    Handler.trace p' = [Original_sigaction SIGSEGV (Some (Examples.action 4202496))].
Proof.
  destruct (C5_fault_outside_region_restores_previous_handler Handler.fifo_policy
              Examples.globals Examples.every_call_succeeds
              (Examples.pager Examples.user_thread) SIGSEGV 0) as [Hout _].
  { split; [simpl; lia|]. split; [discriminate|simpl; lia]. }
  { simpl. lia. }
  destruct Hout as (p' & Hcall & Hdisp & Htrace & _).
  { simpl. lia. }
  { left. vm_compute. reflexivity. }
  { reflexivity. }
  exists p'. split; [exact Hcall|]. split; [exact Hdisp|exact Htrace].
Defined.

(* C5 as stated fails: a thread that has been told to leave the handler
   returns from a fault outside the region with the library's handler
   still installed and the saved sigaction never called. *)
Lemma C5_cancelled_thread_keeps_the_handler :
  Handler.round_to_page Examples.globals 0 < memregion Examples.globals /\
  exists p',
    Handler.jm_signal_handler Handler.fifo_policy Examples.globals
      Examples.every_call_succeeds (Examples.pager Examples.cancelled_thread) SIGSEGV 0
      = Returns p' /\
    Handler.dispositions p' SIGSEGV <> Handler.jm_prev_segfaulter p' /\
    Handler.dispositions p' SIGSEGV = Examples.action 4198400 /\
    Handler.trace p' = [].
Proof.
  split; [vm_compute; reflexivity|].
  eexists. split; [vm_compute; reflexivity|].
  split; [discriminate|]. split; reflexivity.
Qed.

(** ** mmap() *)

Module MmapFacts.
Import Mmap.

(* What jm_mmap does with the answers of libc's mmap(). *)
Lemma external_call g sys t length prot flags fd offset :
  is_internal g = 0 -> Thread.in_user_code t -> 0 < ospagesize g -> have_mmap sys = true ->
  let m := jm_mmap g sys t NULL length prot flags fd offset in
  let above := original_mmap sys (memregion g + extent g) length prot flags fd offset in
  (exists addr, m = Returns (addr, {| Thread.blocked := 0; Thread.internal_depth := 0;
                                      Thread.cancel_handler := Thread.cancel_handler t;
                                      Thread.megalock := false |}) /\
     addr <> MAP_FAILED /\ in_region g addr = false) \/
  (aborts m /\ (above = MAP_FAILED \/ in_region g above = true)).
Proof.
  intros Hi Hu Hos Hhave m above.
  destruct (ThreadFacts.enter_exit _ (ThreadFacts.user_code_well_formed _ Hu))
    as (t1 & Hen & Hd & Hc & Hex).
  destruct Hu as [H0 Hl].
  specialize (Hex (Thread.cancel_handler t1)).
  assert (Hexit : Thread.jm_exit_critical_section t1 =
                  Returns {| Thread.blocked := 0; Thread.internal_depth := 0;
                             Thread.cancel_handler := Thread.cancel_handler t;
                             Thread.megalock := false |}).
  { destruct t1; simpl in *. rewrite Hex. rewrite H0, Hl, Hc. done. }
  subst m. unfold jm_mmap. rewrite Hen. simpl. rewrite Hhave. simpl.
  rewrite (ThreadFacts.external_invocation g _ t1 Hi H0 Hd). simpl.
  destruct (Z.eqb_spec (ospagesize g) 0); [lia|].
  set (dataend := wrap64 ((wrap64 (sbrk0 sys - 1) / ospagesize g + 1) * ospagesize g)).
  set (fixed := original_mmap sys dataend length prot (Z.lor flags MAP_FIXED) fd offset).
  assert (Habove :
    (exists addr, (if above =? MAP_FAILED
                   then Aborts "mmap() failed to allocate bytes at or above address"
                   else if in_region g above
                        then Aborts "Failed to prevent mmap() from allocating bytes within the region"
                        else t2 ← Thread.jm_exit_critical_section t1; Returns (above, t2))
                  = Returns (addr, {| Thread.blocked := 0; Thread.internal_depth := 0;
                                      Thread.cancel_handler := Thread.cancel_handler t;
                                      Thread.megalock := false |}) /\
       addr <> MAP_FAILED /\ in_region g addr = false) \/
    (aborts (if above =? MAP_FAILED
             then Aborts "mmap() failed to allocate bytes at or above address"
             else if in_region g above
                  then Aborts "Failed to prevent mmap() from allocating bytes within the region"
                  else t2 ← Thread.jm_exit_critical_section t1; Returns (above, t2)) /\
     (above = MAP_FAILED \/ in_region g above = true))).
  { destruct (Z.eqb_spec above MAP_FAILED) as [Hf|Hf].
    - right. split; [eexists; done|auto].
    - destruct (in_region g above) eqn:Hin.
      + right. split; [eexists; done|auto].
      + left. rewrite Hexit. simpl. eauto. }
  destruct (wrap64 (dataend + length) <? memregion g); [|exact Habove].
  destruct (brk sys (wrap64 (dataend + length)) =? 0); [|exact Habove].
  destruct (Z.eqb_spec fixed MAP_FAILED) as [Hf|Hf]; simpl; [exact Habove|].
  destruct (in_region g fixed) eqn:Hin; simpl; [exact Habove|].
  left. rewrite Hexit. simpl. eauto.
Qed.

End MmapFacts.

(* What jm_mmap does check.  A call of mmap() from user code with a NULL
   start either returns or aborts; the address it returns is never
   MAP_FAILED and never lies inside [memregion, memregion+extent); it
   aborts only if libc's mmap(), asked for a mapping at memregion+extent,
   failed or answered with an address inside the region.  Only the start
   of the mapping is compared with the region. *)
Theorem C6_mmap_never_starts_inside_region (g : JUMBOMEM_GLOBALS) (sys : Mmap.system)
    (t : Thread.THREAD_INFO) (length prot flags fd offset : Z) :
  is_internal g = 0 -> Thread.in_user_code t -> 0 < ospagesize g ->
  Mmap.have_mmap sys = true ->
  let m := Mmap.mmap g sys t NULL length prot flags fd offset in
  (returns m \/ aborts m) /\
  (forall addr t', m = Returns (addr, t') ->
     addr <> MAP_FAILED /\ ~ (memregion g <= addr < memregion g + extent g)) /\
  (aborts m ->
     let above := Mmap.original_mmap sys (memregion g + extent g) length prot flags fd offset in
     above = MAP_FAILED \/ memregion g <= above < memregion g + extent g).
Proof.
  intros Hi Hu Hos Hhave m. unfold Mmap.mmap in m.
  assert (Hreg : forall a, Mmap.in_region g a = true <-> memregion g <= a < memregion g + extent g).
  { intros a. unfold Mmap.in_region. rewrite andb_true_iff, Z.leb_le, Z.ltb_lt. done. }
  destruct (MmapFacts.external_call g sys t length prot flags fd offset Hi Hu Hos Hhave)
    as [(addr & Hm & Hnf & Hout)|([msg Hm] & Habove)]; fold m in Hm.
  - split; [left; eexists; done|]. split.
    + intros addr' t' Heq. rewrite Hm in Heq. inversion Heq; subst. split; [done|].
      intros Hin. apply Hreg in Hin. congruence.
    + intros [msg Hab]. congruence.
  - split; [right; eexists; done|]. split.
    + intros addr' t' Heq. congruence.
    + intros _. simpl. destruct Habove as [?|Hin]; [left; done|right; apply Hreg; done].
Qed.

Lemma C6_mapping_below_the_region :
  exists t',
    Mmap.mmap Examples.globals Examples.kernel Examples.user_thread NULL 8192 3 34 (-1) 0
      = Returns (1044480, t') /\
    ~ (memregion Examples.globals <= 1044480
       < memregion Examples.globals + extent Examples.globals).
Proof.
  destruct (C6_mmap_never_starts_inside_region Examples.globals Examples.kernel
              Examples.user_thread 8192 3 34 (-1) 0) as (_ & Hret & _);
    [reflexivity | split; reflexivity | simpl; lia | reflexivity |].
  eexists. split; [vm_compute; reflexivity|].
  eapply Hret. vm_compute. reflexivity.
Defined.

(** C6.  jm_mmap hands back a mapping that reaches into the managed
    region.  The data segment ends two pages below memregion, so a
    request of two pages with a NULL start does not fit below the region
    and jm_mmap asks libc's mmap() with the hint memregion+extent; libc
    answers with the address one page below memregion.  The test that
    follows looks at that address only, not at the address plus the
    length as the test of the branch below the region does, and the call
    returns the address: the second page of the mapping is the first
    page of the region. *)
Lemma C6_returned_mapping_overlaps_region :
  exists t',
    Mmap.mmap Examples.globals Examples.kernel Examples.user_thread NULL 8192 3 34 (-1) 0
      = Returns (1044480, t') /\
    Mmap.overlaps_region Examples.globals 1044480 8192.
Proof.
  eexists. split; [vm_compute; reflexivity|].
  exists 1048576. simpl. lia.
Qed.

(** ** The minimum page size *)

(** C9 (as amended).  On its first call (the static min_page_size is
    still 0), with max_map_count >= 1 read from the kernel, available
    memory P and no overflow of size_t, jm_get_minimum_jm_page_size
    returns the larger of ospagesize and
    ceil((P div max_map_count) / ospagesize) * ospagesize, which is the
    formula itself as soon as P >= max_map_count, and remembers it: every
    later call returns the remembered value.  It returns 0 when
    max_map_count cannot be determined and nothing is remembered. *)
Theorem C9_minimum_page_size (g : JUMBOMEM_GLOBALS) (file : option (option Z)) (P : Z) :
  0 < ospagesize g -> 0 <= P ->
  P / Sysinfo.jm_get_maximum_map_count file + ospagesize g <= 2 ^ 64 ->
  let m := Sysinfo.jm_get_maximum_map_count file in
  (1 <= m ->
     let v := Z.max (ospagesize g) (Sysinfo.spec_min_page_size P m (ospagesize g)) in
     Sysinfo.jm_get_minimum_jm_page_size g 0 file (Returns P) = Returns (v, v) /\
     (m <= P -> v = Sysinfo.spec_min_page_size P m (ospagesize g)) /\
     forall file' physmem',
       Sysinfo.jm_get_minimum_jm_page_size g v file' physmem' = Returns (v, v)) /\
  (m < 1 -> forall physmem,
     Sysinfo.jm_get_minimum_jm_page_size g 0 file physmem = Returns (0, 0)).
Proof.
  intros Hos HP Hno m. subst m.
  set (m := Sysinfo.jm_get_maximum_map_count file) in *. split.
  - intros Hm. unfold Sysinfo.jm_get_minimum_jm_page_size. fold m. simpl.
    destruct (Z.ltb_spec m 1); [lia|]. simpl.
    destruct (Z.eqb_spec (ospagesize g) 0); [lia|].
    assert (Hq : 0 <= P / m) by (apply Z.div_pos; lia).
    rewrite (wrap64_small (P / m + ospagesize g - 1)) by lia.
    assert (Hr : 0 <= (P / m + ospagesize g - 1) / ospagesize g * ospagesize g
                 <= P / m + ospagesize g - 1).
    { split.
      - apply Z.mul_nonneg_nonneg; [apply Z.div_pos|]; lia.
      - rewrite Z.mul_comm. apply Z.mul_div_le. lia. }
    rewrite wrap64_small by lia.
    fold (Sysinfo.spec_min_page_size P m (ospagesize g)) in *.
    set (s := Sysinfo.spec_min_page_size P m (ospagesize g)) in *.
    assert (Hv : (if s <? ospagesize g then ospagesize g else s) = Z.max (ospagesize g) s).
    { destruct (Z.ltb_spec s (ospagesize g)); lia. }
    rewrite Hv. split; [done|]. split.
    + intros HmP.
      assert (1 <= P / m) by (apply Z.div_le_lower_bound; lia).
      assert (1 <= (P / m + ospagesize g - 1) / ospagesize g).
      { apply Z.div_le_lower_bound; lia. }
      unfold s, Sysinfo.spec_min_page_size. nia.
    + intros file' physmem'.
      destruct (Z.eqb_spec (Z.max (ospagesize g) s) 0); [lia|]. done.
  - intros Hm physmem. unfold Sysinfo.jm_get_minimum_jm_page_size. fold m. simpl.
    destruct (Z.ltb_spec m 1); [done|lia].
Qed.

Lemma C9_eight_gibibytes :
  Sysinfo.jm_get_minimum_jm_page_size Examples.globals 0 (Some (Some 65530))
    (Returns 8589934592) = Returns (135168, 135168) /\
  Sysinfo.spec_min_page_size 8589934592 65530 4096 = 135168.
Proof.
  destruct (C9_minimum_page_size Examples.globals (Some (Some 65530)) 8589934592)
    as [Hknown _]; [reflexivity | lia | vm_compute; discriminate |].
  destruct Hknown as (Hcall & Heq & _); [vm_compute; discriminate|].
  split; [exact Hcall|reflexivity].
Defined.

(* C9 as stated fails: with no memory available the function returns the
   OS page size, where the formula gives 0 however its quotients are
   read. *)
Lemma C9_result_is_at_least_one_os_page :
  Sysinfo.jm_get_minimum_jm_page_size Examples.globals 0 (Some (Some 65530)) (Returns 0)
    = Returns (4096, 4096) /\
  1 <= Sysinfo.jm_get_maximum_map_count (Some (Some 65530)) /\
  Sysinfo.spec_min_page_size 0 65530 (ospagesize Examples.globals) = 0 /\
  Sysinfo.spec_min_page_size_exact 0 65530 (ospagesize Examples.globals) = 0.
Proof.
  split; [reflexivity|]. split; [vm_compute; discriminate|]. split; reflexivity.
Qed.

(** ** The adaptive chunker of read() and write() *)

Module ChunkerFacts.
Import Chunker.

Lemma chunk_loop_run fuel g function baseaddr totalcount :
  forall l k log ret log',
  chunk_loop fuel g function baseaddr totalcount l k log = Returns (ret, log') ->
  exists ext lf, log' = log ++ ext /\ run_from g baseaddr totalcount l ext lf /\
    ret = PageTable.to_long (bytesdone lf).
Proof.
  induction fuel as [|fuel IH]; intros l k log ret log' H; simpl in H; [discriminate|].
  destruct (Z.ltb_spec (bytesdone l) totalcount) as [Hlt|Hge].
  - destruct (adjust g l) as [l1|] eqn:Ea.
    + apply IH in H. destruct H as (ext & lf & -> & Hrun & ->).
      eexists (_ :: ext), lf. rewrite <- app_assoc. simpl. split; [done|]. split; [|done].
      eapply run_step; eauto.
    + inversion H; subst. exists [], l. rewrite app_nil_r. split; [done|].
      split; [|done]. apply run_done. auto.
  - inversion H; subst. exists [], l. rewrite app_nil_r. split; [done|].
    split; [|done]. apply run_done. auto.
Qed.














End ChunkerFacts.




(** ** The chains of the page table *)

Module PageTableChains.
Import PageTable.

Lemma chain_set_chain pt cn c d cn' :
  chain (set_chain pt cn c d) cn' = if decide (cn = cn') then c else chain pt cn'.
Proof.
  unfold chain, set_chain. simpl. rewrite lookup_insert.
  destruct (decide (cn = cn')); done.
Qed.

Lemma bucket_pagenum_Returns pt b n :
  bucket_pagenum pt b = Returns n <->
  0 <= b /\ exists e, used_pages pt !! Z.to_nat b = Some e /\ pagenum e = n.
Proof.
  unfold bucket_pagenum. split.
  - intros H. destruct (array_get (used_pages pt) b) as [e| | |] eqn:E; simpl in H; try discriminate.
    apply array_get_Returns in E. inversion H; subst. destruct E. eauto.
  - intros (H0 & e & He & <-).
    assert (E : array_get (used_pages pt) b = Returns e) by (apply array_get_Returns; done).
    rewrite E. done.
Qed.

(* unlink removes the first bucket of the chain that holds the page. *)
Lemma unlink_present pt pn c b0 e0 :
  (forall b, b ∈ c -> 0 <= b /\ exists e, used_pages pt !! Z.to_nat b = Some e) ->
  b0 ∈ c -> used_pages pt !! Z.to_nat b0 = Some e0 -> pagenum e0 = pn ->
  exists b rest e, unlink pt pn c = Returns (Some (b, rest)) /\
    c ≡ₚ b :: rest /\ used_pages pt !! Z.to_nat b = Some e /\ pagenum e = pn.
Proof.
  induction c as [|x c IH]; intros Hvalid Hin He0 Hpn.
  - apply elem_of_nil in Hin. done.
  - simpl. destruct (Hvalid x) as (Hx0 & ex & Hex); [left|].
    assert (Hbp : bucket_pagenum pt x = Returns (pagenum ex)).
    { apply bucket_pagenum_Returns. eauto. }
    rewrite Hbp. simpl.
    destruct (Z.eqb_spec (pagenum ex) pn) as [Heq|Hne].
    + exists x, c, ex. done.
    + apply elem_of_cons in Hin. destruct Hin as [->|Hin].
      { rewrite He0 in Hex. inversion Hex; subst. done. }
      destruct IH as (b & rest & e & Hu & Hperm & He & Hp); auto.
      { intros b Hb. apply Hvalid. right. done. }
      rewrite Hu. simpl. exists b, (x :: rest), e. split; [done|]. split; [|done].
      rewrite Hperm. apply Permutation_swap.
Qed.

Lemma delete_present pt pn b0 e0 :
  (forall b, b ∈ chain pt (hash_page_number pn) ->
     0 <= b /\ exists e, used_pages pt !! Z.to_nat b = Some e) ->
  dead_bucket pt = None ->
  b0 ∈ chain pt (hash_page_number pn) ->
  used_pages pt !! Z.to_nat b0 = Some e0 -> pagenum e0 = pn ->
  exists b rest e,
    delete_page_by_number pt pn = Returns (set_chain pt (hash_page_number pn) rest (Some b)) /\
    chain pt (hash_page_number pn) ≡ₚ b :: rest /\
    used_pages pt !! Z.to_nat b = Some e /\ pagenum e = pn.
Proof.
  intros Hvalid Hdead Hin He0 Hpn. unfold delete_page_by_number.
  destruct (chain pt (hash_page_number pn)) as [|first rest] eqn:Ec.
  { apply elem_of_nil in Hin. done. }
  rewrite Hdead.
  destruct (Hvalid first) as (Hf0 & ef & Hef); [left|].
  assert (Hbp : bucket_pagenum pt first = Returns (pagenum ef)).
  { apply bucket_pagenum_Returns. eauto. }
  rewrite Hbp. simpl.
  destruct (Z.eqb_spec (pagenum ef) pn) as [Heq|Hne].
  - exists first, rest, ef. done.
  - apply elem_of_cons in Hin. destruct Hin as [->|Hin].
    { rewrite He0 in Hef. inversion Hef; subst. done. }
    destruct (unlink_present pt pn rest b0 e0) as (b & rest' & e & Hu & Hperm & He & Hp); auto.
    { intros b Hb. apply Hvalid. right. done. }
    rewrite Hu. simpl. exists b, (first :: rest'), e. split; [done|]. split; [|done].
    rewrite Hperm. apply Permutation_swap.
Qed.

Lemma chains_ok_ext pt (live live' : Z -> Prop) :
  (forall b, live b <-> live' b) -> chains_ok pt live -> chains_ok pt live'.
Proof.
  intros Hext (Hv & Hc & Hn). split; [|split]; [| |done].
  - intros c b Hb. destruct (Hv c b Hb) as (Hl & H0 & He). split; [apply Hext; done|done].
  - intros b e Hl H0 He. apply Hc; [apply Hext; done|done|done].
Qed.

Lemma delete_chains_ok pt live b0 e0 :
  chains_ok pt live -> dead_bucket pt = None ->
  live b0 -> 0 <= b0 -> used_pages pt !! Z.to_nat b0 = Some e0 ->
  exists pt' b e,
    delete_page_by_number pt (pagenum e0) = Returns pt' /\
    live b /\ 0 <= b /\ used_pages pt !! Z.to_nat b = Some e /\ pagenum e = pagenum e0 /\
    chains_ok pt' (fun x => live x /\ x <> b) /\
    dead_bucket pt' = Some b /\ used_pages pt' = used_pages pt /\
    num_used pt' = num_used pt /\ table_size pt' = table_size pt /\
    payload_bytes pt' = payload_bytes pt.
Proof.
  intros (Hv & Hc & Hn) Hdead Hl0 H00 He0.
  remember (pagenum e0) as pn eqn:Epn. remember (hash_page_number pn) as h eqn:Eh.
  assert (Hvalid : forall b, b ∈ chain pt h ->
            0 <= b /\ exists e, used_pages pt !! Z.to_nat b = Some e).
  { intros b Hb. destruct (Hv _ _ Hb) as (_ & ? & e & ? & _). eauto. }
  assert (Hin0 : b0 ∈ chain pt h).
  { subst h pn. apply (Hc _ _ Hl0 H00 He0). }
  subst h.
  destruct (delete_present pt pn b0 e0 Hvalid Hdead Hin0 He0 (eq_sym Epn))
    as (b & rest & e & Hdel & Hperm & He & Hp).
  remember (hash_page_number pn) as h eqn:Eh.
  assert (Hbin : b ∈ chain pt h). { rewrite Hperm. left. }
  assert (Hnd : NoDup (b :: rest)). { rewrite <- Hperm. apply Hn. }
  apply NoDup_cons in Hnd. destruct Hnd as [Hnotin Hndr].
  destruct (Hv _ _ Hbin) as (Hlb & Hb0 & eb & Heb & Hhb).
  eexists _, b, e. split; [exact Hdel|].
  split; [done|]. split; [done|]. split; [done|]. split; [done|].
  split; [|simpl; done].
  split; [|split].
  - intros c x Hx. rewrite chain_set_chain in Hx. destruct (decide (h = c)) as [<-|Hne].
    + assert (Hxin : x ∈ chain pt h). { rewrite Hperm. right. done. }
      destruct (Hv _ _ Hxin) as (? & ? & ?).
      split; [split; [done|]|done]. intros ->. done.
    + destruct (Hv _ _ Hx) as (? & ? & ex & Hex & Hhx).
      split; [split; [done|]|eauto]. intros ->.
      rewrite Hex in Heb. inversion Heb; subst. done.
  - intros x ex [Hlx Hxb] Hx0 Hex. simpl in Hex.
    rewrite chain_set_chain. specialize (Hc x ex Hlx Hx0 Hex).
    destruct (decide (h = hash_page_number (pagenum ex))) as [Heq|Hne]; [|done].
    rewrite <- Heq in Hc. rewrite Hperm in Hc. apply elem_of_cons in Hc.
    destruct Hc; [done|done].
  - intros c. rewrite chain_set_chain. destruct (decide (h = c)); [done|apply Hn].
Qed.

Lemma stored_page_bounds g a :
  0 < pagesize g ->
  0 <= wrap32 (GET_PAGE_NUMBER g a) < 2 ^ 32 /\
  wrap32 (GET_PAGE_NUMBER g a) * pagesize g < 2 ^ 64.
Proof.
  intros Hps. split; [apply wrap32_range|].
  unfold GET_PAGE_NUMBER.
  pose proof (wrap64_range (a - memregion g)) as Hw.
  set (w := wrap64 (a - memregion g)) in *.
  assert (Hq : 0 <= w / pagesize g) by (apply Z.div_pos; lia).
  assert (Hle : wrap32 (w / pagesize g) <= w / pagesize g).
  { unfold wrap32. apply Z.mod_le; lia. }
  assert (Hm : pagesize g * (w / pagesize g) <= w) by (apply Z.mul_div_le; lia).
  pose proof (wrap32_range (w / pagesize g)). nia.
Qed.

Lemma page_number_of_page_address g pn :
  0 < pagesize g -> 0 <= pn < 2 ^ 32 -> pn * pagesize g < 2 ^ 64 ->
  wrap32 (GET_PAGE_NUMBER g (page_address g pn)) = pn.
Proof.
  intros Hps Hpn Hlt. unfold GET_PAGE_NUMBER, page_address.
  replace (memregion g + pn * pagesize g - memregion g) with (pn * pagesize g) by lia.
  rewrite wrap64_small by nia. rewrite Z.div_mul by lia. apply wrap32_small. done.
Qed.

Lemma insert_chains_ok g pt live address :
  0 < pagesize g ->
  chains_ok pt live -> entries_ok g pt ->
  num_used pt <> table_size pt ->
  let slot := match dead_bucket pt with Some b => b | None => num_used pt end in
  ~ live slot -> 0 <= slot < Z.of_nat (length (used_pages pt)) ->
  exists pt',
    jm_page_table_insert g pt address None = Returns pt' /\
    chains_ok pt' (fun x => live x \/ x = slot) /\ entries_ok g pt' /\
    dead_bucket pt' = None /\ num_used pt' = wrap64 (num_used pt + 1) /\
    table_size pt' = table_size pt /\
    length (used_pages pt') = length (used_pages pt).
Proof.
  intros Hps (Hv & Hc & Hn) Hent Hnf slot Hnl Hslot.
  unfold jm_page_table_insert.
  destruct (Z.eqb_spec (num_used pt) (table_size pt)); [done|].
  fold slot.
  destruct (array_get_in_range (used_pages pt) slot Hslot) as (old & Hget & Hold).
  rewrite Hget. simpl. rewrite array_set_in_range by done. simpl.
  set (pn := wrap32 (GET_PAGE_NUMBER g address)).
  set (e' := {| pagenum := pn; payload := payload old |}).
  set (used' := <[Z.to_nat slot := e']> (used_pages pt)).
  assert (Hl' : used' !! Z.to_nat slot = Some e').
  { apply list_lookup_insert_eq. lia. }
  unfold insert_pte, bucket_pagenum.
  assert (Hget' : array_get (used_pages (set_used_pages pt used')) slot = Returns e').
  { apply array_get_Returns. simpl. split; [lia|done]. }
  rewrite Hget'. simpl.
  eexists. split; [reflexivity|]. simpl.
  assert (Hother : forall b, 0 <= b -> b <> slot -> used' !! Z.to_nat b = used_pages pt !! Z.to_nat b).
  { intros b Hb0 Hne. apply list_lookup_insert_ne. intros Heq. apply Z2Nat.inj in Heq; lia. }
  assert (Hch : forall c, chain (set_num_used (set_chain (set_used_pages pt used')
                     (hash_page_number pn) (slot :: chain (set_used_pages pt used') (hash_page_number pn)) None)
                     (wrap64 (num_used pt + 1))) c
                = if decide (hash_page_number pn = c) then slot :: chain pt c else chain pt c).
  { intros c. unfold chain. simpl. rewrite lookup_insert.
    destruct (decide (hash_page_number pn = c)) as [<-|]; done. }
  split; [|split; [|split; [done|split; [done|split; [done|]]]]].
  - split; [|split].
    + intros c b Hb. rewrite Hch in Hb.
      assert (Hcases : (b = slot /\ hash_page_number pn = c) \/ b ∈ chain pt c).
      { destruct (decide (hash_page_number pn = c)); [|auto].
        apply elem_of_cons in Hb. destruct Hb; auto. }
      destruct Hcases as [[-> <-]|Hb'].
      * split; [auto|]. split; [lia|]. exists e'. done.
      * destruct (Hv _ _ Hb') as (Hlb & Hb0 & eb & Heb & Hhb).
        split; [auto|]. split; [done|]. exists eb. split; [|done].
        simpl. rewrite Hother; [done|done|]. intros ->. done.
    + intros b e [Hlb| ->] Hb0 He; simpl in He; rewrite Hch.
      * assert (Hne : b <> slot) by (intros ->; done).
        rewrite Hother in He by done.
        specialize (Hc b e Hlb Hb0 He).
        destruct (decide _); [right|]; done.
      * rewrite Hl' in He. inversion He; subst. simpl.
        destruct (decide _); [left|done].
    + intros c. rewrite Hch. destruct (decide _); [|apply Hn].
      apply NoDup_cons. split; [|apply Hn].
      intros Hin. destruct (Hv _ _ Hin) as (? & _). done.
  - intros i e He. simpl in He. unfold used' in He.
    destruct (decide (i = Z.to_nat slot)) as [->|Hne].
    + rewrite list_lookup_insert_eq in He by lia. inversion He; subst. simpl.
      apply stored_page_bounds. done.
    + rewrite list_lookup_insert_ne in He by done. eapply Hent; eauto.
  - simpl. unfold used'. apply length_insert.
Qed.

End PageTableChains.

(** ** The states the NRE policy reaches *)

Module NreFacts.
Import Nre.

Lemma nre_scan_queue_cases fuel st randnum :
  1 <= evict_len st -> Z.of_nat (length (evicted_pages st)) = evict_len st ->
  forall i, 0 <= i < evict_len st ->
  scan_queue fuel st randnum i = Unfinished \/
  exists j found, scan_queue fuel st randnum i = Returns (j, found) /\ 0 <= j < evict_len st.
Proof.
  intros Hlen Hl. induction fuel as [|fuel IH]; intros i Hi; simpl; [auto|].
  destruct (Z.eqb_spec i (evict_tail st)); [right; eauto|].
  destruct (array_get_in_range (evicted_pages st) i) as (e & Hget & _); [lia|].
  rewrite Hget. simpl.
  destruct (e =? randnum); [right; eauto|].
  destruct (Z.eqb_spec (evict_len st) 0); [lia|].
  apply IH. apply Z.mod_pos_bound. lia.
Qed.

#[local] Arguments scan_queue : simpl never.

Lemma nre_choose_victim_cases fuel g rng st :
  inv g st -> num_used st = total_pages st ->
  forall pos retries cur,
  (cur = None -> retries <= max_retries st) ->
  (forall rn ev, cur = Some (rn, ev) -> candidate g st rn ev) ->
  choose_victim fuel g rng st pos retries cur = Unfinished \/
  exists rn ev pos', choose_victim fuel g rng st pos retries cur = Returns (rn, ev, pos') /\
    candidate g st rn ev.
Proof.
  intros Hinv Hfull.
  destruct Hinv as (Hps & HN & Hnu & Hts & Hr & Hlen & Hdead & Hch & Hent & Hel & Hql & Hh & Ht & Hmr).
  induction fuel as [|fuel IH]; intros pos retries cur Hnone Hsome; simpl; [auto|].
  destruct (Z.leb_spec retries (max_retries st)) as [Hle|Hgt].
  - destruct (Z.eqb_spec (num_used st) 0); [lia|].
    pose proof (scale_random_range (rng pos) (num_used st) ltac:(lia)) as Hrn.
    set (rn := scale_random (rng pos) (num_used st)) in *.
    pose proof (wrap32_le rn ltac:(lia)) as Hw.
    unfold PageTable.jm_page_table_offset.
    destruct (Z.leb_spec (PageTable.num_used (page_table st)) (wrap32 rn)); [lia|].
    destruct (array_get_in_range (PageTable.used_pages (page_table st)) (wrap32 rn))
      as (e & Hget & He); [lia|].
    rewrite Hget. simpl.
    assert (Hcand : candidate g st rn (page_address g (PageTable.pagenum e))).
    { split; [done|]. exists e. done. }
    destruct (nre_scan_queue_cases (S fuel) st rn Hel Hql (evict_head st) Hh)
      as [Hu|(j & found & Hs & Hj)].
    + rewrite Hu. simpl. auto.
    + rewrite Hs. simpl.
      destruct (array_get_in_range (evicted_pages st) j) as (x & Hgx & _); [lia|].
      rewrite Hgx. simpl.
      destruct (x =? rn); simpl.
      * apply IH; [discriminate|]. intros rn' ev' Heq. inversion Heq; subst. done.
      * right. eauto.
  - destruct cur as [[rn ev]|].
    + right. eexists _, _, _. split; [reflexivity|]. apply Hsome. done.
    + specialize (Hnone eq_refl). lia.
Qed.

Lemma nre_chains_ok_set_num_used pt n live :
  PageTable.chains_ok pt live -> PageTable.chains_ok (PageTable.set_num_used pt n) live.
Proof. intros H. exact H. Qed.

Lemma nre_fill_step fuel g rng st p :
  inv g st -> num_used st < total_pages st ->
  exists st', jm_find_replacement_page fuel g rng st p =
      Returns ({| newprot := Z.lor PROT_READ PROT_WRITE; evictable_page := NULL;
                  clean := Some 0 |}, st') /\
    inv g st' /\ num_used st' = num_used st + 1 /\ total_pages st' = total_pages st /\
    draws st' = draws st.
Proof.
  intros Hinv Hlt.
  destruct Hinv as (Hps & HN & Hnu & Hts & Hr & Hlen & Hdead & Hch & Hent & Hel & Hql & Hh & Ht & Hmr).
  unfold jm_find_replacement_page.
  destruct (Z.ltb_spec (num_used st) (total_pages st)); [|lia].
  destruct (PageTableChains.insert_chains_ok g (page_table st) _ p Hps Hch Hent)
    as (pt' & Hins & Hch' & Hent' & Hdead' & Hnu' & Hts' & Hlen').
  { lia. }
  { rewrite Hdead. lia. }
  { rewrite Hdead. lia. }
  rewrite Hins. simpl. eexists. split; [reflexivity|].
  rewrite Hdead in Hch'.
  split; [|simpl; done].
  unfold inv; simpl.
  rewrite Hnu', Hts', Hlen', <- Hnu, wrap64_small by lia.
  conjuncts; try lia; try done.
  refine (PageTableChains.chains_ok_ext _ _ _ _ Hch'). intros b. simpl. lia.
Qed.

Lemma nre_full_step_rest fuel g rng st p rn ev pos' :
  inv g st -> num_used st = total_pages st ->
  choose_victim fuel g rng st (draws st) 0 None = Returns (rn, ev, pos') ->
  candidate g st rn ev ->
  exists r st', jm_find_replacement_page fuel g rng st p = Returns (r, st') /\
    inv g st' /\ num_used st' = num_used st /\ total_pages st' = total_pages st /\
    exists e, evictable_page r = page_address g (PageTable.pagenum e) /\
              0 <= PageTable.pagenum e.
Proof.
  intros Hinv Hfull Hcv (Hrn & e & He & Hev).
  destruct Hinv as (Hps & HN & Hnu & Hts & Hr & Hlen & Hdead & Hch & Hent & Hel & Hql & Hh & Ht & Hmr).
  unfold jm_find_replacement_page.
  destruct (Z.ltb_spec (num_used st) (total_pages st)); [lia|].
  rewrite Hcv. simpl.
  rewrite array_set_in_range by lia. simpl.
  destruct (Z.eqb_spec (evict_len st) 0); [lia|].
  pose proof (wrap32_le rn ltac:(lia)) as Hw.
  destruct (Hent _ _ He) as [Hpn Hpb].
  (* the delete finds the page *)
  destruct (PageTableChains.delete_chains_ok (page_table st) _ (wrap32 rn) e Hch Hdead)
    as (pt1 & b & eb & Hdel & Hlb & Hb0 & Heb & Hpeq & Hch1 & Hdead1 & Hu1 & Hnu1 & Hts1 & _);
    [lia|lia|done|].
  unfold PageTable.jm_page_table_delete.
  rewrite Hev, PageTableChains.page_number_of_page_address by done.
  rewrite Hdel. simpl.
  (* the insert recycles the detached entry *)
  set (pt1' := PageTable.set_num_used pt1 (wrap64 (PageTable.num_used pt1 - 1))).
  assert (Hn1 : PageTable.num_used pt1' = total_pages st - 1).
  { unfold pt1'. simpl. rewrite Hnu1, <- Hnu, Hfull. apply wrap64_small. lia. }
  destruct (PageTableChains.insert_chains_ok g pt1' _ p Hps (nre_chains_ok_set_num_used _ _ _ Hch1))
    as (pt2 & Hins & Hch2 & Hent2 & Hdead2 & Hnu2 & Hts2 & Hlen2).
  { intros i x Hx. unfold pt1' in Hx. simpl in Hx. rewrite Hu1 in Hx. eapply Hent; eauto. }
  { rewrite Hn1. unfold pt1'. simpl. lia. }
  { unfold pt1'. simpl. rewrite Hdead1. tauto. }
  { unfold pt1'. simpl. rewrite Hdead1, Hu1. lia. }
  rewrite Hins. simpl. eexists _, _. split; [reflexivity|]. simpl.
  split; [|split; [done|split; [done|exists e; split; [done|lia]]]].
  unfold inv; simpl.
  assert (Hlen2' : Z.of_nat (length (PageTable.used_pages pt2)) = total_pages st).
  { rewrite Hlen2. unfold pt1'. simpl. rewrite Hu1. done. }
  assert (Hnum2 : PageTable.num_used pt2 = total_pages st).
  { rewrite Hnu2, Hn1. rewrite wrap64_small by lia. lia. }
  assert (Hts2' : PageTable.table_size pt2 = total_pages st).
  { rewrite Hts2. unfold pt1'. simpl. lia. }
  rewrite length_insert.
  assert (Hmod : forall x, 0 <= x mod evict_len st < evict_len st)
    by (intros; apply Z.mod_pos_bound; lia).
  conjuncts; try lia; try done; try apply Hmod.
  - refine (PageTableChains.chains_ok_ext _ _ _ _ Hch2). intros x. simpl.
    unfold pt1'. simpl. rewrite Hdead1. simpl in Hlb. split.
    + intros [[? ?]| ->]; lia.
    + intros. destruct (Z.eq_dec x b); [right; done|left; lia].
  - destruct (_ =? _); [apply Hmod|lia].
  - destruct (_ =? _); [apply Hmod|lia].
Qed.

Lemma nre_full_step fuel g rng st p :
  inv g st -> num_used st = total_pages st ->
  jm_find_replacement_page fuel g rng st p = Unfinished \/
  exists r st', jm_find_replacement_page fuel g rng st p = Returns (r, st') /\
    inv g st' /\ num_used st' = num_used st /\ total_pages st' = total_pages st /\
    exists e, evictable_page r = page_address g (PageTable.pagenum e) /\
              0 <= PageTable.pagenum e.
Proof.
  intros Hinv Hfull.
  destruct (nre_choose_victim_cases fuel g rng st Hinv Hfull (draws st) 0 None)
    as [Hu|(rn & ev & pos' & Hcv & Hcand)].
  { intros _. destruct Hinv as (_ & _ & _ & _ & _ & _ & _ & _ & _ & _ & _ & _ & _ & ?). done. }
  { intros ? ? ?. discriminate. }
  { left. unfold jm_find_replacement_page.
    destruct (Z.ltb_spec (num_used st) (total_pages st)); [lia|]. rewrite Hu. done. }
  right. eapply nre_full_step_rest; eauto.
Qed.

(* The search of the queue ends within evict_len steps. *)
Lemma nre_scan_queue_total st rn :
  1 <= evict_len st -> Z.of_nat (length (evicted_pages st)) = evict_len st ->
  0 <= evict_tail st < evict_len st ->
  forall fuel i, 0 <= i < evict_len st ->
  (evict_tail st - i) mod evict_len st < Z.of_nat fuel ->
  exists j found, scan_queue fuel st rn i = Returns (j, found) /\ 0 <= j < evict_len st.
Proof.
  intros Hlen Hl Ht. induction fuel as [|fuel IH]; intros i Hi Hd.
  - pose proof (Z.mod_pos_bound (evict_tail st - i) (evict_len st)). lia.
  - unfold scan_queue; fold scan_queue.
    destruct (Z.eqb_spec i (evict_tail st)) as [->|Hne]; [eauto|].
    destruct (array_get_in_range (evicted_pages st) i) as (e & Hget & He); [lia|].
    rewrite Hget. simpl.
    destruct (Z.eqb_spec e rn); [eauto|].
    destruct (Z.eqb_spec (evict_len st) 0); [lia|].
    assert (Hm : 1 <= (evict_tail st - i) mod evict_len st).
    { destruct (Z.lt_ge_cases (evict_tail st) i).
      - rewrite <- (Z_mod_plus_full _ 1). rewrite Z.mod_small; lia.
      - rewrite Z.mod_small; lia. }
    apply IH; [apply Z.mod_pos_bound; lia|].
    rewrite Zminus_mod_idemp_r.
    replace (evict_tail st - (i + 1)) with (evict_tail st - i - 1) by lia.
    rewrite <- Zminus_mod_idemp_l.
    pose proof (Z.mod_pos_bound (evict_tail st - i) (evict_len st)).
    rewrite Z.mod_small; lia.
Qed.

(* A slot that no entry of the queue holds takes the search to
   evict_tail. *)
Lemma nre_scan_queue_absent st rn :
  1 <= evict_len st -> Z.of_nat (length (evicted_pages st)) = evict_len st ->
  0 <= evict_tail st < evict_len st ->
  forall (n fuel : nat) i, 0 <= i < evict_len st ->
  (evict_tail st - i) mod evict_len st < Z.of_nat n -> (n <= fuel)%nat ->
  rn ∉ queue_from n st i ->
  scan_queue fuel st rn i = Returns (evict_tail st, false).
Proof.
  intros Hlen Hl Ht. induction n as [|n IH]; intros fuel i Hi Hd Hf Hnot.
  - pose proof (Z.mod_pos_bound (evict_tail st - i) (evict_len st)). lia.
  - destruct fuel as [|fuel]; [lia|].
    unfold scan_queue; fold scan_queue. cbn [queue_from] in Hnot.
    destruct (Z.eqb_spec i (evict_tail st)) as [->|Hne]; [done|].
    destruct (array_get_in_range (evicted_pages st) i) as (e & Hget & He); [lia|].
    rewrite Hget. simpl. rewrite He in Hnot.
    apply not_elem_of_cons in Hnot as [Hrn Hrest].
    destruct (Z.eqb_spec e rn); [congruence|].
    destruct (Z.eqb_spec (evict_len st) 0); [lia|].
    assert (Hm : 1 <= (evict_tail st - i) mod evict_len st).
    { destruct (Z.lt_ge_cases (evict_tail st) i).
      - rewrite <- (Z_mod_plus_full _ 1). rewrite Z.mod_small; lia.
      - rewrite Z.mod_small; lia. }
    apply IH; [apply Z.mod_pos_bound; lia| |lia|done].
    rewrite Zminus_mod_idemp_r.
    replace (evict_tail st - (i + 1)) with (evict_tail st - i - 1) by lia.
    rewrite <- Zminus_mod_idemp_l.
    pose proof (Z.mod_pos_bound (evict_tail st - i) (evict_len st)).
    rewrite Z.mod_small; lia.
Qed.

(* The while loop ends at the latest with the first draw of a slot that
   lines 134-141 accept: one that no entry of the queue holds and that
   differs from the cell at evict_tail, which line 139 reads when the
   search has run through the queue. *)
Lemma nre_choose_victim_progress g rng st :
  inv g st -> num_used st = total_pages st ->
  forall (d fuel pos : nat) retries cur,
  (cur = None -> retries <= max_retries st) ->
  scale_random (rng (pos + d)%nat) (num_used st) ∉ queue st ->
  evicted_pages st !! Z.to_nat (evict_tail st)
    <> Some (scale_random (rng (pos + d)%nat) (num_used st)) ->
  (d + 1 + Z.to_nat (evict_len st) <= fuel)%nat ->
  exists rn ev pos', choose_victim fuel g rng st pos retries cur = Returns (rn, ev, pos').
Proof.
  intros Hinv Hfull.
  destruct Hinv as (Hps & HN & Hnu & Hts & Hr & Hlen & Hdead & Hch & Hent & Hel & Hql & Hh & Ht & Hmr).
  induction d as [|d IH]; intros fuel pos retries cur Hnone Hq Hcell Hfuel;
    (destruct fuel as [|fuel]; [lia|]); unfold choose_victim; fold choose_victim.
  all: destruct (Z.leb_spec retries (max_retries st)) as [Hle|Hgt];
    [|destruct cur as [[rn ev]|]; [eauto|specialize (Hnone eq_refl); lia]].
  all: destruct (Z.eqb_spec (num_used st) 0); [lia|].
  all: pose proof (scale_random_range (rng pos) (num_used st) ltac:(lia)) as Hrn.
  all: set (rn := scale_random (rng pos) (num_used st)) in *.
  all: pose proof (wrap32_le rn ltac:(lia)) as Hw.
  all: unfold PageTable.jm_page_table_offset.
  all: destruct (Z.leb_spec (PageTable.num_used (page_table st)) (wrap32 rn)); [lia|].
  all: destruct (array_get_in_range (PageTable.used_pages (page_table st)) (wrap32 rn))
      as (e & Hget & He); [lia|].
  all: rewrite Hget; simpl.
  - rewrite Nat.add_0_r in Hq, Hcell. fold rn in Hq, Hcell.
    rewrite (nre_scan_queue_absent st rn Hel Hql Ht (Z.to_nat (evict_len st)) (S fuel)
               (evict_head st) Hh); [| |lia|exact Hq].
    2:{ pose proof (Z.mod_pos_bound (evict_tail st - evict_head st) (evict_len st)). lia. }
    simpl.
    destruct (array_get_in_range (evicted_pages st) (evict_tail st)) as (x & Hgx & Hx); [lia|].
    rewrite Hgx. simpl.
    destruct (Z.eqb_spec x rn) as [Heq|Hne]; simpl; [|eauto].
    exfalso. apply Hcell. rewrite Hx. congruence.
  - destruct (nre_scan_queue_total st rn Hel Hql Ht (S fuel) (evict_head st) Hh)
      as (j & found & Hs & Hj);
      [pose proof (Z.mod_pos_bound (evict_tail st - evict_head st) (evict_len st)); lia|].
    rewrite Hs; simpl.
    destruct (array_get_in_range (evicted_pages st) j) as (x & Hgx & Hx); [lia|].
    rewrite Hgx; simpl.
    destruct (Z.eqb_spec x rn) as [Heq|Hne]; simpl; [|eauto].
    apply IH; [discriminate| | |lia].
    + replace (S pos + d)%nat with (pos + S d)%nat by lia. done.
    + replace (S pos + d)%nat with (pos + S d)%nat by lia. done.
Qed.

Lemma nre_full_step_progress g rng st p (k : nat) :
  inv g st -> num_used st = total_pages st ->
  (draws st <= k)%nat ->
  scale_random (rng k) (num_used st) ∉ queue st ->
  evicted_pages st !! Z.to_nat (evict_tail st) <> Some (scale_random (rng k) (num_used st)) ->
  exists fuel r st', jm_find_replacement_page fuel g rng st p = Returns (r, st') /\
    inv g st' /\ num_used st' = num_used st /\ total_pages st' = total_pages st /\
    exists e, evictable_page r = page_address g (PageTable.pagenum e) /\
              0 <= PageTable.pagenum e.
Proof.
  intros Hinv Hfull Hk Hq Hcell.
  assert (Hmr : 0 <= max_retries st) by (unfold inv in Hinv; tauto).
  set (fuel := ((k - draws st) + 1 + Z.to_nat (evict_len st))%nat).
  destruct (nre_choose_victim_progress g rng st Hinv Hfull (k - draws st) fuel (draws st) 0 None)
    as (rn & ev & pos' & Hcv); [done| | |lia|].
  { replace (draws st + (k - draws st))%nat with k by lia. done. }
  { replace (draws st + (k - draws st))%nat with k by lia. done. }
  destruct (nre_choose_victim_cases fuel g rng st Hinv Hfull (draws st) 0 None)
    as [Hu|(rn' & ev' & pos'' & Hcv' & Hcand)]; [done|discriminate| |].
  { rewrite Hu in Hcv. discriminate. }
  rewrite Hcv in Hcv'. inversion Hcv'; subst.
  exists fuel. eapply nre_full_step_rest; eauto.
Qed.

Lemma nre_create_page_table g explicit pt g1 :
  PageTable.jm_create_page_table g explicit 0 = Returns (pt, g1) ->
  1 <= local_pages g1 < 2 ^ 64 /\ pagesize g1 = pagesize g /\ memregion g1 = memregion g /\
  PageTable.table_size pt = local_pages g1 /\ PageTable.num_used pt = 0 /\
  PageTable.dead_bucket pt = None /\
  Z.of_nat (length (PageTable.used_pages pt)) = local_pages g1 /\
  PageTable.chains_ok pt (fun b => 0 <= b < 0) /\ PageTable.entries_ok g1 pt.
Proof.
  unfold PageTable.jm_create_page_table. intros H.
  match type of H with (if ?n <? 1 then _ else _) = _ => set (N := n) in * end.
  destruct (Z.ltb_spec N 1); [discriminate|]. inversion H; subst; clear H. simpl.
  assert (HN : N < 2 ^ 64).
  { unfold N. destruct explicit.
    - pose proof (to_long_range (local_pages g)). lia.
    - match goal with |- Z.quot ?a ?b < _ =>
        pose proof (quot_abs_le a b); pose proof (to_long_range
          (PageTable.to_long (local_pages g * pagesize g) - HASH_TABLE_SIZE * 8)) end.
      lia. }
  conjuncts; try lia; try done.
  - rewrite length_replicate. lia.
  - split; [|split].
    + intros c b Hb. unfold PageTable.chain in Hb. simpl in Hb. rewrite lookup_empty in Hb.
      simpl in Hb. apply elem_of_nil in Hb. done.
    + intros. lia.
    + intros c. unfold PageTable.chain. simpl. rewrite lookup_empty. simpl. apply NoDup_nil. done.
  - intros i e He. simpl in He. apply lookup_replicate in He. destruct He as [-> _]. simpl. lia.
Qed.

Lemma nre_getenv_nonnegative value v :
  jm_getenv_nonnegative_int value = Returns v -> -1 <= v.
Proof.
  unfold jm_getenv_nonnegative_int. destruct value as [x|]; intros H.
  - destruct (Z.ltb_spec x 0); [discriminate|]. inversion H. lia.
  - inversion H. lia.
Qed.

Lemma nre_init_inv g explicit entries retries junk st g1 :
  0 < pagesize g ->
  jm_initialize_pagereplace g explicit entries retries junk = Returns (st, g1) ->
  inv g1 st /\ num_used st = 0 /\ total_pages st = local_pages g1 /\
  pagesize g1 = pagesize g /\ memregion g1 = memregion g.
Proof.
  intros Hps H. unfold jm_initialize_pagereplace in H.
  destruct (PageTable.jm_create_page_table g explicit 0) as [[pt g0]| | |] eqn:Ec;
    simpl in H; try discriminate.
  destruct (nre_create_page_table _ _ _ _ Ec) as (HN & Hps0 & Hm0 & Hts & Hnu & Hdead & Hlen & Hch & Hent).
  destruct (Z.ltb_spec (local_pages g0) 2); [discriminate|].
  destruct (jm_getenv_nonnegative_int entries) as [en| | |] eqn:Een; simpl in H; try discriminate.
  destruct (jm_getenv_nonnegative_int retries) as [re| | |] eqn:Ere; simpl in H; try discriminate.
  apply nre_getenv_nonnegative in Een, Ere.
  match type of H with mbind _ (array_set ?a _ _) = _ =>
    destruct (array_set a 0 (wrap32 (-1))) as [ev| | |] eqn:Eset end; simpl in H;
    try discriminate.
  apply array_set_Returns in Eset. destruct Eset as [Hrange ->].
  rewrite length_fmap, length_seq in Hrange.
  inversion H; subst; clear H. simpl.
  split; [|done].
  unfold inv; simpl. rewrite length_insert, length_fmap, length_seq.
  set (len := if en =? -1 then DEFAULT_EVICT_COUNT else en) in *.
  assert (Hre : 0 <= (if re =? -1 then DEFAULT_RETRY_COUNT else re)).
  { unfold DEFAULT_RETRY_COUNT. destruct (Z.eqb_spec re (-1)); lia. }
  conjuncts; try lia; try done.
Qed.

Lemma nre_step_inv fuel g rng st p r st' :
  inv g st -> jm_find_replacement_page fuel g rng st p = Returns (r, st') ->
  inv g st' /\ total_pages st' = total_pages st.
Proof.
  intros Hinv H.
  assert (Hr : 0 <= num_used st <= total_pages st) by (unfold inv in Hinv; tauto).
  destruct (Z.lt_ge_cases (num_used st) (total_pages st)) as [Hlt|Hge].
  - destruct (nre_fill_step fuel g rng st p Hinv Hlt) as (st1 & Hs & Hi & _ & Ht & _).
    rewrite Hs in H. inversion H; subst. done.
  - destruct (nre_full_step fuel g rng st p Hinv) as [Hu|(r1 & st1 & Hs & Hi & _ & Ht & _)]; [lia| |].
    + rewrite Hu in H. discriminate.
    + rewrite Hs in H. inversion H; subst. done.
Qed.

Lemma nre_run_inv fuel g rng faults : forall st rs st',
  inv g st -> run fuel g rng st faults = Returns (rs, st') ->
  inv g st' /\ total_pages st' = total_pages st.
Proof.
  induction faults as [|p faults IH]; intros st rs st' Hinv H; simpl in H.
  - inversion H; subst. done.
  - destruct (jm_find_replacement_page fuel g rng st p) as [[r st1]| | |] eqn:Es;
      simpl in H; try discriminate.
    destruct (run fuel g rng st1 faults) as [[rs1 st2]| | |] eqn:Er; simpl in H;
      try discriminate.
    inversion H; subst.
    destruct (nre_step_inv _ _ _ _ _ _ _ Hinv Es) as [Hi1 Ht1].
    destruct (IH _ _ _ Hi1 Er) as [Hi2 Ht2]. split; [done|lia].
Qed.

Lemma nre_boot_inv fuel g explicit entries retries junk rng faults g1 rs st :
  0 < pagesize g ->
  boot fuel g explicit entries retries junk rng faults = Returns (g1, rs, st) ->
  inv g1 st /\ total_pages st = local_pages g1 /\
  pagesize g1 = pagesize g /\ memregion g1 = memregion g.
Proof.
  intros Hps H. unfold boot in H.
  destruct (jm_initialize_pagereplace g explicit entries retries junk) as [[st0 g0]| | |] eqn:Ei;
    simpl in H; try discriminate.
  destruct (run fuel g0 rng st0 faults) as [[rs1 st1]| | |] eqn:Er; simpl in H;
    try discriminate.
  inversion H; subst.
  destruct (nre_init_inv _ _ _ _ _ _ _ Hps Ei) as (Hi & _ & Ht & Hp & Hm).
  destruct (nre_run_inv _ _ _ _ _ _ _ Hi Er) as [Hi1 Ht1].
  split; [done|]. split; [lia|done].
Qed.

End NreFacts.

(** ** The states the random policy reaches *)

Module RandomFacts.
Import Random.

Lemma random_init_inv g st g1 :
  jm_initialize_pagereplace g = Returns (st, g1) ->
  inv st /\ num_used st = 0 /\ total_pages st = local_pages g1 /\
  g1 = set_prefetch_type g PREFETCH_NONE.
Proof.
  unfold jm_initialize_pagereplace. intros H.
  destruct (Z.ltb_spec (local_pages g) 2); [discriminate|].
  inversion H; subst; clear H. simpl. split; [|done].
  unfold inv; simpl. rewrite length_replicate.
  conjuncts; try lia.
  apply Forall_replicate. lia.
Qed.

Lemma random_inv_insert st i v :
  inv st -> 0 <= v ->
  Z.of_nat (length (<[i := v]> (used_pages st))) = total_pages st /\
  Forall (fun v => 0 <= v) (<[i := v]> (used_pages st)).
Proof.
  intros (HN & Hl & Hr & Hall) Hv. rewrite length_insert. split; [done|].
  apply Forall_insert; done.
Qed.

Lemma random_fill_step fuel g rng st p :
  inv st -> num_used st < total_pages st ->
  exists st', jm_find_replacement_page fuel g rng st p =
      Returns ({| newprot := Z.lor PROT_READ PROT_WRITE; evictable_page := NULL;
                  clean := Some 0 |}, st') /\
    inv st' /\ num_used st' = num_used st + 1 /\ total_pages st' = total_pages st.
Proof.
  intros Hinv Hlt. pose proof Hinv as (HN & Hl & Hr & Hall).
  unfold jm_find_replacement_page.
  destruct (Z.ltb_spec (num_used st) (total_pages st)); [|lia].
  rewrite array_set_in_range by lia. simpl.
  eexists. split; [reflexivity|]. simpl. split; [|done].
  destruct (random_inv_insert st (Z.to_nat (num_used st)) (wrap32 (GET_PAGE_NUMBER g p)) Hinv)
    as [Hl' Hall']; [apply wrap32_range|].
  unfold inv; simpl. conjuncts; try lia; done.
Qed.

Lemma random_choose_victim_cases fuel g rng st :
  inv st -> num_used st = total_pages st ->
  forall pos,
  choose_victim fuel g rng st pos = Unfinished \/
  exists rn v pos', choose_victim fuel g rng st pos = Returns (rn, page_address g v, pos') /\
    0 <= rn < total_pages st /\ used_pages st !! Z.to_nat rn = Some v /\ 0 <= v /\
    page_address g v <> prevpage st.
Proof.
  intros (HN & Hl & Hr & Hall) Hfull.
  induction fuel as [|fuel IH]; intros pos; simpl; [auto|].
  destruct (Z.eqb_spec (num_used st) 0); [lia|].
  pose proof (scale_random_range (rng pos) (num_used st) ltac:(lia)) as Hrn.
  set (rn := scale_random (rng pos) (num_used st)) in *.
  destruct (array_get_in_range (used_pages st) rn) as (v & Hget & Hv); [lia|].
  rewrite Hget. simpl.
  destruct (Z.eqb_spec (page_address g v) (prevpage st)); [apply IH|].
  right. exists rn, v, (S pos). split; [done|]. split; [lia|]. split; [done|]. split; [|done].
  rewrite Forall_forall in Hall. apply Hall. eapply list_elem_of_lookup_2; eauto.
Qed.

Lemma random_full_step_rest fuel g rng st p rn v pos' :
  inv st -> num_used st = total_pages st ->
  choose_victim fuel g rng st (draws st) = Returns (rn, page_address g v, pos') ->
  0 <= rn < total_pages st -> 
  exists st', jm_find_replacement_page fuel g rng st p =
      Returns ({| newprot := Z.lor PROT_READ PROT_WRITE; evictable_page := page_address g v;
                  clean := Some 0 |}, st') /\
    inv st' /\ num_used st' = num_used st /\ total_pages st' = total_pages st.
Proof.
  intros Hinv Hfull Hcv Hrn. pose proof Hinv as (HN & Hl & Hr & Hall).
  unfold jm_find_replacement_page.
  destruct (Z.ltb_spec (num_used st) (total_pages st)); [lia|].
  rewrite Hcv. simpl. rewrite array_set_in_range by lia. simpl.
  eexists. split; [reflexivity|]. simpl. split; [|done].
  destruct (random_inv_insert st (Z.to_nat rn) (wrap32 (GET_PAGE_NUMBER g p)) Hinv)
    as [Hl' Hall']; [apply wrap32_range|].
  unfold inv; simpl. conjuncts; try lia; done.
Qed.

Lemma random_full_step fuel g rng st p :
  inv st -> num_used st = total_pages st ->
  jm_find_replacement_page fuel g rng st p = Unfinished \/
  exists r st' v, jm_find_replacement_page fuel g rng st p = Returns (r, st') /\
    inv st' /\ num_used st' = num_used st /\ total_pages st' = total_pages st /\
    evictable_page r = page_address g v /\ 0 <= v.
Proof.
  intros Hinv Hfull.
  destruct (random_choose_victim_cases fuel g rng st Hinv Hfull (draws st))
    as [Hu|(rn & v & pos' & Hcv & Hrn & Hv & Hv0 & _)].
  - left. unfold jm_find_replacement_page.
    destruct (Z.ltb_spec (num_used st) (total_pages st)); [lia|]. rewrite Hu. done.
  - right. destruct (random_full_step_rest _ _ _ _ p _ _ _ Hinv Hfull Hcv Hrn) as (st' & Hs & Hi & Hn & Ht).
    eexists _, st', v. split; [exact Hs|]. simpl. done.
Qed.

Lemma random_choose_victim_S fuel g rng st pos :
  choose_victim (S fuel) g rng st pos =
  if num_used st =? 0 then Undefined "division by zero"
  else
    pn ← array_get (used_pages st) (scale_random (rng pos) (num_used st));
    if page_address g pn =? prevpage st then choose_victim fuel g rng st (S pos)
    else Returns (scale_random (rng pos) (num_used st), page_address g pn, S pos).
Proof. reflexivity. Qed.

(* The loop ends at the first draw of a slot whose page is not the
   previously faulted one. *)
Lemma random_choose_victim_progress g rng st :
  inv st -> num_used st = total_pages st ->
  forall (d pos : nat) v,
  used_pages st !! Z.to_nat (scale_random (rng (pos + d)%nat) (num_used st)) = Some v ->
  page_address g v <> prevpage st ->
  exists rn v' pos', choose_victim (S d) g rng st pos = Returns (rn, page_address g v', pos') /\
    0 <= rn < total_pages st.
Proof.
  intros (HN & Hl & Hr & Hall) Hfull.
  induction d as [|d IH]; intros pos v Hv Hne; rewrite random_choose_victim_S;
    (destruct (Z.eqb_spec (num_used st) 0); [lia|]);
    pose proof (scale_random_range (rng pos) (num_used st) ltac:(lia)) as Hrn.
  - rewrite Nat.add_0_r in Hv.
    assert (Hget : array_get (used_pages st) (scale_random (rng pos) (num_used st)) = Returns v).
    { apply array_get_Returns. split; [lia|done]. }
    rewrite Hget. simpl.
    destruct (Z.eqb_spec (page_address g v) (prevpage st)); [done|].
    eexists _, _, _. split; [reflexivity|]. lia.
  - destruct (array_get_in_range (used_pages st) (scale_random (rng pos) (num_used st)))
      as (w & Hget & Hw); [lia|].
    rewrite Hget. simpl.
    destruct (Z.eqb_spec (page_address g w) (prevpage st)).
    + apply (IH (S pos) v); [|done]. replace (S pos + d)%nat with (pos + S d)%nat by lia. done.
    + eexists _, _, _. split; [reflexivity|]. lia.
Qed.

Lemma random_full_step_progress g rng st p (k : nat) v :
  inv st -> num_used st = total_pages st ->
  (draws st <= k)%nat ->
  used_pages st !! Z.to_nat (scale_random (rng k) (num_used st)) = Some v ->
  page_address g v <> prevpage st ->
  exists fuel r st' w, jm_find_replacement_page fuel g rng st p = Returns (r, st') /\
    inv st' /\ num_used st' = num_used st /\ total_pages st' = total_pages st /\
    evictable_page r = page_address g w /\ 0 <= w.
Proof.
  intros Hinv Hfull Hk Hv Hne.
  destruct (random_choose_victim_progress g rng st Hinv Hfull (k - draws st) (draws st) v)
    as (rn & v' & pos' & Hcv & Hrn); [|done|].
  { replace (draws st + (k - draws st))%nat with k by lia. done. }
  exists (S (k - draws st)).
  destruct (random_full_step (S (k - draws st)) g rng st p Hinv Hfull)
    as [Hu|(r & st' & w & Hs & Hrest)]; [|eauto].
  unfold jm_find_replacement_page in Hu.
  destruct (Z.ltb_spec (num_used st) (total_pages st)); [lia|].
  rewrite Hcv in Hu. simpl in Hu.
  assert (Hl : Z.of_nat (length (used_pages st)) = total_pages st) by (unfold inv in Hinv; tauto).
  rewrite array_set_in_range in Hu by lia. discriminate.
Qed.

Lemma random_step_inv fuel g rng st p r st' :
  inv st -> jm_find_replacement_page fuel g rng st p = Returns (r, st') ->
  inv st' /\ total_pages st' = total_pages st.
Proof.
  intros Hinv H.
  assert (Hr : 0 <= num_used st <= total_pages st) by (unfold inv in Hinv; tauto).
  destruct (Z.lt_ge_cases (num_used st) (total_pages st)) as [Hlt|Hge].
  - destruct (random_fill_step fuel g rng st p Hinv Hlt) as (st1 & Hs & Hi & _ & Ht).
    rewrite Hs in H. inversion H; subst. done.
  - destruct (random_full_step fuel g rng st p Hinv) as [Hu|(r1 & st1 & v & Hs & Hi & _ & Ht & _)]; [lia| |].
    + rewrite Hu in H. discriminate.
    + rewrite Hs in H. inversion H; subst. done.
Qed.

Lemma random_run_inv fuel g rng faults : forall st rs st',
  inv st -> run fuel g rng st faults = Returns (rs, st') ->
  inv st' /\ total_pages st' = total_pages st.
Proof.
  induction faults as [|p faults IH]; intros st rs st' Hinv H; simpl in H.
  - inversion H; subst. done.
  - destruct (jm_find_replacement_page fuel g rng st p) as [[r st1]| | |] eqn:Es;
      simpl in H; try discriminate.
    destruct (run fuel g rng st1 faults) as [[rs1 st2]| | |] eqn:Er; simpl in H;
      try discriminate.
    inversion H; subst.
    destruct (random_step_inv _ _ _ _ _ _ _ Hinv Es) as [Hi1 Ht1].
    destruct (IH _ _ _ Hi1 Er) as [Hi2 Ht2]. split; [done|lia].
Qed.

Lemma random_boot_inv fuel g rng faults g1 rs st :
  boot fuel g rng faults = Returns (g1, rs, st) ->
  inv st /\ total_pages st = local_pages g1 /\ g1 = set_prefetch_type g PREFETCH_NONE.
Proof.
  intros H. unfold boot in H.
  destruct (jm_initialize_pagereplace g) as [[st0 g0]| | |] eqn:Ei;
    simpl in H; try discriminate.
  destruct (run fuel g0 rng st0 faults) as [[rs1 st1]| | |] eqn:Er; simpl in H;
    try discriminate.
  inversion H; subst.
  destruct (random_init_inv _ _ _ Ei) as (Hi & _ & Ht & Hg).
  destruct (random_run_inv _ _ _ _ _ _ _ Hi Er) as [Hi1 Ht1].
  split; [done|]. split; [lia|done].
Qed.

Lemma random_run_snoc fuel g rng p r : forall faults st rs st1 st',
  run fuel g rng st faults = Returns (rs, st1) ->
  jm_find_replacement_page fuel g rng st1 p = Returns (r, st') ->
  run fuel g rng st (faults ++ [p]) = Returns (rs ++ [r], st').
Proof.
  induction faults as [|q faults IH]; intros st rs st1 st' Hrun Hstep; simpl in *.
  - inversion Hrun; subst. rewrite Hstep. reflexivity.
  - destruct (jm_find_replacement_page fuel g rng st q) as [[r0 st0]| | |];
      simpl in *; try discriminate.
    destruct (run fuel g rng st0 faults) as [[rs0 st2]| | |] eqn:E; simpl in *;
      try discriminate.
    inversion Hrun; subst. rewrite (IH _ _ _ _ E Hstep). reflexivity.
Qed.

Lemma random_boot_snoc fuel g rng faults p g1 rs st r st' :
  boot fuel g rng faults = Returns (g1, rs, st) ->
  jm_find_replacement_page fuel g1 rng st p = Returns (r, st') ->
  boot fuel g rng (faults ++ [p]) = Returns (g1, rs ++ [r], st').
Proof.
  unfold boot. intros Hboot Hstep.
  destruct (jm_initialize_pagereplace g) as [[st0 g0]| | |]; simpl in *; try discriminate.
  destruct (run fuel g0 rng st0 faults) as [[rs0 st1]| | |] eqn:E; simpl in *;
    try discriminate.
  inversion Hboot; subst. rewrite (random_run_snoc _ _ _ _ _ _ _ _ _ _ E Hstep). reflexivity.
Qed.

End RandomFacts.

(** ** The states the NRU policy reaches *)

Module NruReach.
Import Nru.

Lemma nru_init_inv g explicit rw interval now st g1 :
  jm_initialize_pagereplace g explicit rw interval now = Returns (st, g1) ->
  inv st /\ num_used st = 0 /\ total_pages st = local_pages g1 /\
  pagesize g1 = pagesize g /\ memregion g1 = memregion g.
Proof.
  unfold jm_initialize_pagereplace. intros H.
  match type of H with (if ?n <? 1 then _ else _) = _ =>
    set (N := n) in *; destruct (Z.ltb_spec N 1); [discriminate|] end.
  inversion H; subst; clear H. simpl. split; [|done].
  unfold inv; simpl. rewrite !length_replicate.
  conjuncts; try lia. done.
Qed.

Lemma nru_maybe_clear_inv st now :
  inv st ->
  inv (maybe_clear_reference_bits st now) /\
  num_used (maybe_clear_reference_bits st now) = num_used st /\
  total_pages (maybe_clear_reference_bits st now) = total_pages st.
Proof.
  intros (HN & Hu & Hc & Hr & Hs). unfold maybe_clear_reference_bits.
  destruct (wrap64 (now - prev_rbit_clear_time st) <? nru_interval_ms st).
  - unfold inv. done.
  - unfold inv; simpl. split; [|done].
    rewrite length_app, length_fmap, length_take, length_drop.
    conjuncts; try lia; done.
Qed.

Lemma nru_install_page_returns g st pframe p ev cl :
  0 <= pframe < Z.of_nat (length (used_pages st)) ->
  exists r st', install_page g st pframe p ev cl = Returns (r, st') /\
    evictable_page r = ev /\ clean r = cl /\
    length (used_pages st') = length (used_pages st) /\
    pages_by_class st' = pages_by_class st /\ class_size st' = class_size st /\
    num_used st' = num_used st /\ total_pages st' = total_pages st.
Proof.
  intros Hp. unfold install_page.
  destruct (array_get_in_range (used_pages st) pframe Hp) as (old & Hget & _).
  rewrite Hget. simpl. rewrite array_set_in_range by done. simpl.
  unfold insert_pte, bucket_pagenum. simpl.
  match goal with |- context [array_get (<[?i := ?x]> ?l) pframe] =>
    assert (Hg : array_get (<[i := x]> l) pframe = Returns x) end.
  { apply array_get_Returns. split; [lia|]. apply list_lookup_insert_eq. lia. }
  rewrite Hg. simpl. rewrite array_set_in_range by (rewrite length_insert; done). simpl.
  eexists _, _. split; [reflexivity|]. simpl. rewrite !length_insert. done.
Qed.

Lemma nru_fill_step g st now rnd p :
  inv st -> num_used st < total_pages st ->
  exists r st', jm_find_replacement_page g st now rnd p = Returns (r, st') /\
    evictable_page r = NULL /\ clean r = None /\
    inv st' /\ num_used st' = num_used st + 1 /\ total_pages st' = total_pages st.
Proof.
  intros Hinv Hlt. destruct (nru_maybe_clear_inv st now Hinv) as (Hinv0 & Hn0 & Ht0).
  unfold jm_find_replacement_page.
  set (st0 := maybe_clear_reference_bits st now) in *.
  destruct Hinv0 as (HN & Hu & Hc & Hr & Hs).
  destruct (Z.ltb_spec (num_used st0) (total_pages st0)); [|lia].
  rewrite array_set_in_range by lia. simpl.
  match goal with |- context [install_page g ?s ?f p NULL None] =>
    destruct (nru_install_page_returns g s f p NULL None) as
      (r & st' & Hi & Hev & Hcl & Hlen & Hpc & Hcs & Hnu & Htp); [simpl; lia|] end.
  exists r, st'. split; [exact Hi|]. simpl in *.
  split; [done|]. split; [done|].
  unfold inv. rewrite Hlen, Hpc, Hcs, Hnu, Htp, length_insert.
  conjuncts; try lia; done.
Qed.

(* With all four recorded sizes at zero the search for a non-empty class
   runs off the end of class_size. *)
Lemma nru_full_step g st now rnd p :
  inv st -> num_used st = total_pages st ->
  jm_find_replacement_page g st now rnd p = Undefined "array index out of bounds".
Proof.
  intros Hinv Hfull. destruct (nru_maybe_clear_inv st now Hinv) as (Hinv0 & Hn0 & Ht0).
  unfold jm_find_replacement_page.
  set (st0 := maybe_clear_reference_bits st now) in *.
  destruct Hinv0 as (HN & Hu & Hc & Hr & Hs).
  destruct (Z.ltb_spec (num_used st0) (total_pages st0)); [lia|].
  rewrite Hs. reflexivity.
Qed.

Lemma nru_run_inv g calls : forall st rs st',
  inv st -> run g st calls = Returns (rs, st') ->
  inv st' /\ total_pages st' = total_pages st /\
  num_used st' = num_used st + Z.of_nat (length calls) /\
  Forall (fun r => evictable_page r = NULL /\ clean r = None) rs.
Proof.
  induction calls as [|[[now rnd] p] calls IH]; intros st rs st' Hinv H; simpl in H.
  - inversion H; subst. simpl. split; [done|]. split; [done|]. split; [lia|]. constructor.
  - assert (Hr : 0 <= num_used st <= total_pages st) by (unfold inv in Hinv; tauto).
    destruct (Z.lt_ge_cases (num_used st) (total_pages st)) as [Hlt|Hge].
    + destruct (nru_fill_step g st now rnd p Hinv Hlt) as (r & st1 & Hs & Hev & Hcl & Hi & Hn & Ht).
      rewrite Hs in H. simpl in H.
      destruct (run g st1 calls) as [[rs1 st2]| | |] eqn:Er; simpl in H; try discriminate.
      inversion H; subst.
      destruct (IH _ _ _ Hi Er) as (Hi2 & Ht2 & Hn2 & Hall).
      split; [done|]. split; [lia|]. split; [simpl length; lia|].
      constructor; done.
    + rewrite (nru_full_step g st now rnd p Hinv) in H by lia. discriminate.
Qed.

Lemma nru_boot_inv g explicit rw interval now calls g1 rs st :
  boot g explicit rw interval now calls = Returns (g1, rs, st) ->
  inv st /\ total_pages st = local_pages g1 /\
  num_used st = Z.of_nat (length calls) /\
  Forall (fun r => evictable_page r = NULL /\ clean r = None) rs.
Proof.
  intros H. unfold boot in H.
  destruct (jm_initialize_pagereplace g explicit rw interval now) as [[st0 g0]| | |] eqn:Ei;
    simpl in H; try discriminate.
  destruct (run g0 st0 calls) as [[rs1 st1]| | |] eqn:Er; simpl in H; try discriminate.
  inversion H; subst.
  destruct (nru_init_inv _ _ _ _ _ _ _ Ei) as (Hi & Hn & Ht & _).
  destruct (nru_run_inv _ _ _ _ _ Hi Er) as (Hi1 & Ht1 & Hn1 & Hall).
  split; [done|]. split; [lia|]. split; [lia|done].
Qed.

End NruReach.

(** ** The resident pages of the four policies *)

(** C1 (amended).  From its initial state on, by any run of calls that
    return, every policy keeps its count of resident pages between 0 and
    N = local_pages, and a call that starts below N returns, names no
    victim and adds one to the count.  With N pages resident: the FIFO
    policy returns a victim other than NULL and leaves the count at N;
    the random and the NRE policy do so when their loop over random()
    ends, which it does at the latest when the generator yields a slot
    that the loop accepts (random: a slot whose page is not the previous
    fault; NRE: a slot that is held neither by an entry of the queue of
    recent evictions nor by the cell of evicted_pages at evict_tail,
    which the loop compares once the queue is searched); nothing is said
    of the NRU policy with N pages resident. *)
Theorem C1_resident_pages_within_budget :
  (forall g faults g1 rs st,
     0 < pagesize g -> 0 < memregion g ->
     Fifo.boot g faults = Returns (g1, rs, st) ->
     0 <= Fifo.num_used st <= local_pages g1 /\
     forall p, exists r st',
       Fifo.jm_find_replacement_page g1 st p = Returns (r, st') /\
       (Fifo.num_used st < local_pages g1 ->
          evictable_page r = NULL /\ Fifo.num_used st' = Fifo.num_used st + 1) /\
       (Fifo.num_used st = local_pages g1 ->
          evictable_page r <> NULL /\ Fifo.num_used st' = local_pages g1)) /\
  (forall fuel g rng faults g1 rs st,
     0 < pagesize g -> 0 < memregion g ->
     Random.boot fuel g rng faults = Returns (g1, rs, st) ->
     0 <= Random.num_used st <= local_pages g1 /\
     forall p,
       (Random.num_used st < local_pages g1 ->
          forall fuel', exists r st',
            Random.jm_find_replacement_page fuel' g1 rng st p = Returns (r, st') /\
            evictable_page r = NULL /\ Random.num_used st' = Random.num_used st + 1) /\
       (Random.num_used st = local_pages g1 ->
          (forall fuel',
             Random.jm_find_replacement_page fuel' g1 rng st p = Unfinished \/
             exists r st',
               Random.jm_find_replacement_page fuel' g1 rng st p = Returns (r, st') /\
               evictable_page r <> NULL /\ Random.num_used st' = local_pages g1) /\
          (forall (k : nat) v, (Random.draws st <= k)%nat ->
             Random.used_pages st !! Z.to_nat (scale_random (rng k) (Random.num_used st)) = Some v ->
             page_address g1 v <> Random.prevpage st ->
             exists fuel' r st',
               Random.jm_find_replacement_page fuel' g1 rng st p = Returns (r, st') /\
               evictable_page r <> NULL /\ Random.num_used st' = local_pages g1))) /\
  (forall fuel g explicit entries retries junk rng faults g1 rs st,
     0 < pagesize g -> 0 < memregion g ->
     Nre.boot fuel g explicit entries retries junk rng faults = Returns (g1, rs, st) ->
     0 <= Nre.num_used st <= local_pages g1 /\
     forall p,
       (Nre.num_used st < local_pages g1 ->
          forall fuel', exists r st',
            Nre.jm_find_replacement_page fuel' g1 rng st p = Returns (r, st') /\
            evictable_page r = NULL /\ Nre.num_used st' = Nre.num_used st + 1) /\
       (Nre.num_used st = local_pages g1 ->
          (forall fuel',
             Nre.jm_find_replacement_page fuel' g1 rng st p = Unfinished \/
             exists r st',
               Nre.jm_find_replacement_page fuel' g1 rng st p = Returns (r, st') /\
               evictable_page r <> NULL /\ Nre.num_used st' = local_pages g1) /\
          (forall (k : nat), (Nre.draws st <= k)%nat ->
             scale_random (rng k) (Nre.num_used st) ∉ Nre.queue st ->
             Nre.evicted_pages st !! Z.to_nat (Nre.evict_tail st)
               <> Some (scale_random (rng k) (Nre.num_used st)) ->
             exists fuel' r st',
               Nre.jm_find_replacement_page fuel' g1 rng st p = Returns (r, st') /\
               evictable_page r <> NULL /\ Nre.num_used st' = local_pages g1))) /\
  (forall g explicit nru_rw nru_interval start calls g1 rs st,
     Nru.boot g explicit nru_rw nru_interval start calls = Returns (g1, rs, st) ->
     0 <= Nru.num_used st <= local_pages g1 /\
     forall now r p,
       Nru.num_used st < local_pages g1 ->
       exists reply st',
         Nru.jm_find_replacement_page g1 st now r p = Returns (reply, st') /\
         evictable_page reply = NULL /\ Nru.num_used st' = Nru.num_used st + 1).
Proof.
  split; [|split; [|split]].
  - intros g faults g1 rs st Hps Hmem Hboot.
    destruct (FifoBoot.boot_inv g faults g1 rs st Hboot) as (HN & -> & Hinv & _).
    simpl. pose proof Hinv as (Ht & Hl & Hn & _).
    split; [lia|]. intros p.
    destruct (FifoFacts.step_inv _ _ _ _ p HN Hinv)
      as (r & st' & Hs & _ & (_ & _ & Hlo & Hhi) & Hfill & Hfull).
    exists r, st'. split; [exact Hs|]. split.
    + intros Hlt. split; [apply Hlo; lia|apply Hfill; done].
    + intros Heq. split; [|apply Hfull; done].
      destruct Hhi as (q & _ & ->); [lia|].
      apply page_address_not_null; simpl; [lia|lia|apply wrap32_range].
  - intros fuel g rng faults g1 rs st Hps Hmem Hboot.
    destruct (RandomFacts.random_boot_inv _ _ _ _ _ _ _ Hboot) as (Hinv & Ht & ->).
    simpl in *. pose proof Hinv as (_ & _ & Hr & _).
    split; [lia|]. intros p. split.
    + intros Hlt fuel'.
      destruct (RandomFacts.random_fill_step fuel' (set_prefetch_type g PREFETCH_NONE) rng st p Hinv)
        as (st' & Hs & _ & Hn & _); [lia|].
      eexists _, st'. split; [exact Hs|]. done.
    + intros Heq. split.
      * intros fuel'.
        destruct (RandomFacts.random_full_step fuel' (set_prefetch_type g PREFETCH_NONE) rng st p Hinv)
          as [Hu|(r & st' & v & Hs & _ & Hn & _ & Hev & Hv)]; [lia|auto|].
        right. exists r, st'. split; [exact Hs|]. split; [|lia].
        rewrite Hev. apply page_address_not_null; simpl; lia.
      * intros k v Hk Hv Hne.
        destruct (RandomFacts.random_full_step_progress _ rng st p k v Hinv ltac:(lia) Hk Hv Hne)
          as (fuel' & r & st' & w & Hs & _ & Hn & _ & Hev & Hw).
        exists fuel', r, st'. split; [exact Hs|]. split; [|lia].
        rewrite Hev. apply page_address_not_null; simpl; lia.
  - intros fuel g explicit entries retries junk rng faults g1 rs st Hps Hmem Hboot.
    destruct (NreFacts.nre_boot_inv _ _ _ _ _ _ _ _ _ _ _ Hps Hboot) as (Hinv & Ht & Hp1 & Hm1).
    assert (Hr : 0 <= Nre.num_used st <= Nre.total_pages st) by (unfold Nre.inv in Hinv; tauto).
    split; [lia|]. intros p. split.
    + intros Hlt fuel'.
      destruct (NreFacts.nre_fill_step fuel' g1 rng st p Hinv) as (st' & Hs & _ & Hn & _); [lia|].
      eexists _, st'. split; [exact Hs|]. done.
    + intros Heq. split.
      * intros fuel'.
        destruct (NreFacts.nre_full_step fuel' g1 rng st p Hinv)
          as [Hu|(r & st' & Hs & _ & Hn & _ & e & Hev & He)]; [lia|auto|].
        right. exists r, st'. split; [exact Hs|]. split; [|lia].
        rewrite Hev. apply page_address_not_null; lia.
      * intros k Hk Hq Hcell.
        destruct (NreFacts.nre_full_step_progress g1 rng st p k Hinv ltac:(lia) Hk Hq Hcell)
          as (fuel' & r & st' & Hs & _ & Hn & _ & e & Hev & He).
        exists fuel', r, st'. split; [exact Hs|]. split; [|lia].
        rewrite Hev. apply page_address_not_null; lia.
  - intros g explicit nru_rw nru_interval start calls g1 rs st Hboot.
    destruct (NruReach.nru_boot_inv _ _ _ _ _ _ _ _ _ Hboot) as (Hinv & Ht & _).
    assert (Hr : 0 <= Nru.num_used st <= Nru.total_pages st) by (unfold Nru.inv in Hinv; tauto).
    split; [lia|]. intros now r p Hlt.
    destruct (NruReach.nru_fill_step g1 st now r p Hinv) as (reply & st' & Hs & Hev & _ & _ & Hn & _);
      [lia|].
    exists reply, st'. done.
Qed.

Lemma C1_two_frames_three_pages :
  (exists g1 rs st,
     Fifo.boot Examples.globals [Examples.page 0; Examples.page 1] = Returns (g1, rs, st) /\
     Fifo.num_used st = local_pages g1 /\
     exists r st', Fifo.jm_find_replacement_page g1 st (Examples.page 2) = Returns (r, st') /\
       evictable_page r <> NULL /\ Fifo.num_used st' = local_pages g1) /\
  (exists g1 rs st,
     Random.boot 1 Examples.globals (fun _ => 0) [Examples.page 0] = Returns (g1, rs, st) /\
     exists r st', Random.jm_find_replacement_page 0 g1 (fun _ => 0) st (Examples.page 1)
                     = Returns (r, st') /\
       evictable_page r = NULL /\ Random.num_used st' = Random.num_used st + 1) /\
  (exists g1 rs st,
     Random.boot 1 Examples.globals (fun _ => 0) [Examples.page 0; Examples.page 1]
       = Returns (g1, rs, st) /\
     Random.num_used st = local_pages g1 /\
     exists fuel r st',
       Random.jm_find_replacement_page fuel g1 (fun _ => 0) st (Examples.page 2)
         = Returns (r, st') /\
       evictable_page r <> NULL /\ Random.num_used st' = local_pages g1) /\
  (exists g1 rs st,
     Nre.boot 1 Examples.globals true None None (fun _ => 0) (fun _ => 0) [Examples.page 0]
       = Returns (g1, rs, st) /\
     exists r st', Nre.jm_find_replacement_page 0 g1 (fun _ => 0) st (Examples.page 1)
                     = Returns (r, st') /\
       evictable_page r = NULL /\ Nre.num_used st' = Nre.num_used st + 1) /\
  (exists g1 rs st,
     Nre.boot 1 Examples.globals true None None (fun _ => 0) (fun _ => 0)
       [Examples.page 0; Examples.page 1] = Returns (g1, rs, st) /\
     Nre.num_used st = local_pages g1 /\
     exists fuel r st',
       Nre.jm_find_replacement_page fuel g1 (fun _ => 0) st (Examples.page 2)
         = Returns (r, st') /\
       evictable_page r <> NULL /\ Nre.num_used st' = local_pages g1) /\
  (exists g1 rs st,
     Nru.boot Examples.globals true (-1) 0 0 [(0, 0, Examples.page 0)] = Returns (g1, rs, st) /\
     exists r st', Nru.jm_find_replacement_page g1 st 0 0 (Examples.page 1) = Returns (r, st') /\
       evictable_page r = NULL /\ Nru.num_used st' = Nru.num_used st + 1).
Proof.
  destruct C1_resident_pages_within_budget as (Hfifo & Hrandom & Hnre & Hnru).
  assert (Hps : 0 < pagesize Examples.globals) by reflexivity.
  assert (Hmem : 0 < memregion Examples.globals) by reflexivity.
  split; [|split; [|split; [|split; [|split]]]].
  - assert (Hboot : exists g1 rs st,
      Fifo.boot Examples.globals [Examples.page 0; Examples.page 1] = Returns (g1, rs, st) /\
      Fifo.num_used st = local_pages g1).
    { eexists _, _, _. split; vm_compute; reflexivity. }
    destruct Hboot as (g1 & rs & st & Hboot & Hcount).
    exists g1, rs, st. split; [exact Hboot|]. split; [exact Hcount|].
    destruct (Hfifo _ _ _ _ _ Hps Hmem Hboot) as [_ Hstep].
    destruct (Hstep (Examples.page 2)) as (r & st' & Hcall & _ & Hfull).
    exists r, st'. split; [exact Hcall|]. exact (Hfull Hcount).
  - assert (Hboot : exists g1 rs st,
      Random.boot 1 Examples.globals (fun _ => 0) [Examples.page 0] = Returns (g1, rs, st) /\
      Random.num_used st < local_pages g1).
    { eexists _, _, _. split; vm_compute; reflexivity. }
    destruct Hboot as (g1 & rs & st & Hboot & Hcount).
    exists g1, rs, st. split; [exact Hboot|].
    destruct (Hrandom _ _ _ _ _ _ _ Hps Hmem Hboot) as [_ Hstep].
    destruct (Hstep (Examples.page 1)) as [Hfill _].
    exact (Hfill Hcount 0%nat).
  - assert (Hboot : exists g1 rs st v,
      Random.boot 1 Examples.globals (fun _ => 0) [Examples.page 0; Examples.page 1]
        = Returns (g1, rs, st) /\
      Random.num_used st = local_pages g1 /\
      (Random.draws st <= 0)%nat /\
      Random.used_pages st !! Z.to_nat (scale_random 0 (Random.num_used st)) = Some v /\
      page_address g1 v <> Random.prevpage st).
    { eexists _, _, _, _. split; [vm_compute; reflexivity|].
      split; [vm_compute; reflexivity|]. split; [exact (le_n 0)|].
      split; [vm_compute; reflexivity|]. vm_compute. discriminate. }
    destruct Hboot as (g1 & rs & st & v & Hboot & Hcount & Hk & Hv & Hne).
    exists g1, rs, st. split; [exact Hboot|]. split; [exact Hcount|].
    destruct (Hrandom _ _ _ _ _ _ _ Hps Hmem Hboot) as [_ Hstep].
    destruct (Hstep (Examples.page 2)) as [_ Hfull].
    destruct (Hfull Hcount) as [_ Hprogress].
    exact (Hprogress 0%nat v Hk Hv Hne).
  - assert (Hboot : exists g1 rs st,
      Nre.boot 1 Examples.globals true None None (fun _ => 0) (fun _ => 0) [Examples.page 0]
        = Returns (g1, rs, st) /\
      Nre.num_used st < local_pages g1).
    { eexists _, _, _. split; vm_compute; reflexivity. }
    destruct Hboot as (g1 & rs & st & Hboot & Hcount).
    exists g1, rs, st. split; [exact Hboot|].
    destruct (Hnre _ _ _ _ _ _ _ _ _ _ _ Hps Hmem Hboot) as [_ Hstep].
    destruct (Hstep (Examples.page 1)) as [Hfill _].
    exact (Hfill Hcount 0%nat).
  - assert (Hboot : exists g1 rs st,
      Nre.boot 1 Examples.globals true None None (fun _ => 0) (fun _ => 0)
        [Examples.page 0; Examples.page 1] = Returns (g1, rs, st) /\
      Nre.num_used st = local_pages g1 /\
      (Nre.draws st <= 0)%nat /\
      Nre.queue st = [] /\
      Nre.evicted_pages st !! Z.to_nat (Nre.evict_tail st)
        <> Some (scale_random 0 (Nre.num_used st))).
    { eexists _, _, _. split; [vm_compute; reflexivity|].
      split; [vm_compute; reflexivity|]. split; [exact (le_n 0)|].
      split; [vm_compute; reflexivity|]. vm_compute. discriminate. }
    destruct Hboot as (g1 & rs & st & Hboot & Hcount & Hk & Hq & Hcell).
    exists g1, rs, st. split; [exact Hboot|]. split; [exact Hcount|].
    destruct (Hnre _ _ _ _ _ _ _ _ _ _ _ Hps Hmem Hboot) as [_ Hstep].
    destruct (Hstep (Examples.page 2)) as [_ Hfull].
    destruct (Hfull Hcount) as [_ Hprogress].
    apply (Hprogress 0%nat Hk); [|exact Hcell].
    rewrite Hq. apply not_elem_of_nil.
  - assert (Hboot : exists g1 rs st,
      Nru.boot Examples.globals true (-1) 0 0 [(0, 0, Examples.page 0)]
        = Returns (g1, rs, st) /\
      Nru.num_used st < local_pages g1).
    { eexists _, _, _. split; vm_compute; reflexivity. }
    destruct Hboot as (g1 & rs & st & Hboot & Hcount).
    exists g1, rs, st. split; [exact Hboot|].
    destruct (Hnru _ _ _ _ _ _ _ _ _ Hboot) as [_ Hstep].
    exact (Hstep 0 0 (Examples.page 1) Hcount).
Defined.

(* C1 as stated fails with the cache full.  Under the random policy,
   once both frames hold the page of the previous fault no draw is ever
   accepted, whatever random() yields: the call does not return.  Under
   the NRU policy the first call with the cache full reads class_size[4]
   and no victim is chosen. *)
Lemma C1_full_cache_without_victim :
  (forall rng, exists g1 rs st,
     Random.boot 1 Examples.globals rng
       [Examples.page 5; Examples.page 5; Examples.page 5] = Returns (g1, rs, st) /\
     Random.num_used st = local_pages g1 /\
     forall fuel,
       Random.jm_find_replacement_page fuel g1 rng st (Examples.page 1) = Unfinished) /\
  (exists g1 rs st,
     Nru.boot (set_local_pages Examples.globals 1) true (-1) 0 0 [(0, 0, Examples.page 0)]
       = Returns (g1, rs, st) /\
     Nru.num_used st = local_pages g1 /\
     forall now r,
       Nru.jm_find_replacement_page g1 st now r (Examples.page 1)
         = Undefined "array index out of bounds").
Proof.
  split.
  - intros rng.
    pose (g1 := set_prefetch_type Examples.globals PREFETCH_NONE).
    pose (st := {| Random.prevpage := Examples.page 5; Random.used_pages := [5; 5];
                   Random.num_used := 2; Random.total_pages := 2; Random.draws := 1 |}).
    assert (Hslot : forall k, scale_random (rng k) 2 = 0 \/ scale_random (rng k) 2 = 1).
    { intros k. pose proof (scale_random_range (rng k) 2). lia. }
    pose (st0 := {| Random.prevpage := NULL; Random.used_pages := [5; 5];
                    Random.num_used := 2; Random.total_pages := 2; Random.draws := 0 |}).
    assert (Hfill : Random.boot 1 Examples.globals rng [Examples.page 5; Examples.page 5] =
                    Returns (g1, [ {| newprot := 3; evictable_page := NULL; clean := Some 0 |};
                                   {| newprot := 3; evictable_page := NULL; clean := Some 0 |} ],
                             st0)) by reflexivity.
    assert (Hthird : Random.jm_find_replacement_page 1 g1 rng st0 (Examples.page 5) =
                     Returns ({| newprot := 3; evictable_page := Examples.page 5;
                                 clean := Some 0 |}, st)).
    { unfold Random.jm_find_replacement_page, Random.choose_victim.
      change (Random.num_used st0) with 2. change (Random.total_pages st0) with 2.
      change (Random.draws st0) with 0%nat. change (Random.used_pages st0) with [5; 5].
      change (Random.prevpage st0) with 0.
      destruct (Hslot 0%nat) as [-> | ->]; reflexivity. }
    eexists g1, _, st.
    split; [exact (RandomFacts.random_boot_snoc _ _ _ _ _ _ _ _ _ _ Hfill Hthird)|].
    split; [reflexivity|].
    assert (Hloop : forall fuel pos, Random.choose_victim fuel g1 rng st pos = Unfinished).
    { induction fuel as [|fuel IH]; intros pos; [reflexivity|].
      rewrite RandomFacts.random_choose_victim_S.
      change (Random.num_used st) with 2. change (Random.used_pages st) with [5; 5].
      destruct (Hslot pos) as [-> | ->]; simpl; apply IH. }
    intros fuel. unfold Random.jm_find_replacement_page.
    change (Random.num_used st <? Random.total_pages st) with false.
    cbv iota. rewrite Hloop. reflexivity.
  - assert (Hboot : exists g1 rs st,
      Nru.boot (set_local_pages Examples.globals 1) true (-1) 0 0 [(0, 0, Examples.page 0)]
        = Returns (g1, rs, st) /\
      Nru.num_used st = local_pages g1 /\ Nru.inv st /\ Nru.total_pages st = local_pages g1).
    { eexists _, _, _. split; [vm_compute; reflexivity|]. split; [vm_compute; reflexivity|].
      split; [|vm_compute; reflexivity].
      unfold Nru.inv. vm_compute.
      repeat split; try discriminate; reflexivity. }
    destruct Hboot as (g1 & rs & st & Hboot & Hcount & Hinv & Htotal).
    exists g1, rs, st. split; [exact Hboot|]. split; [exact Hcount|].
    intros now r. apply NruReach.nru_full_step; [exact Hinv|lia].
Qed.

(** ** What the policies report through newprot and clean *)

(** C10.  Under FIFO, Random and NRE every call of
    jm_find_replacement_page that returns has set the new page's
    protection to PROT_READ|PROT_WRITE and clean to 0, whatever the state
    and the faulted page; a call under NRU that reports a clean victim
    (clean set and non-zero) reports the page of a table entry whose
    modified bit is 0.  And the calls of the first three policies do
    return with these values in the states that calls from the initial
    state reach: always under FIFO; under Random and NRE always while
    fewer than N pages are resident and, with N resident, once random()
    yields a slot that the loop accepts. *)
Theorem C10_only_nru_evicts_clean_pages :
  (forall g st p r st',
     Fifo.jm_find_replacement_page g st p = Returns (r, st') ->
     newprot r = Z.lor PROT_READ PROT_WRITE /\ clean r = Some 0) /\
  (forall fuel g rng st p r st',
     Random.jm_find_replacement_page fuel g rng st p = Returns (r, st') ->
     newprot r = Z.lor PROT_READ PROT_WRITE /\ clean r = Some 0) /\
  (forall fuel g rng st p r st',
     Nre.jm_find_replacement_page fuel g rng st p = Returns (r, st') ->
     newprot r = Z.lor PROT_READ PROT_WRITE /\ clean r = Some 0) /\
  (forall g st now rnd p r st' c,
     Nru.jm_find_replacement_page g st now rnd p = Returns (r, st') ->
     clean r = Some c -> c <> 0 ->
     exists frame pte, Nru.used_pages st !! frame = Some pte /\
       evictable_page r = memregion g + pagesize g * Nru.pagenum pte /\
       Nru.modified pte = 0) /\
  (forall g faults g1 rs st p,
     Fifo.boot g faults = Returns (g1, rs, st) ->
     exists r st',
       Fifo.jm_find_replacement_page g1 st p = Returns (r, st') /\
       newprot r = Z.lor PROT_READ PROT_WRITE /\ clean r = Some 0) /\
  (forall fuel g rng faults g1 rs st p,
     Random.boot fuel g rng faults = Returns (g1, rs, st) ->
     (Random.num_used st < local_pages g1 ->
        forall fuel', exists r st',
          Random.jm_find_replacement_page fuel' g1 rng st p = Returns (r, st') /\
          newprot r = Z.lor PROT_READ PROT_WRITE /\ clean r = Some 0) /\
     (Random.num_used st = local_pages g1 ->
        forall (k : nat) v, (Random.draws st <= k)%nat ->
          Random.used_pages st !! Z.to_nat (scale_random (rng k) (Random.num_used st))
            = Some v ->
          page_address g1 v <> Random.prevpage st ->
          exists fuel' r st',
            Random.jm_find_replacement_page fuel' g1 rng st p = Returns (r, st') /\
            newprot r = Z.lor PROT_READ PROT_WRITE /\ clean r = Some 0)) /\
  (forall fuel g explicit entries retries junk rng faults g1 rs st p,
     0 < pagesize g ->
     Nre.boot fuel g explicit entries retries junk rng faults = Returns (g1, rs, st) ->
     (Nre.num_used st < local_pages g1 ->
        forall fuel', exists r st',
          Nre.jm_find_replacement_page fuel' g1 rng st p = Returns (r, st') /\
          newprot r = Z.lor PROT_READ PROT_WRITE /\ clean r = Some 0) /\
     (Nre.num_used st = local_pages g1 ->
        forall (k : nat), (Nre.draws st <= k)%nat ->
          scale_random (rng k) (Nre.num_used st) ∉ Nre.queue st ->
          Nre.evicted_pages st !! Z.to_nat (Nre.evict_tail st)
            <> Some (scale_random (rng k) (Nre.num_used st)) ->
          exists fuel' r st',
            Nre.jm_find_replacement_page fuel' g1 rng st p = Returns (r, st') /\
            newprot r = Z.lor PROT_READ PROT_WRITE /\ clean r = Some 0)).
Proof.
  split; [exact fifo_reply|]. split; [exact random_reply|]. split; [exact nre_reply|].
  split; [|split; [|split]].
  - intros g st now rnd p r st' c H Hc Hne.
    destruct (NruFacts.reply _ _ _ _ _ _ _ H) as [[_ Hnone]|(frame & pte & Hl & Hev & Hcl)].
    + congruence.
    + exists frame, pte. split; [done|]. split; [done|].
      rewrite Hcl in Hc. destruct (Z.eqb_spec (Nru.modified pte) 0); [done|].
      inversion Hc. congruence.
  - intros g faults g1 rs st p Hboot.
    destruct (FifoBoot.boot_inv _ _ _ _ _ Hboot) as (HN & _ & Hinv & _).
    destruct (FifoFacts.step_inv _ _ _ _ p HN Hinv) as (r & st' & Hs & _).
    exists r, st'. split; [exact Hs|]. exact (fifo_reply _ _ _ _ _ Hs).
  - intros fuel g rng faults g1 rs st p Hboot.
    destruct (RandomFacts.random_boot_inv _ _ _ _ _ _ _ Hboot) as (Hinv & Ht & _).
    split.
    + intros Hlt fuel'.
      destruct (RandomFacts.random_fill_step fuel' g1 rng st p Hinv) as (st' & Hs & _);
        [lia|].
      eexists _, st'. split; [exact Hs|]. exact (random_reply _ _ _ _ _ _ _ Hs).
    + intros Heq k v Hk Hv Hne.
      destruct (RandomFacts.random_full_step_progress g1 rng st p k v Hinv ltac:(lia) Hk Hv Hne)
        as (fuel' & r & st' & w & Hs & _).
      exists fuel', r, st'. split; [exact Hs|]. exact (random_reply _ _ _ _ _ _ _ Hs).
  - intros fuel g explicit entries retries junk rng faults g1 rs st p Hps Hboot.
    destruct (NreFacts.nre_boot_inv _ _ _ _ _ _ _ _ _ _ _ Hps Hboot) as (Hinv & Ht & _).
    split.
    + intros Hlt fuel'.
      destruct (NreFacts.nre_fill_step fuel' g1 rng st p Hinv) as (st' & Hs & _); [lia|].
      eexists _, st'. split; [exact Hs|]. exact (nre_reply _ _ _ _ _ _ _ Hs).
    + intros Heq k Hk Hq Hcell.
      destruct (NreFacts.nre_full_step_progress g1 rng st p k Hinv ltac:(lia) Hk Hq Hcell)
        as (fuel' & r & st' & Hs & _).
      exists fuel', r, st'. split; [exact Hs|]. exact (nre_reply _ _ _ _ _ _ _ Hs).
Qed.

Lemma C10_replies_of_a_first_fault :
  (exists g1 rs st r st',
     Fifo.boot Examples.globals [Examples.page 0; Examples.page 1] = Returns (g1, rs, st) /\
     Fifo.jm_find_replacement_page g1 st (Examples.page 2) = Returns (r, st') /\
     newprot r = 3 /\ clean r = Some 0) /\
  (exists g1 rs st fuel r st',
     Random.boot 1 Examples.globals (fun _ => 0) [Examples.page 0; Examples.page 1]
       = Returns (g1, rs, st) /\
     Random.num_used st = local_pages g1 /\
     Random.jm_find_replacement_page fuel g1 (fun _ => 0) st (Examples.page 2)
       = Returns (r, st') /\
     newprot r = 3 /\ clean r = Some 0) /\
  (exists g1 rs st fuel r st',
     Nre.boot 1 Examples.globals true None None (fun _ => 0) (fun _ => 0)
       [Examples.page 0; Examples.page 1] = Returns (g1, rs, st) /\
     Nre.num_used st = local_pages g1 /\
     Nre.jm_find_replacement_page fuel g1 (fun _ => 0) st (Examples.page 2)
       = Returns (r, st') /\
     newprot r = 3 /\ clean r = Some 0) /\
  (exists r st' frame pte,
     Nru.jm_find_replacement_page Examples.globals Examples.nru_sorted 0 0
       (Examples.page 1) = Returns (r, st') /\
     clean r = Some 1 /\
     Nru.used_pages Examples.nru_sorted !! frame = Some pte /\
     evictable_page r = memregion Examples.globals
                        + pagesize Examples.globals * Nru.pagenum pte /\
     Nru.modified pte = 0).
Proof.
  destruct C10_only_nru_evicts_clean_pages
    as (_ & _ & _ & Hnru & Hfifo & Hrandom & Hnre).
  split; [|split; [|split]].
  - assert (Hboot : exists g1 rs st,
      Fifo.boot Examples.globals [Examples.page 0; Examples.page 1] = Returns (g1, rs, st)).
    { eexists _, _, _. vm_compute. reflexivity. }
    destruct Hboot as (g1 & rs & st & Hboot).
    destruct (Hfifo _ _ _ _ _ (Examples.page 2) Hboot) as (r & st' & Hcall & Hprot & Hclean).
    exists g1, rs, st, r, st'. split; [exact Hboot|]. split; [exact Hcall|].
    split; [exact Hprot|exact Hclean].
  - assert (Hboot : exists g1 rs st v,
      Random.boot 1 Examples.globals (fun _ => 0) [Examples.page 0; Examples.page 1]
        = Returns (g1, rs, st) /\
      Random.num_used st = local_pages g1 /\
      (Random.draws st <= 0)%nat /\
      Random.used_pages st !! Z.to_nat (scale_random 0 (Random.num_used st)) = Some v /\
      page_address g1 v <> Random.prevpage st).
    { eexists _, _, _, _. split; [vm_compute; reflexivity|].
      split; [vm_compute; reflexivity|]. split; [exact (le_n 0)|].
      split; [vm_compute; reflexivity|]. vm_compute. discriminate. }
    destruct Hboot as (g1 & rs & st & v & Hboot & Hcount & Hk & Hv & Hne).
    destruct (Hrandom _ _ _ _ _ _ _ (Examples.page 2) Hboot) as [_ Hfull].
    destruct (Hfull Hcount 0%nat v Hk Hv Hne) as (fuel & r & st' & Hcall & Hprot & Hclean).
    exists g1, rs, st, fuel, r, st'. split; [exact Hboot|]. split; [exact Hcount|].
    split; [exact Hcall|]. split; [exact Hprot|exact Hclean].
  - assert (Hboot : exists g1 rs st,
      Nre.boot 1 Examples.globals true None None (fun _ => 0) (fun _ => 0)
        [Examples.page 0; Examples.page 1] = Returns (g1, rs, st) /\
      Nre.num_used st = local_pages g1 /\
      (Nre.draws st <= 0)%nat /\
      Nre.queue st = [] /\
      Nre.evicted_pages st !! Z.to_nat (Nre.evict_tail st)
        <> Some (scale_random 0 (Nre.num_used st))).
    { eexists _, _, _. split; [vm_compute; reflexivity|].
      split; [vm_compute; reflexivity|]. split; [exact (le_n 0)|].
      split; [vm_compute; reflexivity|]. vm_compute. discriminate. }
    destruct Hboot as (g1 & rs & st & Hboot & Hcount & Hk & Hq & Hcell).
    assert (Hps : 0 < pagesize Examples.globals) by reflexivity.
    destruct (Hnre _ _ _ _ _ _ _ _ _ _ _ (Examples.page 2) Hps Hboot) as [_ Hfull].
    destruct (Hfull Hcount 0%nat Hk) as (fuel & r & st' & Hcall & Hprot & Hclean);
      [rewrite Hq; apply not_elem_of_nil|exact Hcell|].
    exists g1, rs, st, fuel, r, st'. split; [exact Hboot|]. split; [exact Hcount|].
    split; [exact Hcall|]. split; [exact Hprot|exact Hclean].
  - assert (Hcall : exists r st',
      Nru.jm_find_replacement_page Examples.globals Examples.nru_sorted 0 0
        (Examples.page 1) = Returns (r, st') /\ clean r = Some 1).
    { eexists _, _. split; [vm_compute; reflexivity|]. vm_compute. reflexivity. }
    destruct Hcall as (r & st' & Hcall & Hclean).
    destruct (Hnru _ _ _ _ _ _ _ 1 Hcall Hclean) as (frame & pte & Hpte & Hev & Hmod);
      [discriminate|].
    exists r, st', frame, pte. split; [exact Hcall|]. split; [exact Hclean|].
    split; [exact Hpte|]. split; [exact Hev|exact Hmod].
Defined.

(** ** The first eviction of the NRU policy *)

(** C7.  Under the NRU policy, in every state that calls from the
    initial state reach with the cache full, jm_find_replacement_page
    finds all four recorded class sizes at zero, leaves its search loop
    with class = 4 and reads class_size[4], past the end of the array:
    no victim is chosen.  Hence no run of more than N calls returns. *)
Theorem C7_nru_first_eviction_reads_past_class_size
    (g : JUMBOMEM_GLOBALS) (explicit : bool) (nru_rw nru_interval start : Z)
    (calls : list (Z * Z * Z)) g1 rs st :
  Nru.boot g explicit nru_rw nru_interval start calls = Returns (g1, rs, st) ->
  Nru.class_size st = [0; 0; 0; 0] /\
  Nru.smallest_nonempty_class (Nru.class_size st) 0 = 4 /\
  Z.of_nat (length calls) <= local_pages g1 /\
  (Nru.num_used st = Nru.total_pages st ->
   forall now r p,
     Nru.jm_find_replacement_page g1 st now r p = Undefined "array index out of bounds").
Proof.
  intros Hboot.
  destruct (NruReach.nru_boot_inv _ _ _ _ _ _ _ _ _ Hboot) as (Hinv & Ht & Hn & _).
  pose proof Hinv as (_ & _ & _ & Hr & Hs).
  split; [done|]. split; [rewrite Hs; reflexivity|]. split; [lia|].
  intros Hfull now r p. apply NruReach.nru_full_step; done.
Qed.

Lemma C7_second_page_of_a_one_frame_cache :
  exists g1 rs st,
    Nru.boot (set_local_pages Examples.globals 1) true (-1) 0 0 [(0, 0, Examples.page 0)]
      = Returns (g1, rs, st) /\
    Nru.num_used st = Nru.total_pages st /\
    Nru.jm_find_replacement_page g1 st 1 0 (Examples.page 1)
      = Undefined "array index out of bounds".
Proof.
  assert (Hboot : exists g1 rs st,
    Nru.boot (set_local_pages Examples.globals 1) true (-1) 0 0 [(0, 0, Examples.page 0)]
      = Returns (g1, rs, st) /\
    Nru.num_used st = Nru.total_pages st).
  { eexists _, _, _. split; vm_compute; reflexivity. }
  destruct Hboot as (g1 & rs & st & Hboot & Hfull).
  exists g1, rs, st. split; [exact Hboot|]. split; [exact Hfull|].
  destruct (C7_nru_first_eviction_reads_past_class_size _ _ _ _ _ _ _ _ _ Hboot)
    as (_ & _ & _ & Hstep).
  exact (Hstep Hfull 1 0 (Examples.page 1)).
Defined.

(* Nor do class sizes left by an earlier sort select the right class: they
   are not kept up to date.  Here class 0 is chosen with its old size 2,
   the entry drawn (page 1) is by now of class 3, and after the sort the
   same offset still holds page 1, which is evicted although page 0, of
   class 0, is resident. *)
Lemma nru_stale_sizes_choose_a_higher_class :
  exists r st' a b,
    Nru.jm_find_replacement_page Examples.globals Examples.nru_stale 0 0 (Examples.page 3)
      = Returns (r, st') /\
    Nru.used_pages Examples.nru_stale !! 0%nat = Some a /\ Nru.NRU_CLASS a = 0 /\
    Nru.used_pages Examples.nru_stale !! 1%nat = Some b /\ Nru.NRU_CLASS b = 3 /\
    evictable_page r = memregion Examples.globals + pagesize Examples.globals * Nru.pagenum b.
Proof.
  eexists _, _, _, _. split; [vm_compute; reflexivity|].
  split; [reflexivity|]. split; [reflexivity|].
  split; [reflexivity|]. split; reflexivity.
Qed.

(** ** The page table as a collection of pages *)

Module ResidentFacts.
Import PageTable Resident.

Lemma elem_live_slots pt b :
  b ∈ live_slots pt <->
  match dead_bucket pt with
  | None => 0 <= b < num_used pt
  | Some d => 0 <= b <= num_used pt /\ b <> d
  end.
Proof.
  unfold live_slots. destruct (dead_bucket pt) as [d|].
  - rewrite list_elem_of_filter, elem_of_seqZ. split; intros; lia.
  - rewrite elem_of_seqZ. split; intros; lia.
Qed.

Lemma remove_once (l : list Z) d :
  NoDup l -> d ∈ l -> l ≡ₚ d :: filter (fun b => b <> d) l.
Proof.
  induction l as [|x l IH]; intros Hnd Hin; [by apply elem_of_nil in Hin|].
  apply NoDup_cons in Hnd. destruct Hnd as [Hx Hnd].
  rewrite filter_cons. destruct (decide (x = d)) as [->|Hne].
  - rewrite decide_False by (intros H; by apply H).
    f_equiv. clear IH Hin. induction l as [|y l IH]; [done|].
    apply not_elem_of_cons in Hx. destruct Hx as [Hy Hx].
    apply NoDup_cons in Hnd. destruct Hnd as [_ Hnd].
    rewrite filter_cons, decide_True by done. f_equiv. apply IH; done.
  - rewrite decide_True by done.
    apply elem_of_cons in Hin. destruct Hin as [->|Hin]; [done|].
    rewrite (IH Hnd Hin) at 1. apply Permutation_swap.
Qed.

Lemma omap_agree {A B} (f g : A -> option B) (l : list A) :
  (forall x, x ∈ l -> f x = g x) -> omap f l = omap g l.
Proof.
  intros H. apply list_omap_ext. induction l as [|x l IH]; constructor.
  - apply H. left.
  - apply IH. intros y Hy. apply H. right. done.
Qed.

Lemma elem_pages pt pn :
  pn ∈ pages pt <->
  exists b e, b ∈ live_slots pt /\ used_pages pt !! Z.to_nat b = Some e /\ pagenum e = pn.
Proof.
  unfold pages. rewrite list_elem_of_omap. split.
  - intros (b & Hb & Hf). destruct (used_pages pt !! Z.to_nat b) as [e|] eqn:E; [|done].
    simpl in Hf. inversion Hf; subst. eauto.
  - intros (b & e & Hb & He & <-). exists b. rewrite He. done.
Qed.

(* The search of a chain finds the first bucket with the page, if any. *)
Lemma search_chain_spec pt pn c :
  (forall b, b ∈ c -> 0 <= b /\ exists e, used_pages pt !! Z.to_nat b = Some e) ->
  (exists b e, search_chain pt pn c = Returns (Some b) /\ b ∈ c /\
     used_pages pt !! Z.to_nat b = Some e /\ pagenum e = pn) \/
  (search_chain pt pn c = Returns None /\
   forall b e, b ∈ c -> used_pages pt !! Z.to_nat b = Some e -> pagenum e <> pn).
Proof.
  induction c as [|x c IH]; intros Hv; simpl.
  - right. split; [done|]. intros b e Hb. by apply elem_of_nil in Hb.
  - destruct (Hv x) as (Hx0 & ex & Hex); [left|].
    assert (Hbp : bucket_pagenum pt x = Returns (pagenum ex)).
    { apply PageTableChains.bucket_pagenum_Returns. eauto. }
    rewrite Hbp. simpl.
    destruct (Z.eqb_spec (pagenum ex) pn) as [Heq|Hne].
    + left. exists x, ex. split; [done|]. split; [left|done].
    + destruct IH as [(b & e & Hs & Hb & He & Hp)|[Hs Hnone]].
      { intros b Hb. apply Hv. right. done. }
      * left. exists b, e. split; [done|]. split; [right; done|done].
      * right. split; [done|]. intros b e Hb He.
        apply elem_of_cons in Hb. destruct Hb as [->|Hb]; [|eauto].
        rewrite Hex in He. inversion He; subst. done.
Qed.

Lemma find_page_spec pt pn :
  wf pt ->
  (exists b e, find_page_by_number pt pn = Returns (Some b) /\ b ∈ live_slots pt /\
     used_pages pt !! Z.to_nat b = Some e /\ pagenum e = pn) \/
  (find_page_by_number pt pn = Returns None /\ pn ∉ pages pt).
Proof.
  intros ((Hv & Hc & Hn) & _). unfold find_page_by_number.
  destruct (search_chain_spec pt pn (chain pt (hash_page_number pn)))
    as [(b & e & Hs & Hb & He & Hp)|[Hs Hnone]].
  - intros b Hb. destruct (Hv _ _ Hb) as (_ & ? & e & ? & _). eauto.
  - left. exists b, e. split; [done|]. destruct (Hv _ _ Hb) as (Hl & _). done.
  - right. split; [done|]. rewrite elem_pages. intros (b & e & Hl & He & Hp).
    assert (Hb0 : 0 <= b) by (apply elem_live_slots in Hl; destruct (dead_bucket pt); lia).
    pose proof (Hc b e Hl Hb0 He) as Hin. rewrite Hp in Hin.
    exact (Hnone b e Hin He Hp).
Qed.

Lemma insert_general g pt live address extradata :
  chains_ok pt live ->
  num_used pt <> table_size pt ->
  let slot := match dead_bucket pt with Some b => b | None => num_used pt end in
  ~ live slot -> 0 <= slot < Z.of_nat (length (used_pages pt)) ->
  exists pt' old,
    used_pages pt !! Z.to_nat slot = Some old /\
    jm_page_table_insert g pt address extradata = Returns pt' /\
    chains_ok pt' (fun x => live x \/ x = slot) /\
    dead_bucket pt' = None /\ num_used pt' = wrap64 (num_used pt + 1) /\
    table_size pt' = table_size pt /\ payload_bytes pt' = payload_bytes pt /\
    used_pages pt' =
      <[Z.to_nat slot :=
          {| pagenum := wrap32 (GET_PAGE_NUMBER g address);
             payload := match extradata with
                        | Some d => take (Z.to_nat (payload_bytes pt)) d
                        | None => payload old
                        end |}]> (used_pages pt) /\
    chain pt' (hash_page_number (wrap32 (GET_PAGE_NUMBER g address))) =
      slot :: chain pt (hash_page_number (wrap32 (GET_PAGE_NUMBER g address))).
Proof.
  intros (Hv & Hc & Hn) Hnf slot Hnl Hslot.
  unfold jm_page_table_insert.
  destruct (Z.eqb_spec (num_used pt) (table_size pt)); [done|].
  fold slot.
  destruct (array_get_in_range (used_pages pt) slot Hslot) as (old & Hget & Hold).
  rewrite Hget. simpl. rewrite array_set_in_range by done. simpl.
  set (pn := wrap32 (GET_PAGE_NUMBER g address)).
  set (e' := {| pagenum := pn;
                payload := match extradata with
                           | Some d => take (Z.to_nat (payload_bytes pt)) d
                           | None => payload old
                           end |}).
  set (used' := <[Z.to_nat slot := e']> (used_pages pt)).
  assert (Hl' : used' !! Z.to_nat slot = Some e').
  { apply list_lookup_insert_eq. lia. }
  unfold insert_pte, bucket_pagenum.
  assert (Hget' : array_get (used_pages (set_used_pages pt used')) slot = Returns e').
  { apply array_get_Returns. simpl. split; [lia|done]. }
  rewrite Hget'. simpl.
  eexists _, old. split; [done|]. split; [reflexivity|]. simpl.
  assert (Hother : forall b, 0 <= b -> b <> slot ->
            used' !! Z.to_nat b = used_pages pt !! Z.to_nat b).
  { intros b Hb0 Hne. apply list_lookup_insert_ne. intros Heq. apply Z2Nat.inj in Heq; lia. }
  assert (Hch : forall c,
            chain (set_num_used
                     (set_chain (set_used_pages pt used') (hash_page_number pn)
                        (slot :: chain (set_used_pages pt used') (hash_page_number pn)) None)
                     (wrap64 (num_used pt + 1))) c
            = if decide (hash_page_number pn = c) then slot :: chain pt c else chain pt c).
  { intros c. unfold chain. simpl. rewrite lookup_insert.
    destruct (decide (hash_page_number pn = c)) as [<-|]; done. }
  split; [|split; [done|split; [done|split; [done|split; [done|split; [done|]]]]]].
  - split; [|split].
    + intros c b Hb. rewrite Hch in Hb.
      assert (Hcases : (b = slot /\ hash_page_number pn = c) \/ b ∈ chain pt c).
      { destruct (decide (hash_page_number pn = c)); [|auto].
        apply elem_of_cons in Hb. destruct Hb; auto. }
      destruct Hcases as [[-> <-]|Hb'].
      * split; [auto|]. split; [lia|]. exists e'. done.
      * destruct (Hv _ _ Hb') as (Hlb & Hb0 & eb & Heb & Hhb).
        split; [auto|]. split; [done|]. exists eb. split; [|done].
        simpl. rewrite Hother; [done|done|]. intros ->. done.
    + intros b e [Hlb| ->] Hb0 He; simpl in He; rewrite Hch.
      * assert (Hne : b <> slot) by (intros ->; done).
        rewrite Hother in He by done.
        specialize (Hc b e Hlb Hb0 He).
        destruct (decide _); [right|]; done.
      * rewrite Hl' in He. inversion He; subst. simpl.
        destruct (decide _); [left|done].
    + intros c. rewrite Hch. destruct (decide _); [|apply Hn].
      apply NoDup_cons. split; [|apply Hn].
      intros Hin. destruct (Hv _ _ Hin) as (? & _). done.
  - rewrite Hch. rewrite decide_True by done. done.
Qed.

Lemma create_wf g explicit valuebytes pt g1 :
  jm_create_page_table g explicit valuebytes = Returns (pt, g1) ->
  wf pt /\ pages pt = [] /\ num_used pt = 0 /\ dead_bucket pt = None /\
  1 <= table_size pt /\ local_pages g1 = table_size pt /\
  payload_bytes pt = valuebytes.
Proof.
  unfold jm_create_page_table. intros H.
  match type of H with (if ?n <? 1 then _ else _) = _ =>
    set (N := n) in *; destruct (Z.ltb_spec N 1); [discriminate|] end.
  assert (HN : N <= 2 ^ 63).
  { subst N. destruct explicit; [pose proof (to_long_range (local_pages g)); lia|].
    match goal with |- Z.quot ?a ?b <= _ =>
      pose proof (quot_abs_le a b); pose proof (to_long_range
        (to_long (local_pages g * pagesize g) - HASH_TABLE_SIZE * 8)) end. lia. }
  inversion H; subst pt g1; clear H. simpl.
  split; [|done].
  unfold wf; simpl. rewrite length_replicate.
  split; [|lia]. split; [|split].
  - intros c b Hb. unfold chain in Hb. simpl in Hb. rewrite lookup_empty in Hb.
    by apply elem_of_nil in Hb.
  - intros b e Hl. apply elem_live_slots in Hl. simpl in Hl. lia.
  - intros c. unfold chain. simpl. rewrite lookup_empty. constructor.
Qed.

(* jm_page_table_insert adds one occurrence of the page; with a dead bucket
   it reuses the entry that was deleted last. *)
Lemma insert_wf g pt address extradata :
  wf pt -> num_used pt <> table_size pt ->
  exists pt',
    jm_page_table_insert g pt address extradata = Returns pt' /\
    wf pt' /\ dead_bucket pt' = None /\ num_used pt' = num_used pt + 1 /\
    table_size pt' = table_size pt /\ payload_bytes pt' = payload_bytes pt /\
    pages pt' ≡ₚ wrap32 (GET_PAGE_NUMBER g address) :: pages pt /\
    jm_page_table_find g pt' address =
      Returns (Some (match extradata with
                     | Some d => take (Z.to_nat (payload_bytes pt)) d
                     | None =>
                         default []
                           (payload <$> used_pages pt !!
                              Z.to_nat (default (num_used pt) (dead_bucket pt)))
                     end)).
Proof.
  intros (Hch & Hn0 & Hlen & Hts & Hdead) Hnf.
  set (slot := match dead_bucket pt with Some b => b | None => num_used pt end).
  assert (Hslot : 0 <= slot < Z.of_nat (length (used_pages pt))).
  { subst slot. destruct (dead_bucket pt); lia. }
  assert (Hnl : ~ slot ∈ live_slots pt).
  { rewrite elem_live_slots. subst slot. destruct (dead_bucket pt); lia. }
  destruct (insert_general g pt _ address extradata Hch Hnf Hnl Hslot)
    as (pt' & old & Hold & Hins & Hch' & Hd' & Hn' & Hts' & Hpb' & Hused' & Hchain').
  fold slot in Hold, Hch', Hused', Hchain'.
  assert (Hnum : wrap64 (num_used pt + 1) = num_used pt + 1).
  { apply wrap64_small. destruct (dead_bucket pt); lia. }
  rewrite Hnum in Hn'.
  set (pn := wrap32 (GET_PAGE_NUMBER g address)) in *.
  match type of Hused' with _ = <[_ := ?x]> _ => set (e' := x) in * end.
  assert (Hlive' : forall b, b ∈ live_slots pt' <-> b ∈ live_slots pt \/ b = slot).
  { intros b. rewrite !elem_live_slots, Hd', Hn'. subst slot.
    destruct (dead_bucket pt) as [d|]; lia. }
  assert (Hat : used_pages pt' !! Z.to_nat slot = Some e').
  { rewrite Hused'. apply list_lookup_insert_eq. lia. }
  assert (Hother : forall b, 0 <= b -> b <> slot ->
            used_pages pt' !! Z.to_nat b = used_pages pt !! Z.to_nat b).
  { intros b Hb0 Hne. rewrite Hused'. apply list_lookup_insert_ne.
    intros Heq. apply Z2Nat.inj in Heq; lia. }
  exists pt'. split; [exact Hins|].
  split.
  { unfold wf. rewrite Hd', Hn', Hts', Hused', length_insert.
    split; [|destruct (dead_bucket pt); lia].
    refine (PageTableChains.chains_ok_ext _ _ _ _ Hch'). intros b.
    rewrite Hlive'. done. }
  split; [done|]. split; [done|]. split; [done|]. split; [done|].
  split.
  - (* the pages *)
    assert (Hperm : live_slots pt' ≡ₚ slot :: live_slots pt).
    { unfold live_slots at 1. rewrite Hd', Hn'. unfold live_slots. subst slot.
      destruct (dead_bucket pt) as [d|].
      - apply remove_once; [apply NoDup_seqZ|]. apply elem_of_seqZ. lia.
      - rewrite seqZ_app by lia. simpl.
        change (seqZ (0 + num_used pt) 1) with [0 + num_used pt].
        rewrite Z.add_0_l. symmetry. apply Permutation_cons_append. }
    unfold pages. rewrite Hperm. simpl. rewrite Hat. simpl. f_equiv.
    rewrite (omap_agree _ (fun b => pagenum <$> used_pages pt !! Z.to_nat b)); [done|].
    intros b Hb. rewrite Hother; [done| |].
    + apply elem_live_slots in Hb. destruct (dead_bucket pt); lia.
    + intros ->. done.
  - (* the page just inserted heads its chain *)
    unfold jm_page_table_find, find_page_by_number. fold pn. rewrite Hchain'. simpl.
    assert (Hbp : bucket_pagenum pt' slot = Returns pn).
    { apply PageTableChains.bucket_pagenum_Returns. split; [lia|]. exists e'. done. }
    rewrite Hbp. simpl. rewrite Z.eqb_refl. simpl.
    assert (Hg : array_get (used_pages pt') slot = Returns e').
    { apply array_get_Returns. split; [lia|done]. }
    rewrite Hg. simpl. subst e'. simpl.
    destruct extradata; [done|].
    replace (default (num_used pt) (dead_bucket pt)) with slot
      by (subst slot; destruct (dead_bucket pt); done).
    rewrite Hold. done.
Qed.

(* jm_page_table_delete removes one occurrence of a page the table holds
   and leaves the entry in the dead bucket. *)
Lemma delete_wf g pt address :
  wf pt -> dead_bucket pt = None ->
  wrap32 (GET_PAGE_NUMBER g address) ∈ pages pt ->
  exists pt' d,
    jm_page_table_delete g pt address = Returns pt' /\
    wf pt' /\ dead_bucket pt' = Some d /\ num_used pt' = num_used pt - 1 /\
    table_size pt' = table_size pt /\ used_pages pt' = used_pages pt /\
    pages pt ≡ₚ wrap32 (GET_PAGE_NUMBER g address) :: pages pt'.
Proof.
  intros (Hch & Hn0 & Hlen & Hts & Hdead) Hnone Hin.
  rewrite Hnone in Hdead.
  apply elem_pages in Hin. destruct Hin as (b0 & e0 & Hl0 & He0 & Hp0).
  assert (Hb0 : 0 <= b0 < num_used pt).
  { apply elem_live_slots in Hl0. rewrite Hnone in Hl0. done. }
  destruct (PageTableChains.delete_chains_ok pt _ b0 e0 Hch Hnone Hl0 ltac:(lia) He0)
    as (pt1 & b & e & Hdel & Hlb & Hb & He & Hpe & Hch1 & Hd1 & Hu1 & Hn1 & Hts1 & Hpb1).
  assert (Hbr : 0 <= b < num_used pt).
  { apply elem_live_slots in Hlb. rewrite Hnone in Hlb. done. }
  unfold jm_page_table_delete. rewrite <- Hp0, Hdel. simpl.
  rewrite Hn1, (wrap64_small (num_used pt - 1)) by lia.
  eexists _, b. split; [reflexivity|].
  assert (Hlive' : live_slots (set_num_used pt1 (num_used pt - 1)) =
                   filter (fun x => x <> b) (live_slots pt)).
  { unfold live_slots. simpl. rewrite Hd1, Hnone.
    replace (num_used pt - 1 + 1) with (num_used pt) by lia. done. }
  split.
  { unfold wf. simpl. rewrite Hd1, Hu1, Hts1.
    split; [|lia].
    refine (PageTableChains.chains_ok_ext _ _ _ _ Hch1). intros x.
    rewrite Hlive', list_elem_of_filter. tauto. }
  simpl. split; [done|]. split; [done|]. split; [done|]. split; [done|].
  unfold pages. rewrite Hlive'. simpl. rewrite Hu1.
  rewrite (remove_once (live_slots pt) b) at 1.
  - simpl. rewrite He. simpl. rewrite Hpe. done.
  - unfold live_slots. rewrite Hnone. apply NoDup_seqZ.
  - done.
Qed.

End ResidentFacts.

Module ResidentMore.
Import PageTable Resident ResidentFacts.

Lemma pages_length pt :
  wf pt -> Z.of_nat (length (pages pt)) = num_used pt.
Proof.
  intros (Hch & Hn0 & Hlen & Hts & Hdead).
  assert (Hall : forall b, b ∈ live_slots pt ->
            is_Some (pagenum <$> used_pages pt !! Z.to_nat b)).
  { intros b Hb. apply elem_live_slots in Hb.
    destruct (lookup_lt_is_Some_2 (used_pages pt) (Z.to_nat b)) as [e He].
    - destruct (dead_bucket pt); lia.
    - rewrite He. eexists. done. }
  assert (Hl : length (pages pt) = length (live_slots pt)).
  { unfold pages. revert Hall. generalize (live_slots pt). intros l.
    induction l as [|x l IH]; intros Hall; [done|]. csimpl.
    destruct (Hall x) as [y Hy]; [left|]. rewrite Hy. simpl. f_equal.
    apply IH. intros b Hb. apply Hall. right. done. }
  rewrite Hl. unfold live_slots. destruct (dead_bucket pt) as [d|].
  - assert (Hp : seqZ 0 (num_used pt + 1) ≡ₚ
                 d :: filter (fun b => b <> d) (seqZ 0 (num_used pt + 1))).
    { apply remove_once; [apply NoDup_seqZ|]. apply elem_of_seqZ. lia. }
    apply Permutation_length in Hp. rewrite length_seqZ in Hp. simpl in Hp. lia.
  - rewrite length_seqZ. lia.
Qed.

Lemma find_spec g pt address :
  wf pt ->
  (wrap32 (GET_PAGE_NUMBER g address) ∈ pages pt ->
     exists d, jm_page_table_find g pt address = Returns (Some d)) /\
  (wrap32 (GET_PAGE_NUMBER g address) ∉ pages pt ->
     jm_page_table_find g pt address = Returns None).
Proof.
  intros Hwf. unfold jm_page_table_find.
  destruct (find_page_spec pt (wrap32 (GET_PAGE_NUMBER g address)) Hwf)
    as [(b & e & Hf & Hl & He & Hp)|[Hf Hnot]]; rewrite Hf; simpl.
  - split; [|intros Hn; exfalso; apply Hn; apply elem_pages; eauto].
    intros _. assert (Hg : array_get (used_pages pt) b = Returns e).
    { apply array_get_Returns. split; [|done].
      apply elem_live_slots in Hl. destruct (dead_bucket pt); lia. }
    rewrite Hg. simpl. eauto.
  - split; [done|done].
Qed.

Lemma delete_missing g pt address :
  wf pt -> wrap32 (GET_PAGE_NUMBER g address) ∉ pages pt ->
  aborts (jm_page_table_delete g pt address).
Proof.
  intros Hwf Hn. unfold jm_page_table_delete.
  destruct (find_page_spec pt (wrap32 (GET_PAGE_NUMBER g address)) Hwf)
    as [(b & e & Hf & Hl & He & Hp)|[Hf _]].
  - exfalso. apply Hn. apply elem_pages. eauto.
  - destruct (PageTableFacts.delete_absent _ _ Hf) as [msg Hmsg].
    rewrite Hmsg. eexists. done.
Qed.

Lemma apply_operations_wf g ops : forall pt pt',
  wf pt -> apply_operations g pt ops = Returns pt' ->
  wf pt' /\ Z.of_nat (length (pages pt')) = num_used pt' /\ table_size pt' = table_size pt.
Proof.
  induction ops as [|op ops IH]; intros pt pt' Hwf H; simpl in H.
  - inversion H; subst. split; [done|]. split; [apply pages_length; done|done].
  - destruct (apply_operation g pt op) as [pt1| | |] eqn:E; simpl in H; try discriminate.
    assert (Hwf1 : wf pt1 /\ table_size pt1 = table_size pt).
    { destruct op as [a|a]; simpl in E.
      - destruct (Z.eq_dec (num_used pt) (table_size pt)) as [Hfull|Hroom].
        + destruct (PageTableFacts.insert_full g pt a None Hfull) as [msg Hmsg].
          rewrite Hmsg in E. discriminate.
        + destruct (insert_wf g pt a None Hwf Hroom) as (pt2 & Hins & Hwf2 & _ & _ & Hts & _).
          rewrite Hins in E. inversion E; subst. done.
      - destruct (dead_bucket pt) as [d|] eqn:Ed.
        + destruct (PageTableFacts.delete_returns _ _ _ _ E) as (Hd & _). congruence.
        + destruct (decide (wrap32 (GET_PAGE_NUMBER g a) ∈ pages pt)) as [Hin|Hout].
          * destruct (delete_wf g pt a Hwf Ed Hin) as (pt2 & d & Hdel & Hwf2 & _ & _ & Hts & _).
            rewrite Hdel in E. inversion E; subst. done.
          * destruct (delete_missing g pt a Hwf Hout) as [msg Hmsg].
            rewrite Hmsg in E. discriminate. }
    destruct Hwf1 as [Hwf1 Hts1].
    destruct (IH _ _ Hwf1 H) as (? & ? & ?). split; [done|]. split; [done|lia].
Qed.

Lemma offset_spec pt index :
  wf pt -> dead_bucket pt = None ->
  (0 <= index < num_used pt -> index < 2 ^ 32 ->
     exists e, jm_page_table_offset pt index = Returns e /\
       used_pages pt !! Z.to_nat index = Some e /\ pagenum e ∈ pages pt) /\
  (num_used pt <= wrap32 index -> aborts (jm_page_table_offset pt index)).
Proof.
  intros (Hch & Hn0 & Hlen & Hts & Hdead) Hnone. rewrite Hnone in Hdead.
  unfold jm_page_table_offset. split.
  - intros Hi H32. rewrite wrap32_small by lia.
    destruct (Z.leb_spec (num_used pt) index); [lia|].
    destruct (array_get_in_range (used_pages pt) index) as (e & Hg & He); [lia|].
    exists e. split; [done|]. split; [done|].
    apply elem_pages. exists index, e. split; [|done].
    apply elem_live_slots. rewrite Hnone. lia.
  - intros Hge. destruct (Z.leb_spec (num_used pt) (wrap32 index)); [|lia].
    eexists. done.
Qed.

(* Page numbers are kept in 32 bits: addresses 2^32 pages apart are one
   key. *)
Lemma page_number_aliases g address :
  0 < pagesize g -> memregion g <= address ->
  address + 2 ^ 32 * pagesize g - memregion g < 2 ^ 64 ->
  wrap32 (GET_PAGE_NUMBER g (address + 2 ^ 32 * pagesize g)) =
  wrap32 (GET_PAGE_NUMBER g address).
Proof.
  intros Hps Hlo Hhi. unfold GET_PAGE_NUMBER.
  rewrite !wrap64_small by nia.
  replace (address + 2 ^ 32 * pagesize g - memregion g)
    with (address - memregion g + 2 ^ 32 * pagesize g) by lia.
  rewrite Z.div_add by lia. unfold wrap32.
  rewrite Z.add_mod, Z.mod_same, Z.add_0_r, Z.mod_mod by lia. done.
Qed.

End ResidentMore.

Module NreResident.
Import Nre Resident ResidentFacts ResidentMore.

Lemma nre_inv_wf g st : inv g st -> wf (page_table st).
Proof.
  intros (Hps & HN & Hnu & Hts & Hr & Hlen & Hdead & Hch & Hent & _).
  unfold wf. rewrite Hdead. split; [|lia].
  refine (PageTableChains.chains_ok_ext _ _ _ _ Hch). intros b.
  rewrite elem_live_slots, Hdead. lia.
Qed.

(* jm_page_is_resident answers 1 exactly for the pages the table holds. *)
Lemma nre_is_resident g st address :
  inv g st ->
  jm_page_is_resident g st address =
  Returns (if decide (wrap32 (GET_PAGE_NUMBER g address) ∈ pages (page_table st))
           then 1 else 0).
Proof.
  intros Hinv. pose proof (nre_inv_wf g st Hinv) as Hwf.
  unfold jm_page_is_resident.
  destruct (find_spec g (page_table st) address Hwf) as [Hin Hout].
  destruct (decide _) as [H|H].
  - destruct (Hin H) as [d ->]. done.
  - rewrite (Hout H). done.
Qed.

Lemma nre_step_pages fuel g rng st p r st' :
  inv g st -> jm_find_replacement_page fuel g rng st p = Returns (r, st') ->
  wrap32 (GET_PAGE_NUMBER g p) ∈ pages (page_table st') /\
  (num_used st < total_pages st ->
     pages (page_table st') ≡ₚ wrap32 (GET_PAGE_NUMBER g p) :: pages (page_table st)) /\
  (num_used st = total_pages st ->
     exists rest,
       pages (page_table st) ≡ₚ wrap32 (GET_PAGE_NUMBER g (evictable_page r)) :: rest /\
       pages (page_table st') ≡ₚ wrap32 (GET_PAGE_NUMBER g p) :: rest).
Proof.
  intros Hinv H. pose proof (nre_inv_wf g st Hinv) as Hwf.
  pose proof Hinv as (Hps & HN & Hnu & Hts & Hr & Hlen & Hdead & Hch & Hent & Hel & Hql & Hh & Ht & Hmr).
  unfold jm_find_replacement_page in H.
  destruct (Z.ltb_spec (num_used st) (total_pages st)) as [Hlt|Hge].
  - destruct (insert_wf g (page_table st) p None Hwf ltac:(lia))
      as (pt' & Hins & Hwf' & _ & _ & _ & _ & Hperm & _).
    rewrite Hins in H. simpl in H. inversion H; subst; clear H. simpl.
    split; [rewrite Hperm; left|]. split; [done|lia].
  - assert (Hfull : num_used st = total_pages st) by lia.
    destruct (NreFacts.nre_choose_victim_cases fuel g rng st Hinv Hfull (draws st) 0 None)
      as [Hu|(rn & ev & pos' & Hcv & Hrn & e & He & Hev)]; [done|discriminate| |].
    { rewrite Hu in H. discriminate. }
    rewrite Hcv in H. simpl in H.
    rewrite array_set_in_range in H by lia. simpl in H.
    destruct (Z.eqb_spec (evict_len st) 0); [lia|].
    pose proof (wrap32_le rn ltac:(lia)) as Hw.
    destruct (Hent _ _ He) as [Hpn Hpb].
    assert (Hpnev : wrap32 (GET_PAGE_NUMBER g ev) = PageTable.pagenum e).
    { rewrite Hev. apply PageTableChains.page_number_of_page_address; done. }
    assert (Hin : wrap32 (GET_PAGE_NUMBER g ev) ∈ pages (page_table st)).
    { apply elem_pages. exists (wrap32 rn), e. split; [|done].
      apply elem_live_slots. rewrite Hdead. lia. }
    destruct (delete_wf g (page_table st) ev Hwf Hdead Hin)
      as (pt1 & d & Hdel & Hwf1 & Hd1 & Hn1 & Hts1 & Hu1 & Hperm1).
    rewrite Hdel in H. simpl in H.
    destruct (insert_wf g pt1 p None Hwf1 ltac:(lia))
      as (pt2 & Hins & Hwf2 & _ & _ & _ & _ & Hperm2 & _).
    rewrite Hins in H. simpl in H. inversion H; subst; clear H. simpl.
    split; [rewrite Hperm2; left|]. split; [lia|].
    intros _. exists (pages pt1). done.
Qed.

Lemma nre_run_pages fuel g rng faults : forall st rs st',
  inv g st -> run fuel g rng st faults = Returns (rs, st') ->
  (forall n, n ∈ pages (page_table st') ->
     n ∈ pages (page_table st) \/
     exists p, p ∈ faults /\ n = wrap32 (GET_PAGE_NUMBER g p)) /\
  (forall p, last faults = Some p ->
     wrap32 (GET_PAGE_NUMBER g p) ∈ pages (page_table st')).
Proof.
  induction faults as [|q faults IH]; intros st rs st' Hinv H; simpl in H.
  - inversion H; subst. split; [auto|]. intros p Hp. discriminate.
  - destruct (jm_find_replacement_page fuel g rng st q) as [[r st1]| | |] eqn:Es;
      simpl in H; try discriminate.
    destruct (run fuel g rng st1 faults) as [[rs1 st2]| | |] eqn:Er; simpl in H;
      try discriminate.
    inversion H; subst; clear H.
    destruct (NreFacts.nre_step_inv _ _ _ _ _ _ _ Hinv Es) as [Hinv1 _].
    destruct (nre_step_pages _ _ _ _ _ _ _ Hinv Es) as (Hq & Hfill & Hfull).
    destruct (IH _ _ _ Hinv1 Er) as [Hsub Hlast].
    assert (Hstep : forall n, n ∈ pages (page_table st1) ->
              n ∈ pages (page_table st) \/ n = wrap32 (GET_PAGE_NUMBER g q)).
    { intros n Hn.
      assert (Hr : 0 <= num_used st <= total_pages st) by (unfold inv in Hinv; tauto).
      destruct (Z.lt_ge_cases (num_used st) (total_pages st)) as [Hlt|Hge].
      - rewrite (Hfill Hlt) in Hn. apply elem_of_cons in Hn. tauto.
      - destruct Hfull as (rest & Hp & Hp'); [lia|].
        rewrite Hp' in Hn. apply elem_of_cons in Hn. destruct Hn as [->|Hn]; [auto|].
        left. rewrite Hp. right. done. }
    split.
    + intros n Hn. destruct (Hsub n Hn) as [Hn1|(p & Hp & ->)].
      * destruct (Hstep n Hn1) as [Hn0| ->]; [auto|]. right. exists q. split; [left|done].
      * right. exists p. split; [right; done|done].
    + intros p Hp. destruct faults as [|q' faults'].
      * simpl in Hp. inversion Hp; subst. simpl in Er. inversion Er; subst. done.
      * apply Hlast. done.
Qed.

End NreResident.

(** X1.  The table jm_create_page_table returns is well formed, holds no
    page (jm_page_table_find answers NULL for every address), has room
    for at least one entry, and its size is what local_pages has been
    set to; with JM_LOCAL_PAGES set that is the page count given. *)
Theorem pagetable_create_is_empty (g : JUMBOMEM_GLOBALS) (explicit : bool) (valuebytes : Z)
    pt g1 :
  PageTable.jm_create_page_table g explicit valuebytes = Returns (pt, g1) ->
  Resident.wf pt /\ Resident.pages pt = [] /\ PageTable.num_used pt = 0 /\
  1 <= PageTable.table_size pt /\ local_pages g1 = PageTable.table_size pt /\
  (explicit = true -> PageTable.table_size pt = PageTable.to_long (local_pages g)) /\
  forall g' address, PageTable.jm_page_table_find g' pt address = Returns None.
Proof.
  intros H.
  destruct (ResidentFacts.create_wf _ _ _ _ _ H) as (Hwf & Hp & Hn & Hd & Hs & Hl & _).
  split; [done|]. split; [done|]. split; [done|]. split; [done|]. split; [done|].
  split.
  - intros ->. unfold PageTable.jm_create_page_table in H.
    destruct (PageTable.to_long (local_pages g) <? 1); [discriminate|].
    inversion H; subst. done.
  - intros g' address.
    destruct (ResidentMore.find_spec g' pt address Hwf) as [_ Hout].
    apply Hout. rewrite Hp. apply not_elem_of_nil.
Qed.

Lemma pagetable_create_is_empty_example :
  exists pt g1,
    PageTable.jm_create_page_table (set_local_pages Examples.globals 3) true 0
      = Returns (pt, g1) /\
    Resident.pages pt = [] /\ PageTable.table_size pt = 3.
Proof.
  assert (H : exists pt g1,
    PageTable.jm_create_page_table (set_local_pages Examples.globals 3) true 0
      = Returns (pt, g1) /\ PageTable.table_size pt = 3).
  { eexists _, _. split; vm_compute; reflexivity. }
  destruct H as (pt & g1 & H & Hs).
  destruct (pagetable_create_is_empty _ _ _ _ _ H) as (_ & Hp & _).
  exists pt, g1. done.
Defined.

(** X2.  In a well-formed table that is not full jm_page_table_insert
    returns, leaves the table well formed with one more entry and one
    more occurrence of the page (a page already present is entered a
    second time), and jm_page_table_find of the address then yields the
    payload just stored. *)
Theorem pagetable_insert_then_find (g : JUMBOMEM_GLOBALS) (pt : PageTable.PAGE_TABLE)
    (address : Z) (extradata : list Z) :
  Resident.wf pt -> PageTable.num_used pt <> PageTable.table_size pt ->
  exists pt',
    PageTable.jm_page_table_insert g pt address (Some extradata) = Returns pt' /\
    Resident.wf pt' /\ PageTable.num_used pt' = PageTable.num_used pt + 1 /\
    Resident.pages pt' ≡ₚ wrap32 (GET_PAGE_NUMBER g address) :: Resident.pages pt /\
    PageTable.jm_page_table_find g pt' address =
      Returns (Some (take (Z.to_nat (PageTable.payload_bytes pt)) extradata)).
Proof.
  intros Hwf Hroom.
  destruct (ResidentFacts.insert_wf g pt address (Some extradata) Hwf Hroom)
    as (pt' & Hins & Hwf' & _ & Hn & _ & _ & Hperm & Hfind).
  exists pt'. done.
Qed.

Lemma pagetable_insert_then_find_example :
  exists pt g1 pt',
    PageTable.jm_create_page_table (set_local_pages Examples.globals 3) true 2
      = Returns (pt, g1) /\
    PageTable.jm_page_table_insert g1 pt (Examples.page 7) (Some [10; 20; 30]) = Returns pt' /\
    PageTable.jm_page_table_find g1 pt' (Examples.page 7) = Returns (Some [10; 20]).
Proof.
  assert (H : exists pt g1,
    PageTable.jm_create_page_table (set_local_pages Examples.globals 3) true 2
      = Returns (pt, g1) /\ PageTable.num_used pt <> PageTable.table_size pt /\
    PageTable.payload_bytes pt = 2).
  { eexists _, _. split; [vm_compute; reflexivity|]. split; [discriminate|reflexivity]. }
  destruct H as (pt & g1 & H & Hroom & Hpb).
  destruct (ResidentFacts.create_wf _ _ _ _ _ H) as (Hwf & _).
  destruct (pagetable_insert_then_find g1 pt (Examples.page 7) [10; 20; 30] Hwf Hroom)
    as (pt' & Hins & _ & _ & _ & Hfind).
  exists pt, g1, pt'. split; [exact H|]. split; [exact Hins|].
  rewrite Hfind, Hpb. reflexivity.
Defined.

(** X3.  In a well-formed table with no deletion pending,
    jm_page_table_delete of a page the table holds returns, removes one
    occurrence of the page, decrements num_used and leaves the entry in
    the dead bucket without touching used_pages; for a page the table does
    not hold it aborts. *)
Theorem pagetable_delete_removes_one (g : JUMBOMEM_GLOBALS) (pt : PageTable.PAGE_TABLE)
    (address : Z) :
  Resident.wf pt -> PageTable.dead_bucket pt = None ->
  (wrap32 (GET_PAGE_NUMBER g address) ∈ Resident.pages pt ->
   exists pt' d,
     PageTable.jm_page_table_delete g pt address = Returns pt' /\
     Resident.wf pt' /\ PageTable.dead_bucket pt' = Some d /\
     PageTable.num_used pt' = PageTable.num_used pt - 1 /\
     PageTable.used_pages pt' = PageTable.used_pages pt /\
     Resident.pages pt ≡ₚ wrap32 (GET_PAGE_NUMBER g address) :: Resident.pages pt') /\
  (wrap32 (GET_PAGE_NUMBER g address) ∉ Resident.pages pt ->
   aborts (PageTable.jm_page_table_delete g pt address)).
Proof.
  intros Hwf Hdead. split.
  - intros Hin.
    destruct (ResidentFacts.delete_wf g pt address Hwf Hdead Hin)
      as (pt' & d & Hdel & Hwf' & Hd & Hn & _ & Hu & Hperm).
    exists pt', d. done.
  - apply ResidentMore.delete_missing. done.
Qed.

Lemma pagetable_delete_removes_one_example :
  exists pt g1 pt1 pt2,
    PageTable.jm_create_page_table (set_local_pages Examples.globals 3) true 0
      = Returns (pt, g1) /\
    PageTable.jm_page_table_insert g1 pt (Examples.page 7) None = Returns pt1 /\
    PageTable.jm_page_table_delete g1 pt1 (Examples.page 7) = Returns pt2 /\
    aborts (PageTable.jm_page_table_delete g1 pt1 (Examples.page 8)).
Proof.
  assert (H : exists pt g1,
    PageTable.jm_create_page_table (set_local_pages Examples.globals 3) true 0
      = Returns (pt, g1) /\ PageTable.num_used pt <> PageTable.table_size pt /\
    wrap32 (GET_PAGE_NUMBER g1 (Examples.page 8)) <> wrap32 (GET_PAGE_NUMBER g1 (Examples.page 7))).
  { eexists _, _. split; [vm_compute; reflexivity|]. split; vm_compute; discriminate. }
  destruct H as (pt & g1 & H & Hroom & Hne).
  destruct (ResidentFacts.create_wf _ _ _ _ _ H) as (Hwf & Hp & _).
  destruct (ResidentFacts.insert_wf g1 pt (Examples.page 7) None Hwf Hroom)
    as (pt1 & Hins & Hwf1 & Hd1 & _ & _ & _ & Hperm & _).
  destruct (pagetable_delete_removes_one g1 pt1 (Examples.page 7) Hwf1 Hd1) as [Hin _].
  destruct (pagetable_delete_removes_one g1 pt1 (Examples.page 8) Hwf1 Hd1) as [_ Hout].
  destruct Hin as (pt2 & d & Hdel & _); [rewrite Hperm; left|].
  exists pt, g1, pt1, pt2. split; [exact H|]. split; [exact Hins|]. split; [exact Hdel|].
  apply Hout. rewrite Hperm, Hp. intros Hin. apply list_elem_of_singleton in Hin. done.
Defined.

(** X4.  In a well-formed table jm_page_table_find answers non-NULL
    exactly for the addresses whose page number, truncated to 32 bits,
    the table holds; it never fails. *)
Theorem pagetable_find_decides_membership (g : JUMBOMEM_GLOBALS)
    (pt : PageTable.PAGE_TABLE) (address : Z) :
  Resident.wf pt ->
  (wrap32 (GET_PAGE_NUMBER g address) ∈ Resident.pages pt <->
     exists d, PageTable.jm_page_table_find g pt address = Returns (Some d)) /\
  (wrap32 (GET_PAGE_NUMBER g address) ∉ Resident.pages pt <->
     PageTable.jm_page_table_find g pt address = Returns None).
Proof.
  intros Hwf. destruct (ResidentMore.find_spec g pt address Hwf) as [Hin Hout].
  split; split.
  - exact Hin.
  - intros [d Hd].
    destruct (decide (wrap32 (GET_PAGE_NUMBER g address) ∈ Resident.pages pt)) as [|Hn];
      [done|]. rewrite (Hout Hn) in Hd. discriminate.
  - exact Hout.
  - intros Hnone Hi. destruct (Hin Hi) as [d Hd]. rewrite Hd in Hnone. discriminate.
Qed.

Lemma pagetable_find_decides_membership_example :
  exists pt g1,
    PageTable.jm_create_page_table (set_local_pages Examples.globals 3) true 0
      = Returns (pt, g1) /\
    PageTable.jm_page_table_find g1 pt (Examples.page 7) = Returns None.
Proof.
  assert (H : exists pt g1,
    PageTable.jm_create_page_table (set_local_pages Examples.globals 3) true 0
      = Returns (pt, g1)).
  { eexists _, _. vm_compute. reflexivity. }
  destruct H as (pt & g1 & H).
  destruct (ResidentFacts.create_wf _ _ _ _ _ H) as (Hwf & Hp & _).
  destruct (pagetable_find_decides_membership g1 pt (Examples.page 7) Hwf) as [_ [Hout _]].
  exists pt, g1. split; [exact H|]. apply Hout. rewrite Hp. apply not_elem_of_nil.
Defined.

(** X5.  No operation on a well-formed table has undefined behaviour:
    an insertion returns unless the table is full, a deletion returns
    unless a deletion is pending or the page is absent, and otherwise
    they abort.  Any sequence of insertions and deletions that returns
    leaves a well-formed table of the same size whose num_used is the
    number of pages it holds. *)
Theorem pagetable_operations_are_safe (g : JUMBOMEM_GLOBALS) (pt : PageTable.PAGE_TABLE) :
  Resident.wf pt ->
  (forall op,
     (returns (PageTable.apply_operation g pt op) <->
      match op with
      | PageTable.Insert _ => PageTable.num_used pt <> PageTable.table_size pt
      | PageTable.Delete a =>
          PageTable.dead_bucket pt = None /\
          wrap32 (GET_PAGE_NUMBER g a) ∈ Resident.pages pt
      end) /\
     (returns (PageTable.apply_operation g pt op) \/
      aborts (PageTable.apply_operation g pt op))) /\
  (forall ops pt',
     PageTable.apply_operations g pt ops = Returns pt' ->
     Resident.wf pt' /\ PageTable.table_size pt' = PageTable.table_size pt /\
     Z.of_nat (length (Resident.pages pt')) = PageTable.num_used pt' /\
     PageTable.num_used pt' <= PageTable.table_size pt').
Proof.
  intros Hwf. split.
  - intros [a|a]; simpl.
    + destruct (Z.eq_dec (PageTable.num_used pt) (PageTable.table_size pt)) as [Hfull|Hroom].
      * destruct (PageTableFacts.insert_full g pt a None Hfull) as [msg Hmsg].
        rewrite Hmsg. split; [|right; eexists; done].
        split; [intros [x Hx]; discriminate|done].
      * destruct (ResidentFacts.insert_wf g pt a None Hwf Hroom) as (pt' & Hins & _).
        rewrite Hins. split; [|left; eexists; done]. split; [done|]. eexists; done.
    + destruct (PageTable.dead_bucket pt) as [d|] eqn:Ed.
      * destruct (PageTableFacts.delete_with_dead_bucket pt
                    (wrap32 (GET_PAGE_NUMBER g a)) d Ed) as [msg Hmsg].
        unfold PageTable.jm_page_table_delete. rewrite Hmsg. simpl.
        split; [|right; eexists; done].
        split; [intros [x Hx]; discriminate|intros [? _]; discriminate].
      * destruct (decide (wrap32 (GET_PAGE_NUMBER g a) ∈ Resident.pages pt)) as [Hin|Hout].
        -- destruct (ResidentFacts.delete_wf g pt a Hwf Ed Hin) as (pt' & d & Hdel & _).
           rewrite Hdel. split; [|left; eexists; done]. split; [done|]. eexists; done.
        -- destruct (ResidentMore.delete_missing g pt a Hwf Hout) as [msg Hmsg].
           rewrite Hmsg. split; [|right; eexists; done].
           split; [intros [x Hx]; discriminate|intros [_ ?]; done].
  - intros ops pt' H.
    destruct (ResidentMore.apply_operations_wf g ops pt pt' Hwf H) as (Hwf' & Hlen & Hts).
    split; [done|]. split; [done|]. split; [done|].
    destruct Hwf' as (_ & _ & _ & _ & Hd). destruct (PageTable.dead_bucket pt'); lia.
Qed.

Lemma pagetable_operations_are_safe_example :
  exists pt g1 pt',
    PageTable.jm_create_page_table (set_local_pages Examples.globals 2) true 0
      = Returns (pt, g1) /\
    PageTable.apply_operations g1 pt
      [PageTable.Insert (Examples.page 1); PageTable.Insert (Examples.page 2);
       PageTable.Delete (Examples.page 1); PageTable.Insert (Examples.page 3)] = Returns pt' /\
    length (Resident.pages pt') = 2%nat.
Proof.
  assert (H : exists pt g1 pt',
    PageTable.jm_create_page_table (set_local_pages Examples.globals 2) true 0
      = Returns (pt, g1) /\
    PageTable.apply_operations g1 pt
      [PageTable.Insert (Examples.page 1); PageTable.Insert (Examples.page 2);
       PageTable.Delete (Examples.page 1); PageTable.Insert (Examples.page 3)] = Returns pt' /\
    PageTable.num_used pt' = 2).
  { eexists _, _, _. split; [vm_compute; reflexivity|]. split; vm_compute; reflexivity. }
  destruct H as (pt & g1 & pt' & H & Hops & Hn).
  destruct (ResidentFacts.create_wf _ _ _ _ _ H) as (Hwf & _).
  destruct (pagetable_operations_are_safe g1 pt Hwf) as [_ Hseq].
  destruct (Hseq _ _ Hops) as (_ & _ & Hlen & _).
  exists pt, g1, pt'. split; [exact H|]. split; [exact Hops|]. lia.
Defined.

(** X6.  In a well-formed table with no deletion pending,
    jm_page_table_offset maps every index below num_used to an entry whose
    page the table holds, and aborts for an index (taken in 32 bits) that
    is not below num_used. *)
Theorem pagetable_offset_in_range (pt : PageTable.PAGE_TABLE) (index : Z) :
  Resident.wf pt -> PageTable.dead_bucket pt = None ->
  (0 <= index < PageTable.num_used pt -> index < 2 ^ 32 ->
     exists e, PageTable.jm_page_table_offset pt index = Returns e /\
       PageTable.used_pages pt !! Z.to_nat index = Some e /\
       PageTable.pagenum e ∈ Resident.pages pt) /\
  (PageTable.num_used pt <= wrap32 index ->
     aborts (PageTable.jm_page_table_offset pt index)).
Proof. apply ResidentMore.offset_spec. Qed.

Lemma pagetable_offset_in_range_example :
  exists pt g1,
    PageTable.jm_create_page_table (set_local_pages Examples.globals 3) true 0
      = Returns (pt, g1) /\
    aborts (PageTable.jm_page_table_offset pt 0).
Proof.
  assert (H : exists pt g1,
    PageTable.jm_create_page_table (set_local_pages Examples.globals 3) true 0
      = Returns (pt, g1) /\ PageTable.num_used pt <= wrap32 0).
  { eexists _, _. split; [vm_compute; reflexivity|]. vm_compute. discriminate. }
  destruct H as (pt & g1 & H & Hle).
  destruct (ResidentFacts.create_wf _ _ _ _ _ H) as (Hwf & _ & _ & Hd & _).
  destruct (pagetable_offset_in_range pt 0 Hwf Hd) as [_ Hout].
  exists pt, g1. split; [exact H|]. exact (Hout Hle).
Defined.

(** X7.  The table keys pages by the low 32 bits of their number: two
    addresses of the region that lie 2^32 pages apart are the same key,
    so a lookup of one finds what was stored for the other. *)
Theorem pagetable_pages_alias_modulo_2_32 (g : JUMBOMEM_GLOBALS)
    (pt : PageTable.PAGE_TABLE) (address : Z) :
  0 < pagesize g -> memregion g <= address ->
  address + 2 ^ 32 * pagesize g - memregion g < 2 ^ 64 ->
  PageTable.jm_page_table_find g pt (address + 2 ^ 32 * pagesize g) =
  PageTable.jm_page_table_find g pt address.
Proof.
  intros Hps Hlo Hhi. unfold PageTable.jm_page_table_find.
  rewrite ResidentMore.page_number_aliases by done. done.
Qed.

Lemma pagetable_pages_alias_modulo_2_32_example :
  PageTable.jm_page_table_find Examples.globals Examples.full_table
    (Examples.page 0 + 2 ^ 32 * pagesize Examples.globals) = Returns (Some []).
Proof.
  rewrite (pagetable_pages_alias_modulo_2_32 Examples.globals Examples.full_table
             (Examples.page 0)); [|reflexivity|discriminate|reflexivity].
  vm_compute. reflexivity.
Defined.

(** X8.  Under the NRE policy, after any run of calls from the initial
    state that returns, the page table holds exactly num_used pages, each
    of them the page of one of the faults of the run; the page of the last
    fault is among them; and jm_page_is_resident answers 1 for an address
    exactly when the table holds its page. *)
Theorem nre_tracks_the_resident_pages (fuel : nat) (g : JUMBOMEM_GLOBALS) (explicit : bool)
    (entries retries : option Z) (junk rng : nat -> Z) (faults : list Z) g1 rs st :
  0 < pagesize g ->
  Nre.boot fuel g explicit entries retries junk rng faults = Returns (g1, rs, st) ->
  Z.of_nat (length (Resident.pages (Nre.page_table st))) = Nre.num_used st /\
  (forall n, n ∈ Resident.pages (Nre.page_table st) ->
     exists p, p ∈ faults /\ n = wrap32 (GET_PAGE_NUMBER g1 p)) /\
  (forall p, last faults = Some p -> Nre.jm_page_is_resident g1 st p = Returns 1) /\
  (forall address,
     Nre.jm_page_is_resident g1 st address =
     Returns (if decide (wrap32 (GET_PAGE_NUMBER g1 address)
                           ∈ Resident.pages (Nre.page_table st)) then 1 else 0)).
Proof.
  intros Hps H.
  destruct (NreFacts.nre_boot_inv _ _ _ _ _ _ _ _ _ _ _ Hps H) as (Hinv & _).
  unfold Nre.boot in H.
  destruct (Nre.jm_initialize_pagereplace g explicit entries retries junk)
    as [[st0 g0]| | |] eqn:Ei; simpl in H; try discriminate.
  destruct (Nre.run fuel g0 rng st0 faults) as [[rs1 st1]| | |] eqn:Er; simpl in H;
    try discriminate.
  inversion H; subst; clear H.
  destruct (NreFacts.nre_init_inv _ _ _ _ _ _ _ Hps Ei) as (Hinv0 & _).
  assert (Hempty : Resident.pages (Nre.page_table st0) = []).
  { unfold Nre.jm_initialize_pagereplace in Ei.
    destruct (PageTable.jm_create_page_table g explicit 0) as [[pt g']| | |] eqn:Ec;
      simpl in Ei; try discriminate.
    destruct (ResidentFacts.create_wf _ _ _ _ _ Ec) as (_ & Hp & _).
    destruct (local_pages g' <? 2); [discriminate|].
    destruct (jm_getenv_nonnegative_int entries); simpl in Ei; try discriminate.
    destruct (jm_getenv_nonnegative_int retries); simpl in Ei; try discriminate.
    destruct (array_set _ _ _); simpl in Ei; try discriminate.
    inversion Ei; subst. done. }
  destruct (NreResident.nre_run_pages _ _ _ _ _ _ _ Hinv0 Er) as [Hsub Hlast].
  pose proof (NreResident.nre_inv_wf _ _ Hinv) as Hwf.
  split.
  { rewrite (ResidentMore.pages_length _ Hwf).
    destruct Hinv as (_ & _ & Hnu & _). done. }
  split.
  { intros n Hn. destruct (Hsub n Hn) as [Hn0|Hn0]; [|done].
    rewrite Hempty in Hn0. by apply elem_of_nil in Hn0. }
  split.
  { intros p Hp. rewrite NreResident.nre_is_resident by done.
    rewrite decide_True; [done|]. apply Hlast. done. }
  intros address. apply NreResident.nre_is_resident. done.
Qed.

Lemma nre_tracks_the_resident_pages_example :
  exists g1 rs st,
    Nre.boot 40 Examples.globals true None None (fun _ => 0) (fun k => Z.of_nat k)
      [Examples.page 1; Examples.page 2; Examples.page 3] = Returns (g1, rs, st) /\
    Nre.jm_page_is_resident g1 st (Examples.page 3) = Returns 1.
Proof.
  assert (H : exists g1 rs st,
    Nre.boot 40 Examples.globals true None None (fun _ => 0) (fun k => Z.of_nat k)
      [Examples.page 1; Examples.page 2; Examples.page 3] = Returns (g1, rs, st)).
  { eexists _, _, _. vm_compute. reflexivity. }
  destruct H as (g1 & rs & st & H).
  destruct (nre_tracks_the_resident_pages _ Examples.globals _ _ _ _ _ _ _ _ _
              ltac:(reflexivity) H)
    as (_ & _ & Hlast & _).
  exists g1, rs, st. split; [exact H|]. apply Hlast. reflexivity.
Defined.

(** X9.  Under the NRE policy a call that starts with the cache full and
    returns exchanges one page: the victim it names was resident, and the
    table then holds the pages it held with one occurrence of the victim
    replaced by the faulted page, which jm_page_is_resident reports
    resident. *)
Theorem nre_eviction_exchanges_one_page (fuel fuel' : nat) (g : JUMBOMEM_GLOBALS)
    (explicit : bool) (entries retries : option Z) (junk rng : nat -> Z) (faults : list Z)
    g1 rs st (p : Z) r st' :
  0 < pagesize g ->
  Nre.boot fuel g explicit entries retries junk rng faults = Returns (g1, rs, st) ->
  Nre.num_used st = Nre.total_pages st ->
  Nre.jm_find_replacement_page fuel' g1 rng st p = Returns (r, st') ->
  Nre.jm_page_is_resident g1 st (evictable_page r) = Returns 1 /\
  Nre.jm_page_is_resident g1 st' p = Returns 1 /\
  exists rest,
    Resident.pages (Nre.page_table st)
      ≡ₚ wrap32 (GET_PAGE_NUMBER g1 (evictable_page r)) :: rest /\
    Resident.pages (Nre.page_table st') ≡ₚ wrap32 (GET_PAGE_NUMBER g1 p) :: rest.
Proof.
  intros Hps Hboot Hfull Hstep.
  destruct (NreFacts.nre_boot_inv _ _ _ _ _ _ _ _ _ _ _ Hps Hboot) as (Hinv & _).
  destruct (NreFacts.nre_step_inv _ _ _ _ _ _ _ Hinv Hstep) as [Hinv' _].
  destruct (NreResident.nre_step_pages _ _ _ _ _ _ _ Hinv Hstep) as (Hp & _ & Hex).
  destruct (Hex Hfull) as (rest & Hperm & Hperm').
  split.
  { rewrite NreResident.nre_is_resident by done.
    rewrite decide_True; [done|]. rewrite Hperm. left. }
  split.
  { rewrite NreResident.nre_is_resident by done. rewrite decide_True; done. }
  exists rest. done.
Qed.

Lemma nre_eviction_exchanges_one_page_example :
  exists g1 rs st r st',
    Nre.boot 40 Examples.globals true None None (fun _ => 0) (fun k => Z.of_nat k)
      [Examples.page 1; Examples.page 2] = Returns (g1, rs, st) /\
    Nre.jm_find_replacement_page 40 g1 (fun k => Z.of_nat k) st (Examples.page 3)
      = Returns (r, st') /\
    Nre.jm_page_is_resident g1 st (evictable_page r) = Returns 1 /\
    Nre.jm_page_is_resident g1 st' (Examples.page 3) = Returns 1.
Proof.
  assert (H : exists g1 rs st r st',
    Nre.boot 40 Examples.globals true None None (fun _ => 0) (fun k => Z.of_nat k)
      [Examples.page 1; Examples.page 2] = Returns (g1, rs, st) /\
    Nre.num_used st = Nre.total_pages st /\
    Nre.jm_find_replacement_page 40 g1 (fun k => Z.of_nat k) st (Examples.page 3)
      = Returns (r, st')).
  { eexists _, _, _, _, _. split; [vm_compute; reflexivity|].
    split; vm_compute; reflexivity. }
  destruct H as (g1 & rs & st & r & st' & Hboot & Hfull & Hstep).
  destruct (nre_eviction_exchanges_one_page _ _ Examples.globals _ _ _ _ _ _ _ _ _ _ _ _
              ltac:(reflexivity) Hboot Hfull Hstep) as (Hv & Hp & _).
  exists g1, rs, st, r, st'. done.
Defined.

(** ** More on the random policy *)

Module RandomVictim.
Import Random.

Lemma random_full_step_victim fuel g rng st p r st' :
  inv st -> num_used st = total_pages st ->
  jm_find_replacement_page fuel g rng st p = Returns (r, st') ->
  evictable_page r <> prevpage st /\ prevpage st' = p /\
  (draws st < draws st')%nat /\
  exists slot v,
    0 <= slot < total_pages st /\ used_pages st !! Z.to_nat slot = Some v /\
    evictable_page r = page_address g v /\
    used_pages st' = <[Z.to_nat slot := wrap32 (GET_PAGE_NUMBER g p)]> (used_pages st).
Proof.
  intros Hinv Hfull H. pose proof Hinv as (HN & Hl & Hr & Hall).
  unfold jm_find_replacement_page in H.
  destruct (Z.ltb_spec (num_used st) (total_pages st)); [lia|].
  assert (Hpos : forall fuel pos rn ev pos',
            choose_victim fuel g rng st pos = Returns (rn, ev, pos') -> (pos < pos')%nat).
  { clear. induction fuel as [|fuel IH]; intros pos rn ev pos' H; simpl in H; [discriminate|].
    destruct (num_used st =? 0); [discriminate|].
    destruct (array_get _ _) as [pn| | |]; simpl in H; try discriminate.
    destruct (_ =? _).
    - apply IH in H. lia.
    - inversion H; subst. lia. }
  destruct (RandomFacts.random_choose_victim_cases fuel g rng st Hinv Hfull (draws st))
    as [Hu|(rn & v & pos' & Hcv & Hrn & Hv & Hv0 & Hne)].
  { rewrite Hu in H. discriminate. }
  rewrite Hcv in H. simpl in H. rewrite array_set_in_range in H by lia. simpl in H.
  inversion H; subst; clear H. simpl.
  split; [done|]. split; [done|]. split; [eapply Hpos; eauto|].
  exists rn, v. done.
Qed.

End RandomVictim.

(** X10.  Under the random policy, once the cache is full, a call that
    returns never names the address of the previous fault as victim: the
    victim is the page recorded in some slot, that slot then records the
    faulted page, every other slot is untouched, the faulted address
    becomes the one protected next time, and at least one more random()
    value has been consumed.  The call does return as soon as one of the
    coming random() values selects a slot whose page is not the previous
    fault. *)
Theorem random_never_evicts_the_previous_fault (fuel : nat) (g : JUMBOMEM_GLOBALS)
    (rng : nat -> Z) (faults : list Z) g1 rs st (p : Z) :
  Random.boot fuel g rng faults = Returns (g1, rs, st) ->
  Random.num_used st = Random.total_pages st ->
  (forall fuel' r st',
     Random.jm_find_replacement_page fuel' g1 rng st p = Returns (r, st') ->
     evictable_page r <> Random.prevpage st /\ Random.prevpage st' = p /\
     (Random.draws st < Random.draws st')%nat /\
     exists slot v,
       0 <= slot < local_pages g1 /\ Random.used_pages st !! Z.to_nat slot = Some v /\
       evictable_page r = page_address g1 v /\
       Random.used_pages st' =
         <[Z.to_nat slot := wrap32 (GET_PAGE_NUMBER g1 p)]> (Random.used_pages st)) /\
  (forall (k : nat) v,
     (Random.draws st <= k)%nat ->
     Random.used_pages st !! Z.to_nat (scale_random (rng k) (Random.num_used st)) = Some v ->
     page_address g1 v <> Random.prevpage st ->
     exists fuel' r st', Random.jm_find_replacement_page fuel' g1 rng st p = Returns (r, st')).
Proof.
  intros Hboot Hfull.
  destruct (RandomFacts.random_boot_inv _ _ _ _ _ _ _ Hboot) as (Hinv & Ht & _).
  split.
  - intros fuel' r st' Hstep.
    destruct (RandomVictim.random_full_step_victim _ _ _ _ _ _ _ Hinv Hfull Hstep)
      as (Hne & Hp & Hd & slot & v & Hs & Hv & He & Hu).
    split; [done|]. split; [done|]. split; [done|].
    exists slot, v. split; [lia|done].
  - intros k v Hk Hv Hne.
    destruct (RandomFacts.random_full_step_progress g1 rng st p k v Hinv Hfull Hk Hv Hne)
      as (fuel' & r & st' & w & Hstep & _).
    exists fuel', r, st'. exact Hstep.
Qed.

Lemma random_never_evicts_the_previous_fault_example :
  exists g1 rs st r st',
    Random.boot 5 Examples.globals (fun k => Z.of_nat k)
      [Examples.page 1; Examples.page 2; Examples.page 3] = Returns (g1, rs, st) /\
    Random.jm_find_replacement_page 5 g1 (fun k => Z.of_nat k) st (Examples.page 4)
      = Returns (r, st') /\
    Random.prevpage st = Examples.page 3 /\ evictable_page r <> Examples.page 3.
Proof.
  assert (H : exists g1 rs st r st',
    Random.boot 5 Examples.globals (fun k => Z.of_nat k)
      [Examples.page 1; Examples.page 2; Examples.page 3] = Returns (g1, rs, st) /\
    Random.num_used st = Random.total_pages st /\
    Random.jm_find_replacement_page 5 g1 (fun k => Z.of_nat k) st (Examples.page 4)
      = Returns (r, st') /\
    Random.prevpage st = Examples.page 3).
  { eexists _, _, _, _, _. split; [vm_compute; reflexivity|].
    split; [vm_compute; reflexivity|]. split; [vm_compute; reflexivity|].
    vm_compute. reflexivity. }
  destruct H as (g1 & rs & st & r & st' & Hboot & Hfull & Hstep & Hprev).
  destruct (random_never_evicts_the_previous_fault 5 Examples.globals (fun k => Z.of_nat k)
              [Examples.page 1; Examples.page 2; Examples.page 3] g1 rs st (Examples.page 4)
              Hboot Hfull) as (Hsafe & _).
  destruct (Hsafe 5%nat r st' Hstep) as (Hne & _).
  exists g1, rs, st, r, st'. rewrite Hprev in Hne. done.
Defined.

(** ** Nested critical sections *)

Module NestingFacts.
Import Thread Nesting.

Lemma enter_well_formed t :
  well_formed t -> internal_depth t + 1 < 2 ^ 32 - 1 ->
  exists t1, jm_enter_critical_section t = Returns t1 /\
    internal_depth t1 = internal_depth t + 1 /\ cancel_handler t1 = cancel_handler t /\
    megalock t1 = true /\ blocked t1 = 0 /\ well_formed t1.
Proof.
  intros [Hd Hl] Hlt. unfold jm_enter_critical_section.
  assert (Hw : wrap32 (internal_depth t + 1) = internal_depth t + 1)
    by (apply wrap32_small; lia).
  destruct (Z.eqb_spec (internal_depth t) 0) as [H0|Hn0].
  - destruct (megalock t) eqn:El; [destruct Hl as [Hl _]; specialize (Hl eq_refl); lia|].
    simpl. eexists. split; [reflexivity|]. simpl. rewrite Hw.
    split; [done|]. split; [done|]. split; [done|]. split; [done|].
    split; simpl; [lia|]. split; [lia|done].
  - simpl. eexists. split; [reflexivity|]. simpl. rewrite Hw.
    assert (Hm : megalock t = true) by (apply Hl; lia).
    split; [done|]. split; [done|]. split; [done|]. split; [done|].
    split; simpl; [lia|]. rewrite Hm. split; [lia|done].
Qed.

Lemma exit_well_formed t :
  well_formed t -> 0 < internal_depth t ->
  exists t1, jm_exit_critical_section t = Returns t1 /\
    internal_depth t1 = internal_depth t - 1 /\ cancel_handler t1 = cancel_handler t /\
    blocked t1 = blocked t /\ (megalock t1 = true <-> 1 < internal_depth t) /\
    well_formed t1.
Proof.
  intros [Hd Hl] Hpos. unfold jm_exit_critical_section.
  assert (Hm : megalock t = true) by (apply Hl; lia).
  rewrite wrap32_small by lia. rewrite Hm. simpl.
  rewrite andb_false_r. eexists. split; [reflexivity|]. simpl.
  split; [done|]. split; [done|]. split; [done|].
  destruct (Z.eqb_spec (internal_depth t - 1) 0).
  - split; [split; [discriminate|lia]|]. split; simpl; [lia|]. split; [discriminate|lia].
  - split; [split; [lia|done]|]. split; simpl; [lia|]. split; [lia|done].
Qed.

Lemma enter_n_spec n : forall t,
  well_formed t -> internal_depth t + Z.of_nat n < 2 ^ 32 - 1 ->
  exists t1, enter_n n t = Returns t1 /\
    internal_depth t1 = internal_depth t + Z.of_nat n /\
    cancel_handler t1 = cancel_handler t /\ well_formed t1 /\
    ((0 < n)%nat -> megalock t1 = true /\ blocked t1 = 0).
Proof.
  induction n as [|n IH]; intros t Hwf Hlt; simpl.
  - exists t. split; [done|]. split; [lia|]. split; [done|]. split; [done|lia].
  - destruct (enter_well_formed t Hwf ltac:(lia)) as (t1 & He & Hd & Hc & Hm & Hb & Hwf1).
    rewrite He. simpl.
    destruct (IH t1 Hwf1 ltac:(lia)) as (t2 & He2 & Hd2 & Hc2 & Hwf2 & Hpos).
    exists t2. split; [done|]. split; [lia|]. split; [congruence|]. split; [done|].
    intros _. destruct n as [|n'].
    + simpl in He2. inversion He2; subst. done.
    + apply Hpos. lia.
Qed.

Lemma exit_n_spec k : forall t,
  well_formed t -> Z.of_nat k <= internal_depth t ->
  exists t1, exit_n k t = Returns t1 /\
    internal_depth t1 = internal_depth t - Z.of_nat k /\
    cancel_handler t1 = cancel_handler t /\ blocked t1 = blocked t /\
    well_formed t1.
Proof.
  induction k as [|k IH]; intros t Hwf Hle; simpl.
  - exists t. split; [done|]. split; [lia|]. done.
  - destruct (exit_well_formed t Hwf ltac:(lia)) as (t1 & He & Hd & Hc & Hb & _ & Hwf1).
    rewrite He. simpl.
    destruct (IH t1 Hwf1 ltac:(lia)) as (t2 & He2 & Hd2 & Hc2 & Hb2 & Hwf2).
    exists t2. split; [done|]. split; [lia|]. split; [congruence|]. split; [congruence|done].
Qed.

End NestingFacts.

(** X11.  JM_ENTER/JM_RETURN pairs nest: a thread that runs user code and
    enters n critical sections in a row holds the mega-lock at depth n and
    is an internal invocation (for is_internal = 0) exactly when n > 1; it
    keeps the lock through its first n - 1 exits, and the n-th exit
    releases the lock and leaves it as it started.  An exit without a
    matching enter does not fail: it wraps the depth to 2^32 - 1 and
    leaves the lock free.  From then on a JM_ENTER takes the depth back
    to 0 without acquiring the lock, so that the function it opens runs
    unlocked and, with is_internal = 0, is not an internal invocation,
    and the matching JM_RETURN sets the depth to 2^32 - 1 again without
    touching the lock. *)
Theorem critical_sections_nest (g : JUMBOMEM_GLOBALS) (t : Thread.THREAD_INFO) (n : nat) :
  Thread.in_user_code t -> (0 < n)%nat -> Z.of_nat n < 2 ^ 32 - 1 ->
  (exists t1,
     Nesting.enter_n n t = Returns t1 /\
     Thread.internal_depth t1 = Z.of_nat n /\ Thread.megalock t1 = true /\
     (is_internal g = 0 -> (Thread.JM_INTERNAL_INVOCATION g t1 = true <-> (1 < n)%nat)) /\
     (forall k, (k < n)%nat ->
        exists t2, Nesting.exit_n k t1 = Returns t2 /\ Thread.megalock t2 = true /\
                   Thread.internal_depth t2 = Z.of_nat n - Z.of_nat k) /\
     Nesting.exit_n n t1 =
       Returns {| Thread.blocked := 0; Thread.internal_depth := 0;
                  Thread.cancel_handler := Thread.cancel_handler t;
                  Thread.megalock := false |}) /\
  (exists t1 t2 t3,
     Thread.jm_exit_critical_section t = Returns t1 /\
     Thread.internal_depth t1 = 2 ^ 32 - 1 /\ Thread.megalock t1 = false /\
     Thread.jm_enter_critical_section t1 = Returns t2 /\
     Thread.internal_depth t2 = 0 /\ Thread.megalock t2 = false /\
     (is_internal g = 0 -> Thread.JM_INTERNAL_INVOCATION g t2 = false) /\
     Thread.jm_exit_critical_section t2 = Returns t3 /\
     Thread.internal_depth t3 = 2 ^ 32 - 1 /\ Thread.megalock t3 = false).
Proof.
  intros Hu Hn Hlt. pose proof (ThreadFacts.user_code_well_formed t Hu) as Hwf.
  destruct Hu as [H0 Hl]. split.
  - destruct (NestingFacts.enter_n_spec n t Hwf ltac:(lia)) as (t1 & He & Hd & Hc & Hwf1 & Hpos).
    destruct (Hpos Hn) as [Hm Hb]. rewrite H0 in Hd.
    exists t1. split; [done|]. split; [lia|]. split; [done|]. split; [|split].
    + intros Hi. unfold Thread.JM_INTERNAL_INVOCATION, Thread.jm_get_internal_depth.
      rewrite Hi, Hd. simpl. destruct (Z.ltb_spec 1 (0 + Z.of_nat n)); split; intros; try lia;
        try done.
    + intros k Hk.
      destruct (NestingFacts.exit_n_spec k t1 Hwf1 ltac:(lia)) as (t2 & He2 & Hd2 & _ & _ & Hwf2).
      exists t2. split; [done|]. split; [|lia]. apply Hwf2. lia.
    + destruct (NestingFacts.exit_n_spec n t1 Hwf1 ltac:(lia)) as (t2 & He2 & Hd2 & Hc2 & Hb2 & Hwf2).
      rewrite He2. f_equal. destruct t2 as [b d c m]. simpl in *.
      assert (d = 0) by lia. subst d.
      destruct m; [destruct Hwf2 as [_ [Hx _]]; specialize (Hx eq_refl); simpl in Hx; lia|].
      f_equal; congruence.
  - unfold Thread.jm_exit_critical_section, Thread.jm_enter_critical_section.
    rewrite H0, Hl. simpl.
    eexists _, _, _. split; [reflexivity|]. simpl. split; [reflexivity|]. split; [done|].
    split; [reflexivity|]. split; [reflexivity|]. split; [done|]. split.
    + intros Hi. unfold Thread.JM_INTERNAL_INVOCATION. rewrite Hi. reflexivity.
    + split; [reflexivity|]. split; reflexivity.
Qed.

Lemma critical_sections_nest_example :
  (exists t1,
     Nesting.enter_n 3 Examples.user_thread = Returns t1 /\
     Thread.internal_depth t1 = 3 /\
     Nesting.exit_n 3 t1 = Returns Examples.user_thread) /\
  (exists t1 t2,
     Thread.jm_exit_critical_section Examples.user_thread = Returns t1 /\
     Thread.jm_enter_critical_section t1 = Returns t2 /\
     Thread.megalock t2 = false /\
     Thread.JM_INTERNAL_INVOCATION Examples.globals t2 = false).
Proof.
  destruct (critical_sections_nest Examples.globals Examples.user_thread 3)
    as [(t1 & He & Hd & _ & _ & _ & Hx)
        (u1 & u2 & u3 & Hx1 & _ & _ & He2 & _ & Hl2 & Hext & _)];
    [split; reflexivity | lia | simpl; lia |].
  split.
  - exists t1. done.
  - exists u1, u2. split; [exact Hx1|]. split; [exact He2|]. split; [exact Hl2|].
    apply Hext. reflexivity.
Defined.

(** ** jm_morecore *)

Module MorecoreFacts.
Import Morecore.

Lemma morecore_step g t e i :
  Thread.well_formed t -> memregion g <= e <= memregion g + extent g ->
  exists r e' t1,
    jm_morecore g t e i = Returns (r, e', t1) /\
    Thread.well_formed t1 /\ Thread.internal_depth t1 = Thread.internal_depth t /\
    Thread.megalock t1 = Thread.megalock t /\
    memregion g <= e' <= memregion g + extent g /\
    ((r = MFAIL /\ e' = e /\ (i < 0 \/ memregion g + extent g < e + i)) \/
     (r = e /\ e' = e + i /\ 0 <= i)).
Proof.
  intros Hwf He. unfold jm_morecore.
  destruct (ThreadFacts.enter_exit t Hwf) as (t1 & Hen & Hd & Hc & Hex).
  rewrite Hen. simpl. specialize (Hex (Thread.cancel_handler t1)).
  assert (Hrec : {| Thread.blocked := Thread.blocked t1;
                    Thread.internal_depth := Thread.internal_depth t1;
                    Thread.cancel_handler := Thread.cancel_handler t1;
                    Thread.megalock := Thread.megalock t1 |} = t1) by (destruct t1; done).
  rewrite Hrec in Hex. rewrite Hex.
  assert (Hwf' : Thread.well_formed
                   {| Thread.blocked := 0; Thread.internal_depth := Thread.internal_depth t;
                      Thread.cancel_handler := Thread.cancel_handler t1;
                      Thread.megalock := Thread.megalock t |}) by exact Hwf.
  destruct (Z.ltb_spec (e + i) (memregion g)); simpl.
  { eexists _, _, _. split; [reflexivity|]. simpl.
    split; [done|]. split; [done|]. split; [done|]. split; [done|]. left. lia. }
  destruct (Z.ltb_spec (memregion g + extent g) (e + i)); simpl.
  { eexists _, _, _. split; [reflexivity|]. simpl.
    split; [done|]. split; [done|]. split; [done|]. split; [done|]. left. lia. }
  destruct (Z.ltb_spec i 0); simpl.
  { eexists _, _, _. split; [reflexivity|]. simpl.
    split; [done|]. split; [done|]. split; [done|]. split; [done|]. left. lia. }
  eexists _, _, _. split; [reflexivity|]. simpl.
  split; [done|]. split; [done|]. split; [done|]. split; [lia|]. right. lia.
Qed.

Lemma morecore_calls g incs : forall t e,
  Thread.well_formed t -> memregion g <= e <= memregion g + extent g ->
  memregion g + extent g < MFAIL ->
  exists rs e' t',
    calls g t e incs = Returns (rs, e', t') /\
    length rs = length incs /\
    Thread.internal_depth t' = Thread.internal_depth t /\
    Thread.megalock t' = Thread.megalock t /\
    e' = e + granted incs rs /\ memregion g <= e' <= memregion g + extent g /\
    forall (k : nat) i r, incs !! k = Some i -> rs !! k = Some r ->
      (r = MFAIL /\ (i < 0 \/
         memregion g + extent g < e + granted (take k incs) (take k rs) + i)) \/
      (0 <= i /\ r = e + granted (take k incs) (take k rs) /\
       memregion g <= r /\ r + i <= memregion g + extent g).
Proof.
  induction incs as [|i incs IH]; intros t e Hwf He Hmf; simpl.
  - exists [], e, t. split; [done|]. split; [done|]. split; [done|]. split; [done|].
    split; [lia|]. split; [done|]. intros k i r Hi. rewrite lookup_nil in Hi. discriminate.
  - destruct (morecore_step g t e i Hwf He) as (r & e1 & t1 & Hs & Hwf1 & Hd1 & Hm1 & He1 & Hcase).
    rewrite Hs. simpl.
    destruct (IH t1 e1 Hwf1 He1 Hmf) as (rs & e2 & t2 & Hc & Hlen & Hd2 & Hm2 & He2 & Hr2 & Hall).
    rewrite Hc. simpl.
    exists (r :: rs), e2, t2. split; [done|]. split; [simpl; lia|].
    split; [lia|]. split; [congruence|].
    assert (Hg : e1 = e + (if r =? MFAIL then 0 else i)).
    { destruct Hcase as [(-> & -> & _)|(-> & -> & _)].
      - rewrite Z.eqb_refl. lia.
      - destruct (Z.eqb_spec e MFAIL); lia. }
    split; [simpl; lia|]. split; [done|].
    intros [|k] i' r' Hi Hr; simpl in Hi, Hr.
    + injection Hi as <-. injection Hr as <-. simpl. rewrite Z.add_0_r.
      destruct Hcase as [(Hr0 & He0 & Hwhy)|(Hr0 & He0 & Hpos)]; [left; done|right; lia].
    + simpl. destruct (Hall k i' r' Hi Hr) as [[Hr' Hwhy]|(Hpos & Hr' & Hlo & Hhi)].
      * left. split; [done|]. lia.
      * right. split; [done|]. split; [lia|]. done.
Qed.

End MorecoreFacts.

(** X12.  jm_morecore is a bump allocator inside the managed region:
    from endaddress = memregion on, every run of calls (with increments
    whose sum with an address of the region is again an address) returns,
    leaves
    endaddress at memregion plus the bytes granted, never outside
    [memregion, memregion + extent], and restores the caller's lock depth;
    a call fails (MFAIL, endaddress unchanged) exactly when its increment
    is negative or would pass the end of the region, and otherwise returns
    the previous endaddress, so the blocks granted are adjacent and lie in
    the region. *)
Theorem morecore_grants_adjacent_blocks (g : JUMBOMEM_GLOBALS) (t : Thread.THREAD_INFO)
    (increments : list Z) :
  Thread.well_formed t -> 0 <= extent g -> memregion g + extent g < Morecore.MFAIL ->
  Forall (fun i => - memregion g <= i < 2 ^ 64 - (memregion g + extent g)) increments ->
  exists results endaddress t',
    Morecore.calls g t (memregion g) increments = Returns (results, endaddress, t') /\
    length results = length increments /\
    Thread.internal_depth t' = Thread.internal_depth t /\
    Thread.megalock t' = Thread.megalock t /\
    endaddress = memregion g + Morecore.granted increments results /\
    memregion g <= endaddress <= memregion g + extent g /\
    forall (k : nat) i r, increments !! k = Some i -> results !! k = Some r ->
      (r = Morecore.MFAIL /\
       (i < 0 \/ extent g < Morecore.granted (take k increments) (take k results) + i)) \/
      (0 <= i /\
       r = memregion g + Morecore.granted (take k increments) (take k results) /\
       memregion g <= r /\ r + i <= memregion g + extent g).
Proof.
  intros Hwf Hext Hmf _.
  destruct (MorecoreFacts.morecore_calls g increments t (memregion g) Hwf ltac:(lia) Hmf)
    as (rs & e & t' & Hc & Hlen & Hd & Hm & He & Hr & Hall).
  exists rs, e, t'. split; [done|]. split; [done|]. split; [done|]. split; [done|].
  split; [done|]. split; [done|].
  intros k i r Hi Hrk. destruct (Hall k i r Hi Hrk) as [[-> Hwhy]|H]; [left|right; done].
  split; [done|]. lia.
Qed.

Lemma morecore_grants_adjacent_blocks_example :
  exists t',
    Morecore.calls Examples.globals Examples.user_thread (memregion Examples.globals)
      [4096; -1; 500000; 100] =
    Returns ([1048576; Morecore.MFAIL; Morecore.MFAIL; 1052672], 1052772, t').
Proof.
  destruct (morecore_grants_adjacent_blocks Examples.globals Examples.user_thread
              [4096; -1; 500000; 100]) as (rs & e & t' & Hc & _).
  - split; [simpl; lia|]. split; [discriminate|simpl; lia].
  - simpl. lia.
  - vm_compute. reflexivity.
  - repeat (constructor; [simpl; lia|]). constructor.
  - eexists. vm_compute. reflexivity.
Defined.

(** ** Where jm_mmap() places a mapping *)

Module MmapPlacement.
Import Mmap.

Lemma dataend_rounds_up g sys :
  0 < ospagesize g -> 0 < sbrk0 sys -> sbrk0 sys + ospagesize g <= 2 ^ 64 ->
  DataSegment.dataend g sys mod ospagesize g = 0 /\
  sbrk0 sys <= DataSegment.dataend g sys < sbrk0 sys + ospagesize g.
Proof.
  intros Hos Hs Hfit. unfold DataSegment.dataend.
  assert (Hw : wrap64 (sbrk0 sys - 1) = sbrk0 sys - 1).
  { unfold wrap64. apply Z.mod_small. lia. }
  rewrite Hw.
  pose proof (Z.div_mod (sbrk0 sys - 1) (ospagesize g) ltac:(lia)) as Hdm.
  pose proof (Z.mod_pos_bound (sbrk0 sys - 1) (ospagesize g) Hos) as Hr.
  set (q := (sbrk0 sys - 1) / ospagesize g) in *.
  assert (Hv : (q + 1) * ospagesize g =
               sbrk0 sys - 1 - (sbrk0 sys - 1) mod ospagesize g + ospagesize g) by lia.
  assert (Hw2 : wrap64 ((q + 1) * ospagesize g) = (q + 1) * ospagesize g).
  { unfold wrap64. apply Z.mod_small. lia. }
  rewrite Hw2. split; [apply Z_mod_mult|lia].
Qed.

Lemma restored_thread t :
  Thread.well_formed t ->
  exists t1, Thread.jm_enter_critical_section t = Returns t1 /\
    Thread.internal_depth t1 = Thread.internal_depth t + 1 /\
    Thread.jm_exit_critical_section t1 =
      Returns {| Thread.blocked := 0; Thread.internal_depth := Thread.internal_depth t;
                 Thread.cancel_handler := Thread.cancel_handler t;
                 Thread.megalock := Thread.megalock t |}.
Proof.
  intros Hwf. destruct (ThreadFacts.enter_exit t Hwf) as (t1 & Hen & Hd & Hc & Hex).
  exists t1. split; [done|]. split; [done|].
  specialize (Hex (Thread.cancel_handler t1)). destruct t1; simpl in *.
  rewrite Hex. congruence.
Qed.

End MmapPlacement.

(** X13.  A mapping that jm_mmap places at the end of the data segment is
    safe when the kernel honours MAP_FIXED: for a call from user code with
    start = NULL, if the page-rounded end of the data segment plus the
    length lies below the region, brk() accepts the new end and libc's
    mmap() returns the address it was given, then jm_mmap returns that
    address, which is a multiple of the OS page size at most one OS page
    above sbrk(0), and no byte of the mapping lies in
    [memregion, memregion + extent). *)
Theorem mmap_at_data_end_is_below_region (g : JUMBOMEM_GLOBALS) (sys : Mmap.system)
    (t : Thread.THREAD_INFO) (length prot flags fd offset : Z) :
  is_internal g = 0 -> Thread.in_user_code t -> 0 < ospagesize g ->
  Mmap.have_mmap sys = true ->
  0 < Mmap.sbrk0 sys -> Mmap.sbrk0 sys + ospagesize g <= 2 ^ 64 -> 0 < length ->
  memregion g < 2 ^ 64 ->
  DataSegment.dataend g sys + length < memregion g ->
  Mmap.brk sys (DataSegment.dataend g sys + length) = 0 ->
  Mmap.original_mmap sys (DataSegment.dataend g sys) length prot (Z.lor flags MAP_FIXED)
    fd offset = DataSegment.dataend g sys ->
  Mmap.jm_mmap g sys t NULL length prot flags fd offset =
    Returns (DataSegment.dataend g sys,
             {| Thread.blocked := 0; Thread.internal_depth := 0;
                Thread.cancel_handler := Thread.cancel_handler t;
                Thread.megalock := false |}) /\
  DataSegment.dataend g sys mod ospagesize g = 0 /\
  Mmap.sbrk0 sys <= DataSegment.dataend g sys < Mmap.sbrk0 sys + ospagesize g /\
  ~ Mmap.overlaps_region g (DataSegment.dataend g sys) length.
Proof.
  intros Hi Hu Hos Hhave Hs Hfit Hlen Hptr Hbelow Hbrk Hfixed.
  destruct (MmapPlacement.dataend_rounds_up g sys Hos Hs Hfit) as [Hal Hrange].
  split; [|split; [done|split; [done|]]].
  - destruct (MmapPlacement.restored_thread t (ThreadFacts.user_code_well_formed _ Hu))
      as (t1 & Hen & Hd & Hex).
    destruct Hu as [H0 Hl]. rewrite H0, Hl in Hex.
    unfold Mmap.jm_mmap. rewrite Hen. simpl. rewrite Hhave. simpl.
    rewrite (ThreadFacts.external_invocation g _ t1 Hi H0 Hd). simpl.
    destruct (Z.eqb_spec (ospagesize g) 0); [lia|].
    fold (DataSegment.dataend g sys).
    rewrite (wrap64_small (DataSegment.dataend g sys + length)) by lia.
    destruct (Z.ltb_spec (DataSegment.dataend g sys + length) (memregion g)); [|lia].
    rewrite Hbrk. simpl. rewrite Hfixed.
    destruct (Z.eqb_spec (DataSegment.dataend g sys) MAP_FAILED) as [Hf|Hf].
    { unfold MAP_FAILED in Hf. lia. }
    unfold Mmap.in_region.
    destruct (Z.leb_spec (memregion g) (DataSegment.dataend g sys)); [lia|]. simpl.
    rewrite Hex. done.
  - intros (a & Ha & Hin). lia.
Qed.

Lemma mmap_at_data_end_is_below_region_example :
  let sys := {| Mmap.sbrk0 := 6295000; Mmap.brk := fun _ => 0;
                Mmap.original_mmap := fun start length prot flags fd offset => start;
                Mmap.have_mmap := true |} in
  let g := {| pagesize := 4096; ospagesize := 4096; memregion := 2 ^ 32; extent := 409600;
              local_pages := 2; prefetch_type := PREFETCH_NEXT; async_evict := 0;
              extra_memcpy := 0; is_internal := 0 |} in
  Mmap.jm_mmap g sys Examples.user_thread NULL 8192 3 34 (-1) 0 =
    Returns (6295552, Examples.user_thread) /\
  ~ Mmap.overlaps_region g 6295552 8192.
Proof.
  intros sys g.
  destruct (mmap_at_data_end_is_below_region g sys Examples.user_thread 8192 3 34 (-1) 0)
    as (Hcall & _ & _ & Hno); try reflexivity.
  - split; reflexivity.
  - vm_compute. discriminate.
  - split; [exact Hcall|exact Hno].
Defined.

(** X14.  jm_mmap does not guard the region against a caller who names an
    address or against the library itself: with start non-NULL, or when
    called with the mega-lock already held or with is_internal set, it
    returns whatever libc's mmap() returns for the unchanged arguments
    (MAP_FAILED and addresses inside [memregion, memregion + extent)
    included), never aborts, and leaves the caller's lock depth as it was. *)
Theorem mmap_with_an_address_goes_to_libc (g : JUMBOMEM_GLOBALS) (sys : Mmap.system)
    (t : Thread.THREAD_INFO) (start length prot flags fd offset : Z) :
  Thread.well_formed t -> Mmap.have_mmap sys = true ->
  start <> NULL \/ 0 < Thread.internal_depth t \/ is_internal g <> 0 ->
  Mmap.jm_mmap g sys t start length prot flags fd offset =
    Returns (Mmap.original_mmap sys start length prot flags fd offset,
             {| Thread.blocked := 0; Thread.internal_depth := Thread.internal_depth t;
                Thread.cancel_handler := Thread.cancel_handler t;
                Thread.megalock := Thread.megalock t |}).
Proof.
  intros Hwf Hhave Hwho.
  destruct (MmapPlacement.restored_thread t Hwf) as (t1 & Hen & Hd & Hex).
  unfold Mmap.jm_mmap. rewrite Hen. simpl. rewrite Hhave. simpl.
  assert (Hpass : negb (start =? NULL) || Thread.JM_INTERNAL_INVOCATION g t1 = true).
  { apply orb_true_iff. destruct Hwho as [Hs|[Hdepth|Hint]].
    - left. destruct (Z.eqb_spec start NULL); done.
    - right. unfold Thread.JM_INTERNAL_INVOCATION, Thread.jm_get_internal_depth.
      apply orb_true_iff. right. apply Z.ltb_lt. lia.
    - right. unfold Thread.JM_INTERNAL_INVOCATION.
      apply orb_true_iff. left. destruct (Z.eqb_spec (is_internal g) 0); done. }
  rewrite Hpass. rewrite Hex. done.
Qed.

Lemma mmap_with_an_address_goes_to_libc_example :
  let sys := {| Mmap.sbrk0 := 6295000; Mmap.brk := fun _ => 0;
                Mmap.original_mmap := fun start length prot flags fd offset => start;
                Mmap.have_mmap := true |} in
  Mmap.jm_mmap Examples.globals sys Examples.user_thread (Examples.page 1) 4096 3 50 (-1) 0 =
    Returns (Examples.page 1, Examples.user_thread) /\
  Mmap.in_region Examples.globals (Examples.page 1) = true.
Proof.
  intros sys. split; [|reflexivity].
  apply (mmap_with_an_address_goes_to_libc Examples.globals sys Examples.user_thread
           (Examples.page 1) 4096 3 50 (-1) 0).
  - split; [simpl; lia|]. split; [discriminate|simpl; lia].
  - reflexivity.
  - left. vm_compute. discriminate.
Defined.

(** ** One fault, step by step *)

Module HandlerFacts.
Import Handler.

Section Steps.
Context {S : Type}.
Variable pol : policy S.
Variable g : JUMBOMEM_GLOBALS.
Variable accepts : event -> bool.
Hypothesis all_accepted : forall e, accepts e = true.

Lemma must_accepted (p : pager S) e msg : must accepts p e msg = Returns (log p e).
Proof. unfold must. rewrite all_accepted. done. Qed.

Lemma fetch_end_spec (p : pager S) :
  extra_memcpy g = 0 ->
  exists p', fetch_end g accepts p = Returns p' /\
    trace p' = trace p ++ Fetch_end ::
      (if extra (fetch_info p) =? RW then []
       else [Mprotect (address (fetch_info p)) (pagesize g) (extra (fetch_info p))]) /\
    fetch_info p' = with_address (fetch_info p) NULL /\
    evict_info p' = evict_info p /\ prefetch_info p' = prefetch_info p /\
    Service.untouched p p'.
Proof.
  intros Hc. unfold fetch_end. rewrite Hc. simpl.
  destruct (extra (fetch_info p) =? RW) eqn:E; simpl; [|rewrite must_accepted; simpl];
    (eexists; split; [reflexivity|]); simpl; rewrite <- ?app_assoc;
    unfold Service.untouched; simpl; repeat split; done.
Qed.

Lemma evict_end_spec (p : pager S) :
  exists p', evict_end g accepts p = Returns p' /\
    trace p' = trace p ++
      (if extra (evict_info p) =? 0 then [Evict_end] else [])
      ++ [Remove_backing_store (address (evict_info p)) (pagesize g)] /\
    fetch_info p' = fetch_info p /\
    evict_info p' = with_address (evict_info p) NULL /\
    prefetch_info p' = prefetch_info p /\ Service.untouched p p'.
Proof.
  unfold evict_end.
  destruct (extra (evict_info p) =? 0) eqn:E; simpl; rewrite must_accepted; simpl;
    (eexists; split; [reflexivity|]); simpl; rewrite <- ?app_assoc;
    unfold Service.untouched; simpl; repeat split; done.
Qed.

(* evict_begin() with synchronous evictions and no extra copy. *)
Lemma evict_begin_spec (p : pager S) addr c :
  async_evict g = 0 -> extra_memcpy g = 0 ->
  exists p', evict_begin g accepts p addr c = Returns p' /\
    trace p' = trace p ++
      (if c =? 0 then [Evict_begin addr addr; Evict_end] else [])
      ++ [Remove_backing_store addr (pagesize g)] /\
    fetch_info p' = fetch_info p /\
    address (evict_info p') = NULL /\
    prefetch_info p' = prefetch_info p /\ Service.untouched p p'.
Proof.
  intros Ha Hc. unfold evict_begin. rewrite Ha, Hc. simpl.
  destruct (c =? 0) eqn:E.
  - match goal with |- context [evict_end g accepts ?q] =>
      destruct (evict_end_spec q) as (p' & Hr & Ht & Hf & He & Hp & Hu) end.
    exists p'. split; [exact Hr|]. simpl in *. rewrite E in Ht.
    rewrite Ht, Hf, He, Hp. rewrite <- !app_assoc. simpl.
    unfold Service.untouched in *. simpl in *. done.
  - match goal with |- context [evict_end g accepts ?q] =>
      destruct (evict_end_spec q) as (p' & Hr & Ht & Hf & He & Hp & Hu) end.
    exists p'. split; [exact Hr|]. simpl in *. rewrite E in Ht.
    rewrite Ht, Hf, He, Hp. simpl.
    unfold Service.untouched in *. simpl in *. done.
Qed.

Lemma maybe_evict_spec (p : pager S) r :
  async_evict g = 0 -> extra_memcpy g = 0 ->
  (evictable_page r <> NULL -> clean r <> None) ->
  exists p', maybe_evict g accepts p r = Returns p' /\
    trace p' = trace p ++ Service.eviction_events g r /\
    fetch_info p' = fetch_info p /\
    (evictable_page r <> NULL \/ address (evict_info p) = NULL ->
     address (evict_info p') = NULL) /\
    prefetch_info p' = prefetch_info p /\ Service.untouched p p'.
Proof.
  intros Ha Hc Hclean. unfold maybe_evict, Service.eviction_events.
  destruct (Z.eqb_spec (evictable_page r) NULL) as [Hn|Hn].
  - exists p. split; [done|]. rewrite app_nil_r. unfold Service.untouched.
    repeat split; try done. intros [H|H]; done.
  - destruct (clean r) as [c|] eqn:Ec; [|destruct (Hclean Hn); done].
    destruct (evict_begin_spec p (evictable_page r) c Ha Hc)
      as (p' & Hr & Ht & Hf & He & Hp & Hu).
    exists p'. simpl. repeat split; try done. all: apply Hu.
Qed.

(* A fault on a page that the policy reports absent, without prefetching,
   with synchronous evictions and no extra copy. *)
Lemma service_miss (p : pager S) si_addr a prot s1 r s2 t' :
  fault_address p = NULL -> address (evict_info p) = NULL ->
  prefetch_type g = PREFETCH_NONE -> async_evict g = 0 -> extra_memcpy g = 0 ->
  page_is_resident pol g (policy_state p) a true = Returns (0, prot, s1) ->
  find_replacement_page pol g s1 a = Returns (r, s2) ->
  (evictable_page r <> NULL -> clean r <> None) ->
  Thread.jm_exit_critical_section (thread p) = Returns t' ->
  exists p',
    service_fault pol g accepts p si_addr a = Returns p' /\
    trace p' = trace p ++
      [Freeze_other_threads; Policy_is_resident a; Policy_find_replacement a;
       Assign_backing_store a (pagesize g) RW; Fetch_begin a a]
      ++ Service.eviction_events g r
      ++ Fetch_end :: (if newprot r =? RW then []
                       else [Mprotect a (pagesize g) (newprot r)]) /\
    policy_state p' = s2 /\ thread p' = t' /\ fault_address p' = NULL /\
    address (fetch_info p') = NULL /\ address (evict_info p') = NULL /\
    prefetch_info p' = prefetch_info p /\
    jm_prev_segfaulter p' = jm_prev_segfaulter p /\ dispositions p' = dispositions p.
Proof.
  intros Hfa Hev Hpf Hasync Hcopy Hres Hfind Hclean Hexit.
  unfold service_fault. rewrite Hfa. simpl. rewrite Hres. simpl. rewrite Hev. simpl.
  rewrite Hfind. simpl. rewrite must_accepted. simpl. rewrite Hpf.
  match goal with |- context [maybe_evict g accepts ?q r] =>
    destruct (maybe_evict_spec q r Hasync Hcopy Hclean)
      as (p1 & Hr1 & Ht1 & Hf1 & He1 & Hp1 & Hu1) end.
  rewrite Hr1. simpl.
  destruct (fetch_end_spec p1 Hcopy) as (p2 & Hr2 & Ht2 & Hf2 & He2 & Hp2 & Hu2).
  rewrite Hr2. simpl. unfold JM_RETURN. simpl.
  destruct Hu1 as (Hth1 & Hfa1 & Hps1 & Hd1 & Hpf1 & Hst1).
  destruct Hu2 as (Hth2 & Hfa2 & Hps2 & Hd2 & Hpf2 & Hst2).
  simpl in *. rewrite Hth2, Hth1, Hexit. simpl.
  eexists. split; [reflexivity|]. simpl.
  rewrite Ht2, Ht1, Hf1. simpl. rewrite Hcopy. simpl. rewrite <- !app_assoc. simpl.
  split; [done|]. split; [congruence|]. split; [done|]. split; [done|].
  split; [rewrite Hf2; done|]. split; [rewrite He2; apply He1; right; exact Hev|].
  split; [congruence|]. split; congruence.
Qed.

(* The handler up to the range check, for a thread that has not been
   told to leave. *)
Lemma handler_enters (p : pager S) signum si_addr :
  Thread.well_formed (thread p) -> Thread.cancel_handler (thread p) <= 0 ->
  0 < pagesize g ->
  memregion g <= round_to_page g si_addr < memregion g + extent g ->
  exists t1,
    Thread.jm_exit_critical_section t1 =
      Returns {| Thread.blocked := 0;
                 Thread.internal_depth := Thread.internal_depth (thread p);
                 Thread.cancel_handler := Thread.cancel_handler (thread p);
                 Thread.megalock := Thread.megalock (thread p) |} /\
    jm_signal_handler pol g accepts p signum si_addr =
      service_fault pol g accepts (set_thread p t1) si_addr (round_to_page g si_addr).
Proof.
  intros Hwf Hcancel Hps Hin.
  destruct (ThreadFacts.enter_exit _ Hwf) as (t1 & Hen & Hd & Hc & Hex).
  exists t1. split.
  - specialize (Hex (Thread.cancel_handler t1)). destruct t1; simpl in *.
    rewrite Hex. congruence.
  - unfold jm_signal_handler, JM_ENTER. rewrite Hen. simpl.
    unfold Thread.jm_must_exit_signal_handler_now. rewrite Hc.
    destruct (Z.ltb_spec 0 (Thread.cancel_handler (thread p))); [lia|]. simpl.
    destruct (Z.eqb_spec (pagesize g) 0); [lia|].
    destruct (Z.ltb_spec (round_to_page g si_addr) (memregion g)); [lia|].
    destruct (Z.leb_spec (memregion g + extent g) (round_to_page g si_addr)); [lia|].
    simpl. done.
Qed.

Lemma handler_miss (p : pager S) signum si_addr prot s1 r s2 :
  Thread.well_formed (thread p) -> Thread.cancel_handler (thread p) <= 0 ->
  0 < pagesize g ->
  memregion g <= round_to_page g si_addr < memregion g + extent g ->
  fault_address p = NULL -> address (evict_info p) = NULL ->
  prefetch_type g = PREFETCH_NONE -> async_evict g = 0 -> extra_memcpy g = 0 ->
  page_is_resident pol g (policy_state p) (round_to_page g si_addr) true =
    Returns (0, prot, s1) ->
  find_replacement_page pol g s1 (round_to_page g si_addr) = Returns (r, s2) ->
  (evictable_page r <> NULL -> clean r <> None) ->
  exists p',
    jm_signal_handler pol g accepts p signum si_addr = Returns p' /\
    trace p' = trace p ++
      [Freeze_other_threads; Policy_is_resident (round_to_page g si_addr);
       Policy_find_replacement (round_to_page g si_addr);
       Assign_backing_store (round_to_page g si_addr) (pagesize g) RW;
       Fetch_begin (round_to_page g si_addr) (round_to_page g si_addr)]
      ++ Service.eviction_events g r
      ++ Fetch_end :: (if newprot r =? RW then []
                       else [Mprotect (round_to_page g si_addr) (pagesize g) (newprot r)]) /\
    policy_state p' = s2 /\
    thread p' = {| Thread.blocked := 0;
                   Thread.internal_depth := Thread.internal_depth (thread p);
                   Thread.cancel_handler := Thread.cancel_handler (thread p);
                   Thread.megalock := Thread.megalock (thread p) |} /\
    fault_address p' = NULL /\
    address (fetch_info p') = NULL /\ address (evict_info p') = NULL /\
    prefetch_info p' = prefetch_info p /\
    jm_prev_segfaulter p' = jm_prev_segfaulter p /\ dispositions p' = dispositions p.
Proof.
  intros Hwf Hcancel Hps Hin Hfa Hev Hpf Hasync Hcopy Hres Hfind Hclean.
  destruct (handler_enters p signum si_addr Hwf Hcancel Hps Hin) as (t1 & Hexit & ->).
  apply (service_miss (set_thread p t1) si_addr _ prot s1 r s2); done.
Qed.

(* A fault on a page that the policy reports resident. *)
Lemma handler_hit (p : pager S) signum si_addr res protflags s1 :
  Thread.well_formed (thread p) -> Thread.cancel_handler (thread p) <= 0 ->
  0 < pagesize g ->
  memregion g <= round_to_page g si_addr < memregion g + extent g ->
  fault_address p = NULL ->
  page_is_resident pol g (policy_state p) (round_to_page g si_addr) true =
    Returns (res, Some protflags, s1) ->
  res <> 0 ->
  exists p',
    jm_signal_handler pol g accepts p signum si_addr = Returns p' /\
    trace p' = trace p ++
      [Freeze_other_threads; Policy_is_resident (round_to_page g si_addr);
       Mprotect (round_to_page g si_addr) (pagesize g) protflags] /\
    policy_state p' = s1 /\
    thread p' = {| Thread.blocked := 0;
                   Thread.internal_depth := Thread.internal_depth (thread p);
                   Thread.cancel_handler := Thread.cancel_handler (thread p);
                   Thread.megalock := Thread.megalock (thread p) |} /\
    fault_address p' = NULL /\
    fetch_info p' = fetch_info p /\ evict_info p' = evict_info p /\
    prefetch_info p' = prefetch_info p /\
    jm_prev_segfaulter p' = jm_prev_segfaulter p /\ dispositions p' = dispositions p.
Proof.
  intros Hwf Hcancel Hps Hin Hfa Hres Hnz.
  destruct (handler_enters p signum si_addr Hwf Hcancel Hps Hin) as (t1 & Hexit & ->).
  unfold service_fault. simpl. rewrite Hfa. simpl. rewrite Hres. simpl.
  destruct (Z.eqb_spec res 0); [done|]. simpl.
  rewrite must_accepted. simpl. unfold JM_RETURN. simpl. rewrite Hexit. simpl.
  eexists. split; [reflexivity|]. simpl. rewrite <- !app_assoc. simpl.
  repeat split; done.
Qed.

(* A fault on the page whose prefetch is pending, with the next page in
   the region and absent. *)
Lemma handler_prefetched (p : pager S) signum si_addr prot s1 r s2 x s3 :
  Thread.well_formed (thread p) -> Thread.cancel_handler (thread p) <= 0 ->
  0 < pagesize g ->
  memregion g <= round_to_page g si_addr < memregion g + extent g ->
  fault_address p = NULL -> address (evict_info p) = NULL ->
  prefetch_type g = PREFETCH_NEXT -> async_evict g = 0 -> extra_memcpy g = 0 ->
  address (prefetch_info p) = round_to_page g si_addr ->
  round_to_page g si_addr <> NULL ->
  page_is_resident pol g (policy_state p) (round_to_page g si_addr) true =
    Returns (0, prot, s1) ->
  find_replacement_page pol g s1 (round_to_page g si_addr) = Returns (r, s2) ->
  (evictable_page r <> NULL -> clean r <> None) ->
  memregion g <= round_to_page g si_addr + pagesize g < memregion g + extent g ->
  page_is_resident pol g s2 (round_to_page g si_addr + pagesize g) false =
    Returns (0, x, s3) ->
  exists p',
    jm_signal_handler pol g accepts p signum si_addr = Returns p' /\
    trace p' = trace p ++
      [Freeze_other_threads; Policy_is_resident (round_to_page g si_addr);
       Policy_find_replacement (round_to_page g si_addr);
       Assign_backing_store (round_to_page g si_addr) (pagesize g) RW;
       Fetch_end]
      ++ Service.eviction_events g r
      ++ Memcpy (round_to_page g si_addr) (buffer (prefetch_info p)) (pagesize g)
         :: (if newprot r =? RW then []
             else [Mprotect (round_to_page g si_addr) (pagesize g) (newprot r)])
      ++ [Policy_is_resident (round_to_page g si_addr + pagesize g);
          Fetch_begin (round_to_page g si_addr + pagesize g) (buffer (prefetch_info p))] /\
    policy_state p' = s3 /\
    thread p' = {| Thread.blocked := 0;
                   Thread.internal_depth := Thread.internal_depth (thread p);
                   Thread.cancel_handler := Thread.cancel_handler (thread p);
                   Thread.megalock := Thread.megalock (thread p) |} /\
    fault_address p' = NULL /\
    fetch_info p' = fetch_info p /\ address (evict_info p') = NULL /\
    prefetch_info p' =
      with_address (prefetch_info p) (round_to_page g si_addr + pagesize g).
Proof.
  intros Hwf Hcancel Hps Hin Hfa Hev Hpf Hasync Hcopy Hpa Hnn Hres Hfind Hclean Hnext Hres2.
  destruct (handler_enters p signum si_addr Hwf Hcancel Hps Hin) as (t1 & Hexit & ->).
  set (a := round_to_page g si_addr) in *.
  unfold service_fault. simpl. rewrite Hfa. simpl. rewrite Hres. simpl. rewrite Hev. simpl.
  rewrite Hfind. simpl. rewrite must_accepted. simpl. rewrite Hpf.
  unfold complete_prefetch. simpl. rewrite Hpa.
  destruct (Z.eqb_spec a NULL) as [|_]; [done|]. simpl. rewrite Z.eqb_refl.
  match goal with |- context [maybe_evict g accepts ?q r] =>
    destruct (maybe_evict_spec q r Hasync Hcopy Hclean)
      as (p1 & Hr1 & Ht1 & Hf1 & He1 & Hp1 & Hu1) end.
  rewrite Hr1. simpl.
  destruct Hu1 as (Hth1 & Hfa1 & Hps1 & Hd1 & Hpf1 & Hst1). simpl in *.
  assert (Hrange : (a + pagesize g <? memregion g)
                   || (memregion g + extent g <=? a + pagesize g) = false).
  { apply orb_false_iff. split; [apply Z.ltb_ge|apply Z.leb_gt]; lia. }
  destruct (newprot r =? RW) eqn:Hrw; simpl; rewrite ?must_accepted; simpl;
    unfold start_prefetch; rewrite Hpf; simpl; rewrite Hrange; simpl;
    rewrite Hst1, Hres2; simpl; unfold JM_RETURN; simpl; rewrite Hth1, Hexit; simpl;
    (eexists; split; [reflexivity|]); simpl;
    rewrite Ht1, Hf1, Hp1; simpl; rewrite <- !app_assoc; simpl;
    (split; [done|]); (split; [done|]); (split; [done|]); (split; [done|]);
    (split; [done|]); (split; [apply He1; right; exact Hev|]); done.
Qed.

End Steps.
End HandlerFacts.

(** ** The backing store under the FIFO policy *)

Module FifoPaging.
Import Handler.

Lemma count_app f l1 l2 : Service.count f (l1 ++ l2) = Service.count f l1 + Service.count f l2.
Proof. induction l1 as [|e l1 IH]; simpl; [done|]. rewrite IH. lia. Qed.

Lemma count_nonneg f l : 0 <= Service.count f l.
Proof. induction l as [|e l IH]; simpl; [done|]. destruct (f e); lia. Qed.

Lemma count_take f l : forall k, Service.count f (take k l) <= Service.count f l.
Proof.
  induction l as [|e l IH]; intros [|k]; simpl; try done.
  - pose proof (count_nonneg f l). destruct (f e); lia.
  - specialize (IH k). lia.
Qed.

(* The events of one fault: one page gains backing store and the victim,
   if there is one, loses it. *)
Lemma miss_events g a r :
  clean r = Some 0 ->
  let es := [Freeze_other_threads; Policy_is_resident a; Policy_find_replacement a;
             Assign_backing_store a (pagesize g) RW; Fetch_begin a a]
            ++ Service.eviction_events g r
            ++ Fetch_end :: (if newprot r =? RW then []
                             else [Mprotect a (pagesize g) (newprot r)]) in
  Service.assigned es = 1 /\
  Service.removed es = if evictable_page r =? NULL then 0 else 1.
Proof.
  intros Hc es. subst es. unfold Service.assigned, Service.removed, Service.eviction_events.
  rewrite !count_app, Hc. simpl.
  destruct (evictable_page r =? NULL); destruct (newprot r =? RW); simpl; done.
Qed.

End FifoPaging.

Module FifoStart.
Import Handler.

Lemma assigned_bytes_app l1 l2 :
  Service.assigned_bytes (l1 ++ l2) = Service.assigned_bytes l1 + Service.assigned_bytes l2.
Proof. induction l1 as [|e l1 IH]; simpl; [done|]. destruct e; rewrite ?IH; lia. Qed.

Lemma removed_bytes_app l1 l2 :
  Service.removed_bytes (l1 ++ l2) = Service.removed_bytes l1 + Service.removed_bytes l2.
Proof. induction l1 as [|e l1 IH]; simpl; [done|]. destruct e; rewrite ?IH; lia. Qed.

(* In a trace whose mappings and unmappings are all of [len] bytes the
   bytes are the events counted. *)
Lemma sized_bytes len es :
  Forall (Service.sized len) es ->
  Service.assigned_bytes es = len * Service.assigned es /\
  Service.removed_bytes es = len * Service.removed es.
Proof.
  unfold Service.assigned, Service.removed.
  induction 1 as [|e es He _ [IHa IHr]]; simpl; [lia|].
  destruct e; simpl in *; subst; rewrite ?IHa, ?IHr; lia.
Qed.

Lemma requests_bytes (l : list Z) :
  Service.assigned_bytes (map Policy_find_replacement l) = 0 /\
  Service.removed_bytes (map Policy_find_replacement l) = 0 /\
  Service.removed (map Policy_find_replacement l) = 0.
Proof. unfold Service.removed. induction l as [|a l IH]; simpl; [done|]. exact IH. Qed.

Lemma miss_sized g a r :
  Forall (Service.sized (pagesize g))
    ([Freeze_other_threads; Policy_is_resident a; Policy_find_replacement a;
      Assign_backing_store a (pagesize g) RW; Fetch_begin a a]
     ++ Service.eviction_events g r
     ++ Fetch_end :: (if newprot r =? RW then []
                      else [Mprotect a (pagesize g) (newprot r)])).
Proof.
  unfold Service.eviction_events.
  destruct (evictable_page r =? NULL); destruct (default 0 (clean r) =? 0);
    destruct (newprot r =? RW); simpl; repeat constructor.
Qed.

(* A part of a trace maps and unmaps no more than the whole. *)
Lemma bytes_take es :
  Forall (fun e => exists len, 0 <= len /\ Service.sized len e) es ->
  forall k,
    0 <= Service.assigned_bytes (take k es) <= Service.assigned_bytes es /\
    0 <= Service.removed_bytes (take k es) <= Service.removed_bytes es.
Proof.
  induction 1 as [|e es (len & Hlen & He) _ IH]; intros [|k]; simpl; try lia.
  - specialize (IH 0%nat). rewrite take_0 in IH. simpl in IH.
    destruct e; simpl in He; lia.
  - specialize (IH k). destruct e; simpl in He; lia.
Qed.

Section Run.
Variable g : JUMBOMEM_GLOBALS.
Variable accepts : event -> bool.
Variable N : Z.
Hypothesis all_accepted : forall e, accepts e = true.
Hypothesis pagesize_pos : 0 < pagesize g.
Hypothesis memregion_pos : 0 < memregion g.
Hypothesis no_prefetch : prefetch_type g = PREFETCH_NONE.
Hypothesis sync_evict : async_evict g = 0.
Hypothesis no_copy : extra_memcpy g = 0.
Hypothesis frames : 1 <= N.

(* A fault with the table full: the faulted page is mapped and the
   oldest page unmapped. *)
Lemma fifo_fault (p : pager Fifo.state) h si_addr :
  Fifo.inv g N h (policy_state p) -> N <= Z.of_nat (length h) ->
  Thread.well_formed (thread p) -> Thread.cancel_handler (thread p) <= 0 ->
  memregion g <= round_to_page g si_addr < memregion g + extent g ->
  fault_address p = NULL -> address (evict_info p) = NULL ->
  exists p' es,
    jm_signal_handler fifo_policy g accepts p SIGSEGV si_addr = Returns p' /\
    Fifo.inv g N (h ++ [round_to_page g si_addr]) (policy_state p') /\
    thread p' = {| Thread.blocked := 0;
                   Thread.internal_depth := Thread.internal_depth (thread p);
                   Thread.cancel_handler := Thread.cancel_handler (thread p);
                   Thread.megalock := Thread.megalock (thread p) |} /\
    fault_address p' = NULL /\ address (evict_info p') = NULL /\
    trace p' = trace p ++ es /\
    Forall (Service.sized (pagesize g)) es /\
    Service.assigned es = 1 /\ Service.removed es = 1.
Proof.
  intros Hinv Hfull Hwf Hcancel Hin Hfa Hev.
  destruct (FifoFacts.step_inv g N h (policy_state p) (round_to_page g si_addr) frames Hinv)
    as (r & st' & Hstep & Hinv' & Hexp & _).
  destruct Hexp as (Hprot & Hclean & Hlo & Hhi).
  destruct (HandlerFacts.handler_miss fifo_policy g accepts all_accepted p SIGSEGV si_addr
              None (policy_state p) r st' Hwf Hcancel pagesize_pos Hin Hfa Hev
              no_prefetch sync_evict no_copy eq_refl Hstep)
    as (p' & Hcall & Htrace & Hst & Hth & Hfa' & _ & Hev' & _).
  { intros _. rewrite Hclean. done. }
  destruct (FifoPaging.miss_events g (round_to_page g si_addr) r Hclean) as [Has Hrm].
  eexists p', _. split; [exact Hcall|]. split; [rewrite Hst; exact Hinv'|].
  split; [exact Hth|]. split; [exact Hfa'|]. split; [exact Hev'|].
  split; [exact Htrace|]. split; [apply miss_sized|]. split; [exact Has|]. rewrite Hrm.
  destruct Hhi as (q & _ & Hq); [lia|].
  destruct (Z.eqb_spec (evictable_page r) NULL) as [Hn|Hn]; [|done].
  rewrite Hq in Hn. apply page_address_not_null in Hn; [done|lia|lia|].
  apply wrap32_range.
Qed.

Lemma fifo_serve addrs : forall (p : pager Fifo.state) h,
  Forall (fun a => memregion g <= round_to_page g a < memregion g + extent g) addrs ->
  Fifo.inv g N h (policy_state p) -> N <= Z.of_nat (length h) ->
  Thread.well_formed (thread p) -> Thread.cancel_handler (thread p) <= 0 ->
  fault_address p = NULL -> address (evict_info p) = NULL ->
  exists p' es,
    Service.serve fifo_policy g accepts p addrs = Returns p' /\
    Thread.internal_depth (thread p') = Thread.internal_depth (thread p) /\
    Thread.megalock (thread p') = Thread.megalock (thread p) /\
    trace p' = trace p ++ es /\
    Forall (Service.sized (pagesize g)) es /\
    Service.assigned es = Z.of_nat (length addrs) /\
    Service.removed es = Z.of_nat (length addrs) /\
    forall k, Service.assigned (take k es) - Service.removed (take k es) <= 1.
Proof.
  induction addrs as [|a addrs IH]; intros p h Hall Hinv Hfull Hwf Hcancel Hfa Hev.
  - exists p, []. simpl. rewrite app_nil_r. split; [done|]. split; [done|]. split; [done|].
    split; [done|]. split; [constructor|]. split; [done|]. split; [done|].
    intros k. rewrite take_nil. unfold Service.assigned, Service.removed. simpl. lia.
  - inversion Hall as [|? ? Hin Hrest]; subst.
    destruct (fifo_fault p h a Hinv Hfull Hwf Hcancel Hin Hfa Hev)
      as (p1 & es1 & Hcall & Hinv1 & Hth1 & Hfa1 & Hev1 & Htr1 & Hsz1 & Has1 & Hrm1).
    assert (Hwf1 : Thread.well_formed (thread p1)) by (rewrite Hth1; exact Hwf).
    assert (Hc1 : Thread.cancel_handler (thread p1) <= 0) by (rewrite Hth1; exact Hcancel).
    destruct (IH p1 (h ++ [round_to_page g a]) Hrest Hinv1
                ltac:(rewrite length_app; simpl; lia) Hwf1 Hc1 Hfa1 Hev1)
      as (p' & es & Hserve & Hd & Hm & Htr & Hsz & Has & Hrm & Hpre).
    exists p', (es1 ++ es). simpl. rewrite Hcall. simpl.
    split; [exact Hserve|]. rewrite Hth1 in Hd, Hm. simpl in Hd, Hm.
    split; [exact Hd|]. split; [exact Hm|].
    split; [rewrite Htr, Htr1, app_assoc; done|].
    split; [apply Forall_app; done|].
    unfold Service.assigned, Service.removed in *.
    rewrite !FifoPaging.count_app, Has1, Hrm1, Has, Hrm.
    split; [lia|]. split; [lia|].
    intros k. rewrite take_app, !FifoPaging.count_app.
    destruct (Nat.le_gt_cases k (length es1)) as [Hk|Hk].
    + replace (k - length es1)%nat with 0%nat by lia. rewrite take_0. simpl.
      pose proof (FifoPaging.count_take Service.is_assign es1 k).
      pose proof (FifoPaging.count_nonneg Service.is_remove (take k es1)). lia.
    + rewrite take_ge by lia. rewrite Has1, Hrm1.
      specialize (Hpre (k - length es1)%nat). lia.
Qed.

(* One round of the loop of jm_initialize_signal_handler. *)
Lemma initialize_round fuel (p : pager Fifo.state) i localbytes r s :
  i < localbytes ->
  Fifo.jm_find_replacement_page g (policy_state p) (memregion g + i) = Returns (r, s) ->
  evictable_page r = NULL ->
  initialize_pages fifo_policy g accepts (S fuel) p i localbytes =
  initialize_pages fifo_policy g accepts fuel
    (let p1 := set_policy_state (log p (Policy_find_replacement (memregion g + i))) s in
     if i =? 0 then log p1 (Assign_backing_store (memregion g) localbytes (newprot r))
     else p1)
    (wrap64 (i + pagesize g)) localbytes.
Proof.
  intros Hlt Hstep Hnull. unfold initialize_pages at 1; fold (@initialize_pages Fifo.state).
  destruct (Z.ltb_spec i localbytes); [|lia].
  cbn [policy_state log find_replacement_page fifo_policy]. rewrite Hstep.
  cbn [mbind outcome_bind]. rewrite Hnull. cbn [Z.eqb NULL negb].
  destruct (i =? 0); [|reflexivity].
  rewrite HandlerFacts.must_accepted by exact all_accepted. reflexivity.
Qed.

(* The loop of jm_initialize_signal_handler from its second round on. *)
Lemma fifo_initialize_rest (n : nat) : forall fuel (p : pager Fifo.state) h,
  N * pagesize g < 2 ^ 64 ->
  Fifo.inv g N h (policy_state p) -> 1 <= Z.of_nat (length h) ->
  Z.of_nat (length h) + Z.of_nat n = N -> (n < fuel)%nat ->
  exists p',
    initialize_pages fifo_policy g accepts fuel p (Z.of_nat (length h) * pagesize g)
      (N * pagesize g) = Returns p' /\
    Fifo.inv g N (h ++ map (fun k => memregion g + k * pagesize g)
                         (seqZ (Z.of_nat (length h)) (Z.of_nat n)))
      (policy_state p') /\
    trace p' = trace p ++ map Policy_find_replacement
                            (map (fun k => memregion g + k * pagesize g)
                               (seqZ (Z.of_nat (length h)) (Z.of_nat n))) /\
    thread p' = thread p /\ fault_address p' = fault_address p /\
    evict_info p' = evict_info p /\ dispositions p' = dispositions p /\
    jm_prev_segfaulter p' = jm_prev_segfaulter p.
Proof.
  induction n as [|n IH]; intros fuel p h Hnw Hinv Hh Hlen Hfuel;
    (destruct fuel as [|fuel]; [lia|]).
  - assert (HhN : Z.of_nat (length h) = N) by lia. rewrite HhN.
    unfold initialize_pages.
    destruct (Z.ltb_spec (N * pagesize g) (N * pagesize g)); [lia|].
    exists p. simpl. rewrite !app_nil_r. done.
  - assert (HhN : Z.of_nat (length h) + 1 <= N) by lia.
    set (a := memregion g + Z.of_nat (length h) * pagesize g).
    destruct (FifoFacts.step_inv g N h (policy_state p) a frames Hinv)
      as (r & st' & Hstep & Hinv' & Hexp & _).
    destruct Hexp as (_ & _ & Hlo & _).
    assert (Hlt : Z.of_nat (length h) * pagesize g < N * pagesize g) by nia.
    rewrite (initialize_round fuel p _ _ r st' Hlt Hstep ltac:(apply Hlo; lia)).
    destruct (Z.eqb_spec (Z.of_nat (length h) * pagesize g) 0); [nia|].
    rewrite wrap64_small by nia. fold a.
    assert (Hl1 : Z.of_nat (length (h ++ [a])) = Z.of_nat (length h) + 1)
      by (rewrite length_app; cbn [length]; lia).
    replace (Z.of_nat (length h) * pagesize g + pagesize g)
      with (Z.of_nat (length (h ++ [a])) * pagesize g) by lia.
    destruct (IH fuel (set_policy_state (log p (Policy_find_replacement a)) st') (h ++ [a])
                Hnw Hinv' ltac:(lia) ltac:(lia) ltac:(lia))
      as (p' & Hrun & Hinv2 & Htr & Hth & Hfa & Hev & Hd & Hpv).
    exists p'. split; [exact Hrun|].
    rewrite Hl1 in Hinv2, Htr.
    rewrite (seqZ_cons (Z.of_nat (length h)) (Z.of_nat (S n))) by lia.
    replace (Z.succ (Z.of_nat (length h))) with (Z.of_nat (length h) + 1) by lia.
    replace (Z.pred (Z.of_nat (S n))) with (Z.of_nat n) by lia.
    cbn [map]. fold a. rewrite <- app_assoc in Hinv2. cbn [app] in Hinv2.
    split; [exact Hinv2|].
    split; [rewrite Htr; cbn [trace set_policy_state log]; rewrite <- app_assoc; done|].
    done.
Qed.

(* jm_initialize_signal_handler, called from jm_initialize_all (depth 1,
   mega-lock held) on the table that jm_initialize_pagereplace leaves. *)
Lemma fifo_initialize (p : pager Fifo.state) fuel b1 b2 b3 sf :
  N * pagesize g < 2 ^ 64 ->
  Fifo.inv g N [] (policy_state p) -> local_pages g = N ->
  Thread.internal_depth (thread p) = 1 -> Thread.megalock (thread p) = true ->
  (Z.to_nat N < fuel)%nat ->
  exists p1,
    jm_initialize_signal_handler fifo_policy g accepts fuel p b1 b2 b3 sf =
      Returns (p1, dispositions p SIGSEGV) /\
    Fifo.inv g N (map (fun k => memregion g + k * pagesize g) (seqZ 0 N))
      (policy_state p1) /\
    trace p1 = trace p ++
      (Policy_find_replacement (memregion g)
       :: Assign_backing_store (memregion g) (N * pagesize g) RW
       :: map Policy_find_replacement
            (map (fun k => memregion g + k * pagesize g) (seqZ 1 (N - 1))))
      ++ [Original_sigaction SIGSEGV (Some sf)] /\
    thread p1 = {| Thread.blocked := 0; Thread.internal_depth := 1;
                   Thread.cancel_handler := Thread.cancel_handler (thread p);
                   Thread.megalock := true |} /\
    fault_address p1 = fault_address p /\ address (evict_info p1) = NULL /\
    dispositions p1 SIGSEGV = sf /\ jm_prev_segfaulter p1 = dispositions p SIGSEGV.
Proof.
  intros Hnw Hinv HN Hdepth Hlock Hfuel.
  destruct fuel as [|fuel]; [lia|].
  unfold jm_initialize_signal_handler. rewrite HN, wrap64_small by nia.
  match goal with |- context [initialize_pages _ _ _ _ ?q 0 _] => set (ps := q) end.
  destruct (FifoFacts.step_inv g N [] (policy_state p) (memregion g + 0) frames Hinv)
    as (r & st' & Hstep & Hinv' & Hexp & _).
  destruct Hexp as (Hprot & _ & Hlo & _).
  assert (Hlt : 0 < N * pagesize g) by nia.
  rewrite (initialize_round fuel ps 0 _ r st' Hlt Hstep ltac:(apply Hlo; simpl; lia)).
  cbn [Z.eqb]. rewrite wrap64_small by lia. rewrite Z.add_0_l.
  match goal with |- context [initialize_pages _ _ _ _ ?q _ _] => set (pa := q) end.
  destruct (fifo_initialize_rest (Z.to_nat (N - 1)) fuel pa [memregion g + 0] Hnw Hinv'
              ltac:(simpl; lia) ltac:(simpl; lia) ltac:(lia))
    as (pb & Hrun & Hinvb & Htrb & Hthb & Hfab & Hevb & Hdb & Hpvb).
  change (Z.of_nat (length [memregion g + 0])) with 1 in Hrun, Hinvb, Htrb.
  rewrite Z.mul_1_l in Hrun.
  rewrite Hrun. cbn [mbind outcome_bind].
  rewrite Z2Nat.id in Hinvb, Htrb by lia.
  unfold JM_ENTER, Thread.jm_enter_critical_section.
  rewrite Hthb. change (thread pa) with (thread p). rewrite Hdepth, Hlock.
  cbn [Z.eqb andb mbind outcome_bind].
  unfold Thread.JM_INTERNAL_INVOCATION, Thread.jm_get_internal_depth.
  cbn [thread set_thread Thread.internal_depth].
  change (1 <? wrap32 (1 + 1)) with true. rewrite orb_true_r.
  rewrite all_accepted. cbn [mbind outcome_bind].
  unfold JM_RETURN, Thread.jm_exit_critical_section.
  cbn [thread set_thread Thread.internal_depth Thread.megalock Thread.blocked
       Thread.cancel_handler].
  change (wrap32 (wrap32 (1 + 1) - 1)) with 1.
  cbn [Z.eqb andb mbind outcome_bind].
  eexists. split.
  { apply f_equal. apply f_equal2; [reflexivity|].
    cbn [jm_prev_segfaulter set_thread dispositions]. rewrite Hdb. reflexivity. }
  cbn [policy_state trace thread fault_address evict_info dispositions jm_prev_segfaulter
       set_thread].
  split.
  { rewrite (seqZ_cons 0 N) by lia. cbn [map]. rewrite Z.mul_0_l.
    replace (Z.succ 0) with 1 by lia. replace (Z.pred N) with (N - 1) by lia.
    exact Hinvb. }
  split.
  { rewrite Htrb. subst pa ps. cbn [trace set_policy_state log set_slots].
    rewrite Z.add_0_r, Hprot. rewrite <- !app_assoc. reflexivity. }
  split; [reflexivity|]. split; [rewrite Hfab; reflexivity|].
  split; [rewrite Hevb; reflexivity|].
  split; [rewrite Z.eqb_refl; reflexivity|]. rewrite Hdb. reflexivity.
Qed.

End Run.
End FifoStart.

(** X15.  The order of a major fault.  For a fault from a thread that is
    outside the library, on a page of the region that the policy reports
    absent, with prefetching off, synchronous evictions, no extra copy and
    every system call succeeding, jm_signal_handler returns with the lock
    released and nothing pending, and asks exactly this of the system:
    freeze the other threads, ask the policy, assign backing store to the
    faulted page read/write, begin its fetch, then (if the policy names a
    victim) send the victim when it is dirty, wait for that and remove the
    victim's backing store, then wait for the fetch and, when the policy
    wants other than read/write, mprotect the page. *)
Theorem major_fault_sequence {S : Type} (pol : Handler.policy S) (g : JUMBOMEM_GLOBALS)
    (accepts : event -> bool) (p : Handler.pager S) (signum si_addr : Z)
    (prot : option Z) (s1 s2 : S) (r : replacement) :
  (forall e, accepts e = true) ->
  Thread.well_formed (Handler.thread p) -> Thread.cancel_handler (Handler.thread p) <= 0 ->
  0 < pagesize g ->
  memregion g <= Handler.round_to_page g si_addr < memregion g + extent g ->
  Handler.fault_address p = NULL -> Handler.address (Handler.evict_info p) = NULL ->
  prefetch_type g = PREFETCH_NONE -> async_evict g = 0 -> extra_memcpy g = 0 ->
  Handler.page_is_resident pol g (Handler.policy_state p) (Handler.round_to_page g si_addr)
    true = Returns (0, prot, s1) ->
  Handler.find_replacement_page pol g s1 (Handler.round_to_page g si_addr) =
    Returns (r, s2) ->
  (evictable_page r <> NULL -> clean r <> None) ->
  let a := Handler.round_to_page g si_addr in
  exists p',
    Handler.jm_signal_handler pol g accepts p signum si_addr = Returns p' /\
    Handler.trace p' = Handler.trace p ++
      [Freeze_other_threads; Policy_is_resident a; Policy_find_replacement a;
       Assign_backing_store a (pagesize g) Handler.RW; Fetch_begin a a]
      ++ (if evictable_page r =? NULL then []
          else (if default 0 (clean r) =? 0
                then [Evict_begin (evictable_page r) (evictable_page r); Evict_end]
                else [])
               ++ [Remove_backing_store (evictable_page r) (pagesize g)])
      ++ Fetch_end :: (if newprot r =? Handler.RW then []
                       else [Mprotect a (pagesize g) (newprot r)]) /\
    Handler.policy_state p' = s2 /\
    Thread.internal_depth (Handler.thread p') = Thread.internal_depth (Handler.thread p) /\
    Thread.megalock (Handler.thread p') = Thread.megalock (Handler.thread p) /\
    Handler.fault_address p' = NULL /\
    Handler.address (Handler.fetch_info p') = NULL /\
    Handler.address (Handler.evict_info p') = NULL.
Proof.
  intros Hacc Hwf Hcancel Hps Hin Hfa Hev Hpf Hasync Hcopy Hres Hfind Hclean a.
  destruct (HandlerFacts.handler_miss pol g accepts Hacc p signum si_addr prot s1 r s2
              Hwf Hcancel Hps Hin Hfa Hev Hpf Hasync Hcopy Hres Hfind Hclean)
    as (p' & Hcall & Htrace & Hst & Hth & Hfa' & Hf' & Hev' & _).
  exists p'. split; [exact Hcall|]. split; [exact Htrace|]. split; [exact Hst|].
  rewrite Hth. simpl. done.
Qed.

Lemma major_fault_sequence_example :
  exists p',
    Handler.jm_signal_handler Handler.fifo_policy Scenarios.no_prefetch
      Examples.every_call_succeeds (Scenarios.pager Scenarios.fifo_full Examples.idle)
      SIGSEGV (Examples.page 3 + 100) = Returns p' /\
    Handler.trace p' =
      [Freeze_other_threads; Policy_is_resident (Examples.page 3);
       Policy_find_replacement (Examples.page 3);
       Assign_backing_store (Examples.page 3) 4096 3;
       Fetch_begin (Examples.page 3) (Examples.page 3);
       Evict_begin (Examples.page 7) (Examples.page 7); Evict_end;
       Remove_backing_store (Examples.page 7) 4096; Fetch_end].
Proof.
  assert (Hwf : Thread.well_formed Examples.user_thread).
  { split; [simpl; lia|]. split; [discriminate|simpl; lia]. }
  assert (Hin : memregion Scenarios.no_prefetch
                <= Handler.round_to_page Scenarios.no_prefetch (Examples.page 3 + 100)
                < memregion Scenarios.no_prefetch + extent Scenarios.no_prefetch).
  { split; vm_compute; [discriminate|reflexivity]. }
  destruct (major_fault_sequence Handler.fifo_policy Scenarios.no_prefetch
              Examples.every_call_succeeds (Scenarios.pager Scenarios.fifo_full Examples.idle)
              SIGSEGV (Examples.page 3 + 100) None Scenarios.fifo_full
              {| Fifo.used_pages := [3; 9]; Fifo.num_used := 2; Fifo.total_pages := 2;
                 Fifo.next_evict := 1 |}
              {| newprot := 3; evictable_page := Examples.page 7; clean := Some 0 |}
              (fun _ => eq_refl) Hwf ltac:(vm_compute; discriminate) eq_refl Hin
              eq_refl eq_refl eq_refl eq_refl eq_refl eq_refl eq_refl
              ltac:(discriminate))
    as (p' & Hcall & Htrace & _).
  exists p'. split; [exact Hcall|exact Htrace].
Defined.

(** X16.  A minor fault.  When the policy reports the faulted page
    resident and hands back protection flags, jm_signal_handler only
    freezes the other threads, asks the policy and calls mprotect on the
    page with those flags: no backing store is assigned or removed,
    nothing is fetched or evicted, the policy is not asked for a victim,
    and the pending fetch, eviction and prefetch are as they were. *)
Theorem minor_fault_only_changes_protection {S : Type} (pol : Handler.policy S)
    (g : JUMBOMEM_GLOBALS) (accepts : event -> bool) (p : Handler.pager S)
    (signum si_addr res protflags : Z) (s1 : S) :
  (forall e, accepts e = true) ->
  Thread.well_formed (Handler.thread p) -> Thread.cancel_handler (Handler.thread p) <= 0 ->
  0 < pagesize g ->
  memregion g <= Handler.round_to_page g si_addr < memregion g + extent g ->
  Handler.fault_address p = NULL ->
  Handler.page_is_resident pol g (Handler.policy_state p) (Handler.round_to_page g si_addr)
    true = Returns (res, Some protflags, s1) ->
  res <> 0 ->
  exists p',
    Handler.jm_signal_handler pol g accepts p signum si_addr = Returns p' /\
    Handler.trace p' = Handler.trace p ++
      [Freeze_other_threads; Policy_is_resident (Handler.round_to_page g si_addr);
       Mprotect (Handler.round_to_page g si_addr) (pagesize g) protflags] /\
    Handler.policy_state p' = s1 /\
    Thread.internal_depth (Handler.thread p') = Thread.internal_depth (Handler.thread p) /\
    Thread.megalock (Handler.thread p') = Thread.megalock (Handler.thread p) /\
    Handler.fault_address p' = NULL /\
    Handler.fetch_info p' = Handler.fetch_info p /\
    Handler.evict_info p' = Handler.evict_info p /\
    Handler.prefetch_info p' = Handler.prefetch_info p.
Proof.
  intros Hacc Hwf Hcancel Hps Hin Hfa Hres Hnz.
  destruct (HandlerFacts.handler_hit pol g accepts Hacc p signum si_addr res protflags s1
              Hwf Hcancel Hps Hin Hfa Hres Hnz)
    as (p' & Hcall & Htrace & Hst & Hth & Hfa' & Hf' & Hev' & Hp' & _).
  exists p'. split; [exact Hcall|]. split; [exact Htrace|]. split; [exact Hst|].
  rewrite Hth. simpl. done.
Qed.

Lemma minor_fault_only_changes_protection_example :
  exists p',
    Handler.jm_signal_handler (Service.nru_policy 1000 0) Examples.globals
      Examples.every_call_succeeds (Scenarios.pager Examples.nru_stale Examples.idle)
      SIGSEGV (Examples.page 0 + 8) = Returns p' /\
    Handler.trace p' =
      [Freeze_other_threads; Policy_is_resident (Examples.page 0);
       Mprotect (Examples.page 0) 4096 3] /\
    Nru.used_pages (Handler.policy_state p') !! 0%nat =
      Some {| Nru.pagenum := 0; Nru.referenced := 1; Nru.modified := 1 |}.
Proof.
  assert (H : exists s1,
             Handler.page_is_resident (Service.nru_policy 1000 0) Examples.globals
               Examples.nru_stale
               (Handler.round_to_page Examples.globals (Examples.page 0 + 8)) true =
               Returns (1, Some 3, s1) /\
             Nru.used_pages s1 !! 0%nat =
               Some {| Nru.pagenum := 0; Nru.referenced := 1; Nru.modified := 1 |}).
  { eexists. split; [vm_compute; reflexivity|]. vm_compute. reflexivity. }
  destruct H as (s1 & Hres & Hused).
  assert (Hwf : Thread.well_formed Examples.user_thread).
  { split; [simpl; lia|]. split; [discriminate|simpl; lia]. }
  assert (Hin : memregion Examples.globals
                <= Handler.round_to_page Examples.globals (Examples.page 0 + 8)
                < memregion Examples.globals + extent Examples.globals).
  { split; vm_compute; [discriminate|reflexivity]. }
  destruct (minor_fault_only_changes_protection (Service.nru_policy 1000 0) Examples.globals
              Examples.every_call_succeeds (Scenarios.pager Examples.nru_stale Examples.idle)
              SIGSEGV (Examples.page 0 + 8) 1 3 s1
              (fun _ => eq_refl) Hwf ltac:(vm_compute; discriminate) eq_refl Hin eq_refl
              Hres ltac:(discriminate))
    as (p' & Hcall & Htrace & Hst & _).
  exists p'. split; [exact Hcall|]. split; [exact Htrace|]. rewrite Hst. exact Hused.
Defined.

(** X17.  A fault on the page whose prefetch is pending is served from
    the prefetch buffer.  With PREFETCH_NEXT, synchronous evictions, no
    extra copy and every system call succeeding, when prefetch_info holds
    the faulted page, the policy reports it absent and the page after it
    lies in the region and is absent too, jm_signal_handler waits for the
    prefetch, evicts the victim (if any), copies the page out of the
    prefetch buffer and begins the prefetch of the next page: no fetch of
    the faulted page itself is begun, fetch_info is untouched, and
    prefetch_info now holds the next page. *)
Theorem prefetched_page_is_copied_from_the_buffer {S : Type} (pol : Handler.policy S)
    (g : JUMBOMEM_GLOBALS) (accepts : event -> bool) (p : Handler.pager S)
    (signum si_addr : Z) (prot x : option Z) (s1 s2 s3 : S) (r : replacement) :
  (forall e, accepts e = true) ->
  Thread.well_formed (Handler.thread p) -> Thread.cancel_handler (Handler.thread p) <= 0 ->
  0 < pagesize g ->
  let a := Handler.round_to_page g si_addr in
  memregion g <= a < memregion g + extent g ->
  Handler.fault_address p = NULL -> Handler.address (Handler.evict_info p) = NULL ->
  prefetch_type g = PREFETCH_NEXT -> async_evict g = 0 -> extra_memcpy g = 0 ->
  Handler.address (Handler.prefetch_info p) = a -> a <> NULL ->
  Handler.page_is_resident pol g (Handler.policy_state p) a true = Returns (0, prot, s1) ->
  Handler.find_replacement_page pol g s1 a = Returns (r, s2) ->
  (evictable_page r <> NULL -> clean r <> None) ->
  memregion g <= a + pagesize g < memregion g + extent g ->
  Handler.page_is_resident pol g s2 (a + pagesize g) false = Returns (0, x, s3) ->
  exists p',
    Handler.jm_signal_handler pol g accepts p signum si_addr = Returns p' /\
    Handler.trace p' = Handler.trace p ++
      [Freeze_other_threads; Policy_is_resident a; Policy_find_replacement a;
       Assign_backing_store a (pagesize g) Handler.RW; Fetch_end]
      ++ (if evictable_page r =? NULL then []
          else (if default 0 (clean r) =? 0
                then [Evict_begin (evictable_page r) (evictable_page r); Evict_end]
                else [])
               ++ [Remove_backing_store (evictable_page r) (pagesize g)])
      ++ Memcpy a (Handler.buffer (Handler.prefetch_info p)) (pagesize g)
         :: (if newprot r =? Handler.RW then [] else [Mprotect a (pagesize g) (newprot r)])
      ++ [Policy_is_resident (a + pagesize g);
          Fetch_begin (a + pagesize g) (Handler.buffer (Handler.prefetch_info p))] /\
    Handler.policy_state p' = s3 /\
    Handler.fetch_info p' = Handler.fetch_info p /\
    Handler.address (Handler.prefetch_info p') = a + pagesize g /\
    Handler.fault_address p' = NULL /\
    Thread.internal_depth (Handler.thread p') = Thread.internal_depth (Handler.thread p) /\
    Thread.megalock (Handler.thread p') = Thread.megalock (Handler.thread p).
Proof.
  intros Hacc Hwf Hcancel Hps a Hin Hfa Hev Hpf Hasync Hcopy Hpa Hnn Hres Hfind Hclean
    Hnext Hres2.
  destruct (HandlerFacts.handler_prefetched pol g accepts Hacc p signum si_addr prot s1 r s2
              x s3 Hwf Hcancel Hps Hin Hfa Hev Hpf Hasync Hcopy Hpa Hnn Hres Hfind Hclean
              Hnext Hres2)
    as (p' & Hcall & Htrace & Hst & Hth & Hfa' & Hf' & Hev' & Hp').
  exists p'. split; [exact Hcall|]. split; [exact Htrace|]. split; [exact Hst|].
  split; [exact Hf'|]. rewrite Hp', Hth. simpl. done.
Qed.

Lemma prefetched_page_is_copied_from_the_buffer_example :
  exists p',
    Handler.jm_signal_handler (Service.nru_policy 1000 0) Examples.globals
      Examples.every_call_succeeds
      (Scenarios.pager Scenarios.nru_one_page Scenarios.prefetching_page_1)
      SIGSEGV (Examples.page 1 + 8) = Returns p' /\
    Handler.trace p' =
      [Freeze_other_threads; Policy_is_resident (Examples.page 1);
       Policy_find_replacement (Examples.page 1);
       Assign_backing_store (Examples.page 1) 4096 3; Fetch_end;
       Memcpy (Examples.page 1) 8192 4096;
       Policy_is_resident (Examples.page 2); Fetch_begin (Examples.page 2) 8192] /\
    Handler.address (Handler.prefetch_info p') = Examples.page 2.
Proof.
  assert (H : exists s1 s2 s3,
             Handler.page_is_resident (Service.nru_policy 1000 0) Examples.globals
               Scenarios.nru_one_page
               (Handler.round_to_page Examples.globals (Examples.page 1 + 8)) true =
               Returns (0, None, s1) /\
             Handler.find_replacement_page (Service.nru_policy 1000 0) Examples.globals s1
               (Handler.round_to_page Examples.globals (Examples.page 1 + 8)) =
               Returns ({| newprot := 3; evictable_page := NULL; clean := None |}, s2) /\
             Handler.page_is_resident (Service.nru_policy 1000 0) Examples.globals s2
               (Handler.round_to_page Examples.globals (Examples.page 1 + 8)
                + pagesize Examples.globals) false = Returns (0, None, s3)).
  { eexists _, _, _. split; [vm_compute; reflexivity|].
    split; [vm_compute; reflexivity|]. vm_compute. reflexivity. }
  destruct H as (s1 & s2 & s3 & Hres & Hfind & Hres2).
  assert (Hwf : Thread.well_formed Examples.user_thread).
  { split; [simpl; lia|]. split; [discriminate|simpl; lia]. }
  assert (Hin : memregion Examples.globals
                <= Handler.round_to_page Examples.globals (Examples.page 1 + 8)
                < memregion Examples.globals + extent Examples.globals).
  { split; vm_compute; [discriminate|reflexivity]. }
  assert (Hnext : memregion Examples.globals
                  <= Handler.round_to_page Examples.globals (Examples.page 1 + 8)
                     + pagesize Examples.globals
                  < memregion Examples.globals + extent Examples.globals).
  { split; vm_compute; [discriminate|reflexivity]. }
  assert (Hclean : evictable_page {| newprot := 3; evictable_page := NULL; clean := None |}
                   <> NULL ->
                   clean {| newprot := 3; evictable_page := NULL; clean := None |} <> None).
  { simpl. intros H. destruct H. reflexivity. }
  destruct (prefetched_page_is_copied_from_the_buffer (Service.nru_policy 1000 0)
              Examples.globals Examples.every_call_succeeds
              (Scenarios.pager Scenarios.nru_one_page Scenarios.prefetching_page_1)
              SIGSEGV (Examples.page 1 + 8) None None
              s1 s2 s3 {| newprot := 3; evictable_page := NULL; clean := None |}
              (fun _ => eq_refl) Hwf ltac:(vm_compute; discriminate) eq_refl Hin eq_refl
              eq_refl eq_refl eq_refl eq_refl eq_refl ltac:(vm_compute; discriminate)
              Hres Hfind Hclean Hnext Hres2)
    as (p' & Hcall & Htrace & _ & _ & Hpa & _).
  exists p'. split; [exact Hcall|]. split; [exact Htrace|exact Hpa].
Defined.

(** X18.  Under the FIFO policy the handler keeps the backing store
    within the budget.  jm_initialize_pagereplace and then
    jm_initialize_signal_handler, called at depth 1 with the mega-lock
    held as jm_initialize_all calls it, hand the first N = local_pages
    pages of the region to the policy, map them with one call and
    install the handler (N * pagesize < 2^64, every system call
    succeeding): the handler never sees a table that is not full.  After
    the JM_RETURN of jm_initialize_all, for every run of faults on pages
    of the region (synchronous evictions, no extra copy) the handler
    returns from each fault with the thread back in user code, and every
    fault evicts one page.  The bytes with backing store (assigned minus
    removed) are N * pagesize after the initialization and after the
    run, and at no point of the run more than (N + 1) * pagesize, the
    extra page being the faulted page, which is mapped before the victim
    is unmapped. *)
Theorem fifo_backing_store_budget (g : JUMBOMEM_GLOBALS) (accepts : event -> bool)
    (p0 : Handler.pager Fifo.state) (prefetch_buffer evict_buffer fetch_buffer : Z)
    (segfaulter : sigaction_t) (fuel : nat) (addrs : list Z) :
  (forall e, accepts e = true) ->
  0 < pagesize g -> 0 < memregion g -> 1 <= local_pages g ->
  local_pages g * pagesize g < 2 ^ 64 ->
  async_evict g = 0 -> extra_memcpy g = 0 ->
  Thread.internal_depth (Handler.thread p0) = 1 ->
  Thread.megalock (Handler.thread p0) = true ->
  Thread.cancel_handler (Handler.thread p0) <= 0 ->
  Handler.fault_address p0 = NULL -> Handler.trace p0 = [] ->
  (Z.to_nat (local_pages g) < fuel)%nat ->
  Forall (fun a => memregion g <= Handler.round_to_page g a < memregion g + extent g)
    addrs ->
  exists st0 g1 p1 p2 p',
    Fifo.jm_initialize_pagereplace g = Returns (st0, g1) /\
    Handler.jm_initialize_signal_handler Handler.fifo_policy g1 accepts fuel
      (Handler.set_policy_state p0 st0) prefetch_buffer evict_buffer fetch_buffer
      segfaulter = Returns (p1, Handler.dispositions p0 SIGSEGV) /\
    Fifo.num_used (Handler.policy_state p1) = local_pages g /\
    Handler.dispositions p1 SIGSEGV = segfaulter /\
    Service.assigned_bytes (Handler.trace p1) = local_pages g * pagesize g /\
    Service.removed_bytes (Handler.trace p1) = 0 /\
    Handler.JM_RETURN p1 = Returns p2 /\
    Service.serve Handler.fifo_policy g1 accepts p2 addrs = Returns p' /\
    Thread.in_user_code (Handler.thread p') /\
    Service.removed (Handler.trace p') = Z.of_nat (length addrs) /\
    Service.assigned_bytes (Handler.trace p') - Service.removed_bytes (Handler.trace p')
      = local_pages g * pagesize g /\
    forall k, Service.assigned_bytes (take k (Handler.trace p'))
              - Service.removed_bytes (take k (Handler.trace p'))
              <= (local_pages g + 1) * pagesize g.
Proof.
  intros Hacc Hps Hmem HN Hnw Hasync Hcopy Hdepth Hlock Hcancel Hfa Htr Hfuel Hall.
  destruct (FifoFacts.init_inv g HN) as (st0 & Hinit & Hinv).
  set (g1 := set_prefetch_type g PREFETCH_NONE) in *.
  set (N := local_pages g) in *.
  destruct (FifoStart.fifo_initialize g1 accepts N Hacc Hps HN
              (Handler.set_policy_state p0 st0) fuel prefetch_buffer evict_buffer
              fetch_buffer segfaulter Hnw Hinv eq_refl Hdepth Hlock Hfuel)
    as (p1 & Hcall & Hinv1 & Htr1 & Hth1 & Hfa1 & Hev1 & Hd1 & Hpv1).
  change (Handler.trace (Handler.set_policy_state p0 st0)) with (Handler.trace p0) in Htr1.
  change (Handler.thread (Handler.set_policy_state p0 st0)) with (Handler.thread p0) in Hth1.
  change (Handler.fault_address (Handler.set_policy_state p0 st0))
    with (Handler.fault_address p0) in Hfa1.
  change (pagesize g1) with (pagesize g) in *. change (memregion g1) with (memregion g) in *.
  rewrite Htr in Htr1. cbn [app] in Htr1.
  set (t2 := {| Thread.blocked := 0; Thread.internal_depth := 0;
                Thread.cancel_handler := Thread.cancel_handler (Handler.thread p0);
                Thread.megalock := false |}).
  assert (Hret : Handler.JM_RETURN p1 = Returns (Handler.set_thread p1 t2)).
  { unfold Handler.JM_RETURN, Thread.jm_exit_critical_section. rewrite Hth1. reflexivity. }
  assert (Hlen : Z.of_nat (length (map (fun k => memregion g + k * pagesize g) (seqZ 0 N)))
                 = N).
  { rewrite length_map, length_seqZ. lia. }
  destruct (FifoStart.fifo_serve g1 accepts N Hacc Hps Hmem eq_refl Hasync Hcopy HN addrs
              (Handler.set_thread p1 t2) _ Hall Hinv1 ltac:(lia))
    as (p' & es & Hserve & Hd & Hm & Htr' & Hsz & Has & Hrm & Hpre).
  { apply ThreadFacts.user_code_well_formed. split; reflexivity. }
  { exact Hcancel. }
  { cbn [Handler.fault_address Handler.set_thread]. rewrite Hfa1. exact Hfa. }
  { exact Hev1. }
  change (Handler.trace (Handler.set_thread p1 t2)) with (Handler.trace p1) in Htr'.
  change (pagesize g1) with (pagesize g) in *.
  set (requests := map Policy_find_replacement
                     (map (fun k => memregion g + k * pagesize g) (seqZ 1 (N - 1)))) in *.
  destruct (FifoStart.requests_bytes
              (map (fun k => memregion g + k * pagesize g) (seqZ 1 (N - 1))))
    as (Hra & Hrr & Hrc).
  fold requests in Hra, Hrr, Hrc.
  assert (Hia : Service.assigned_bytes (Handler.trace p1) = N * pagesize g).
  { rewrite Htr1. cbn [Service.assigned_bytes app].
    rewrite FifoStart.assigned_bytes_app, Hra. simpl. lia. }
  assert (Hir : Service.removed_bytes (Handler.trace p1) = 0).
  { rewrite Htr1. cbn [Service.removed_bytes app].
    rewrite FifoStart.removed_bytes_app, Hrr. reflexivity. }
  assert (Hic : Service.removed (Handler.trace p1) = 0).
  { rewrite Htr1. unfold Service.removed in *. cbn [Service.count app Service.is_remove].
    rewrite FifoPaging.count_app, Hrc. reflexivity. }
  assert (Hnn : Forall (fun e => exists len, 0 <= len /\ Service.sized len e)
                  (Handler.trace p1)).
  { rewrite Htr1. constructor; [exists 0; done|].
    constructor; [exists (N * pagesize g); split; [nia|done]|].
    apply Forall_app. split; [|constructor; [exists 0; done|constructor]].
    unfold requests. apply Forall_forall. intros e He.
    apply list_elem_of_fmap in He as (a & -> & _). exists 0. done. }
  destruct (FifoStart.sized_bytes _ _ Hsz) as [Hesa Hesr].
  exists st0, g1, p1, (Handler.set_thread p1 t2), p'.
  split; [exact Hinit|]. split; [exact Hcall|].
  split.
  { destruct Hinv1 as (_ & _ & Hn & _). rewrite Hn, Hlen. lia. }
  split; [exact Hd1|]. split; [exact Hia|]. split; [exact Hir|]. split; [exact Hret|].
  split; [exact Hserve|].
  split.
  { cbn [Handler.thread Handler.set_thread] in Hd, Hm. subst t2. simpl in Hd, Hm.
    split; assumption. }
  split.
  { rewrite Htr'. unfold Service.removed in *. rewrite FifoPaging.count_app, Hic, Hrm. lia. }
  split.
  { rewrite Htr', FifoStart.assigned_bytes_app, FifoStart.removed_bytes_app.
    rewrite Hia, Hir, Hesa, Hesr, Has, Hrm. lia. }
  intros k. rewrite Htr', take_app.
  rewrite FifoStart.assigned_bytes_app, FifoStart.removed_bytes_app.
  destruct (FifoStart.bytes_take _ Hnn k) as [Hta Htrm].
  destruct (Nat.le_gt_cases k (length (Handler.trace p1))) as [Hk|Hk].
  - replace (k - length (Handler.trace p1))%nat with 0%nat by lia.
    rewrite take_0. simpl. nia.
  - rewrite take_ge by lia. rewrite Hia, Hir.
    destruct (FifoStart.sized_bytes _ (take (k - length (Handler.trace p1)) es)
                (Forall_take _ _ _ Hsz)) as [Hpa Hpr].
    rewrite Hpa, Hpr. specialize (Hpre (k - length (Handler.trace p1))%nat). nia.
Qed.

Lemma fifo_backing_store_budget_example :
  exists st0 g1 p1 p2 p',
    Fifo.jm_initialize_pagereplace Examples.globals = Returns (st0, g1) /\
    Handler.jm_initialize_signal_handler Handler.fifo_policy g1
      Examples.every_call_succeeds 3 (Handler.set_policy_state StartScenario.initializing st0)
      0 0 0 (Examples.action 4198400) = Returns (p1, Examples.action 4202496) /\
    Handler.JM_RETURN p1 = Returns p2 /\
    Service.serve Handler.fifo_policy g1 Examples.every_call_succeeds p2
      [Examples.page 2; Examples.page 3; Examples.page 0] = Returns p' /\
    Service.removed (Handler.trace p') = 3 /\
    Service.assigned_bytes (Handler.trace p') - Service.removed_bytes (Handler.trace p')
      = 8192.
Proof.
  assert (Hall : Forall (fun a => memregion Examples.globals
                                  <= Handler.round_to_page Examples.globals a
                                  < memregion Examples.globals + extent Examples.globals)
                  [Examples.page 2; Examples.page 3; Examples.page 0]).
  { repeat (constructor; [split; vm_compute; [discriminate|reflexivity]|]). constructor. }
  destruct (fifo_backing_store_budget Examples.globals Examples.every_call_succeeds
              StartScenario.initializing 0 0 0 (Examples.action 4198400) 3
              [Examples.page 2; Examples.page 3; Examples.page 0]
              (fun _ => eq_refl) eq_refl eq_refl ltac:(vm_compute; discriminate)
              eq_refl eq_refl eq_refl eq_refl eq_refl ltac:(vm_compute; discriminate)
              eq_refl eq_refl ltac:(vm_compute; lia) Hall)
    as (st0 & g1 & p1 & p2 & p' & Hinit & Hcall & _ & _ & _ & _ & Hret & Hserve & _
        & Hrm & Hbal & _).
  exists st0, g1, p1, p2, p'. split; [exact Hinit|]. split; [exact Hcall|].
  split; [exact Hret|]. split; [exact Hserve|]. split; [exact Hrm|exact Hbal].
Defined.

(** ** What a chunked transfer touches and returns *)

Module ChunkerMore.
Import Chunker.

Lemma to_long_small x : 0 <= x < 2 ^ 63 -> PageTable.to_long x = x.
Proof.
  intros Hx. unfold PageTable.to_long. rewrite wrap64_small by lia.
  destruct (Z.ltb_spec x (2 ^ 63)); lia.
Qed.

Lemma transferred_app l1 l2 :
  Stdio.transferred (l1 ++ l2) = Stdio.transferred l1 + Stdio.transferred l2.
Proof. induction l1 as [|a l1 IH]; simpl; [done|]. rewrite IH. lia. Qed.

Lemma transferred_nonneg l : 0 <= Stdio.transferred l.
Proof. induction l as [|a l IH]; simpl; [done|]. destruct (newbytes a <? 1) eqn:E; lia. Qed.

Lemma adjust_bytesdone g l l1 : adjust g l = Some l1 -> bytesdone l1 = bytesdone l.
Proof.
  unfold adjust. intros H.
  destruct (consec_successes l =? JM_MAX_CONSECUTIVE); [inversion H; done|].
  destruct (consec_failures l =? JM_MAX_CONSECUTIVE); [|inversion H; done].
  destruct (count l <=? ospagesize g); [done|].
  destruct (count l =? successful_bytes l); inversion H; done.
Qed.

(* The k-th attempt is the k-th call of the original function. *)
Lemma chunk_loop_calls fuel g function baseaddr totalcount :
  forall l k log ret log',
  chunk_loop fuel g function baseaddr totalcount l k log = Returns (ret, log') ->
  exists ext, log' = log ++ ext /\
    forall (i : nat) a, ext !! i = Some a ->
      newbytes a = function (k + i)%nat (buffer (before a)) (count (before a)).
Proof.
  induction fuel as [|fuel IH]; intros l k log ret log' H; simpl in H; [discriminate|].
  destruct (bytesdone l <? totalcount).
  - destruct (adjust g l) as [l1|].
    + apply IH in H. destruct H as (ext & -> & Hext).
      eexists (_ :: ext). rewrite <- app_assoc. split; [done|].
      intros [|i] a Ha; simpl in Ha.
      * inversion Ha; subst. simpl. rewrite Nat.add_0_r. done.
      * rewrite (Hext i a Ha). f_equal. lia.
    + inversion H; subst. exists []. rewrite app_nil_r. split; [done|].
      intros i a Ha. rewrite lookup_nil in Ha. discriminate.
  - inversion H; subst. exists []. rewrite app_nil_r. split; [done|].
    intros i a Ha. rewrite lookup_nil in Ha. discriminate.
Qed.

Lemma run_within g baseaddr totalcount l ext lf :
  run_from g baseaddr totalcount l ext lf ->
  0 <= totalcount < 2 ^ 63 -> 0 <= bytesdone l <= totalcount ->
  (forall a, a ∈ ext -> newbytes a <= count (before a)) ->
  (forall (i : nat) a, ext !! i = Some a ->
     bytesdone (before a) = bytesdone l + Stdio.transferred (take i ext) /\
     bytesdone (before a) < totalcount /\
     0 <= count (before a) <= totalcount - bytesdone (before a) /\
     buffer (before a) = baseaddr + bytesdone (before a)) /\
  bytesdone lf = bytesdone l + Stdio.transferred ext /\
  bytesdone lf <= totalcount.
Proof.
  intros Hrun Htot. induction Hrun as [l Hend|l l1 a ext lf Hlt Hadj Hbef Hrun IH];
    intros Hbd Hle.
  - split; [|simpl; lia]. intros i a Ha. rewrite lookup_nil in Ha. discriminate.
  - pose proof (adjust_bytesdone _ _ _ Hadj) as Hb1.
    assert (Hrem : wrap64 (totalcount - bytesdone l1) = totalcount - bytesdone l1).
    { apply wrap64_small. lia. }
    assert (Hba : bytesdone (before a) = bytesdone l) by (rewrite Hbef; simpl; lia).
    assert (Hcount : 0 <= count (before a) <= totalcount - bytesdone l).
    { rewrite Hbef. simpl. rewrite Hrem.
      pose proof (wrap64_range (successful_bytes l1 + unsuccessful_bytes l1)) as Hw.
      assert (0 <= wrap64 (successful_bytes l1 + unsuccessful_bytes l1) / 2)
        by (apply Z.div_pos; lia).
      destruct (Z.ltb_spec (totalcount - bytesdone l1)
                  (wrap64 (successful_bytes l1 + unsuccessful_bytes l1) / 2)); lia. }
    assert (Hbuf : buffer (before a) = baseaddr + bytesdone (before a)).
    { rewrite Hbef. simpl. done. }
    assert (Hn : newbytes a <= count (before a)) by (apply Hle; left).
    assert (Hacc : bytesdone (account (before a) (newbytes a)) =
                   bytesdone l + (if newbytes a <? 1 then 0 else newbytes a)).
    { unfold account. destruct (Z.ltb_spec (newbytes a) 1); simpl; [lia|].
      rewrite wrap64_small by lia. lia. }
    destruct IH as (Hall & Hfin & Hmax).
    { rewrite Hacc. destruct (Z.ltb_spec (newbytes a) 1); lia. }
    { intros a' Ha'. apply Hle. right. done. }
    split; [|split; [|done]].
    + intros [|i] a' Ha'; simpl in Ha'.
      * inversion Ha'; subst a'. simpl. split; [lia|]. split; [lia|]. split; [lia|done].
      * destruct (Hall i a' Ha') as (H1 & H2 & H3 & H4).
        simpl. rewrite H1, Hacc. split; [lia|]. rewrite H1, Hacc in H2, H3.
        split; [lia|]. split; [lia|]. rewrite H4, H1, Hacc. done.
    + simpl. rewrite Hfin, Hacc. lia.
Qed.

Section Live.
Variable g : JUMBOMEM_GLOBALS.
Variable function : nat -> Z -> Z -> Z.
Variable baseaddr totalcount : Z.
Hypothesis total_range : 0 <= totalcount < 2 ^ 63.
Hypothesis os_pos : 0 < ospagesize g.
Hypothesis os_le : ospagesize g <= local_pages g * pagesize g.
Hypothesis cache_small : 2 * local_pages g * pagesize g < 2 ^ 63.
Hypothesis at_most : forall k b c, function k b c <= c.
Hypothesis at_least : forall k b c, 1 <= c -> 1 <= function k b c.

Lemma ceiling_range : ospagesize g <= Stdio.ceiling g < 2 ^ 63.
Proof. unfold Stdio.ceiling. lia. Qed.

Lemma live_aim l1 :
  0 <= bytesdone l1 < totalcount -> unsuccessful_bytes l1 = Stdio.ceiling g ->
  1 <= successful_bytes l1 <= Stdio.ceiling g ->
  1 <= count (aim l1 baseaddr totalcount) <= Stdio.ceiling g /\
  count (aim l1 baseaddr totalcount) <= totalcount - bytesdone l1.
Proof.
  intros Hb Hu Hs. pose proof ceiling_range as HU. unfold aim. simpl. rewrite Hu.
  rewrite (wrap64_small (totalcount - bytesdone l1)) by lia.
  rewrite (wrap64_small (successful_bytes l1 + Stdio.ceiling g)) by lia.
  assert (1 <= (successful_bytes l1 + Stdio.ceiling g) / 2 <= Stdio.ceiling g).
  { split; [apply Z.div_le_lower_bound; lia|].
    apply Z.lt_succ_r. apply Z.div_lt_upper_bound; lia. }
  destruct (Z.ltb_spec (totalcount - bytesdone l1)
              ((successful_bytes l1 + Stdio.ceiling g) / 2)); lia.
Qed.

Lemma live_account l1 nb :
  0 <= bytesdone l1 < totalcount -> unsuccessful_bytes l1 = Stdio.ceiling g ->
  1 <= successful_bytes l1 <= Stdio.ceiling g ->
  0 <= consec_successes l1 <= 2 ->
  1 <= nb <= count (aim l1 baseaddr totalcount) ->
  Stdio.live g totalcount (account (aim l1 baseaddr totalcount) nb) /\
  bytesdone (account (aim l1 baseaddr totalcount) nb) = bytesdone l1 + nb.
Proof.
  intros Hb Hu Hs Hcs Hnb. destruct (live_aim l1 Hb Hu Hs) as [Hc1 Hc2].
  unfold account. destruct (Z.ltb_spec nb 1); [lia|].
  unfold Stdio.live. cbn [bytesdone unsuccessful_bytes successful_bytes consec_failures
                          consec_successes count].
  change (bytesdone (aim l1 baseaddr totalcount)) with (bytesdone l1).
  change (unsuccessful_bytes (aim l1 baseaddr totalcount)) with (unsuccessful_bytes l1).
  change (successful_bytes (aim l1 baseaddr totalcount)) with (successful_bytes l1).
  change (consec_successes (aim l1 baseaddr totalcount)) with (consec_successes l1).
  rewrite wrap64_small by lia. rewrite wrap32_small by lia.
  split; [|done].
  split; [lia|]. split; [done|]. split; [done|]. split; [done|]. split; [lia|].
  intros _. exact Hc1.
Qed.

Lemma live_loop (n : nat) : forall l k log,
  Stdio.live g totalcount l -> totalcount - bytesdone l <= Z.of_nat n ->
  exists log', chunk_loop (S n) g function baseaddr totalcount l k log =
               Returns (totalcount, log').
Proof.
  induction n as [|n IH]; intros l k log (Hbd & Hu & Hs & Hcf & Hcs & Hc) Hm.
  - cbn [chunk_loop]. destruct (Z.ltb_spec (bytesdone l) totalcount); [lia|].
    eexists. rewrite ChunkerMore.to_long_small by lia. f_equal. f_equal. lia.
  - cbn [chunk_loop]. destruct (Z.ltb_spec (bytesdone l) totalcount) as [Hlt|Hge].
    2:{ eexists. rewrite ChunkerMore.to_long_small by lia. f_equal. f_equal. lia. }
    assert (Hadj : exists l1, adjust g l = Some l1 /\ bytesdone l1 = bytesdone l /\
              unsuccessful_bytes l1 = Stdio.ceiling g /\
              1 <= successful_bytes l1 <= Stdio.ceiling g /\
              0 <= consec_successes l1 <= 2).
    { unfold adjust, JM_MAX_CONSECUTIVE.
      destruct (Z.eqb_spec (consec_successes l) 3) as [E|E].
      - eexists. split; [reflexivity|]. simpl.
        split; [done|]. split; [done|]. split; [apply Hc; lia|lia].
      - rewrite Hcf. simpl. exists l. split; [done|]. split; [done|]. split; [done|].
        split; [done|lia]. }
    destruct Hadj as (l1 & -> & Hb1 & Hu1 & Hs1 & Hcs1).
    assert (Hb : 0 <= bytesdone l1 < totalcount) by lia.
    destruct (live_aim l1 Hb Hu1 Hs1) as [Hc1 Hc2].
    remember (aim l1 baseaddr totalcount) as l2 eqn:El2.
    remember (function k (buffer l2) (count l2)) as nb eqn:Enb.
    assert (Hnb : 1 <= nb <= count l2).
    { subst nb. split; [apply at_least; lia|apply at_most]. }
    subst l2.
    destruct (live_account l1 nb Hb Hu1 Hs1 Hcs1 Hnb) as [Hlive Hbytes].
    apply IH; [exact Hlive|]. rewrite Hbytes. lia.
Qed.

End Live.
End ChunkerMore.

Module StdioFacts.
Import Chunker.

Lemma chunked g baseaddr totalcount :
  pagesize g <> 0 -> memregion g <= baseaddr ->
  baseaddr + totalcount < memregion g + extent g ->
  passes_through g baseaddr totalcount = false.
Proof.
  intros Hps Hlo Hhi. unfold passes_through.
  destruct (Z.eqb_spec (pagesize g) 0); [done|].
  destruct (Z.ltb_spec baseaddr (memregion g)); [lia|].
  destruct (Z.leb_spec (memregion g + extent g) (baseaddr + totalcount)); [lia|]. done.
Qed.

(* What a chunked call that returns has asked of the original function. *)
Lemma chunked_safe g function baseaddr totalcount fuel ret log :
  pagesize g <> 0 -> memregion g <= baseaddr ->
  baseaddr + totalcount < memregion g + extent g ->
  0 <= totalcount < 2 ^ 63 ->
  (forall k b c, function k b c <= c) ->
  read_or_write fuel g function baseaddr totalcount = Returns (ret, log) ->
  (forall (i : nat) a, log !! i = Some a ->
     newbytes a = function i (buffer (before a)) (count (before a)) /\
     buffer (before a) = baseaddr + Stdio.transferred (take i log) /\
     0 <= count (before a) /\
     buffer (before a) + count (before a) <= baseaddr + totalcount) /\
  ret = Stdio.transferred log /\ 0 <= ret <= totalcount.
Proof.
  intros Hps Hlo Hhi Htot Hle H.
  unfold read_or_write in H. rewrite (chunked g baseaddr totalcount Hps Hlo Hhi) in H.
  destruct (ChunkerMore.chunk_loop_calls _ _ _ _ _ _ _ _ _ _ H) as (ext1 & Hlog1 & Hcalls).
  destruct (ChunkerFacts.chunk_loop_run _ _ _ _ _ _ _ _ _ _ H) as (ext & lf & Hlog & Hrun & Hret).
  simpl in Hlog, Hlog1. subst log. subst ext1.
  destruct (ChunkerMore.run_within _ _ _ _ _ _ Hrun Htot) as (Hall & Hfin & Hmax).
  { simpl. lia. }
  { intros a Ha. apply list_elem_of_lookup_1 in Ha. destruct Ha as [i Hi].
    rewrite (Hcalls i a Hi). apply Hle. }
  simpl in Hall, Hfin.
  pose proof (ChunkerMore.transferred_nonneg ext) as Hnn.
  split.
  - intros i a Ha. destruct (Hall i a Ha) as (H1 & H2 & H3 & H4).
    split; [exact (Hcalls i a Ha)|]. rewrite H4, H1. split; [done|]. lia.
  - rewrite Hret, Hfin. rewrite ChunkerMore.to_long_small by lia. lia.
Qed.

Lemma chunked_live g function baseaddr totalcount :
  pagesize g <> 0 -> memregion g <= baseaddr ->
  baseaddr + totalcount < memregion g + extent g ->
  0 <= totalcount < 2 ^ 63 ->
  (forall k b c, function k b c <= c) ->
  0 < ospagesize g -> ospagesize g <= local_pages g * pagesize g ->
  2 * local_pages g * pagesize g < 2 ^ 63 ->
  (forall k b c, 1 <= c -> 1 <= function k b c) ->
  exists log,
    read_or_write (S (Z.to_nat totalcount)) g function baseaddr totalcount =
    Returns (totalcount, log).
Proof.
  intros Hps Hlo Hhi Htot Hle Hos Hosle Hsmall Hge.
  unfold read_or_write. rewrite (chunked g baseaddr totalcount Hps Hlo Hhi).
  apply (ChunkerMore.live_loop g function baseaddr totalcount Htot Hos Hosle Hsmall Hle Hge).
  - unfold Stdio.live, initial. simpl.
    assert (HU : ospagesize g <= Stdio.ceiling g < 2 ^ 63) by (unfold Stdio.ceiling; lia).
    rewrite wrap64_small by (unfold Stdio.ceiling in HU; lia).
    split; [lia|]. split; [done|]. split; [lia|]. split; [done|]. split; [lia|]. done.
  - simpl. lia.
Qed.

End StdioFacts.

(** X19.  A chunked read() or write() stays inside the caller's buffer
    and accounts for every byte.  For a buffer inside the region and an
    original function that never transfers more than it is asked for,
    every call that returns has made its i-th attempt at buffer plus the
    bytes transferred so far, for a non-negative count that does not pass
    the end of the buffer, and returns the sum of the bytes the attempts
    transferred, at most count.  When the original function transfers at
    least one byte on every attempt (and the cache is at least one OS page
    and smaller than 2^63 bytes), the call does return, with the whole
    count. *)
Theorem chunked_transfer_stays_in_the_buffer (g : JUMBOMEM_GLOBALS)
    (function : nat -> Z -> Z -> Z) (baseaddr totalcount : Z) op :
  op = Stdio.read \/ op = Stdio.write ->
  pagesize g <> 0 -> memregion g <= baseaddr ->
  baseaddr + totalcount < memregion g + extent g ->
  0 <= totalcount < 2 ^ 63 ->
  (forall k b c, function k b c <= c) ->
  (forall fuel ret log,
     op fuel g function baseaddr totalcount = Returns (ret, log) ->
     (forall (i : nat) a, log !! i = Some a ->
        Chunker.newbytes a =
          function i (Chunker.buffer (Chunker.before a)) (Chunker.count (Chunker.before a)) /\
        Chunker.buffer (Chunker.before a) = baseaddr + Stdio.transferred (take i log) /\
        0 <= Chunker.count (Chunker.before a) /\
        Chunker.buffer (Chunker.before a) + Chunker.count (Chunker.before a)
          <= baseaddr + totalcount) /\
     ret = Stdio.transferred log /\ 0 <= ret <= totalcount) /\
  (0 < ospagesize g -> ospagesize g <= local_pages g * pagesize g ->
   2 * local_pages g * pagesize g < 2 ^ 63 ->
   (forall k b c, 1 <= c -> 1 <= function k b c) ->
   exists log,
     op (S (Z.to_nat totalcount)) g function baseaddr totalcount =
     Returns (totalcount, log)).
Proof.
  intros Hop Hps Hlo Hhi Htot Hle.
  assert (Hrw : op = Chunker.read_or_write) by (destruct Hop; subst; done).
  subst op. split.
  - intros fuel ret log H.
    exact (StdioFacts.chunked_safe g function baseaddr totalcount fuel ret log
             Hps Hlo Hhi Htot Hle H).
  - intros Hos Hosle Hsmall Hge.
    exact (StdioFacts.chunked_live g function baseaddr totalcount
             Hps Hlo Hhi Htot Hle Hos Hosle Hsmall Hge).
Qed.

Lemma chunked_transfer_stays_in_the_buffer_example :
  exists log,
    Stdio.write (S (Z.to_nat 20000)) Examples.globals Examples.transfers_all
      (Examples.page 1) 20000 = Returns (20000, log).
Proof.
  destruct (chunked_transfer_stays_in_the_buffer Examples.globals Examples.transfers_all
              (Examples.page 1) 20000 Stdio.write) as [_ Hlive].
  - right. reflexivity.
  - discriminate.
  - vm_compute. discriminate.
  - reflexivity.
  - split; [discriminate|reflexivity].
  - intros k b c. unfold Examples.transfers_all. lia.
  - apply Hlive.
    + reflexivity.
    + vm_compute. discriminate.
    + reflexivity.
    + intros k b c Hc. unfold Examples.transfers_all. lia.
Defined.

(** X20.  fread() and fwrite() (and their unlocked variants) count whole
    items.  With size = 0 the wrappers divide by zero once read_or_write
    has returned, whatever the buffer.  With size > 0, a buffer inside
    the region and size * nmemb < 2^63, a call that returns yields the
    bytes transferred divided by size, rounded down, which is at most
    nmemb; and when the original function transfers at least one byte per
    attempt the call returns nmemb. *)
Theorem stdio_wrappers_count_whole_items (g : JUMBOMEM_GLOBALS)
    (function : nat -> Z -> Z -> Z) (buffer size nmemb : Z) op :
  op = Stdio.fread \/ op = Stdio.fread_unlocked \/
  op = Stdio.fwrite \/ op = Stdio.fwrite_unlocked ->
  (size = 0 ->
   forall fuel, (1 <= fuel)%nat -> op fuel g function buffer size nmemb =
                                   Undefined "division by zero") /\
  (0 < size -> 0 <= nmemb -> size * nmemb < 2 ^ 63 ->
   pagesize g <> 0 -> memregion g <= buffer ->
   buffer + size * nmemb < memregion g + extent g ->
   (forall k b c, function k b c <= c) ->
   (forall fuel items log,
      op fuel g function buffer size nmemb = Returns (items, log) ->
      items = Stdio.transferred log / size /\ 0 <= items <= nmemb) /\
   (0 < ospagesize g -> ospagesize g <= local_pages g * pagesize g ->
    2 * local_pages g * pagesize g < 2 ^ 63 ->
    (forall k b c, 1 <= c -> 1 <= function k b c) ->
    exists log,
      op (S (Z.to_nat (size * nmemb))) g function buffer size nmemb =
      Returns (nmemb, log))).
Proof.
  intros Hop.
  assert (Hrw : op = Stdio.fread) by (destruct Hop as [|[|[|]]]; subst; done).
  subst op. unfold Stdio.fread. split.
  - intros -> fuel Hfuel. rewrite Z.mul_0_l. change (wrap64 0) with 0.
    unfold Chunker.read_or_write.
    destruct (Chunker.passes_through g buffer 0); [done|].
    destruct fuel as [|fuel]; [lia|]. simpl. done.
  - intros Hsize Hn Hlt Hps Hlo Hhi Hle.
    assert (Hcount : 0 <= size * nmemb < 2 ^ 63) by nia.
    rewrite wrap64_small by lia.
    destruct (Z.eqb_spec size 0) as [|_]; [lia|]. split.
    + intros fuel items log H.
      destruct (Chunker.read_or_write fuel g function buffer (size * nmemb))
        as [[ret log0]| | |] eqn:E; simpl in H; try discriminate.
      inversion H; subst; clear H.
      destruct (StdioFacts.chunked_safe g function buffer (size * nmemb) fuel ret log
                  Hps Hlo Hhi Hcount Hle E) as (_ & Hret & Hrange).
      rewrite wrap64_small by lia. rewrite Hret. split; [done|].
      rewrite <- Hret. split; [apply Z.div_pos; lia|].
      apply Z.div_le_upper_bound; lia.
    + intros Hos Hosle Hsmall Hge.
      destruct (StdioFacts.chunked_live g function buffer (size * nmemb)
                  Hps Hlo Hhi Hcount Hle Hos Hosle Hsmall Hge) as (log & Hrun).
      exists log. rewrite Hrun. simpl. rewrite wrap64_small by lia.
      rewrite Z.mul_comm, Z.div_mul by lia. done.
Qed.

Lemma stdio_wrappers_count_whole_items_example :
  Stdio.fread 1 Examples.globals Examples.transfers_all (Examples.page 1) 0 10 =
    Undefined "division by zero" /\
  exists log,
    Stdio.fwrite (S (Z.to_nat (8 * 1000))) Examples.globals Examples.transfers_all
      (Examples.page 1) 8 1000 = Returns (1000, log).
Proof.
  split.
  - destruct (stdio_wrappers_count_whole_items Examples.globals Examples.transfers_all
                (Examples.page 1) 0 10 Stdio.fread) as [Hzero _].
    + left. reflexivity.
    + apply Hzero; [reflexivity|lia].
  - destruct (stdio_wrappers_count_whole_items Examples.globals Examples.transfers_all
                (Examples.page 1) 8 1000 Stdio.fwrite) as [_ Hitems].
    + right. right. left. reflexivity.
    + destruct Hitems as [_ Hlive].
      * reflexivity.
      * discriminate.
      * reflexivity.
      * discriminate.
      * vm_compute. discriminate.
      * reflexivity.
      * intros k b c. unfold Examples.transfers_all. lia.
      * apply Hlive.
        -- reflexivity.
        -- vm_compute. discriminate.
        -- reflexivity.
        -- intros k b c Hc. unfold Examples.transfers_all. lia.
Defined.

(** ** The signal-set wrappers *)

Module SignalMaskFacts.
Import SignalMask.

Lemma sigdelset_spec (mask : list Z) (signum s : Z) :
  s ∈ Overrides.sigdelset mask signum <-> s ∈ mask /\ s <> signum.
Proof. unfold Overrides.sigdelset. rewrite list_elem_of_filter. tauto. Qed.

Lemma from_user_code g original t set :
  is_internal g = 0 -> Thread.in_user_code t ->
  let t' := {| Thread.blocked := 0; Thread.internal_depth := 0;
               Thread.cancel_handler := Thread.cancel_handler t;
               Thread.megalock := false |} in
  let set' := (fun s => Overrides.sigdelset s SIGSEGV) <$> set in
  (forall how, sigprocmask g original t how set =
     Returns (original (Original_sigprocmask how set'), Original_sigprocmask how set', t')) /\
  (forall how, pthread_sigmask g original t how set =
     Returns (original (Original_pthread_sigmask how set'),
              Original_pthread_sigmask how set', t')) /\
  sigtimedwait g original t set =
     Returns (original (Original_sigtimedwait set'), Original_sigtimedwait set', t') /\
  sigwaitinfo g original t set =
     Returns (original (Original_sigwaitinfo set'), Original_sigwaitinfo set', t').
Proof.
  intros Hi Hu t' set'.
  destruct (ThreadFacts.enter_exit _ (ThreadFacts.user_code_well_formed _ Hu))
    as (t1 & Hen & Hd & Hc & Hex).
  pose proof Hu as [H0 Hl].
  assert (Hexit : Thread.jm_exit_critical_section t1 = Returns t').
  { specialize (Hex (Thread.cancel_handler t1)). destruct t1; simpl in *.
    rewrite Hex. subst t'. rewrite H0, Hl, Hc. done. }
  pose proof (ThreadFacts.external_invocation g t t1 Hi H0 Hd) as Hext.
  unfold sigprocmask, pthread_sigmask, sigtimedwait, sigwaitinfo.
  rewrite Hen. simpl. rewrite Hext. simpl.
  subst set'. destruct set as [s|]; simpl; rewrite Hexit; simpl; done.
Qed.

Lemma from_inside g original t set :
  Thread.well_formed t -> 0 < Thread.internal_depth t \/ is_internal g <> 0 ->
  let t' := {| Thread.blocked := 0; Thread.internal_depth := Thread.internal_depth t;
               Thread.cancel_handler := Thread.cancel_handler t;
               Thread.megalock := Thread.megalock t |} in
  (forall how, sigprocmask g original t how set =
     Returns (original (Original_sigprocmask how set), Original_sigprocmask how set, t')) /\
  (forall how, pthread_sigmask g original t how set =
     Returns (original (Original_pthread_sigmask how set),
              Original_pthread_sigmask how set, t')) /\
  sigtimedwait g original t set =
     Returns (original (Original_sigtimedwait set), Original_sigtimedwait set, t') /\
  sigwaitinfo g original t set =
     Returns (original (Original_sigwaitinfo set), Original_sigwaitinfo set, t').
Proof.
  intros Hwf Hin t'.
  destruct (ThreadFacts.enter_exit _ Hwf) as (t1 & Hen & Hd & Hc & Hex).
  assert (Hexit : Thread.jm_exit_critical_section t1 = Returns t').
  { specialize (Hex (Thread.cancel_handler t1)). destruct t1; simpl in *.
    rewrite Hex. subst t'. rewrite Hc. done. }
  assert (Hint : Thread.JM_INTERNAL_INVOCATION g t1 = true).
  { unfold Thread.JM_INTERNAL_INVOCATION, Thread.jm_get_internal_depth.
    apply orb_true_iff. destruct Hin as [Hdepth|Hint].
    - right. apply Z.ltb_lt. lia.
    - left. destruct (Z.eqb_spec (is_internal g) 0); done. }
  unfold sigprocmask, pthread_sigmask, sigtimedwait, sigwaitinfo.
  rewrite Hen. simpl. rewrite Hint. simpl.
  destruct set as [s|]; simpl; rewrite Hexit; simpl; done.
Qed.

End SignalMaskFacts.

(** X21.  The four wrappers that take a signal set (sigprocmask,
    pthread_sigmask, sigtimedwait, sigwaitinfo), called from user code,
    hand libc a copy of the set without SIGSEGV and with every other
    member kept (a NULL set stays NULL), leave the other arguments alone
    and return what libc returns; called from inside the library (lock
    held or is_internal set) they pass the set on unchanged, SIGSEGV
    included.  Either way the caller's lock depth is restored. *)
Theorem signal_set_wrappers_drop_sigsegv (g : JUMBOMEM_GLOBALS)
    (original : SignalMask.call -> Z) (t : Thread.THREAD_INFO) (set : option (list Z)) :
  (is_internal g = 0 -> Thread.in_user_code t ->
   let t' := {| Thread.blocked := 0; Thread.internal_depth := 0;
                Thread.cancel_handler := Thread.cancel_handler t;
                Thread.megalock := false |} in
   exists set',
     (match set, set' with
      | Some s, Some s' =>
          (SIGSEGV ∉ s') /\ (forall x, x <> SIGSEGV -> (x ∈ s' <-> x ∈ s)) /\
          s' = Overrides.sigdelset s SIGSEGV
      | None, None => True
      | _, _ => False
      end) /\
     (forall how, SignalMask.sigprocmask g original t how set =
        Returns (original (SignalMask.Original_sigprocmask how set'),
                 SignalMask.Original_sigprocmask how set', t')) /\
     (forall how, SignalMask.pthread_sigmask g original t how set =
        Returns (original (SignalMask.Original_pthread_sigmask how set'),
                 SignalMask.Original_pthread_sigmask how set', t')) /\
     SignalMask.sigtimedwait g original t set =
        Returns (original (SignalMask.Original_sigtimedwait set'),
                 SignalMask.Original_sigtimedwait set', t') /\
     SignalMask.sigwaitinfo g original t set =
        Returns (original (SignalMask.Original_sigwaitinfo set'),
                 SignalMask.Original_sigwaitinfo set', t')) /\
  (Thread.well_formed t -> 0 < Thread.internal_depth t \/ is_internal g <> 0 ->
   let t' := {| Thread.blocked := 0; Thread.internal_depth := Thread.internal_depth t;
                Thread.cancel_handler := Thread.cancel_handler t;
                Thread.megalock := Thread.megalock t |} in
   (forall how, SignalMask.sigprocmask g original t how set =
      Returns (original (SignalMask.Original_sigprocmask how set),
               SignalMask.Original_sigprocmask how set, t')) /\
   (forall how, SignalMask.pthread_sigmask g original t how set =
      Returns (original (SignalMask.Original_pthread_sigmask how set),
               SignalMask.Original_pthread_sigmask how set, t')) /\
   SignalMask.sigtimedwait g original t set =
      Returns (original (SignalMask.Original_sigtimedwait set),
               SignalMask.Original_sigtimedwait set, t') /\
   SignalMask.sigwaitinfo g original t set =
      Returns (original (SignalMask.Original_sigwaitinfo set),
               SignalMask.Original_sigwaitinfo set, t')).
Proof.
  split.
  - intros Hi Hu t'.
    exists ((fun s => Overrides.sigdelset s SIGSEGV) <$> set). split.
    + destruct set as [s|]; simpl; [|done].
      split; [rewrite SignalMaskFacts.sigdelset_spec; tauto|].
      split; [|done]. intros x Hx. rewrite SignalMaskFacts.sigdelset_spec. tauto.
    + exact (SignalMaskFacts.from_user_code g original t set Hi Hu).
  - intros Hwf Hin. exact (SignalMaskFacts.from_inside g original t set Hwf Hin).
Qed.

Lemma signal_set_wrappers_drop_sigsegv_example :
  SignalMask.sigprocmask Examples.globals (fun _ => 0) Examples.user_thread 0
    (Some [2; SIGSEGV; 15]) =
  Returns (0, SignalMask.Original_sigprocmask 0 (Some [2; 15]), Examples.user_thread).
Proof.
  destruct (signal_set_wrappers_drop_sigsegv Examples.globals (fun _ => 0)
              Examples.user_thread (Some [2; SIGSEGV; 15])) as [Huser _].
  destruct Huser as (set' & Hset & Hmask & _); [reflexivity|split; reflexivity|].
  destruct set' as [s'|]; [|done]. destruct Hset as (_ & _ & ->).
  exact (Hmask 0).
Defined.

(** X22.  Signals other than SIGSEGV pass through to libc.  From user
    code, sigaction(signum, act, oldact) with signum other than SIGSEGV
    makes exactly one call of the original sigaction, with a copy of act
    whose sa_mask has lost SIGSEGV and kept every other member; the
    result and the old action are libc's; signal(signum, handler) calls
    the original signal with its arguments unchanged.  Neither touches
    the recorded SIGSEGV actions or the kernel's SIGSEGV disposition. *)
Theorem other_signals_reach_libc (g : JUMBOMEM_GLOBALS) (accepts : event -> bool)
    (p : Overrides.process) (signum : Z) (a : sigaction_t) (oldact : bool) (handler : Z) :
  is_internal g = 0 -> Thread.in_user_code (Overrides.thread p) -> signum <> SIGSEGV ->
  let newact := {| sa_handler := sa_handler a;
                   sa_mask := Overrides.sigdelset (sa_mask a) SIGSEGV;
                   sa_flags := sa_flags a |} in
  (exists ret old p',
     Overrides.sigaction g accepts p signum (Some a) oldact = Returns (ret, old, p') /\
     Overrides.calls p' = Overrides.calls p ++ [Original_sigaction signum (Some newact)] /\
     (SIGSEGV ∉ sa_mask newact) /\
     (forall s, s <> SIGSEGV -> (s ∈ sa_mask newact <-> s ∈ sa_mask a)) /\
     (if accepts (Original_sigaction signum (Some newact))
      then ret = 0 /\
           old = (if oldact then Some (Overrides.dispositions p signum) else None) /\
           Overrides.dispositions p' signum = newact
      else ret = -1 /\ old = None /\
           Overrides.dispositions p' signum = Overrides.dispositions p signum) /\
     Overrides.dispositions p' SIGSEGV = Overrides.dispositions p SIGSEGV /\
     Overrides.jm_prev_segfaulter p' = Overrides.jm_prev_segfaulter p /\
     Overrides.jm_prev_prev_segfaulter p' = Overrides.jm_prev_prev_segfaulter p /\
     Thread.in_user_code (Overrides.thread p')) /\
  (exists p',
     Overrides.signal g accepts p signum handler =
       Returns ((if accepts (Original_signal signum handler)
                 then sa_handler (Overrides.dispositions p signum) else -1), p') /\
     Overrides.calls p' = Overrides.calls p ++ [Original_signal signum handler] /\
     Overrides.dispositions p' SIGSEGV = Overrides.dispositions p SIGSEGV /\
     Overrides.jm_prev_segfaulter p' = Overrides.jm_prev_segfaulter p /\
     Overrides.jm_prev_prev_segfaulter p' = Overrides.jm_prev_prev_segfaulter p /\
     Thread.in_user_code (Overrides.thread p')).
Proof.
  intros Hi Hu Hsig newact.
  destruct (ThreadFacts.enter_exit _ (ThreadFacts.user_code_well_formed _ Hu))
    as (t1 & Hen & Hd & Hc & Hex).
  destruct Hu as [H0 Hl].
  specialize (Hex (Thread.cancel_handler t1)).
  assert (Hne : (SIGSEGV =? signum) = false) by (apply Z.eqb_neq; congruence).
  assert (Hne' : (signum =? SIGSEGV) = false) by (apply Z.eqb_neq; congruence).
  split.
  - unfold Overrides.sigaction, Overrides.JM_ENTER. rewrite Hen. simpl.
    rewrite (ThreadFacts.external_invocation g _ t1 Hi H0 Hd). simpl.
    rewrite Hne'. simpl. unfold Overrides.original_sigaction. simpl.
    fold newact. unfold Overrides.JM_RETURN.
    destruct t1 as [b1 d1 c1 m1]. simpl in *.
    destruct (accepts (Original_sigaction signum (Some newact))) eqn:Hacc; simpl;
      rewrite Hex; simpl; (eexists _, _, _; split; [reflexivity|]); simpl;
      rewrite ?Z.eqb_refl, ?Hne;
      (split; [done|]);
      (split; [subst newact; simpl; rewrite SignalMaskFacts.sigdelset_spec; tauto|]);
      (split; [intros s Hs; subst newact; simpl;
               rewrite SignalMaskFacts.sigdelset_spec; tauto|]);
      repeat split; done.
  - unfold Overrides.signal, Overrides.JM_ENTER. rewrite Hen. simpl.
    rewrite Hne'. simpl. unfold Overrides.original_signal. simpl.
    unfold Overrides.JM_RETURN.
    destruct t1 as [b1 d1 c1 m1]. simpl in *.
    destruct (accepts (Original_signal signum handler)) eqn:Hacc; simpl;
      rewrite Hex; simpl; (eexists; split; [reflexivity|]); simpl;
      rewrite ?Hne; repeat split; done.
Qed.

Lemma other_signals_reach_libc_example :
  exists p',
    Overrides.sigaction Examples.globals Examples.every_call_succeeds Examples.process 10
      (Some {| sa_handler := 4206592; sa_mask := [SIGSEGV; 2]; sa_flags := 0 |}) false
      = Returns (0, None, p') /\
    Overrides.dispositions p' 10 =
      {| sa_handler := 4206592; sa_mask := [2]; sa_flags := 0 |}.
Proof.
  destruct (other_signals_reach_libc Examples.globals Examples.every_call_succeeds
              Examples.process 10
              {| sa_handler := 4206592; sa_mask := [SIGSEGV; 2]; sa_flags := 0 |}
              false 0) as [(ret & old & p' & Hcall & _ & _ & _ & Hacc & _) _].
  - reflexivity.
  - split; reflexivity.
  - discriminate.
  - simpl in Hacc. destruct Hacc as (-> & -> & Hdisp).
    exists p'. split; [exact Hcall|exact Hdisp].
Defined.

(** ** Asynchronous evictions *)

Module AsyncEviction.
Import Handler.

Section Steps.
Context {S : Type}.
Variable pol : policy S.
Variable g : JUMBOMEM_GLOBALS.
Variable accepts : event -> bool.
Hypothesis all_accepted : forall e, accepts e = true.
Hypothesis async : async_evict g <> 0.
Hypothesis no_copy : extra_memcpy g = 0.

(* evict_begin() leaves the eviction pending, the page read-only. *)
Lemma evict_begin_async (p : pager S) addr c :
  exists p', evict_begin g accepts p addr c = Returns p' /\
    trace p' = trace p ++
      (if c =? 0 then [Evict_begin addr addr] else [])
      ++ [Mprotect addr (pagesize g) PROT_READ] /\
    fetch_info p' = fetch_info p /\
    address (evict_info p') = addr /\ extra (evict_info p') = c /\
    prefetch_info p' = prefetch_info p /\ Service.untouched p p'.
Proof.
  unfold evict_begin. rewrite no_copy. simpl.
  destruct (Z.eqb_spec (async_evict g) 0) as [|_]; [done|]. simpl.
  destruct (c =? 0) eqn:E; rewrite HandlerFacts.must_accepted by done; simpl;
    (eexists; split; [reflexivity|]); simpl; rewrite <- ?app_assoc;
    unfold Service.untouched; simpl; repeat split; done.
Qed.

Lemma maybe_evict_async (p : pager S) r :
  (evictable_page r <> NULL -> clean r <> None) ->
  address (evict_info p) = NULL ->
  exists p', maybe_evict g accepts p r = Returns p' /\
    trace p' = trace p ++
      (if evictable_page r =? NULL then []
       else (if default 0 (clean r) =? 0
             then [Evict_begin (evictable_page r) (evictable_page r)] else [])
            ++ [Mprotect (evictable_page r) (pagesize g) PROT_READ]) /\
    fetch_info p' = fetch_info p /\
    address (evict_info p') = evictable_page r /\
    (evictable_page r <> NULL -> extra (evict_info p') = default 0 (clean r)) /\
    prefetch_info p' = prefetch_info p /\ Service.untouched p p'.
Proof.
  intros Hclean Hev. unfold maybe_evict.
  destruct (Z.eqb_spec (evictable_page r) NULL) as [Hn|Hn].
  - exists p. split; [done|]. rewrite app_nil_r. unfold Service.untouched.
    repeat split; try done. congruence.
  - destruct (clean r) as [c|] eqn:Ec; [|destruct (Hclean Hn); done].
    destruct (evict_begin_async p (evictable_page r) c)
      as (p' & Hr & Ht & Hf & He & Hx & Hp & Hu).
    exists p'. simpl. repeat split; try done. all: apply Hu.
Qed.

(* A major fault with asynchronous evictions and no prefetching. *)
Lemma handler_miss_async (p : pager S) signum si_addr prot s1 r s2 :
  Thread.well_formed (thread p) -> Thread.cancel_handler (thread p) <= 0 ->
  0 < pagesize g ->
  memregion g <= round_to_page g si_addr < memregion g + extent g ->
  fault_address p = NULL -> prefetch_type g = PREFETCH_NONE ->
  page_is_resident pol g (policy_state p) (round_to_page g si_addr) true =
    Returns (0, prot, s1) ->
  find_replacement_page pol g s1 (round_to_page g si_addr) = Returns (r, s2) ->
  (evictable_page r <> NULL -> clean r <> None) ->
  exists p',
    jm_signal_handler pol g accepts p signum si_addr = Returns p' /\
    trace p' = trace p ++
      [Freeze_other_threads; Policy_is_resident (round_to_page g si_addr)]
      ++ (if address (evict_info p) =? NULL then []
          else (if extra (evict_info p) =? 0 then [Evict_end] else [])
               ++ [Remove_backing_store (address (evict_info p)) (pagesize g)])
      ++ [Policy_find_replacement (round_to_page g si_addr);
          Assign_backing_store (round_to_page g si_addr) (pagesize g) RW;
          Fetch_begin (round_to_page g si_addr) (round_to_page g si_addr)]
      ++ (if evictable_page r =? NULL then []
          else (if default 0 (clean r) =? 0
                then [Evict_begin (evictable_page r) (evictable_page r)] else [])
               ++ [Mprotect (evictable_page r) (pagesize g) PROT_READ])
      ++ Fetch_end :: (if newprot r =? RW then []
                       else [Mprotect (round_to_page g si_addr) (pagesize g) (newprot r)]) /\
    policy_state p' = s2 /\
    thread p' = {| Thread.blocked := 0;
                   Thread.internal_depth := Thread.internal_depth (thread p);
                   Thread.cancel_handler := Thread.cancel_handler (thread p);
                   Thread.megalock := Thread.megalock (thread p) |} /\
    fault_address p' = NULL /\ address (fetch_info p') = NULL /\
    address (evict_info p') = evictable_page r /\
    (evictable_page r <> NULL -> extra (evict_info p') = default 0 (clean r)).
Proof.
  intros Hwf Hcancel Hps Hin Hfa Hpf Hres Hfind Hclean.
  destruct (HandlerFacts.handler_enters pol g accepts p signum si_addr Hwf Hcancel Hps Hin)
    as (t1 & Hexit & ->).
  set (a := round_to_page g si_addr) in *.
  unfold service_fault. simpl. rewrite Hfa. simpl. rewrite Hres. simpl.
  (* the pending eviction, if any, is completed first *)
  assert (Hold : exists p0,
    (if negb (address (evict_info p) =? NULL)
     then evict_end g accepts
            (set_policy_state
               (log (log (set_fault_address (set_thread p t1) si_addr) Freeze_other_threads)
                  (Policy_is_resident a)) s1)
     else Returns
            (set_policy_state
               (log (log (set_fault_address (set_thread p t1) si_addr) Freeze_other_threads)
                  (Policy_is_resident a)) s1)) = Returns p0 /\
    trace p0 = trace p ++ [Freeze_other_threads; Policy_is_resident a]
      ++ (if address (evict_info p) =? NULL then []
          else (if extra (evict_info p) =? 0 then [Evict_end] else [])
               ++ [Remove_backing_store (address (evict_info p)) (pagesize g)]) /\
    fetch_info p0 = fetch_info p /\ address (evict_info p0) = NULL /\
    buffer (evict_info p0) = buffer (evict_info p) /\
    prefetch_info p0 = prefetch_info p /\ prev_fault_addr p0 = prev_fault_addr p /\
    thread p0 = t1 /\ policy_state p0 = s1 /\ fault_address p0 = si_addr /\
    jm_prev_segfaulter p0 = jm_prev_segfaulter p /\ dispositions p0 = dispositions p).
  { destruct (Z.eqb_spec (address (evict_info p)) NULL) as [Hn|Hn]; simpl.
    - eexists. split; [reflexivity|]. simpl. rewrite <- !app_assoc. simpl.
      repeat split; done.
    - match goal with |- context [evict_end g accepts ?q] =>
        destruct (HandlerFacts.evict_end_spec g accepts all_accepted q)
          as (p0 & Hr & Ht & Hf & He & Hp & Hu) end.
      exists p0. split; [exact Hr|]. simpl in *.
      destruct Hu as (Hth & Hfa0 & Hps0 & Hd0 & Hpf0 & Hst0). simpl in *.
      rewrite Ht, He. rewrite <- !app_assoc. simpl.
      repeat split; done. }
  destruct Hold as (p0 & -> & Ht0 & Hf0 & He0 & Hb0 & Hp0 & Hpf0 & Hth0 & Hst0 & Hfa0
                    & Hps0 & Hd0).
  simpl. rewrite Hst0, Hfind. simpl. rewrite HandlerFacts.must_accepted by done. simpl.
  rewrite Hpf.
  match goal with |- context [maybe_evict g accepts ?q r] =>
    destruct (maybe_evict_async q r Hclean) as (p1 & Hr1 & Ht1 & Hf1 & He1 & Hx1 & Hp1 & Hu1)
  end.
  { simpl. exact He0. }
  rewrite Hr1. simpl.
  destruct (HandlerFacts.fetch_end_spec g accepts all_accepted p1 no_copy)
    as (p2 & Hr2 & Ht2 & Hf2 & He2 & Hp2 & Hu2).
  rewrite Hr2. simpl. unfold JM_RETURN. simpl.
  destruct Hu1 as (Hth1 & Hfa1 & Hps1 & Hd1 & Hpf1 & Hst1).
  destruct Hu2 as (Hth2 & Hfa2 & Hps2 & Hd2 & Hpf2 & Hst2).
  simpl in *. rewrite Hth2, Hth1, Hth0, Hexit. simpl.
  eexists. split; [reflexivity|]. simpl.
  rewrite Ht2, Ht1, Hf1, Ht0. simpl. rewrite no_copy. simpl. rewrite <- !app_assoc. simpl.
  split; [done|]. split; [congruence|]. split; [done|]. split; [done|].
  split; [rewrite Hf2; done|]. rewrite He2. split; [exact He1|exact Hx1].
Qed.

End Steps.
End AsyncEviction.

(** X23.  With asynchronous evictions at most one eviction is in flight.
    For a major fault (no prefetching, no extra copy, every system call
    succeeding) with async_evict set, jm_signal_handler first completes
    the eviction left pending by an earlier fault (waits for it if the
    page was dirty, then removes the page's backing store) and only then
    asks the policy for a victim; it begins the new victim's eviction
    after the fetch of the faulted page has begun, write-protects the
    victim instead of unmapping it, and returns with that eviction
    pending: evict_info holds the victim, or NULL when there is none. *)
Theorem async_eviction_completes_at_the_next_fault {S : Type} (pol : Handler.policy S)
    (g : JUMBOMEM_GLOBALS) (accepts : event -> bool) (p : Handler.pager S)
    (signum si_addr : Z) (prot : option Z) (s1 s2 : S) (r : replacement) :
  (forall e, accepts e = true) -> async_evict g <> 0 -> extra_memcpy g = 0 ->
  prefetch_type g = PREFETCH_NONE ->
  Thread.well_formed (Handler.thread p) -> Thread.cancel_handler (Handler.thread p) <= 0 ->
  0 < pagesize g ->
  let a := Handler.round_to_page g si_addr in
  memregion g <= a < memregion g + extent g ->
  Handler.fault_address p = NULL ->
  Handler.page_is_resident pol g (Handler.policy_state p) a true = Returns (0, prot, s1) ->
  Handler.find_replacement_page pol g s1 a = Returns (r, s2) ->
  (evictable_page r <> NULL -> clean r <> None) ->
  let pending := Handler.evict_info p in
  exists p',
    Handler.jm_signal_handler pol g accepts p signum si_addr = Returns p' /\
    Handler.trace p' = Handler.trace p ++
      [Freeze_other_threads; Policy_is_resident a]
      ++ (if Handler.address pending =? NULL then []
          else (if Handler.extra pending =? 0 then [Evict_end] else [])
               ++ [Remove_backing_store (Handler.address pending) (pagesize g)])
      ++ [Policy_find_replacement a; Assign_backing_store a (pagesize g) Handler.RW;
          Fetch_begin a a]
      ++ (if evictable_page r =? NULL then []
          else (if default 0 (clean r) =? 0
                then [Evict_begin (evictable_page r) (evictable_page r)] else [])
               ++ [Mprotect (evictable_page r) (pagesize g) PROT_READ])
      ++ Fetch_end :: (if newprot r =? Handler.RW then []
                       else [Mprotect a (pagesize g) (newprot r)]) /\
    Handler.policy_state p' = s2 /\
    Handler.fault_address p' = NULL /\
    Handler.address (Handler.fetch_info p') = NULL /\
    Handler.address (Handler.evict_info p') = evictable_page r /\
    (evictable_page r <> NULL ->
     Handler.extra (Handler.evict_info p') = default 0 (clean r)) /\
    Thread.internal_depth (Handler.thread p') = Thread.internal_depth (Handler.thread p) /\
    Thread.megalock (Handler.thread p') = Thread.megalock (Handler.thread p).
Proof.
  intros Hacc Hasync Hcopy Hpf Hwf Hcancel Hps a Hin Hfa Hres Hfind Hclean pending.
  destruct (AsyncEviction.handler_miss_async pol g accepts Hacc Hasync Hcopy p signum si_addr
              prot s1 r s2 Hwf Hcancel Hps Hin Hfa Hpf Hres Hfind Hclean)
    as (p' & Hcall & Htrace & Hst & Hth & Hfa' & Hf' & He' & Hx').
  exists p'. split; [exact Hcall|]. split; [exact Htrace|]. split; [exact Hst|].
  split; [exact Hfa'|]. split; [exact Hf'|]. split; [exact He'|]. split; [exact Hx'|].
  rewrite Hth. simpl. done.
Qed.

Lemma async_eviction_completes_at_the_next_fault_example :
  exists p',
    Handler.jm_signal_handler Handler.fifo_policy AsyncScenario.globals
      Examples.every_call_succeeds AsyncScenario.pager SIGSEGV (Examples.page 3 + 100)
      = Returns p' /\
    Handler.trace p' =
      [Freeze_other_threads; Policy_is_resident (Examples.page 3);
       Evict_end; Remove_backing_store (Examples.page 5) 4096;
       Policy_find_replacement (Examples.page 3);
       Assign_backing_store (Examples.page 3) 4096 3;
       Fetch_begin (Examples.page 3) (Examples.page 3);
       Evict_begin (Examples.page 7) (Examples.page 7);
       Mprotect (Examples.page 7) 4096 PROT_READ; Fetch_end] /\
    Handler.address (Handler.evict_info p') = Examples.page 7.
Proof.
  assert (Hwf : Thread.well_formed Examples.user_thread).
  { split; [simpl; lia|]. split; [discriminate|simpl; lia]. }
  assert (Hin : memregion AsyncScenario.globals
                <= Handler.round_to_page AsyncScenario.globals (Examples.page 3 + 100)
                < memregion AsyncScenario.globals + extent AsyncScenario.globals).
  { split; vm_compute; [discriminate|reflexivity]. }
  destruct (async_eviction_completes_at_the_next_fault Handler.fifo_policy
              AsyncScenario.globals Examples.every_call_succeeds AsyncScenario.pager
              SIGSEGV (Examples.page 3 + 100) None Scenarios.fifo_full
              {| Fifo.used_pages := [3; 9]; Fifo.num_used := 2; Fifo.total_pages := 2;
                 Fifo.next_evict := 1 |}
              {| newprot := 3; evictable_page := Examples.page 7; clean := Some 0 |}
              (fun _ => eq_refl) ltac:(discriminate) eq_refl eq_refl Hwf
              ltac:(vm_compute; discriminate) eq_refl Hin eq_refl eq_refl eq_refl
              ltac:(discriminate))
    as (p' & Hcall & Htrace & _ & _ & _ & Hev & _).
  exists p'. split; [exact Hcall|]. split; [exact Htrace|exact Hev].
Defined.

(** ** The settings read at start-up *)

Module StartupFacts.
Import Startup.

Lemma boolean_values value r :
  jm_getenv_boolean value = Returns r ->
  (r = -1 /\ value = None) \/ ((r = 0 \/ r = 1) /\ value <> None).
Proof.
  destruct value as [[|c rest]|]; unfold jm_getenv_boolean; intros H.
  - inversion H; subst. right. split; [auto|done].
  - destruct (first_char_in true_values c); [inversion H; subst; right; split; [auto|done]|].
    destruct (first_char_in false_values c); [inversion H; subst; right; split; [auto|done]|done].
  - inversion H; subst. left. done.
Qed.

Lemma setting_is_a_flag value r :
  jm_getenv_boolean value = Returns r -> (if r =? -1 then 0 else r) = 0 \/
                                         (if r =? -1 then 0 else r) = 1.
Proof.
  intros H. destruct (boolean_values value r H) as [[-> _]|[[->| ->] _]]; simpl; auto.
Qed.

End StartupFacts.

(** X24.  The boolean and prefetch settings.  jm_getenv_boolean looks at
    the first character only: it yields -1 exactly for an unset variable,
    1 for an empty value or a value that starts with one of 1yYtT, 0 for
    one that starts with one of 0nNfF, and aborts on anything else (so
    on and off abort).  JM_PREFETCH must be exactly none, next or delta.
    After the settings are read async_evict and extra_memcpy are 0 or 1,
    and the prefetch type asked for survives initialization of the NRU
    policy only: FIFO, random and NRE reset it to PREFETCH_NONE. *)
Theorem settings_from_the_environment :
  (forall c rest,
     Startup.jm_getenv_boolean (Some (String c rest)) =
     Startup.jm_getenv_boolean (Some (String c ""))) /\
  (forall value r, Startup.jm_getenv_boolean value = Returns r ->
     (r = -1 <-> value = None) /\ (r = -1 \/ r = 0 \/ r = 1)) /\
  Startup.jm_getenv_boolean (Some "") = Returns 1 /\
  Startup.jm_getenv_boolean (Some "true") = Returns 1 /\
  Startup.jm_getenv_boolean (Some "no") = Returns 0 /\
  aborts (Startup.jm_getenv_boolean (Some "on")) /\
  aborts (Startup.jm_getenv_boolean (Some "off")) /\
  (forall s p, Startup.read_prefetch (Some s) = Returns p ->
     (s = "none" /\ p = PREFETCH_NONE) \/ (s = "next" /\ p = PREFETCH_NEXT) \/
     (s = "delta" /\ p = PREFETCH_DELTA)) /\
  (forall g jm_prefetch jm_asyncevict jm_memcpy g',
     Startup.read_settings g jm_prefetch jm_asyncevict jm_memcpy = Returns g' ->
     (async_evict g' = 0 \/ async_evict g' = 1) /\
     (extra_memcpy g' = 0 \/ extra_memcpy g' = 1) /\
     Startup.read_prefetch jm_prefetch = Returns (prefetch_type g') /\
     (forall st g1, Fifo.jm_initialize_pagereplace g' = Returns (st, g1) ->
        prefetch_type g1 = PREFETCH_NONE) /\
     (forall st g1, Random.jm_initialize_pagereplace g' = Returns (st, g1) ->
        prefetch_type g1 = PREFETCH_NONE) /\
     (forall explicit entries retries junk st g1,
        Nre.jm_initialize_pagereplace g' explicit entries retries junk = Returns (st, g1) ->
        prefetch_type g1 = PREFETCH_NONE) /\
     (forall explicit rw interval now st g1,
        Nru.jm_initialize_pagereplace g' explicit rw interval now = Returns (st, g1) ->
        prefetch_type g1 = prefetch_type g')).
Proof.
  split; [intros c rest; reflexivity|].
  split.
  { intros value r H. destruct (StartupFacts.boolean_values value r H) as [[-> ->]|[Hr Hv]].
    - split; [done|auto].
    - split; [|destruct Hr; auto]. split; [destruct Hr; lia|done]. }
  split; [reflexivity|]. split; [reflexivity|]. split; [reflexivity|].
  split; [eexists; reflexivity|]. split; [eexists; reflexivity|].
  split.
  { intros s p H. unfold Startup.read_prefetch in H.
    destruct (String.eqb_spec s "delta") as [->|_]; [inversion H; auto|].
    destruct (String.eqb_spec s "next") as [->|_]; [inversion H; auto|].
    destruct (String.eqb_spec s "none") as [->|_]; [inversion H; auto|]. discriminate. }
  intros g jm_prefetch jm_asyncevict jm_memcpy g' H.
  unfold Startup.read_settings in H.
  destruct (Startup.read_prefetch jm_prefetch) as [pf| | |] eqn:Epf; simpl in H;
    try discriminate.
  destruct (Startup.jm_getenv_boolean jm_asyncevict) as [a| | |] eqn:Ea; simpl in H;
    try discriminate.
  destruct (Startup.jm_getenv_boolean jm_memcpy) as [c| | |] eqn:Ec; simpl in H;
    try discriminate.
  inversion H; subst; clear H. simpl.
  split; [exact (StartupFacts.setting_is_a_flag _ _ Ea)|].
  split; [exact (StartupFacts.setting_is_a_flag _ _ Ec)|].
  split; [done|].
  split.
  { intros st g1 H. unfold Fifo.jm_initialize_pagereplace in H. returned H. done. }
  split.
  { intros st g1 H. unfold Random.jm_initialize_pagereplace in H. returned H. done. }
  split.
  { intros explicit entries retries junk st g1 H.
    unfold Nre.jm_initialize_pagereplace in H. returned H. done. }
  intros explicit rw interval now st g1 H.
  unfold Nru.jm_initialize_pagereplace in H. returned H. done.
Qed.

Lemma settings_from_the_environment_example :
  exists g',
    Startup.read_settings Examples.globals (Some "next") None (Some "yes") = Returns g' /\
    prefetch_type g' = PREFETCH_NEXT /\ async_evict g' = 0 /\ extra_memcpy g' = 1 /\
    forall st g1, Fifo.jm_initialize_pagereplace g' = Returns (st, g1) ->
                  prefetch_type g1 = PREFETCH_NONE.
Proof.
  assert (H : Startup.read_settings Examples.globals (Some "next") None (Some "yes") =
              Returns {| pagesize := 4096; ospagesize := 4096; memregion := 1048576;
                         extent := 409600; local_pages := 2;
                         prefetch_type := PREFETCH_NEXT; async_evict := 0;
                         extra_memcpy := 1; is_internal := 0 |}) by reflexivity.
  destruct settings_from_the_environment as (_ & _ & _ & _ & _ & _ & _ & _ & Hsettings).
  destruct (Hsettings _ _ _ _ _ H) as (_ & _ & _ & Hfifo & _).
  eexists. split; [exact H|]. split; [reflexivity|]. split; [reflexivity|].
  split; [reflexivity|exact Hfifo].
Defined.

(** X25.  jm_globals.pagesize is a positive multiple of the OS page
    size.  With a positive OS page size: a JM_PAGESIZE that is not a
    multiple of it aborts the start-up and one that is becomes the page
    size; without JM_PAGESIZE the page size is the minimum computed from
    physical memory and the map count, which is a multiple of the OS page
    size and at least one OS page, or the OS page size itself when the
    map count is unknown. *)
Theorem page_size_is_a_multiple_of_the_os_page_size (g : JUMBOMEM_GLOBALS)
    (jm_pagesize : Z) (map_count_file : option (option Z)) (P : Z) :
  0 < ospagesize g < 2 ^ 63 -> 0 <= jm_pagesize -> 0 <= P < 2 ^ 63 ->
  (jm_pagesize <> 0 -> jm_pagesize mod ospagesize g <> 0 ->
   aborts (Startup.choose_page_size g jm_pagesize map_count_file (Returns P))) /\
  (jm_pagesize <> 0 -> jm_pagesize mod ospagesize g = 0 ->
   Startup.choose_page_size g jm_pagesize map_count_file (Returns P) = Returns jm_pagesize) /\
  (jm_pagesize = 0 ->
   Sysinfo.jm_get_maximum_map_count map_count_file < 1 ->
   Startup.choose_page_size g jm_pagesize map_count_file (Returns P) =
     Returns (ospagesize g)) /\
  (jm_pagesize <> 0 \/ 0 <= Sysinfo.jm_get_maximum_map_count map_count_file ->
   forall ps,
     Startup.choose_page_size g jm_pagesize map_count_file (Returns P) = Returns ps ->
     0 < ps /\ ps mod ospagesize g = 0 /\ ospagesize g <= ps).
Proof.
  intros Hos Hj HP. unfold Startup.choose_page_size.
  destruct (Z.eqb_spec jm_pagesize 0) as [Hz|Hnz]; simpl.
  - split; [done|]. split; [done|].
    unfold Sysinfo.jm_get_minimum_jm_page_size. simpl.
    set (n := Sysinfo.jm_get_maximum_map_count map_count_file).
    destruct (Z.ltb_spec n 1) as [Hn|Hn]; simpl.
    + split; [done|]. intros _ ps H. inversion H; subst.
      split; [lia|]. split; [apply Z_mod_same_full|lia].
    + split; [intros _ Hlt; lia|]. intros _ ps H.
      destruct (Z.eqb_spec (ospagesize g) 0); [lia|].
      assert (Hq : 0 <= P / n <= P).
      { split; [apply Z.div_pos; lia|]. apply Z.div_le_upper_bound; nia. }
      rewrite (wrap64_small (P / n + ospagesize g - 1)) in H by lia.
      assert (Hm : 0 <= (P / n + ospagesize g - 1) / ospagesize g * ospagesize g
                   <= P / n + ospagesize g - 1).
      { split; [apply Z.mul_nonneg_nonneg; [apply Z.div_pos|]; lia|].
        rewrite Z.mul_comm. apply Z.mul_div_le. lia. }
      rewrite wrap64_small in H by lia.
      set (size := (P / n + ospagesize g - 1) / ospagesize g * ospagesize g) in *.
      assert (Hmod : size mod ospagesize g = 0) by (subst size; apply Z_mod_mult).
      destruct (Z.ltb_spec size (ospagesize g)) as [Hlt|Hge]; simpl in H.
      * destruct (Z.eqb_spec (ospagesize g) 0); [lia|]. inversion H; subst.
        split; [lia|]. split; [apply Z_mod_same_full|lia].
      * destruct (Z.eqb_spec size 0); [lia|]. inversion H; subst.
        split; [lia|]. split; [done|lia].
  - destruct (Z.eqb_spec (ospagesize g) 0); [lia|].
    destruct (Z.eqb_spec (jm_pagesize mod ospagesize g) 0) as [Hm|Hm]; simpl.
    + split; [done|]. split; [done|]. split; [done|]. intros _ ps H. inversion H; subst.
      assert (ospagesize g <= ps).
      { apply Z.mod_divide in Hm; [|lia]. destruct Hm as [k Hk].
        assert (1 <= k) by (destruct (Z.le_gt_cases 1 k); [done|nia]). nia. }
      split; [lia|]. split; [done|lia].
    + split; [intros; eexists; done|]. split; [done|]. split; [done|]. intros _ ps H. done.
Qed.

Lemma page_size_is_a_multiple_of_the_os_page_size_example :
  Startup.choose_page_size Examples.globals 0 (Some (Some 65530)) (Returns 8589934592)
    = Returns 135168 /\
  135168 mod ospagesize Examples.globals = 0.
Proof.
  assert (H : Startup.choose_page_size Examples.globals 0 (Some (Some 65530))
                (Returns 8589934592) = Returns 135168) by (vm_compute; reflexivity).
  destruct (page_size_is_a_multiple_of_the_os_page_size Examples.globals 0
              (Some (Some 65530)) 8589934592) as (_ & _ & _ & Hmult).
  - split; reflexivity.
  - discriminate.
  - split; [discriminate|reflexivity].
  - destruct (Hmult ltac:(right; discriminate) 135168 H) as (_ & Hmod & _).
    split; [exact H|exact Hmod].
Defined.

(** X26.  The local page count never exceeds the region.  With a
    positive page size compute_local_page_count returns; without
    JM_LOCAL_PAGES the count is the number of pages that fit into the
    master's memory, brought below twice the maximum map count when that
    is known, and cut to extent / pagesize; a count asked for through
    JM_LOCAL_PAGES (of less than 2^64 - 1 bytes in all) is only cut to
    extent / pagesize: it may exceed both
    the master's memory and twice the map count.  In either case the
    cache is no larger than the region. *)
Theorem local_page_count_fits_the_region (g : JUMBOMEM_GLOBALS) (masterbytes : Z)
    (map_count_file : option (option Z)) (requested : Z -> Z) :
  0 < pagesize g -> 0 <= masterbytes < 2 ^ 64 -> 0 <= extent g < 2 ^ 64 ->
  0 <= Sysinfo.jm_get_maximum_map_count map_count_file < 2 ^ 62 ->
  let mm := Sysinfo.jm_get_maximum_map_count map_count_file in
  let fit := masterbytes / pagesize g in
  let most := if (0 <? mm) && (2 * mm <=? fit) then 2 * mm - 1 else fit in
  exists n,
    Startup.compute_local_page_count g masterbytes map_count_file requested = Returns n /\
    (requested most = -1 ->
     n = Z.min most (extent g / pagesize g) /\
     n * pagesize g <= masterbytes /\ (0 < mm -> n < 2 * mm)) /\
    (0 <= requested most -> requested most * pagesize g < 2 ^ 64 - 1 ->
     n = Z.min (requested most) (extent g / pagesize g)) /\
    ((requested most = -1 \/
      0 <= requested most /\ requested most * pagesize g < 2 ^ 64 - 1) ->
     0 <= n /\ n * pagesize g <= extent g).
Proof.
  intros Hps Hmb Hext Hmm mm fit most.
  unfold Startup.compute_local_page_count.
  destruct (Z.eqb_spec (pagesize g) 0) as [|Hps0]; [lia|].
  fold mm. fold fit.
  rewrite (wrap64_small (mm * 2)) by lia.
  assert (Hfit : 0 <= fit /\ fit * pagesize g <= masterbytes).
  { subst fit. split; [apply Z.div_pos; lia|]. rewrite Z.mul_comm. apply Z.mul_div_le. lia. }
  assert (Hmost : (if (0 <? mm) && (mm * 2 <=? fit) then wrap64 (mm * 2 - 1) else fit) = most).
  { subst most. replace (mm * 2) with (2 * mm) by lia.
    destruct ((0 <? mm) && (2 * mm <=? fit)) eqn:E; [|done].
    apply andb_true_iff in E. destruct E as [E1 E2]. apply Z.ltb_lt in E1.
    apply wrap64_small. lia. }
  rewrite Hmost.
  assert (Hm : 0 <= most <= fit /\ (0 < mm -> most < 2 * mm)).
  { subst most. destruct (Z.ltb_spec 0 mm); destruct (Z.leb_spec (2 * mm) fit); simpl; lia. }
  assert (Hcut : forall q, 0 <= q -> q * pagesize g < 2 ^ 64 ->
            exists n, (if extent g <? wrap64 (q * pagesize g)
                       then Returns (extent g / pagesize g) else Returns q) = Returns n /\
                      n = Z.min q (extent g / pagesize g) /\
                      0 <= n /\ n * pagesize g <= extent g).
  { intros q Hq Hlt. rewrite wrap64_small by nia.
    assert (He : 0 <= extent g / pagesize g /\ extent g / pagesize g * pagesize g <= extent g).
    { split; [apply Z.div_pos; lia|]. rewrite Z.mul_comm. apply Z.mul_div_le. lia. }
    destruct (Z.ltb_spec (extent g) (q * pagesize g)) as [Hbig|Hsmall].
    - eexists. split; [reflexivity|].
      assert (extent g / pagesize g <= q).
      { apply Z.div_le_upper_bound; [lia|]. nia. }
      lia.
    - eexists. split; [reflexivity|].
      assert (q <= extent g / pagesize g).
      { apply Z.div_le_lower_bound; [lia|]. nia. }
      lia. }
  destruct (Z.eq_dec (requested most) (-1)) as [Hunset|Hset].
  - rewrite Hunset. change (wrap64 (-1) =? wrap64 (-1)) with true. cbv iota.
    destruct (Hcut most) as (n & Hn & Hmin & Hn0 & Hfits); [lia|nia|].
    exists n. split; [exact Hn|]. split.
    + intros _. split; [done|]. split; [|lia]. nia.
    + split; [lia|]. intros _. done.
  - destruct (Z_lt_le_dec (requested most) 0) as [Hneg|Hnn].
    + (* a negative value other than -1 is read as a huge count *)
      match goal with |- exists n, ?m = Returns n /\ _ =>
        assert (Hret : exists n, m = Returns n) end.
      { destruct (wrap64 (requested most) =? wrap64 (-1));
          [destruct (extent g <? wrap64 (most * pagesize g))
          |destruct (extent g <? wrap64 (wrap64 (requested most) * pagesize g))];
          eexists; reflexivity. }
      destruct Hret as [n Hn]. exists n. split; [exact Hn|].
      split; [lia|]. split; [lia|]. lia.
    + destruct (Z_lt_le_dec (requested most * pagesize g) (2 ^ 64 - 1)) as [Hok|Hover].
      * assert (Hq : requested most < 2 ^ 64) by nia.
        rewrite (wrap64_small (requested most)) by lia.
        assert (Hne : (requested most =? wrap64 (-1)) = false).
        { apply Z.eqb_neq. change (wrap64 (-1)) with (2 ^ 64 - 1). nia. }
        rewrite Hne.
        destruct (Hcut (requested most)) as (n & Hn & Hmin & Hn0 & Hfits); [lia|lia|].
        exists n. split; [exact Hn|]. split; [lia|]. split; [done|]. done.
      * match goal with |- exists n, ?m = Returns n /\ _ =>
          assert (Hret : exists n, m = Returns n) end.
        { destruct (wrap64 (requested most) =? wrap64 (-1));
          [destruct (extent g <? wrap64 (most * pagesize g))
          |destruct (extent g <? wrap64 (wrap64 (requested most) * pagesize g))];
          eexists; reflexivity. }
        destruct Hret as [n Hn]. exists n. split; [exact Hn|].
        split; [lia|]. split; [lia|]. lia.
Qed.

Lemma local_page_count_fits_the_region_example :
  Startup.compute_local_page_count Examples.globals 1073741824 (Some (Some 65530))
    (fun _ => -1) = Returns 100.
Proof.
  destruct (local_page_count_fits_the_region Examples.globals 1073741824
              (Some (Some 65530)) (fun _ => -1)) as (n & Hn & Hunset & _).
  - reflexivity.
  - split; [discriminate|reflexivity].
  - split; [discriminate|reflexivity].
  - split; [discriminate|reflexivity].
  - destruct (Hunset eq_refl) as (-> & _). exact Hn.
Defined.

(** ** NRU: write access and the modified bit *)

Module NruBits.
Import Nru.

Lemma search_found st pn c frame :
  search_chain st pn c = Returns (Some frame) ->
  exists pte, 0 <= frame /\ used_pages st !! Z.to_nat frame = Some pte /\ pagenum pte = pn.
Proof.
  induction c as [|b c IH]; simpl; intros H; [discriminate|].
  unfold bucket_pagenum in H.
  destruct (array_get (used_pages st) b) as [pte| | |] eqn:E; simpl in H; try discriminate.
  destruct (Z.eqb_spec (pagenum pte) pn) as [Heq|Hne].
  - inversion H; subst. apply array_get_Returns in E. destruct E as [H0 Hl].
    exists pte. done.
  - apply IH. exact H.
Qed.

Lemma sort_readwrite st st1 :
  sort_pages_by_class st = Returns st1 -> nru_readwrite st1 = nru_readwrite st.
Proof.
  unfold sort_pages_by_class. intros H.
  destruct (negb (sorted_by_class st =? 0)); [inversion H; done|].
  returned H. done.
Qed.

Lemma delete_readwrite st pn st1 :
  delete_page_by_number st pn = Returns st1 -> nru_readwrite st1 = nru_readwrite st.
Proof.
  unfold delete_page_by_number. intros H.
  destruct (chain st (hash_page_number pn)) as [|first rest]; [discriminate|].
  destruct (dead_bucket st); [discriminate|].
  returned H; done.
Qed.

Lemma install_page_entry g st pframe p ev cl r st' :
  install_page g st pframe p ev cl = Returns (r, st') ->
  used_pages st' !! Z.to_nat pframe =
    Some {| pagenum := wrap32 (GET_PAGE_NUMBER g p); referenced := 1;
            modified := if nru_readwrite st =? 0 then 0 else 1 |}.
Proof.
  unfold install_page. intros H.
  destruct (array_get (used_pages st) pframe) as [old| | |]; simpl in H; try discriminate.
  destruct (array_set (used_pages st) pframe _) as [used1| | |] eqn:E1; simpl in H;
    try discriminate.
  unfold insert_pte, bucket_pagenum in H. simpl in H.
  destruct (array_get used1 pframe) as [e| | |]; simpl in H; try discriminate.
  apply array_set_Returns in E1. destruct E1 as [Hr ->].
  rewrite array_set_in_range in H by (rewrite length_insert; lia). simpl in H.
  inversion H; subst; clear H. simpl.
  rewrite list_lookup_insert_eq by (rewrite length_insert; lia).
  destruct (nru_readwrite st =? 0); done.
Qed.

Lemma find_replacement_entry g st now rnd p r st' :
  jm_find_replacement_page g st now rnd p = Returns (r, st') ->
  newprot r = (if nru_readwrite st =? 0 then PROT_READ else Z.lor PROT_READ PROT_WRITE) /\
  exists frame : nat,
    used_pages st' !! frame =
      Some {| pagenum := wrap32 (GET_PAGE_NUMBER g p); referenced := 1;
              modified := if nru_readwrite st =? 0 then 0 else 1 |}.
Proof.
  unfold jm_find_replacement_page. intros H.
  set (st0 := maybe_clear_reference_bits st now) in *.
  assert (Hrw0 : nru_readwrite st0 = nru_readwrite st).
  { subst st0. unfold maybe_clear_reference_bits.
    destruct (wrap64 (now - prev_rbit_clear_time st) <? nru_interval_ms st); reflexivity. }
  destruct (num_used st0 <? total_pages st0).
  - destruct (array_set (pages_by_class st0) (num_used st0) _) as [bc| | |]; simpl in H;
      try discriminate.
    pose proof (NruFacts.install_page_reply _ _ _ _ _ _ _ _ H) as (_ & _ & Hprot).
    pose proof (install_page_entry _ _ _ _ _ _ _ _ H) as Hentry.
    simpl in Hprot, Hentry. rewrite Hrw0 in Hprot, Hentry.
    split; [rewrite Hprot; destruct (nru_readwrite st =? 0); done|eauto].
  - destruct (array_get (class_size st0) _) as [size| | |]; simpl in H; try discriminate.
    destruct (size =? 0); [discriminate|].
    destruct (frame_at st0 (scale_random rnd size)) as [[frame pte]| | |]; simpl in H;
      try discriminate.
    destruct (negb (NRU_CLASS pte =? _)).
    + destruct (sort_pages_by_class st0) as [st1| | |] eqn:Es; simpl in H; try discriminate.
      destruct (frame_at st1 _) as [[frame1 pte1]| | |]; simpl in H; try discriminate.
      destruct (delete_page_by_number st1 (pagenum pte1)) as [st2| | |] eqn:Ed; simpl in H;
        try discriminate.
      pose proof (NruFacts.install_page_reply _ _ _ _ _ _ _ _ H) as (_ & _ & Hprot).
      pose proof (install_page_entry _ _ _ _ _ _ _ _ H) as Hentry.
      rewrite (delete_readwrite _ _ _ Ed), (sort_readwrite _ _ Es), Hrw0 in Hprot, Hentry.
      split; [rewrite Hprot; destruct (nru_readwrite st =? 0); done|eauto].
    + simpl in H.
      destruct (delete_page_by_number st0 (pagenum pte)) as [st2| | |] eqn:Ed; simpl in H;
        try discriminate.
      pose proof (NruFacts.install_page_reply _ _ _ _ _ _ _ _ H) as (_ & _ & Hprot).
      pose proof (install_page_entry _ _ _ _ _ _ _ _ H) as Hentry.
      rewrite (delete_readwrite _ _ _ Ed), Hrw0 in Hprot, Hentry.
      split; [rewrite Hprot; destruct (nru_readwrite st =? 0); done|eauto].
Qed.

End NruBits.

(** X27.  Under NRU a page is writable only with its modified bit set.
    jm_find_replacement_page maps the faulted page read/write and records
    it modified when JM_NRU_RW is on, and maps it read-only and records
    it unmodified when JM_NRU_RW is off; during warm-up it always
    returns.  jm_page_is_resident, asked on behalf of a fault, answers
    for a resident page with read/write access and in the same step sets
    the referenced and modified bits of the entry that holds the page and
    invalidates the sort; asked without protflags (by the prefetcher) it
    marks nothing.  Apart from that both only clear reference bits. *)
Theorem nru_write_access_sets_the_modified_bit (g : JUMBOMEM_GLOBALS) (st : Nru.state)
    (now : Z) :
  let st0 := Nru.maybe_clear_reference_bits st now in
  (forall a res prot st',
     Nru.jm_page_is_resident g st now a true = Returns (res, prot, st') ->
     (res = 0 /\ prot = None /\ st' = st0) \/
     (res = 1 /\ prot = Some (Z.lor PROT_READ PROT_WRITE) /\
      exists (frame : nat) pte,
        Nru.used_pages st0 !! frame = Some pte /\
        Nru.pagenum pte = wrap32 (GET_PAGE_NUMBER g a) /\
        Nru.used_pages st' =
          <[frame := {| Nru.pagenum := Nru.pagenum pte; Nru.referenced := 1;
                        Nru.modified := 1 |}]> (Nru.used_pages st0) /\
        Nru.sorted_by_class st' = 0 /\ Nru.page_table st' = Nru.page_table st)) /\
  (forall a res prot st',
     Nru.jm_page_is_resident g st now a false = Returns (res, prot, st') ->
     prot = None /\ st' = st0 /\ (res = 0 \/ res = 1)) /\
  (forall rnd p r st',
     Nru.jm_find_replacement_page g st now rnd p = Returns (r, st') ->
     newprot r = (if Nru.nru_readwrite st =? 0 then PROT_READ
                  else Z.lor PROT_READ PROT_WRITE) /\
     exists frame : nat,
       Nru.used_pages st' !! frame =
         Some {| Nru.pagenum := wrap32 (GET_PAGE_NUMBER g p); Nru.referenced := 1;
                 Nru.modified := if Nru.nru_readwrite st =? 0 then 0 else 1 |}) /\
  (forall rnd p, Nru.inv st -> Nru.num_used st < Nru.total_pages st ->
     returns (Nru.jm_find_replacement_page g st now rnd p)).
Proof.
  intros st0. split; [|split; [|split]].
  - intros a res prot st' H. unfold Nru.jm_page_is_resident in H. fold st0 in H.
    unfold Nru.find_page_by_number in H.
    destruct (Nru.search_chain st0 _ _) as [[frame|]| | |] eqn:Es; simpl in H;
      try discriminate.
    + right. destruct (NruBits.search_found _ _ _ _ Es) as (pte & Hf & Hl & Hpn).
      destruct (array_get (Nru.used_pages st0) frame) as [pte'| | |] eqn:Eg; simpl in H;
        try discriminate.
      apply array_get_Returns in Eg. destruct Eg as [_ Hl']. rewrite Hl in Hl'.
      inversion Hl'; subst pte'.
      destruct (array_set (Nru.used_pages st0) frame _) as [used| | |] eqn:Ea; simpl in H;
        try discriminate.
      apply array_set_Returns in Ea. destruct Ea as [_ ->].
      inversion H; subst; clear H. split; [done|]. split; [done|].
      exists (Z.to_nat frame), pte. simpl. split; [done|]. split; [done|]. split; [done|].
      split; [done|]. subst st0. unfold Nru.maybe_clear_reference_bits.
      destruct (wrap64 (now - Nru.prev_rbit_clear_time st) <? Nru.nru_interval_ms st);
        reflexivity.
    + left. inversion H; subst. done.
  - intros a res prot st' H. unfold Nru.jm_page_is_resident in H. fold st0 in H.
    destruct (Nru.find_page_by_number st0 _) as [[frame|]| | |]; simpl in H;
      try discriminate; inversion H; subst; auto.
  - intros rnd p r st' H. exact (NruBits.find_replacement_entry g st now rnd p r st' H).
  - intros rnd p Hinv Hlt.
    destruct (NruReach.nru_fill_step g st now rnd p Hinv Hlt) as (r & st' & H & _).
    eexists. exact H.
Qed.

Lemma nru_write_access_sets_the_modified_bit_example :
  exists st',
    Nru.jm_page_is_resident Examples.globals Examples.nru_stale 1000 (Examples.page 0) true
      = Returns (1, Some 3, st') /\
    Nru.sorted_by_class st' = 0.
Proof.
  assert (H : exists st',
             Nru.jm_page_is_resident Examples.globals Examples.nru_stale 1000
               (Examples.page 0) true = Returns (1, Some 3, st')).
  { eexists. vm_compute. reflexivity. }
  destruct H as [st' H].
  destruct (nru_write_access_sets_the_modified_bit Examples.globals Examples.nru_stale 1000)
    as (Hres & _).
  destruct (Hres _ _ _ _ H) as [(Hc & _)|(_ & _ & frame & pte & _ & _ & _ & Hs & _)];
    [discriminate|].
  exists st'. split; [exact H|exact Hs].
Defined.
